(* ===== verification/_CoqProject ===== *)
-Q . S2P
Prelude.v
Capability.v
Ring.v
Pipe.v
Arrays.v
MemTypes.v
FrameAllocator.v
KernelHeap.v
Message.v
Ipc.v
Time.v
Pressure.v
MemoryManager.v
MemoryObject.v
Task.v
Objects.v
SchedTypes.v
Scheduler.v
SchedInv.v
SchedOps.v
SchedWake.v
SchedProps.v
SchedTime.v
Words.v
Poly1305.v
ChaCha.v
Field25519.v
X25519.v
Scalar25519.v
Sha2.v
Hmac.v
Ed25519.v
SshWire.v
SshPacket.v
SshKex.v
SshCore.v
SshAuth.v
SshChannel.v
SshTransport.v
SshInv.v
SshSafe.v
SshSession.v
SshDeliver.v
SshChannelProps.v
SshAuthProps.v
SshProps.v
SshHandshake.v
UserMessage.v
Firewall.v
FirewallProps.v
FirewallWire.v
FirewallService.v
Accounts.v
AccountInv.v
AccountOps.v
AccountText.v
AccountCodec.v
AccountReload.v
AccountProtocol.v
AccountClient.v
AccountService.v
AccountProps.v
