(* ===== verification/Prelude.v ===== *)
(** * ServiceOS: a verification library

    ServiceOS is an operating system in Rust: a kernel core
    (kernel/core), architecture and platform layers (arch, platform), crates
    shared by the kernel and its services (shared), and user-space services
    (userspace).  This library models the kernel core's capabilities, memory,
    IPC, object, time and task subsystems, the cryptographic crate, the SSH
    crate on top of it, and two parts of user space, the network firewall and
    the account service, and proves what they promise.

    ** How code is modelled

    Each operation of the source is one definition under its own name, in a
    Module named after the type it is a method of.  A method that takes
    [&mut self] returns the new value of its receiver with its result.
    Integers are [Z] in the range of their width; [Words] adds checked and
    wrapping arithmetic at a given width and bytes as [Z] below 256.  A panic
    (a failed check, an index out of range, [expect]) is [None], an error of
    the source an [Err]; a theorem that an operation returns therefore also
    says that it does not panic.  Code outside the modelled files enters as an
    argument: page tables through the class [PageMapper], the object registry
    of IPC through [ChannelKernel], the kernel's hooks through [Hooks] and
    [OomHooks]; each has its laws and an instance that satisfies them.

    Loops over an input are recursive on it.  A loop that is not structural has
    a fuel that a theorem shows to be enough: the length of the input for
    [feed_loop] ([SshSession.feed_loop_ends]: each round that goes on consumes
    bytes), the number of table entries for the allocators, the number of
    bytes left for the block loops of the hashes, the length of the text for the
    writes of [persist_store] ([AccountReload.write_loop_spec]).

    ** The kernel core (kernel/core/src)

    - [Capability] (capability/): rights, capability spaces, transfers between
      spaces with their rollback.  A world of spaces evolves by the operations;
      no sequence of them lets a task hold a right it was not given
      ([authority_confinement]).
    - [Ring], [Pipe] (object/objects.rs): the pipe refines a byte stream.
    - [Arrays], [MemTypes], [FrameAllocator] (memory/phys.rs), [KernelHeap]
      (memory/heap.rs), [MemoryManager] (memory/manager.rs), [Pressure]
      (memory/pressure.rs, oom.rs): the frame allocator hands no frame out
      twice on runs without the merge of [free_merge_double_allocates], a
      finding; heap blocks never overlap; initialisation maps the heap.
    - [Message], [Ipc] (ipc/): queues and the kernel's send and receive with
      capability transfer; a failed send or receive restores what it had moved.
    - [Time] (time/): armed timers and the ready ring.
    - [MemoryObject], [Task], [Objects] (object/, task/objects.rs): memory
      objects over physical memory, tasks and threads, and the registry.
    - [SchedTypes], [Scheduler], [SchedInv], [SchedOps], [SchedWake],
      [SchedProps], [SchedTime] (task/scheduler.rs): a monad over the whole
      system state; every thread is in exactly one place at every step, no
      operation panics, receivers wake in order, deadlines are met.

    ** The cryptographic crate (shared/crypto/src)

    [Words], [Poly1305], [ChaCha], [Field25519], [X25519], [Scalar25519],
    [Sha2], [Hmac], [Ed25519] prove that the limb and word code computes the
    functions of RFC 8439, RFC 7748, RFC 8032, FIPS 180-4, RFC 5869 and
    RFC 8018, written here as short specifications over integers and lists,
    without overflow.  The specifications are taken as what those documents
    define; that the curves form groups is not proved.

    ** The SSH crate (shared/ssh/src)

    - [SshWire] (wire.rs, negotiate.rs, version.rs): readers, writers and their
      round trips by the predicates [reads] and [writes].
    - [SshPacket] (packet.rs, error.rs): the packet codecs, with
      [decode_aead_accepts_exactly_sealed] against the construction [sealed].
    - [SshKex] (kex.rs, hostkey.rs): the messages of the key exchange.
    - [SshCore], [SshAuth], [SshChannel], [SshTransport] (transport.rs, auth.rs,
      channel.rs): the state of a connection and every handler, in a monad with
      state, failure and panic.
    - [SshInv], [SshSafe]: the invariant [wf], the relation [evolves], and that
      every handler runs without a panic on a packet with a payload.
    - [SshSession]: [feed] as the end of its unbounded loop, and sequences of
      the host's operations ([run_session]).
    - [SshDeliver], [SshChannelProps], [SshAuthProps], [SshProps],
      [SshHandshake]: what [feed] makes of each message as an equation; data in
      order between two transports, authentication, type safety and
      termination, and a whole handshake between a client and a server.  The
      handshake takes from the curve that X25519 agrees and that a signature
      verifies; everything else of it is proved.

    ** The firewall (userspace/programs/network-service/src)

    - [UserMessage] (shared/abi/src/core.rs, the first check of channel_send):
      the message record of user programs, and array accesses that panic.
    - [Firewall], [FirewallProps] (firewall.rs): prefixes, address sets, rules,
      decisions and the operations on the table, against the first rule that
      applies and the agreement of leading bits.
    - [FirewallWire] (runtime/src/network.rs, protocol/public.rs): the client's
      requests and the service's handlers.
    - [FirewallService]: from a client's rules to decisions, and the requests
      that the service does not survive or cannot answer.

    ** The account service (userspace/programs/account-service/src)

    - [Accounts], [AccountInv], [AccountOps] (lib.rs): the store, its invariant,
      each operation on every branch, and the stores that sequences of
      operations reach ([history]; [bounded] keeps the 32-bit id counter from
      overflowing).  Kernel entropy is an argument; [entropy_ok] says that it
      fills the salt.
    - [AccountText], [AccountCodec], [AccountReload] (lib.rs, main.rs): the
      saved text both ways.  What the storage service returns is an argument.
      The theorems on restarts take it to be the bytes last written.
    - [AccountProtocol] (protocol.rs), [AccountClient] (shell-service,
      commands/account.rs): the request handlers and the shell's requests.
    - [AccountService], [AccountProps]: panics, logins and password checks end
      to end, who can be logged in, and what survives a restart.

    ** What is not modelled

    Architecture and platform code, drivers and their kernel back ends, system
    call decoding, the program loader, the other user-space services, the build
    tools and tests: machine code, device I/O and generated data make up most
    of them.  Of the account service the exchange with the storage service and
    the main loop are absent, of the network service everything but the
    firewall.
    Locks and per-CPU data are absent: an operation that holds a lock is one
    step.  The manifest names every part. *)

From stdpp Require Import base gmap list fin_maps sorting.
From Stdlib Require Import ZArith Lia.

#[export] Set Default Goal Selector "!".

(** ** Machine integers

    A [u32], [u64] or [usize] of the source is a [Z] kept in the range of its
    width.  All supported targets are 64-bit, so [usize] and [u64] have the
    same range.  The arithmetic the source spells out ([saturating_add],
    [checked_add], ...) takes the maximum of the type as its first argument. *)

#[local] Open Scope Z_scope.

Definition U32_MAX : Z := 4294967295.
Definition U64_MAX : Z := 18446744073709551615.
Definition USIZE_MAX : Z := 18446744073709551615.

Definition saturating_add (max a b : Z) : Z := Z.min max (a + b).
Definition saturating_sub (a b : Z) : Z := Z.max 0 (a - b).
Definition saturating_mul (max a b : Z) : Z := Z.min max (a * b).
Definition checked_add (max a b : Z) : option Z :=
  if a + b <=? max then Some (a + b) else None.
Definition div_ceil (a b : Z) : Z := (a + b - 1) / b.

Definition is_u32 (z : Z) : Prop := 0 <= z <= U32_MAX.
Definition is_u64 (z : Z) : Prop := 0 <= z <= U64_MAX.
Definition is_usize (z : Z) : Prop := 0 <= z <= USIZE_MAX.

(** ** [Result<T, E>] *)

Inductive result (T E : Type) : Type :=
| Ok (t : T)
| Err (e : E).
Arguments Ok {T E} t.
Arguments Err {T E} e.

Definition is_ok {T E : Type} (r : result T E) : bool :=
  match r with Ok _ => true | Err _ => false end.

(** ** Slices

    [slice l a b] is [&l[a..b]] and [copy_into dst off src] is
    [dst[off..off + src.len()].copy_from_slice(src)], both for ranges inside
    the array; the callers' theorems establish that the ranges are. *)

Definition zlen {A : Type} (l : list A) : Z := Z.of_nat (length l).

Definition slice {A : Type} (l : list A) (a b : Z) : list A :=
  take (Z.to_nat (b - a)) (drop (Z.to_nat a) l).

Definition copy_into {A : Type} (dst : list A) (off : Z) (src : list A) : list A :=
  take (Z.to_nat off) dst ++ src ++ drop (Z.to_nat off + length src) dst.

(** ** [BTreeMap] iteration order: ascending keys *)

Definition key_le {A : Type} (p q : Z * A) : Prop := p.1 <= q.1.

#[export] Instance key_le_dec {A : Type} : RelDecision (@key_le A).
Proof. intros p q. unfold key_le. apply _. Defined.

Definition btree_to_list {A : Type} (m : gmap Z A) : list (Z * A) :=
  merge_sort key_le (map_to_list m).

Create HintDb kernel.

Section machine_integers.
Implicit Types a b m : Z.

Lemma checked_add_Some m a b c :
  checked_add m a b = Some c <-> c = a + b /\ a + b <= m.
Proof.
  unfold checked_add. destruct (Z.leb_spec (a + b) m); naive_solver lia.
Qed.

Lemma checked_add_None m a b : checked_add m a b = None <-> m < a + b.
Proof.
  unfold checked_add. destruct (Z.leb_spec (a + b) m); naive_solver lia.
Qed.

End machine_integers.

Section slices.
Context {A : Type}.
Implicit Types l dst src : list A.

Lemma zlen_app (l k : list A) : zlen (l ++ k) = zlen l + zlen k.
Proof. unfold zlen. rewrite length_app. lia. Qed.

Lemma zlen_cons (x : A) (l : list A) : zlen (x :: l) = 1 + zlen l.
Proof. unfold zlen. simpl. lia. Qed.

Lemma zlen_insert (l : list A) i x : zlen (<[i := x]> l) = zlen l.
Proof. unfold zlen. by rewrite length_insert. Qed.

Lemma zlen_nonneg l : 0 <= zlen l.
Proof. unfold zlen. lia. Qed.

Lemma length_slice l a b :
  0 <= a <= b -> b <= zlen l -> zlen (slice l a b) = b - a.
Proof. intros. unfold slice, zlen in *. rewrite length_take, length_drop. lia. Qed.

Lemma slice_full l : slice l 0 (zlen l) = l.
Proof. unfold slice, zlen. rewrite Z.sub_0_r, Nat2Z.id. simpl. apply firstn_all. Qed.

Lemma slice_app l a b c :
  0 <= a <= b -> b <= c -> slice l a b ++ slice l b c = slice l a c.
Proof.
  intros. unfold slice.
  replace (Z.to_nat (c - a)) with (Z.to_nat (b - a) + Z.to_nat (c - b))%nat by lia.
  rewrite <- take_take_drop, drop_drop. do 3 f_equal. lia.
Qed.

Lemma zlen_copy_into dst off src :
  0 <= off -> off + zlen src <= zlen dst -> zlen (copy_into dst off src) = zlen dst.
Proof.
  intros. unfold copy_into, zlen in *.
  rewrite !length_app, length_take, length_drop. lia.
Qed.

Lemma copy_into_lookup `{Inhabited A} dst off src i :
  0 <= off -> off + zlen src <= zlen dst -> 0 <= i ->
  copy_into dst off src !!! Z.to_nat i =
  if (off <=? i) && (i <? off + zlen src) then src !!! Z.to_nat (i - off)
  else dst !!! Z.to_nat i.
Proof.
  intros Hoff Hle Hi. unfold copy_into, zlen in *.
  destruct (Z.leb_spec off i); simpl.
  - rewrite lookup_total_app_r by (rewrite length_take; lia). rewrite length_take.
    destruct (Z.ltb_spec i (off + Z.of_nat (length src))).
    + rewrite lookup_total_app_l by lia. f_equal. lia.
    + rewrite lookup_total_app_r by lia. rewrite lookup_total_drop. f_equal. lia.
  - rewrite lookup_total_app_l by (rewrite length_take; lia).
    apply lookup_total_take_lt. lia.
Qed.

Lemma list_eq_zlen `{Inhabited A} (l k : list A) :
  zlen l = zlen k ->
  (forall i, 0 <= i < zlen l -> l !!! Z.to_nat i = k !!! Z.to_nat i) -> l = k.
Proof.
  unfold zlen. intros Hlen Hi. apply list_eq_same_length with (length l); [lia|done|].
  intros i x y Hlt Hx Hy. specialize (Hi (Z.of_nat i) ltac:(lia)). rewrite Nat2Z.id in Hi.
  apply list_lookup_total_correct in Hx, Hy. congruence.
Qed.

Lemma copy_into_app `{Inhabited A} dst off (src1 src2 : list A) :
  0 <= off -> off + zlen src1 + zlen src2 <= zlen dst ->
  copy_into (copy_into dst off src1) (off + zlen src1) src2 = copy_into dst off (src1 ++ src2).
Proof.
  intros Hoff Hle. pose proof (zlen_nonneg src1). pose proof (zlen_nonneg src2).
  assert (zlen (copy_into dst off src1) = zlen dst) as Hlen1 by (apply zlen_copy_into; lia).
  apply list_eq_zlen.
  { rewrite !zlen_copy_into; rewrite ?zlen_app, ?Hlen1; lia. }
  rewrite zlen_copy_into by (rewrite ?Hlen1; lia). rewrite Hlen1. intros i Hi.
  rewrite !copy_into_lookup by (rewrite ?zlen_app, ?Hlen1; lia). rewrite zlen_app.
  destruct (Z.leb_spec off i), (Z.ltb_spec i (off + zlen src1));
    destruct (Z.leb_spec (off + zlen src1) i), (Z.ltb_spec i (off + zlen src1 + zlen src2));
    destruct (Z.ltb_spec i (off + (zlen src1 + zlen src2))); simpl; try lia; try done.
  - rewrite lookup_total_app_l; [done|]. unfold zlen in *. lia.
  - rewrite lookup_total_app_r by (unfold zlen in *; lia). f_equal. unfold zlen in *. lia.
Qed.

End slices.

(** Case split on the outermost boolean comparison of a goal or hypothesis,
    leaving the arithmetic facts to [lia]. *)
Ltac zcases :=
  repeat match goal with
  | |- context [ ?a <=? ?b ] => destruct (Z.leb_spec a b)
  | |- context [ ?a <? ?b ] => destruct (Z.ltb_spec a b)
  | |- context [ ?a =? ?b ] => destruct (Z.eqb_spec a b)
  | H : context [ ?a <=? ?b ] |- _ => destruct (Z.leb_spec a b)
  | H : context [ ?a <? ?b ] |- _ => destruct (Z.ltb_spec a b)
  | H : context [ ?a =? ?b ] |- _ => destruct (Z.eqb_spec a b)
  end.
