(* ===== verification/Capability.v ===== *)
(** * Capabilities: rights, capability spaces and transfers

    Models [kernel/core/src/capability/{types,space}.rs].  A
    [KernelObjectRef] (an [Arc] to a kernel object) is represented by the
    object's identifier, so [entry.object.id()] is the reference itself; the
    objects behind the references live in the object heap of [Objects].  Every
    method of [CapabilitySpace] takes the space's lock for its whole body and
    is one atomic function here, from the state to the result and the new
    state. *)

From S2P Require Import Prelude.
From stdpp Require Import base gmap list fin_maps relations sorting.
From Stdlib Require Import ZArith Lia.
#[local] Open Scope Z_scope.

(** ** [CapabilityRights]: a 64-bit mask *)

Module CapabilityRights.

Definition NONE : Z := 0.
Definition READ : Z := Z.shiftl 1 0.
Definition WRITE : Z := Z.shiftl 1 1.
Definition MAP : Z := Z.shiftl 1 2.
Definition SIGNAL : Z := Z.shiftl 1 3.
Definition WAIT : Z := Z.shiftl 1 4.
Definition SEND : Z := Z.shiftl 1 5.
Definition RECEIVE : Z := Z.shiftl 1 6.
Definition DUPLICATE : Z := Z.shiftl 1 7.
Definition TRANSFER : Z := Z.shiftl 1 8.
Definition MANAGE : Z := Z.shiftl 1 9.

Definition union (self other : Z) : Z := Z.lor self other.
Definition contains (self other : Z) : bool := Z.land self other =? other.
Definition intersect (self other : Z) : Z := Z.land self other.
(** [!other] on a [u64] flips the low 64 bits. *)
Definition without (self other : Z) : Z := Z.land self (Z.lxor other U64_MAX).

Definition channel_endpoint : Z :=
  union (union (union (union (union (union READ WRITE) WAIT) SEND) RECEIVE) DUPLICATE)
    TRANSFER.
Definition task : Z :=
  union (union (union (union (union READ WRITE) WAIT) MANAGE) DUPLICATE) TRANSFER.
Definition thread : Z :=
  union (union (union (union (union READ WRITE) MANAGE) WAIT) DUPLICATE) TRANSFER.
Definition memory_object : Z :=
  union (union (union (union READ WRITE) MAP) DUPLICATE) TRANSFER.
Definition timer : Z :=
  union (union (union (union READ WRITE) WAIT) DUPLICATE) TRANSFER.
Definition event : Z :=
  union (union (union (union READ SIGNAL) WAIT) DUPLICATE) TRANSFER.
Definition bootstrap : Z := MANAGE.
Definition packet_interface : Z :=
  union (union (union (union READ WRITE) WAIT) DUPLICATE) TRANSFER.
Definition display_output : Z := union (union (union READ WRITE) DUPLICATE) TRANSFER.
Definition input_source : Z := union (union (union READ WAIT) DUPLICATE) TRANSFER.
Definition audio_endpoint : Z := union (union (union READ WRITE) DUPLICATE) TRANSFER.
Definition block_device : Z := union (union (union READ WRITE) DUPLICATE) TRANSFER.

(** Containment is inclusion of the sets of bits. *)
Lemma contains_bits a b :
  contains a b = true <-> forall i, Z.testbit b i = true -> Z.testbit a i = true.
Proof.
  unfold contains. rewrite Z.eqb_eq. split.
  - intros Heq i Hi. rewrite <- Heq, Z.land_spec in Hi.
    by destruct (Z.testbit a i).
  - intros Hsub. apply Z.bits_inj'. intros i _. rewrite Z.land_spec.
    specialize (Hsub i). destruct (Z.testbit b i).
    + by rewrite Hsub.
    + apply andb_false_r.
Qed.

Lemma contains_refl a : contains a a = true.
Proof. apply contains_bits; auto. Qed.

Lemma contains_trans a b c :
  contains a b = true -> contains b c = true -> contains a c = true.
Proof. rewrite !contains_bits. auto. Qed.

Lemma contains_union_l a b : contains (union a b) a = true.
Proof.
  apply contains_bits. intros i Hi. unfold union.
  by rewrite Z.lor_spec, Hi.
Qed.

(** [without] removes exactly the bits of its argument. *)
Lemma without_bits a b i :
  is_u64 a -> Z.testbit (without a b) i = Z.testbit a i && negb (Z.testbit b i).
Proof.
  intros Ha. unfold without. rewrite Z.land_spec, Z.lxor_spec.
  destruct (Z.ltb_spec i 0) as [Hneg|Hnn].
  { by rewrite !(Z.testbit_neg_r _ _ Hneg). }
  destruct (Z.ltb_spec i 64) as [Hlt|Hge].
  - replace U64_MAX with (Z.ones 64) by reflexivity.
    by rewrite Z.ones_spec_low, xorb_true_r by lia.
  - assert (Z.testbit a i = false) as ->; [|done].
    destruct Ha as [Ha0 Ha1]. destruct (Z.eq_dec a 0) as [->|Hnz].
    { apply Z.testbit_0_l. }
    apply Z.bits_above_log2; [lia|].
    apply Z.log2_lt_pow2; [lia|].
    apply Z.lt_le_trans with (2 ^ 64); [change (2 ^ 64) with (U64_MAX + 1); lia|].
    apply Z.pow_le_mono_r; lia.
Qed.

End CapabilityRights.

(** ** Capability spaces *)

Inductive TransferMode : Type := Move | Copy.

Inductive CapabilityError : Type :=
| InvalidHandle
| HandleSpaceExhausted
| RightsViolation (required actual : Z)
| RequestedRightsExceedSource
| DuplicateForbidden
| TransferForbidden.

#[export] Instance TransferMode_eq_dec : EqDecision TransferMode.
Proof. solve_decision. Defined.
#[export] Instance CapabilityError_eq_dec : EqDecision CapabilityError.
Proof. solve_decision. Defined.

Record CapabilityDescriptor : Type := {
  cd_handle : Z;
  cd_object : Z;
  cd_rights : Z;
  cd_badge : option Z;
}.

Record CapabilityView : Type := {
  cv_handle : Z;
  cv_object : Z;
  cv_rights : Z;
  cv_badge : option Z;
}.

Record PreparedTransfer : Type := {
  pt_object : Z;
  pt_rights : Z;
  pt_badge : option Z;
  moved_source : option Z;
  moved_source_rights : option Z;
  moved_source_badge : option (option Z);
}.

Record CapabilityEntry : Type := {
  ce_object : Z;
  ce_rights : Z;
  ce_badge : option Z;
}.

Record CapabilitySpaceState : Type := {
  next_handle : Z;
  entries : gmap Z CapabilityEntry;
}.

#[export] Instance CapabilityEntry_eq_dec : EqDecision CapabilityEntry.
Proof. solve_decision. Defined.
#[export] Instance PreparedTransfer_eq_dec : EqDecision PreparedTransfer.
Proof. solve_decision. Defined.

(** [PreparedTransfer::descriptor]. *)
Definition transfer_descriptor (t : PreparedTransfer) (handle : Z) : CapabilityDescriptor :=
  {| cd_handle := handle; cd_object := pt_object t; cd_rights := pt_rights t;
     cd_badge := pt_badge t |}.

Definition entry_descriptor (handle : Z) (e : CapabilityEntry) : CapabilityDescriptor :=
  {| cd_handle := handle; cd_object := ce_object e; cd_rights := ce_rights e;
     cd_badge := ce_badge e |}.

Module CapabilitySpace.

Abbreviation State := CapabilitySpaceState.

Definition new : State := {| next_handle := 1; entries := ∅ |}.

Definition allocate_handle (s : State) : result Z CapabilityError * State :=
  match checked_add U32_MAX (next_handle s) 1 with
  | Some n => (Ok (next_handle s), {| next_handle := n; entries := entries s |})
  | None => (Err HandleSpaceExhausted, s)
  end.

Definition insert_entry (s : State) (h : Z) (e : CapabilityEntry) : State :=
  {| next_handle := next_handle s; entries := <[h := e]> (entries s) |}.

Definition remove_entry (s : State) (h : Z) : State :=
  {| next_handle := next_handle s; entries := delete h (entries s) |}.

Definition install (s : State) (object rights : Z) (badge : option Z)
    : result Z CapabilityError * State :=
  match allocate_handle s with
  | (Ok handle, s1) =>
      (Ok handle,
       insert_entry s1 handle {| ce_object := object; ce_rights := rights; ce_badge := badge |})
  | (Err e, s1) => (Err e, s1)
  end.

Definition resolve (s : State) (handle required : Z)
    : result CapabilityView CapabilityError :=
  match entries s !! handle with
  | None => Err InvalidHandle
  | Some entry =>
      if negb (CapabilityRights.contains (ce_rights entry) required) then
        Err (RightsViolation required (ce_rights entry))
      else
        Ok {| cv_handle := handle; cv_object := ce_object entry;
              cv_rights := ce_rights entry; cv_badge := ce_badge entry |}
  end.

Definition duplicate (s : State) (source requested : Z) (badge_override : option (option Z))
    : result Z CapabilityError * State :=
  match entries s !! source with
  | None => (Err InvalidHandle, s)
  | Some entry =>
      if negb (CapabilityRights.contains (ce_rights entry) CapabilityRights.DUPLICATE) then
        (Err DuplicateForbidden, s)
      else if negb (CapabilityRights.contains (ce_rights entry) requested) then
        (Err RequestedRightsExceedSource, s)
      else
        match allocate_handle s with
        | (Ok handle, s1) =>
            (Ok handle,
             insert_entry s1 handle
               {| ce_object := ce_object entry; ce_rights := requested;
                  ce_badge := default (ce_badge entry) badge_override |})
        | (Err e, s1) => (Err e, s1)
        end
  end.

Definition prepare_transfer (s : State) (handle requested : Z) (mode : TransferMode)
    : result PreparedTransfer CapabilityError * State :=
  match entries s !! handle with
  | None => (Err InvalidHandle, s)
  | Some entry =>
      if negb (CapabilityRights.contains (ce_rights entry) CapabilityRights.TRANSFER) then
        (Err TransferForbidden, s)
      else if bool_decide (mode = Copy)
              && negb (CapabilityRights.contains (ce_rights entry) CapabilityRights.DUPLICATE)
      then (Err DuplicateForbidden, s)
      else if negb (CapabilityRights.contains (ce_rights entry) requested) then
        (Err RequestedRightsExceedSource, s)
      else
        let s1 := if bool_decide (mode = Move) then remove_entry s handle else s in
        (Ok {| pt_object := ce_object entry;
               pt_rights := requested;
               pt_badge := ce_badge entry;
               moved_source := if bool_decide (mode = Move) then Some handle else None;
               moved_source_rights :=
                 if bool_decide (mode = Move) then Some (ce_rights entry) else None;
               moved_source_badge :=
                 if bool_decide (mode = Move) then Some (ce_badge entry) else None |},
         s1)
  end.

Definition rollback_moved (s : State) (transfer : PreparedTransfer) : bool * State :=
  match moved_source transfer with
  | None => (false, s)
  | Some source =>
      match moved_source_rights transfer with
      | None => (false, s)
      | Some rights =>
          if bool_decide (is_Some (entries s !! source)) then (false, s)
          else
            (true,
             insert_entry s source
               {| ce_object := pt_object transfer; ce_rights := rights;
                  ce_badge := default (pt_badge transfer) (moved_source_badge transfer) |})
      end
  end.

Definition accept_transfer (s : State) (transfer : PreparedTransfer)
    : result Z CapabilityError * State :=
  install s (pt_object transfer) (pt_rights transfer) (pt_badge transfer).

Definition close (s : State) (handle : Z)
    : result CapabilityDescriptor CapabilityError * State :=
  match entries s !! handle with
  | None => (Err InvalidHandle, s)
  | Some entry => (Ok (entry_descriptor handle entry), remove_entry s handle)
  end.

Definition handle_count (s : State) : nat := size (entries s).

(** A [BTreeMap] iterates in ascending key order. *)
Definition list (s : State) : list CapabilityDescriptor :=
  (fun p => entry_descriptor p.1 p.2) <$> btree_to_list (entries s).

Definition resolve_descriptor (s : State) (handle : Z) : option CapabilityDescriptor :=
  entry_descriptor handle <$> entries s !! handle.

End CapabilitySpace.

(** ** Well-formed spaces

    Handle [0] is never issued, every handle in use was issued, and the next
    handle fits a [u32]. *)

Definition space_wf (s : CapabilitySpaceState) : Prop :=
  1 <= next_handle s <= U32_MAX /\
  forall h e, entries s !! h = Some e -> 1 <= h < next_handle s.

Lemma space_new_wf : space_wf CapabilitySpace.new.
Proof. split; [unfold U32_MAX; simpl; lia|]. intros h e He. simpl in He. by rewrite lookup_empty in He. Qed.

Lemma allocate_handle_cases s :
  (next_handle s < U32_MAX /\
   CapabilitySpace.allocate_handle s =
     (Ok (next_handle s), {| next_handle := next_handle s + 1; entries := entries s |})) \/
  (U32_MAX <= next_handle s /\
   CapabilitySpace.allocate_handle s = (Err HandleSpaceExhausted, s)).
Proof.
  unfold CapabilitySpace.allocate_handle.
  destruct (checked_add U32_MAX (next_handle s) 1) as [n|] eqn:E.
  - apply checked_add_Some in E as [-> ?]. left; split; [lia|done].
  - apply checked_add_None in E. right; split; [lia|done].
Qed.

Lemma install_cases s object rights badge :
  (next_handle s < U32_MAX /\
   CapabilitySpace.install s object rights badge =
     (Ok (next_handle s),
      {| next_handle := next_handle s + 1;
         entries := <[next_handle s := {| ce_object := object; ce_rights := rights;
                                          ce_badge := badge |}]> (entries s) |})) \/
  (U32_MAX <= next_handle s /\
   CapabilitySpace.install s object rights badge = (Err HandleSpaceExhausted, s)).
Proof.
  unfold CapabilitySpace.install.
  destruct (allocate_handle_cases s) as [[? ->]|[? ->]]; naive_solver.
Qed.

(** The effect of [duplicate] on the space: nothing, or one new entry derived
    from the source entry, under the fresh handle. *)
Lemma duplicate_cases s source requested override r s' :
  CapabilitySpace.duplicate s source requested override = (r, s') ->
  (s' = s /\ is_ok r = false) \/
  (exists e, entries s !! source = Some e /\
     r = Ok (next_handle s) /\
     next_handle s < U32_MAX /\
     CapabilityRights.contains (ce_rights e) CapabilityRights.DUPLICATE = true /\
     CapabilityRights.contains (ce_rights e) requested = true /\
     s' = {| next_handle := next_handle s + 1;
             entries := <[next_handle s :=
               {| ce_object := ce_object e; ce_rights := requested;
                  ce_badge := default (ce_badge e) override |}]> (entries s) |}).
Proof.
  unfold CapabilitySpace.duplicate. intros H.
  destruct (entries s !! source) as [e|] eqn:He; [|naive_solver].
  destruct (CapabilityRights.contains (ce_rights e) CapabilityRights.DUPLICATE) eqn:Hd;
    simpl in H; [|naive_solver].
  destruct (CapabilityRights.contains (ce_rights e) requested) eqn:Hr;
    simpl in H; [|naive_solver].
  destruct (allocate_handle_cases s) as [[? Ha]|[? Ha]]; rewrite Ha in H;
    [right|left]; naive_solver.
Qed.

Lemma prepare_cases s handle requested mode r s' :
  CapabilitySpace.prepare_transfer s handle requested mode = (r, s') ->
  (s' = s /\ is_ok r = false) \/
  (exists e t, entries s !! handle = Some e /\ r = Ok t /\
     CapabilityRights.contains (ce_rights e) CapabilityRights.TRANSFER = true /\
     (mode = Copy ->
        CapabilityRights.contains (ce_rights e) CapabilityRights.DUPLICATE = true) /\
     CapabilityRights.contains (ce_rights e) requested = true /\
     pt_object t = ce_object e /\ pt_rights t = requested /\ pt_badge t = ce_badge e /\
     match mode with
     | Move => s' = CapabilitySpace.remove_entry s handle /\
               moved_source t = Some handle /\
               moved_source_rights t = Some (ce_rights e) /\
               moved_source_badge t = Some (ce_badge e)
     | Copy => s' = s /\ moved_source t = None /\
               moved_source_rights t = None /\ moved_source_badge t = None
     end).
Proof.
  unfold CapabilitySpace.prepare_transfer. intros H.
  destruct (entries s !! handle) as [e|] eqn:He; [|naive_solver].
  destruct (CapabilityRights.contains (ce_rights e) CapabilityRights.TRANSFER) eqn:Ht;
    simpl in H; [|naive_solver].
  destruct (bool_decide (mode = Copy) &&
            negb (CapabilityRights.contains (ce_rights e) CapabilityRights.DUPLICATE)) eqn:Hd;
    simpl in H; [naive_solver|].
  destruct (CapabilityRights.contains (ce_rights e) requested) eqn:Hr;
    simpl in H; [|naive_solver].
  injection H as <- <-. right. eexists e, _. split_and!; try done.
  - intros ->. rewrite bool_decide_eq_true_2 in Hd by done. simpl in Hd.
    by apply negb_false_iff.
  - by destruct mode.
Qed.

Lemma rollback_cases s t b s' :
  CapabilitySpace.rollback_moved s t = (b, s') ->
  (b = false /\ s' = s) \/
  (exists h rights, b = true /\ moved_source t = Some h /\
     moved_source_rights t = Some rights /\ entries s !! h = None /\
     s' = CapabilitySpace.insert_entry s h
            {| ce_object := pt_object t; ce_rights := rights;
               ce_badge := default (pt_badge t) (moved_source_badge t) |}).
Proof.
  unfold CapabilitySpace.rollback_moved. intros H.
  destruct (moved_source t) as [h|]; [|naive_solver].
  destruct (moved_source_rights t) as [rights|]; [|naive_solver].
  case_bool_decide as Hin; [naive_solver|].
  right. exists h, rights. rewrite <- eq_None_not_Some in Hin. naive_solver.
Qed.

Lemma close_cases s h r s' :
  CapabilitySpace.close s h = (r, s') ->
  (r = Err InvalidHandle /\ s' = s /\ entries s !! h = None) \/
  (exists e, entries s !! h = Some e /\ r = Ok (entry_descriptor h e) /\
     s' = CapabilitySpace.remove_entry s h).
Proof. unfold CapabilitySpace.close. destruct (entries s !! h); naive_solver. Qed.

(** ** Systems of spaces

    Tasks own capability spaces and exchange prepared transfers.  A prepared
    transfer is tagged with the space it was prepared from; it can be cloned
    (so accepting it does not consume it), dropped, accepted by any space, and
    rolled back in the space it came from. *)

Record World : Type := {
  spaces : gmap nat CapabilitySpaceState;
  inflight : list (nat * PreparedTransfer);
}.

Definition set_space (w : World) (i : nat) (s : CapabilitySpaceState) : World :=
  {| spaces := <[i := s]> (spaces w); inflight := inflight w |}.

(** Steps that derive authority from authority already present. *)
Inductive derive_step (w : World) : World -> Prop :=
| D_duplicate i s source requested override :
    spaces w !! i = Some s ->
    derive_step w (set_space w i (CapabilitySpace.duplicate s source requested override).2)
| D_prepare i s handle requested mode t s' :
    spaces w !! i = Some s ->
    CapabilitySpace.prepare_transfer s handle requested mode = (Ok t, s') ->
    derive_step w {| spaces := <[i := s']> (spaces w); inflight := (i, t) :: inflight w |}
| D_accept j s o t :
    spaces w !! j = Some s -> (o, t) ∈ inflight w ->
    derive_step w (set_space w j (CapabilitySpace.accept_transfer s t).2)
| D_rollback i s t :
    spaces w !! i = Some s -> (i, t) ∈ inflight w ->
    derive_step w (set_space w i (CapabilitySpace.rollback_moved s t).2)
| D_close i s handle :
    spaces w !! i = Some s ->
    derive_step w (set_space w i (CapabilitySpace.close s handle).2)
| D_drop ts :
    ts ⊆ inflight w ->
    derive_step w {| spaces := spaces w; inflight := ts |}.

(** The kernel itself may also install a capability to an object it created. *)
Inductive space_step (w : World) : World -> Prop :=
| S_derive w' : derive_step w w' -> space_step w w'
| S_install i s object rights badge :
    spaces w !! i = Some s ->
    space_step w (set_space w i (CapabilitySpace.install s object rights badge).2).

(** [holds w o r]: some entry or in-flight transfer of [w] carries rights [r]
    to object [o]. *)
Definition transfer_rights (t : PreparedTransfer) (r : Z) : Prop :=
  pt_rights t = r \/ moved_source_rights t = Some r.

Inductive holds (w : World) (o r : Z) : Prop :=
| holds_entry i s h e :
    spaces w !! i = Some s -> entries s !! h = Some e ->
    ce_object e = o -> ce_rights e = r -> holds w o r
| holds_transfer i t :
    (i, t) ∈ inflight w -> pt_object t = o -> transfer_rights t r -> holds w o r.

Definition derives (w w' : World) : Prop :=
  forall o r, holds w' o r ->
    exists r0, holds w o r0 /\ CapabilityRights.contains r0 r = true.

#[export] Instance derives_preorder : PreOrder derives.
Proof.
  split.
  - intros w o r Hr. exists r. split; [done|]. apply CapabilityRights.contains_refl.
  - intros w1 w2 w3 H12 H23 o r Hr.
    destruct (H23 _ _ Hr) as (r2 & Hr2 & Hc2). destruct (H12 _ _ Hr2) as (r1 & Hr1 & Hc1).
    exists r1. split; [done|]. by eapply CapabilityRights.contains_trans.
Qed.

(** A space update derives no authority when each entry it adds is covered. *)
Lemma set_space_derives w i s s' :
  spaces w !! i = Some s ->
  (forall h e, entries s' !! h = Some e ->
     entries s !! h = Some e \/
     exists r0, holds w (ce_object e) r0 /\
                CapabilityRights.contains r0 (ce_rights e) = true) ->
  derives w (set_space w i s').
Proof.
  intros Hs Hnew o r Hr. destruct Hr as [j sj h e Hj He <- <-|j t Ht <- Hr].
  - simpl in Hj. rewrite lookup_insert in Hj. case_decide; simplify_eq.
    + destruct (Hnew _ _ He) as [Hold|?]; [|done].
      exists (ce_rights e). split; [by econstructor|]. apply CapabilityRights.contains_refl.
    + exists (ce_rights e). split; [by econstructor|]. apply CapabilityRights.contains_refl.
  - exists r. split; [|apply CapabilityRights.contains_refl].
    eapply holds_transfer; [exact Ht|done|done].
Qed.

Lemma accept_cases s t r s' :
  CapabilitySpace.accept_transfer s t = (r, s') ->
  (r = Err HandleSpaceExhausted /\ s' = s /\ U32_MAX <= next_handle s) \/
  (r = Ok (next_handle s) /\ next_handle s < U32_MAX /\
   s' = {| next_handle := next_handle s + 1;
           entries := <[next_handle s :=
             {| ce_object := pt_object t; ce_rights := pt_rights t;
                ce_badge := pt_badge t |}]> (entries s) |}).
Proof.
  unfold CapabilitySpace.accept_transfer.
  destruct (install_cases s (pt_object t) (pt_rights t) (pt_badge t)) as [[? ->]|[? ->]];
    naive_solver.
Qed.

Lemma prepare_derives w i s handle requested mode t s' :
  spaces w !! i = Some s ->
  CapabilitySpace.prepare_transfer s handle requested mode = (Ok t, s') ->
  derives w {| spaces := <[i := s']> (spaces w); inflight := (i, t) :: inflight w |}.
Proof.
  intros Hs Hp.
  apply prepare_cases in Hp as [[_ Hp]|Hp]; [done|].
  destruct Hp as (e & t0 & He & [= <-] & _ & _ & Hc & Hob & Hr & _ & Hmode).
  assert (entries s' ⊆ entries s) as Hsub.
  { destruct mode; destruct Hmode as (-> & _); [|done]. apply delete_subseteq. }
  intros o r Hh. destruct Hh as [k sk h e' Hk He' <- <-|k t' Ht' <- Hr'].
  - simpl in Hk. rewrite lookup_insert in Hk. case_decide; simplify_eq;
      (exists (ce_rights e'); split; [|apply CapabilityRights.contains_refl]).
    + eapply holds_entry; [exact Hs|by eapply lookup_weaken|done|done].
    + by econstructor.
  - simpl in Ht'. apply elem_of_cons in Ht' as [[= -> ->]|Ht'].
    + exists (ce_rights e). split; [by econstructor|].
      destruct Hr' as [<-|Hr']; [by rewrite Hr|].
      destruct mode; destruct Hmode as (_ & _ & Hmr & _); simplify_eq.
      apply CapabilityRights.contains_refl.
    + exists r. split; [by eapply holds_transfer|apply CapabilityRights.contains_refl].
Qed.

Lemma derive_step_derives w w' : derive_step w w' -> derives w w'.
Proof.
  intros [i s source requested override Hs|i s handle requested mode t s' Hs Hp
         |j s o t Hs Ht|i s t Hs Ht|i s handle Hs|ts Hts].
  - destruct (CapabilitySpace.duplicate s source requested override) as [r s'] eqn:E.
    apply set_space_derives with s; [done|]. intros h e He. simpl in He.
    apply duplicate_cases in E as [[-> _]|(e0 & He0 & _ & _ & _ & Hc & ->)]; [by left|].
    simpl in He. rewrite lookup_insert in He. case_decide; simplify_eq; [|by left].
    right. exists (ce_rights e0). split; [by econstructor|done].
  - by eapply prepare_derives.
  - destruct (CapabilitySpace.accept_transfer s t) as [r s'] eqn:E.
    apply set_space_derives with s; [done|]. intros h e He. simpl in He.
    apply accept_cases in E as [(_ & -> & _)|(_ & _ & ->)]; [by left|].
    simpl in He. rewrite lookup_insert in He. case_decide; simplify_eq; [|by left].
    right. exists (pt_rights t). split; [|apply CapabilityRights.contains_refl].
    eapply holds_transfer; [exact Ht|done|by left].
  - destruct (CapabilitySpace.rollback_moved s t) as [b s'] eqn:E.
    apply set_space_derives with s; [done|]. intros h e He. simpl in He.
    apply rollback_cases in E as [[_ ->]|(h0 & r0 & _ & _ & Hmr & _ & ->)]; [by left|].
    simpl in He. rewrite lookup_insert in He. case_decide; simplify_eq; [|by left].
    right. exists r0. split; [|apply CapabilityRights.contains_refl].
    eapply holds_transfer; [exact Ht|done|by right].
  - destruct (CapabilitySpace.close s handle) as [r s'] eqn:E.
    apply set_space_derives with s; [done|]. intros h e He. simpl in He. left.
    apply close_cases in E as [(_ & -> & _)|(e0 & _ & _ & ->)]; [done|].
    simpl in He. by apply lookup_delete_Some in He as [_ ?].
  - intros o r Hr. exists r. split; [|apply CapabilityRights.contains_refl].
    destruct Hr as [j sj h e Hj He <- <-|j t Ht <- Hr]; [by econstructor|].
    eapply holds_transfer; [by apply Hts|done|done].
Qed.

(** C2: authority is confined.  Along any sequence of duplications, transfer
    preparations, acceptances, rollbacks, closes and drops, over any number of
    capability spaces, whoever holds rights [r] to an object [o] afterwards
    (in an entry or in an in-flight transfer, the rights saved for a rollback
    included) derives them from a holder of [o] at the start whose rights
    contain [r]: no right to an object is ever amplified or forged. *)
Theorem authority_confinement (w w' : World) (o r : Z) :
  rtc derive_step w w' -> holds w' o r ->
  exists r0, holds w o r0 /\ CapabilityRights.contains r0 r = true.
Proof.
  intros Hsteps. revert o r. change (derives w w').
  induction Hsteps as [w|w1 w2 w3 Hstep _ IH]; [done|].
  etrans; [by apply derive_step_derives|done].
Qed.

(** ** Handles are issued once *)

Definition world_wf (w : World) : Prop :=
  (forall i s, spaces w !! i = Some s -> space_wf s) /\
  (forall i t h, (i, t) ∈ inflight w -> moved_source t = Some h ->
     exists s, spaces w !! i = Some s /\ 1 <= h < next_handle s).

(** What one step does to one space: its counter only grows, and an entry is
    new only under a freshly issued handle or under the handle a rollback
    restores. *)
Definition space_evolves (w : World) (i : nat) (s s' : CapabilitySpaceState) : Prop :=
  next_handle s <= next_handle s' /\
  (next_handle s' = next_handle s \/
   next_handle s' = next_handle s + 1 /\ next_handle s < U32_MAX) /\
  (forall h, is_Some (entries s' !! h) ->
     is_Some (entries s !! h) \/
     (next_handle s <= h < next_handle s') \/
     (exists t, (i, t) ∈ inflight w /\ moved_source t = Some h)).

Lemma space_evolves_refl w i s : space_evolves w i s s.
Proof. split; [lia|]. split; [by left|]. intros h Hh. by left. Qed.

Lemma space_evolves_fresh w i s e :
  next_handle s < U32_MAX ->
  space_evolves w i s
    {| next_handle := next_handle s + 1; entries := <[next_handle s := e]> (entries s) |}.
Proof.
  intros Hlt. split; [simpl; lia|]. split; [right; done|]. simpl. intros h [e' Hh].
  rewrite lookup_insert in Hh. case_decide; [right; left; lia|left; eauto].
Qed.

Lemma space_evolves_remove w i s h :
  space_evolves w i s (CapabilitySpace.remove_entry s h).
Proof.
  split; [simpl; lia|]. split; [by left|]. simpl. intros h' [e Hh].
  apply lookup_delete_Some in Hh as [_ ?]. left. eauto.
Qed.

#[export] Hint Resolve space_evolves_refl space_evolves_fresh space_evolves_remove : kernel.

Lemma duplicate_evolves w i s source requested override :
  space_evolves w i s (CapabilitySpace.duplicate s source requested override).2.
Proof.
  destruct (CapabilitySpace.duplicate s source requested override) as [r s'] eqn:E. simpl.
  apply duplicate_cases in E as [[-> _]|(e0 & _ & _ & Hlt & _ & _ & ->)]; auto with kernel.
Qed.

Lemma accept_evolves w i s t :
  space_evolves w i s (CapabilitySpace.accept_transfer s t).2.
Proof.
  destruct (CapabilitySpace.accept_transfer s t) as [r s'] eqn:E. simpl.
  apply accept_cases in E as [(_ & -> & _)|(_ & ? & ->)]; auto with kernel.
Qed.

Lemma rollback_evolves w i s t :
  (i, t) ∈ inflight w -> space_evolves w i s (CapabilitySpace.rollback_moved s t).2.
Proof.
  intros Ht. destruct (CapabilitySpace.rollback_moved s t) as [b s'] eqn:E. simpl.
  apply rollback_cases in E as [[_ ->]|(h0 & r0 & _ & Hms & _ & _ & ->)]; [auto with kernel|].
  split; [simpl; lia|]. split; [by left|]. simpl. intros h [e Hh].
  rewrite lookup_insert in Hh. case_decide; simplify_eq; eauto.
Qed.

Lemma close_evolves w i s h :
  space_evolves w i s (CapabilitySpace.close s h).2.
Proof.
  destruct (CapabilitySpace.close s h) as [r s'] eqn:E. simpl.
  apply close_cases in E as [(_ & -> & _)|(e0 & _ & _ & ->)]; auto with kernel.
Qed.

Lemma install_evolves w i s object rights badge :
  space_evolves w i s (CapabilitySpace.install s object rights badge).2.
Proof.
  destruct (install_cases s object rights badge) as [[? ->]|[? ->]]; simpl; auto with kernel.
Qed.

Lemma prepare_evolves w i s handle requested mode t s' :
  CapabilitySpace.prepare_transfer s handle requested mode = (Ok t, s') ->
  space_evolves w i s s' /\
  exists e, entries s !! handle = Some e /\ forall h, moved_source t = Some h -> h = handle.
Proof.
  intros Hp.
  apply prepare_cases in Hp as [[_ Hp]|(e & t0 & He & [= <-] & _ & _ & _ & _ & _ & _ & Hm)];
    [done|].
  destruct mode; destruct Hm as (-> & Hsrc & _); (split; [auto with kernel|]);
    exists e; (split; [done|congruence]).
Qed.

#[export] Hint Resolve duplicate_evolves accept_evolves rollback_evolves close_evolves
  install_evolves : kernel.

(** Every step keeps every space and evolves it; transfers in flight
    afterwards were in flight before or have just been prepared. *)
Definition world_evolves (w w' : World) : Prop :=
  (forall i s, spaces w !! i = Some s ->
     exists s', spaces w' !! i = Some s' /\ space_evolves w i s s') /\
  (forall i s', spaces w' !! i = Some s' -> is_Some (spaces w !! i)) /\
  (forall i t, (i, t) ∈ inflight w' -> (i, t) ∈ inflight w \/
     exists s h e, spaces w !! i = Some s /\ entries s !! h = Some e /\
                   forall h', moved_source t = Some h' -> h' = h).

Lemma insert_space_evolves w i s s' ts :
  spaces w !! i = Some s -> space_evolves w i s s' ->
  (forall j t, (j, t) ∈ ts -> (j, t) ∈ inflight w \/
     exists s h e, spaces w !! j = Some s /\ entries s !! h = Some e /\
                   forall h', moved_source t = Some h' -> h' = h) ->
  world_evolves w {| spaces := <[i := s']> (spaces w); inflight := ts |}.
Proof.
  intros Hs Hev Hts. split_and!; simpl.
  - intros j sj Hj. rewrite lookup_insert. case_decide; simplify_eq; eauto with kernel.
  - intros j s'' Hj. rewrite lookup_insert in Hj. case_decide; simplify_eq; eauto.
  - done.
Qed.

Lemma space_step_evolves w w' : space_step w w' -> world_evolves w w'.
Proof.
  intros [w1 [i s source requested override Hs|i s handle requested mode t s' Hs Hp
         |j s o t Hs Ht|i s t Hs Ht|i s handle Hs|ts Hts]|i s object rights badge Hs];
    try (eapply insert_space_evolves; [exact Hs|by auto with kernel|by left]).
  - apply (prepare_evolves w i) in Hp as [Hev (e & He & Hsrc)].
    eapply insert_space_evolves; [exact Hs|done|].
    intros k t' [[= -> ->]|Hin]%elem_of_cons; [right|by left]. by exists s, handle, e.
  - split_and!; simpl; [eauto with kernel|eauto|]. intros i t Hin. left. by apply Hts.
Qed.

Lemma space_step_wf w w' : space_step w w' -> world_wf w -> world_wf w'.
Proof.
  intros Hstep [Hsp Hin]. destruct (space_step_evolves _ _ Hstep) as (Hev & Hback & Hfl). split.
  - intros i s' Hs'. destruct (Hback _ _ Hs') as [s Hs].
    destruct (Hev _ _ Hs) as (s'' & Hs'' & Hle & Hnext & Hent). simplify_eq.
    destruct (Hsp _ _ Hs) as [Hrange Hkeys]. split; [lia|].
    intros h e He. destruct (Hent h) as [[e0 He0]|[?|(t & Ht & Hm)]]; [by eauto|..].
    + apply Hkeys in He0. lia.
    + lia.
    + destruct (Hin _ _ _ Ht Hm) as (s0 & ? & ?). simplify_eq. lia.
  - intros i t h Ht Hm. destruct (Hfl _ _ Ht) as [Hold|(s & h0 & e & Hs & He & Hh)].
    + destruct (Hin _ _ _ Hold Hm) as (s & Hs & ?).
      destruct (Hev _ _ Hs) as (s' & Hs' & Hle & _). exists s'. split; [done|lia].
    + apply Hh in Hm as ->. destruct (Hev _ _ Hs) as (s' & Hs' & Hle & _).
      exists s'. split; [done|]. destruct (Hsp _ _ Hs) as [_ Hk]. apply Hk in He. lia.
Qed.

(** capability spaces stay well formed.  From a system of well-formed
    spaces, every sequence of space operations (installs included) keeps each
    handle in use between 1 and the next handle to issue, the counter within
    [u32], and each handle a pending move may restore already issued. *)
Theorem capability_spaces_wf_invariant (w w' : World) :
  rtc space_step w w' -> world_wf w -> world_wf w'.
Proof. induction 1; eauto using space_step_wf. Qed.

(** A handle is dead in space [i] when it was issued, is not in use and no
    pending move can restore it. *)
Definition dead_handle (w : World) (i : nat) (h : Z) : Prop :=
  exists s, spaces w !! i = Some s /\ h < next_handle s /\ entries s !! h = None /\
            forall t, (i, t) ∈ inflight w -> moved_source t <> Some h.

Lemma dead_handle_step w w' i h :
  space_step w w' -> dead_handle w i h -> dead_handle w' i h.
Proof.
  intros Hstep (s & Hs & Hlt & Hnone & Hmv).
  destruct (space_step_evolves _ _ Hstep) as (Hev & _ & Hfl).
  destruct (Hev _ _ Hs) as (s' & Hs' & Hle & _ & Hent).
  exists s'. split_and!; [done|lia|..].
  - apply eq_None_not_Some. intros Hsome.
    destruct (Hent _ Hsome) as [[e ?]|[?|(t & Ht & Hm)]]; [congruence|lia|].
    by apply (Hmv t).
  - intros t Ht Hm. destruct (Hfl _ _ Ht) as [Hold|(s0 & h0 & e & Hs0 & He & Hh)].
    + by apply (Hmv t).
    + apply Hh in Hm as ->. congruence.
Qed.

(** a closed handle is never reissued.  Once a handle of a space has been
    issued, is no longer in use and no pending move can restore it, no
    sequence of space operations (new installs, duplications, accepted
    transfers, rollbacks) ever makes it designate a capability again, so a
    stale handle cannot come to name another object. *)
Theorem closed_handle_never_reused (w w' : World) (i : nat) (h : Z) :
  rtc space_step w w' -> dead_handle w i h ->
  exists s, spaces w' !! i = Some s /\ entries s !! h = None.
Proof.
  intros Hsteps Hdead. assert (dead_handle w' i h) as (s & ? & _ & ? & _); [|by eauto].
  revert Hdead. induction Hsteps; eauto using dead_handle_step.
Qed.

(** rolling back a move restores the sender's space exactly: the entry
    comes back under the same handle with the rights and badge it had, even
    when the transfer carried reduced rights. *)
Theorem move_then_rollback_restores (s s' : CapabilitySpaceState) handle requested t :
  CapabilitySpace.prepare_transfer s handle requested Move = (Ok t, s') ->
  CapabilitySpace.rollback_moved s' t = (true, s) /\
  entries s' !! handle = None.
Proof.
  intros Hp.
  apply prepare_cases in Hp as [[_ Hp]|(e & t0 & He & [= <-] & _ & _ & _ & Hob & _ & _ & Hm)];
    [done|].
  destruct Hm as (-> & Hsrc & Hrights & Hbadge). unfold CapabilitySpace.rollback_moved.
  rewrite Hsrc, Hrights, Hbadge, Hob. simpl. rewrite lookup_delete_eq.
  split; [|done]. rewrite bool_decide_eq_false_2 by (by intros [? ?]).
  f_equal. destruct s as [n m]. unfold CapabilitySpace.insert_entry; simpl in *. f_equal.
  destruct e as [ob ri ba]; simpl. by rewrite insert_delete_eq, insert_id.
Qed.

(** a duplicate is visible exactly as requested.  When [duplicate] returns
    a handle in a well-formed space, that handle was unused, the source entry
    has the [DUPLICATE] right and contains the requested rights, resolving the
    new handle yields the same object with the requested rights and the
    overriding (or else inherited) badge and fails with [RightsViolation] for
    any right beyond them, and every other handle resolves as before. *)
Theorem duplicate_then_resolve (s s' : CapabilitySpaceState) source requested override h :
  space_wf s ->
  CapabilitySpace.duplicate s source requested override = (Ok h, s') ->
  exists e, entries s !! source = Some e /\ entries s !! h = None /\
    CapabilityRights.contains (ce_rights e) CapabilityRights.DUPLICATE = true /\
    CapabilityRights.contains (ce_rights e) requested = true /\
    (forall q, CapabilitySpace.resolve s' h q =
       if CapabilityRights.contains requested q
       then Ok {| cv_handle := h; cv_object := ce_object e; cv_rights := requested;
                  cv_badge := default (ce_badge e) override |}
       else Err (RightsViolation q requested)) /\
    (forall h' q, h' <> h -> CapabilitySpace.resolve s' h' q = CapabilitySpace.resolve s h' q).
Proof.
  intros [_ Hk] Hd. apply duplicate_cases in Hd as [[_ ?]|Hd]; [done|].
  destruct Hd as (e & He & [= ->] & _ & Hdup & Hreq & ->). exists e.
  split_and!; try done.
  - apply eq_None_not_Some. intros [e' He']. apply Hk in He'. lia.
  - intros q. unfold CapabilitySpace.resolve. simpl. rewrite lookup_insert_eq. simpl.
    by destruct (CapabilityRights.contains requested q).
  - intros h' q Hne. unfold CapabilitySpace.resolve. simpl. by rewrite lookup_insert_ne.
Qed.

(** *** Witnesses *)

Module CapabilityExamples.

(** Space 0 holds a channel capability to object 7; space 1 is empty. *)
Definition space0 : CapabilitySpaceState :=
  (CapabilitySpace.install CapabilitySpace.new 7 CapabilityRights.channel_endpoint (Some 5)).2.
Definition world0 : World :=
  {| spaces := <[0%nat := space0]> (<[1%nat := CapabilitySpace.new]> ∅); inflight := [] |}.
Definition transfer0 : PreparedTransfer :=
  {| pt_object := 7; pt_rights := CapabilityRights.SEND; pt_badge := Some 5;
     moved_source := Some 1; moved_source_rights := Some CapabilityRights.channel_endpoint;
     moved_source_badge := Some (Some 5) |}.
Definition space0_moved : CapabilitySpaceState := CapabilitySpace.remove_entry space0 1.
Definition world1 : World :=
  {| spaces := <[0%nat := space0_moved]> (spaces world0); inflight := [(0%nat, transfer0)] |}.
Definition world2 : World :=
  set_space world1 1 (CapabilitySpace.accept_transfer CapabilitySpace.new transfer0).2.

Lemma world0_to_world2 : rtc derive_step world0 world2.
Proof.
  apply rtc_l with world1.
  - apply (D_prepare world0 0 space0 1 CapabilityRights.SEND Move); reflexivity.
  - apply rtc_once. apply (D_accept world1 1 CapabilitySpace.new 0 transfer0);
      [reflexivity|]. by apply list_elem_of_singleton.
Qed.

Lemma rtc_derive_space w w' : rtc derive_step w w' -> rtc space_step w w'.
Proof. induction 1; [reflexivity|]. eapply rtc_l; [by apply S_derive|done]. Qed.

Lemma space0_wf : space_wf space0.
Proof.
  split; [vm_compute; split; discriminate|]. intros h e He.
  change (entries space0) with
    (<[1 := {| ce_object := 7; ce_rights := CapabilityRights.channel_endpoint;
               ce_badge := Some 5 |}]> (∅ : gmap Z CapabilityEntry)) in He.
  apply lookup_insert_Some in He as [[<- _]|[_ He]]; [vm_compute; by split|done].
Qed.

Lemma world0_wf : world_wf world0.
Proof.
  split.
  - intros i s Hs. unfold world0 in Hs. simpl in Hs.
    apply lookup_insert_Some in Hs as [[_ <-]|[_ Hs]];
      [|apply lookup_insert_Some in Hs as [[_ <-]|[_ Hs]]; [apply space_new_wf|done]].
    exact space0_wf.
  - intros i t h Ht. by apply elem_of_nil in Ht.
Qed.

End CapabilityExamples.

Lemma authority_confinement_witness :
  exists r0, holds CapabilityExamples.world0 7 r0 /\
             CapabilityRights.contains r0 CapabilityRights.SEND = true.
Proof.
  apply (authority_confinement CapabilityExamples.world0 CapabilityExamples.world2).
  - exact CapabilityExamples.world0_to_world2.
  - eapply (holds_entry _ _ _ 1%nat _ 1); reflexivity.
Defined.

Lemma capability_spaces_wf_invariant_witness : world_wf CapabilityExamples.world2.
Proof.
  apply (capability_spaces_wf_invariant CapabilityExamples.world0).
  - apply CapabilityExamples.rtc_derive_space, CapabilityExamples.world0_to_world2.
  - exact CapabilityExamples.world0_wf.
Defined.

Lemma closed_handle_never_reused_witness :
  let w := set_space CapabilityExamples.world0 0 CapabilityExamples.space0_moved in
  exists s, spaces (set_space w 0 (CapabilitySpace.install CapabilityExamples.space0_moved 9
                      CapabilityRights.READ None).2) !! 0%nat = Some s /\
            entries s !! 1 = None.
Proof.
  intros w. apply (closed_handle_never_reused w).
  - apply rtc_once. by apply S_install.
  - exists CapabilityExamples.space0_moved. split_and!; [reflexivity|reflexivity|reflexivity|].
    intros t Ht. by apply elem_of_nil in Ht.
Defined.

Lemma move_then_rollback_restores_witness :
  CapabilitySpace.rollback_moved CapabilityExamples.space0_moved CapabilityExamples.transfer0
    = (true, CapabilityExamples.space0) /\
  entries CapabilityExamples.space0_moved !! 1 = None.
Proof.
  apply (move_then_rollback_restores CapabilityExamples.space0
           CapabilityExamples.space0_moved 1 CapabilityRights.SEND).
  reflexivity.
Defined.

Lemma duplicate_then_resolve_witness :
  let '(r, s') := CapabilitySpace.duplicate CapabilityExamples.space0 1
                    CapabilityRights.READ (Some None) in
  CapabilitySpace.resolve s' 2 CapabilityRights.READ =
    Ok {| cv_handle := 2; cv_object := 7; cv_rights := CapabilityRights.READ; cv_badge := None |}.
Proof.
  destruct (duplicate_then_resolve CapabilityExamples.space0
    (CapabilitySpace.duplicate CapabilityExamples.space0 1 CapabilityRights.READ (Some None)).2
    1 CapabilityRights.READ (Some None) 2 CapabilityExamples.space0_wf eq_refl)
    as (e & [= <-] & _ & _ & _ & Hres & _).
  exact (Hres CapabilityRights.READ).
Defined.
