(* ===== verification/Ring.v ===== *)
(** * Ring buffers

    Shared reasoning for the kernel's circular arrays (the pipe's byte ring and
    the channel endpoint's message queue): the logical contents of a window of
    an array read circularly, and how window splits and writes act on it. *)

From S2P Require Import Prelude.
From stdpp Require Import base list numbers.
From Stdlib Require Import ZArith Lia.
#[local] Open Scope Z_scope.

(** [(start + k) mod cap] without the [mod], for an index that wraps at most
    once. *)
Lemma mod_wrap start k cap :
  0 <= start < cap -> 0 <= k <= cap ->
  (start + k) mod cap = if start + k <? cap then start + k else start + k - cap.
Proof.
  intros Hs Hk. destruct (Z.ltb_spec (start + k) cap).
  - apply Z.mod_small. lia.
  - symmetry. apply Zmod_unique with 1; lia.
Qed.

Section ring.
Context {A : Type} `{Inhabited A}.
Implicit Types buf : list A.

(** The [len] elements of [buf] starting at index [start], wrapping around. *)
Definition ring_contents buf (start len : Z) : list A :=
  (fun k => buf !!! Z.to_nat ((start + k) mod zlen buf)) <$> seqZ 0 len.

Lemma length_ring_contents buf start len :
  0 <= len -> length (ring_contents buf start len) = Z.to_nat len.
Proof. intros. unfold ring_contents. by rewrite length_fmap, length_seqZ. Qed.

Lemma ring_contents_ext buf buf' start start' len :
  (forall k, 0 <= k < len ->
     buf !!! Z.to_nat ((start + k) mod zlen buf) =
     buf' !!! Z.to_nat ((start' + k) mod zlen buf')) ->
  ring_contents buf start len = ring_contents buf' start' len.
Proof.
  intros Hk. unfold ring_contents. apply list_fmap_ext. intros i k Hi.
  apply lookup_seqZ in Hi as [-> ?]. apply Hk. lia.
Qed.

Lemma ring_contents_app buf start a b :
  0 < zlen buf -> 0 <= a -> 0 <= b ->
  ring_contents buf start (a + b) =
  ring_contents buf start a ++ ring_contents buf ((start + a) mod zlen buf) b.
Proof.
  intros Hcap Ha Hb. unfold ring_contents.
  rewrite seqZ_app, fmap_app by lia. f_equal.
  rewrite Z.add_0_l. replace a with (a + 0) at 1 by lia.
  rewrite <- fmap_add_seqZ, <- list_fmap_compose. apply list_fmap_ext.
  intros i k _. simpl. f_equal. f_equal.
  rewrite Z.add_assoc, Zplus_mod_idemp_l. f_equal.
Qed.

Lemma ring_contents_nil buf start : ring_contents buf start 0 = [].
Proof. done. Qed.

Lemma ring_contents_one buf start :
  0 <= start < zlen buf -> ring_contents buf start 1 = [buf !!! Z.to_nat start].
Proof.
  intros Hs. unfold ring_contents. simpl. by rewrite Z.add_0_r, Z.mod_small.
Qed.

(** A window that does not wrap is a slice. *)
Lemma ring_contents_slice buf start len :
  0 <= start -> 0 <= len -> start + len <= zlen buf ->
  ring_contents buf start len = slice buf start (start + len).
Proof.
  intros Hs Hl Hle. unfold slice, zlen in *. apply list_eq. intros i.
  destruct (decide (i < Z.to_nat len)%nat) as [Hi|Hi].
  - unfold ring_contents. rewrite list_lookup_fmap.
    rewrite lookup_seqZ_lt by lia. simpl. unfold zlen.
    rewrite Z.mod_small by lia.
    rewrite lookup_take_lt, lookup_drop by lia.
    replace (Z.to_nat (start + (0 + Z.of_nat i))) with (Z.to_nat start + i)%nat by lia.
    symmetry. apply list_lookup_lookup_total_lt. lia.
  - rewrite !lookup_ge_None_2; [done|..].
    + rewrite length_take, length_drop. lia.
    + rewrite length_ring_contents; lia.
Qed.

(** A window that agrees with a list position by position is a prefix of it. *)
Lemma ring_contents_take buf start n (l : list A) :
  0 <= n <= zlen l ->
  (forall k, 0 <= k < n ->
     buf !!! Z.to_nat ((start + k) mod zlen buf) = l !!! Z.to_nat k) ->
  ring_contents buf start n = take (Z.to_nat n) l.
Proof.
  intros Hn Hk. unfold zlen in Hn. apply list_eq. intros i.
  destruct (decide (i < Z.to_nat n)%nat) as [Hi|Hi].
  - unfold ring_contents. rewrite list_lookup_fmap, lookup_seqZ_lt by lia. simpl.
    rewrite Z.add_0_l, Hk, lookup_take_lt by lia.
    rewrite Nat2Z.id. symmetry. apply list_lookup_lookup_total_lt. lia.
  - rewrite !lookup_ge_None_2; [done|..].
    + rewrite length_take. lia.
    + rewrite length_ring_contents; lia.
Qed.

(** Writing outside the window leaves it unchanged; writing just past it
    extends it. *)
Lemma ring_contents_insert_ne buf start len i x :
  0 <= start < zlen buf -> 0 <= len <= zlen buf -> 0 <= i < zlen buf ->
  (forall k, 0 <= k < len -> (start + k) mod zlen buf <> i) ->
  ring_contents (<[Z.to_nat i := x]> buf) start len = ring_contents buf start len.
Proof.
  intros Hs Hl Hi Hne. apply ring_contents_ext. intros k Hk.
  assert (zlen (<[Z.to_nat i := x]> buf) = zlen buf) as ->
    by (unfold zlen; by rewrite length_insert).
  apply list_lookup_total_insert_ne. specialize (Hne k Hk).
  pose proof (Z.mod_pos_bound (start + k) (zlen buf)). lia.
Qed.

Lemma ring_contents_push buf start len x :
  0 <= start < zlen buf -> 0 <= len < zlen buf ->
  ring_contents (<[Z.to_nat ((start + len) mod zlen buf) := x]> buf) start (len + 1) =
  ring_contents buf start len ++ [x].
Proof.
  intros Hs Hl. set (i := (start + len) mod zlen buf).
  assert (0 <= i < zlen buf) as Hi by (apply Z.mod_pos_bound; lia).
  assert (zlen (<[Z.to_nat i := x]> buf) = zlen buf) as Hlen
    by (unfold zlen; by rewrite length_insert).
  rewrite ring_contents_app by (rewrite ?Hlen; lia). rewrite Hlen. fold i. f_equal.
  - apply ring_contents_insert_ne; [lia..|]. intros k Hk. unfold i.
    rewrite !mod_wrap by lia. repeat case_match; lia.
  - rewrite ring_contents_one by (rewrite Hlen; lia). f_equal.
    apply list_lookup_total_insert_eq. unfold zlen in *. lia.
Qed.

(** Taking the first element out, clearing its slot. *)
Lemma ring_contents_pop buf start len x :
  0 <= start < zlen buf -> 0 < len <= zlen buf ->
  ring_contents buf start len =
  buf !!! Z.to_nat start ::
  ring_contents (<[Z.to_nat start := x]> buf) ((start + 1) mod zlen buf) (len - 1).
Proof.
  intros Hs Hl. replace len with (1 + (len - 1)) at 1 by lia.
  rewrite ring_contents_app, ring_contents_one by lia. cbn [app]. f_equal.
  assert (0 <= (start + 1) mod zlen buf < zlen buf) by (apply Z.mod_pos_bound; lia).
  symmetry. apply ring_contents_insert_ne; [lia..|]. intros k Hk.
  rewrite (mod_wrap start 1) by lia. case_match; rewrite mod_wrap by lia; case_match; lia.
Qed.

(** Putting an element in front of the first. *)
Lemma ring_contents_push_front buf start len x :
  0 <= start < zlen buf -> 0 <= len < zlen buf ->
  let i := (start + zlen buf - 1) mod zlen buf in
  ring_contents (<[Z.to_nat i := x]> buf) i (len + 1) = x :: ring_contents buf start len.
Proof.
  intros Hs Hl i. assert (0 <= i < zlen buf) as Hi by (apply Z.mod_pos_bound; lia).
  assert ((i + 1) mod zlen buf = start) as Hi1.
  { unfold i. rewrite Zplus_mod_idemp_l.
    replace (start + zlen buf - 1 + 1) with (start + 1 * zlen buf) by lia.
    rewrite Z.mod_add by lia. apply Z.mod_small. lia. }
  rewrite (ring_contents_pop _ i (len + 1) x) by (rewrite zlen_insert; lia).
  rewrite zlen_insert, Hi1, list_insert_insert_eq. f_equal.
  - apply list_lookup_total_insert_eq. unfold zlen in *. lia.
  - replace (len + 1 - 1) with len by lia. apply ring_contents_insert_ne; [lia..|].
    intros k Hk Heq. rewrite mod_wrap in Heq by lia.
    rewrite (mod_wrap i 1) in Hi1 by lia. repeat case_match; lia.
Qed.

End ring.
