(* ===== verification/Pipe.v ===== *)
(** * Pipes: a bounded byte stream over a ring buffer

    Models [PipeObject] of [kernel/core/src/object/objects.rs].  The bytes in
    flight are the window of [len] bytes ending just before [head]; the tail is
    recomputed from [head] and [len] on every read.  [read] takes the caller's
    buffer and returns it with the bytes copied to its front. *)

From S2P Require Import Prelude Ring.
From stdpp Require Import base list relations.
From Stdlib Require Import ZArith Lia.
#[local] Open Scope Z_scope.

Definition PIPE_BUFFER_BYTES : Z := 64 * 1024.

Record PipeSnapshot : Type := {
  readable_bytes : Z;
  free_bytes : Z;
  snap_readers : Z;
  snap_writers : Z;
}.

Inductive PipeReadOutcome : Type :=
| ReadBytes (n : Z)
| EndOfStream.

Inductive PipeWriteOutcome : Type :=
| WriteBytes (n : Z)
| WouldBlock
| BrokenPipe.

Record PipeState : Type := {
  buf : list Z;
  head : Z;
  len : Z;
  readers : Z;
  writers : Z;
}.

Module PipeObject.

Definition new : PipeState :=
  {| buf := replicate (Z.to_nat PIPE_BUFFER_BYTES) 0; head := 0; len := 0;
     readers := 1; writers := 1 |}.

Definition snapshot (s : PipeState) : PipeSnapshot :=
  {| readable_bytes := len s; free_bytes := PIPE_BUFFER_BYTES - len s;
     snap_readers := readers s; snap_writers := writers s |}.

Definition read (s : PipeState) (out : list Z) : PipeReadOutcome * list Z * PipeState :=
  if len s =? 0 then
    (if writers s =? 0 then EndOfStream else ReadBytes 0, out, s)
  else if bool_decide (out = []) then (ReadBytes 0, out, s)
  else
    let tail := (head s + PIPE_BUFFER_BYTES - len s) mod PIPE_BUFFER_BYTES in
    let contiguous := PIPE_BUFFER_BYTES - tail in
    let count := Z.min (Z.min (zlen out) (len s)) contiguous in
    (ReadBytes count,
     copy_into out 0 (slice (buf s) tail (tail + count)),
     {| buf := buf s; head := head s; len := len s - count;
        readers := readers s; writers := writers s |}).

Definition write (s : PipeState) (bytes : list Z) : PipeWriteOutcome * PipeState :=
  if bool_decide (bytes = []) then (WriteBytes 0, s)
  else if readers s =? 0 then (BrokenPipe, s)
  else
    let space := PIPE_BUFFER_BYTES - len s in
    if space =? 0 then (WouldBlock, s)
    else
      let count := Z.min space (zlen bytes) in
      let contiguous := PIPE_BUFFER_BYTES - head s in
      let first := Z.min count contiguous in
      let buf1 := copy_into (buf s) (head s) (slice bytes 0 first) in
      let buf2 := if first <? count then copy_into buf1 0 (slice bytes first count)
                  else buf1 in
      (WriteBytes count,
       {| buf := buf2; head := (head s + count) mod PIPE_BUFFER_BYTES;
          len := len s + count; readers := readers s; writers := writers s |}).

Definition close_writer (s : PipeState) : bool * PipeState :=
  let w := if 0 <? writers s then writers s - 1 else writers s in
  (w =? 0, {| buf := buf s; head := head s; len := len s; readers := readers s; writers := w |}).

Definition close_reader (s : PipeState) : bool * PipeState :=
  let r := if 0 <? readers s then readers s - 1 else readers s in
  (r =? 0, {| buf := buf s; head := head s; len := len s; readers := r; writers := writers s |}).

Definition add_reader (s : PipeState) : PipeState :=
  {| buf := buf s; head := head s; len := len s;
     readers := saturating_add U32_MAX (readers s) 1; writers := writers s |}.

Definition add_writer (s : PipeState) : PipeState :=
  {| buf := buf s; head := head s; len := len s;
     readers := readers s; writers := saturating_add U32_MAX (writers s) 1 |}.

End PipeObject.

(** ** The abstract byte stream *)

Definition pipe_wf (s : PipeState) : Prop :=
  zlen (buf s) = PIPE_BUFFER_BYTES /\ 0 <= head s < PIPE_BUFFER_BYTES /\
  0 <= len s <= PIPE_BUFFER_BYTES /\ is_u32 (readers s) /\ is_u32 (writers s).

Definition pipe_tail (s : PipeState) : Z :=
  (head s + PIPE_BUFFER_BYTES - len s) mod PIPE_BUFFER_BYTES.

(** The bytes written and not yet read, oldest first. *)
Definition pipe_contents (s : PipeState) : list Z :=
  ring_contents (buf s) (pipe_tail s) (len s).

Lemma PIPE_BUFFER_BYTES_pos : 0 < PIPE_BUFFER_BYTES.
Proof. done. Qed.

#[local] Opaque PIPE_BUFFER_BYTES.

Lemma pipe_tail_range s : 0 <= pipe_tail s < PIPE_BUFFER_BYTES.
Proof. apply Z.mod_pos_bound, PIPE_BUFFER_BYTES_pos. Qed.

Lemma pipe_tail_cases s :
  pipe_wf s ->
  pipe_tail s = if len s <=? head s then head s - len s
                else head s - len s + PIPE_BUFFER_BYTES.
Proof.
  intros (_ & Hh & Hl & _). pose proof PIPE_BUFFER_BYTES_pos. unfold pipe_tail.
  replace (head s + PIPE_BUFFER_BYTES - len s) with (head s + (PIPE_BUFFER_BYTES - len s))
    by lia.
  rewrite mod_wrap by lia. zcases; lia.
Qed.

Lemma pipe_tail_len s : pipe_wf s -> (pipe_tail s + len s) mod PIPE_BUFFER_BYTES = head s.
Proof.
  intros Hwf. pose proof (pipe_tail_range s). destruct (Hwf) as (_ & Hh & Hl & _).
  rewrite mod_wrap by lia. rewrite (pipe_tail_cases s Hwf). zcases; lia.
Qed.

(** ** Reads *)

(** A read that finds bytes takes a non-empty prefix of the contents. *)
Lemma pipe_read_contents s out :
  pipe_wf s -> len s <> 0 -> out <> [] ->
  exists count s',
    PipeObject.read s out = (ReadBytes count, copy_into out 0 (take (Z.to_nat count) (pipe_contents s)), s') /\
    0 < count <= Z.min (zlen out) (len s) /\
    pipe_wf s' /\ readers s' = readers s /\ writers s' = writers s /\
    pipe_contents s = take (Z.to_nat count) (pipe_contents s) ++ pipe_contents s'.
Proof.
  intros Hwf Hlen Hout. pose proof (pipe_tail_range s) as Htail.
  destruct (Hwf) as (Hbuf & Hh & Hl & Hr & Hw).
  set (count := Z.min (Z.min (zlen out) (len s)) (PIPE_BUFFER_BYTES - pipe_tail s)).
  assert (0 < zlen out) by (destruct out; [done|unfold zlen; simpl; lia]).
  assert (0 < count <= Z.min (zlen out) (len s)) as Hcount by (unfold count; lia).
  set (s' := {| buf := buf s; head := head s; len := len s - count;
                readers := readers s; writers := writers s |}).
  assert (pipe_wf s') as Hwf' by (unfold s'; split_and!; simpl; try done; lia).
  assert (pipe_tail s' = (pipe_tail s + count) mod PIPE_BUFFER_BYTES) as Htail'.
  { unfold pipe_tail, s'; simpl. rewrite Zplus_mod_idemp_l. f_equal. lia. }
  assert (pipe_contents s =
          slice (buf s) (pipe_tail s) (pipe_tail s + count) ++ pipe_contents s') as Hsplit.
  { unfold pipe_contents. rewrite Htail'. simpl.
    replace (len s) with (count + (len s - count)) at 1 by lia.
    rewrite ring_contents_app, Hbuf by lia. f_equal.
    apply ring_contents_slice; unfold count; lia. }
  assert (take (Z.to_nat count) (pipe_contents s) =
          slice (buf s) (pipe_tail s) (pipe_tail s + count)) as Htake.
  { rewrite Hsplit. apply take_app_length'.
    assert (zlen (slice (buf s) (pipe_tail s) (pipe_tail s + count)) = count) as Hz
      by (rewrite length_slice; unfold count; lia).
    unfold zlen in Hz. lia. }
  exists count, s'. rewrite Htake. split_and!; try done; try lia.
  unfold PipeObject.read. destruct (Z.eqb_spec (len s) 0); [done|].
  by rewrite bool_decide_eq_false_2.
Qed.

(** ** Writes *)

(** The two-part copy of [write], as one array update. *)
Lemma pipe_write_buf s bytes count :
  pipe_wf s -> 0 <= count <= PIPE_BUFFER_BYTES - len s -> count <= zlen bytes ->
  let first := Z.min count (PIPE_BUFFER_BYTES - head s) in
  let buf1 := copy_into (buf s) (head s) (slice bytes 0 first) in
  let buf2 := if first <? count then copy_into buf1 0 (slice bytes first count) else buf1 in
  zlen buf2 = PIPE_BUFFER_BYTES /\
  (forall k, 0 <= k < count ->
     buf2 !!! Z.to_nat ((head s + k) mod PIPE_BUFFER_BYTES) = bytes !!! Z.to_nat k) /\
  (forall i, 0 <= i < PIPE_BUFFER_BYTES ->
     (forall k, 0 <= k < count -> (head s + k) mod PIPE_BUFFER_BYTES <> i) ->
     buf2 !!! Z.to_nat i = buf s !!! Z.to_nat i).
Proof.
  intros (Hbuf & Hh & Hl & _) Hc Hb first buf1 buf2.
  assert (zlen (slice bytes 0 first) = first) as Hf1
    by (rewrite length_slice; unfold first; lia).
  assert (first < count -> zlen (slice bytes first count) = count - first) as Hf2
    by (intros; rewrite length_slice; unfold first; lia).
  assert (zlen buf1 = PIPE_BUFFER_BYTES) as Hb1
    by (unfold buf1; rewrite zlen_copy_into; rewrite ?Hf1; unfold first; lia).
  assert (Hlook1 : forall i, 0 <= i -> buf1 !!! Z.to_nat i =
    if (head s <=? i) && (i <? head s + first) then slice bytes 0 first !!! Z.to_nat (i - head s)
    else buf s !!! Z.to_nat i).
  { intros i Hi. unfold buf1. rewrite copy_into_lookup; rewrite ?Hf1; unfold first; try lia; done. }
  assert (Hlook2 : forall i, 0 <= i -> buf2 !!! Z.to_nat i =
    if (first <? count) && (i <? count - first)
    then slice bytes first count !!! Z.to_nat i else buf1 !!! Z.to_nat i).
  { intros i Hi. unfold buf2. destruct (Z.ltb_spec first count); simpl; [|done].
    rewrite copy_into_lookup by (rewrite ?Hf2; unfold first in *; lia).
    rewrite Hf2, Z.sub_0_r by lia. destruct (Z.leb_spec 0 i); [simpl|lia].
    by rewrite Z.add_0_l. }
  split_and!.
  - unfold buf2. destruct (Z.ltb_spec first count); [|done].
    rewrite zlen_copy_into; rewrite ?Hf2; unfold first in *; lia.
  - intros k Hk. rewrite mod_wrap by lia. destruct (Z.ltb_spec (head s + k) PIPE_BUFFER_BYTES).
    + rewrite Hlook2, Hlook1 by lia.
      replace ((first <? count) && (head s + k <? count - first)) with false
        by (unfold first; lia).
      replace ((head s <=? head s + k) && (head s + k <? head s + first)) with true
        by (unfold first; lia).
      unfold slice. rewrite lookup_total_take_lt by (unfold first; lia). simpl. f_equal. lia.
    + rewrite Hlook2 by lia.
      replace ((first <? count) && (head s + k - PIPE_BUFFER_BYTES <? count - first)) with true
        by (unfold first; lia).
      unfold slice. rewrite lookup_total_take_lt by (unfold first; lia).
      rewrite lookup_total_drop. f_equal. unfold first. lia.
  - intros i Hi Hne. rewrite Hlook2, Hlook1 by lia.
    destruct ((first <? count) && (i <? count - first)) eqn:E2.
    { exfalso. apply (Hne (i + PIPE_BUFFER_BYTES - head s)); [unfold first in *; lia|].
      rewrite mod_wrap by (unfold first in *; lia). zcases; lia. }
    destruct ((head s <=? i) && (i <? head s + first)) eqn:E1; [|done].
    exfalso. apply (Hne (i - head s)); [unfold first in *; lia|].
    rewrite mod_wrap by (unfold first in *; lia). zcases; lia.
Qed.

(** A write that finds room appends a non-empty prefix of the bytes. *)
Lemma pipe_write_contents s bytes :
  pipe_wf s -> bytes <> [] -> readers s <> 0 -> len s <> PIPE_BUFFER_BYTES ->
  exists count s',
    PipeObject.write s bytes = (WriteBytes count, s') /\
    count = Z.min (PIPE_BUFFER_BYTES - len s) (zlen bytes) /\ 0 < count /\
    pipe_wf s' /\ readers s' = readers s /\ writers s' = writers s /\
    pipe_contents s' = pipe_contents s ++ take (Z.to_nat count) bytes.
Proof.
  intros Hwf Hbytes Hreaders Hfull. destruct (Hwf) as (Hbuf & Hh & Hl & Hr & Hw).
  set (count := Z.min (PIPE_BUFFER_BYTES - len s) (zlen bytes)).
  assert (0 < zlen bytes) by (destruct bytes; [done|unfold zlen; simpl; lia]).
  destruct (pipe_write_buf s bytes count Hwf) as (Hz & Hin & Hout); [unfold count; lia..|].
  unfold PipeObject.write. rewrite bool_decide_eq_false_2 by done.
  destruct (Z.eqb_spec (readers s) 0); [done|].
  destruct (Z.eqb_spec (PIPE_BUFFER_BYTES - len s) 0); [lia|]. fold count.
  cbv zeta in *. fold count.
  set (b := if _ <? count then _ else _) in *.
  exists count, {| buf := b; head := (head s + count) mod PIPE_BUFFER_BYTES;
                   len := len s + count; readers := readers s; writers := writers s |}.
  set (s' := Build_PipeState _ _ _ _ _).
  assert (pipe_tail s' = pipe_tail s) as Htail.
  { unfold pipe_tail, s'; simpl.
    replace ((head s + count) mod PIPE_BUFFER_BYTES + PIPE_BUFFER_BYTES - (len s + count))
      with ((head s + count) mod PIPE_BUFFER_BYTES + (PIPE_BUFFER_BYTES - (len s + count)))
      by lia.
    rewrite Zplus_mod_idemp_l. f_equal. lia. }
  pose proof (pipe_tail_range s). pose proof PIPE_BUFFER_BYTES_pos.
  split_and!; try done; try (unfold s', count; simpl; lia).
  - unfold s'; split_and!; simpl; try done; try (unfold count; lia); apply Z.mod_pos_bound; lia.
  - unfold pipe_contents. rewrite Htail. simpl.
    rewrite ring_contents_app, Hz by (rewrite ?Hz; unfold count; lia).
    rewrite pipe_tail_len by done. f_equal.
    + apply ring_contents_ext. intros k Hk. rewrite Hz, Hbuf. apply Hout.
      { apply Z.mod_pos_bound; lia. }
      intros j Hj Heq. rewrite <- (pipe_tail_len s Hwf), Zplus_mod_idemp_l in Heq.
      rewrite <- Z.add_assoc in Heq. rewrite !mod_wrap in Heq by (unfold count in *; lia).
      zcases; unfold count in *; lia.
    + apply ring_contents_take; [unfold count; lia|]. rewrite Hz. exact Hin.
Qed.

(** ** The contract of a pipe

    An abstract pipe is the queue of bytes in flight and the two reference
    counts.  A read may return any non-empty prefix that fits the caller's
    buffer (the ring returns short counts at its physical end). *)

Record PipeSpec : Type := {
  stream : list Z;
  spec_readers : Z;
  spec_writers : Z;
}.

Inductive PipeOp : Type :=
| OpRead (out : list Z)
| OpWrite (bytes : list Z)
| OpCloseReader
| OpCloseWriter
| OpAddReader
| OpAddWriter.

Inductive PipeObs : Type :=
| ObsRead (r : PipeReadOutcome) (out : list Z)
| ObsWrite (r : PipeWriteOutcome)
| ObsClosed (last : bool)
| ObsUnit.

Definition pipe_exec (s : PipeState) (op : PipeOp) : PipeObs * PipeState :=
  match op with
  | OpRead out => let '(r, out', s') := PipeObject.read s out in (ObsRead r out', s')
  | OpWrite bytes => let '(r, s') := PipeObject.write s bytes in (ObsWrite r, s')
  | OpCloseReader => let '(b, s') := PipeObject.close_reader s in (ObsClosed b, s')
  | OpCloseWriter => let '(b, s') := PipeObject.close_writer s in (ObsClosed b, s')
  | OpAddReader => (ObsUnit, PipeObject.add_reader s)
  | OpAddWriter => (ObsUnit, PipeObject.add_writer s)
  end.

Inductive pipe_spec_step : PipeSpec -> PipeOp -> PipeObs -> PipeSpec -> Prop :=
| spec_read_eof out r :
    pipe_spec_step {| stream := []; spec_readers := r; spec_writers := 0 |}
      (OpRead out) (ObsRead EndOfStream out)
      {| stream := []; spec_readers := r; spec_writers := 0 |}
| spec_read_empty out r w :
    w <> 0 ->
    pipe_spec_step {| stream := []; spec_readers := r; spec_writers := w |}
      (OpRead out) (ObsRead (ReadBytes 0) out)
      {| stream := []; spec_readers := r; spec_writers := w |}
| spec_read_no_room q r w :
    q <> [] ->
    pipe_spec_step {| stream := q; spec_readers := r; spec_writers := w |}
      (OpRead []) (ObsRead (ReadBytes 0) [])
      {| stream := q; spec_readers := r; spec_writers := w |}
| spec_read_bytes xs q out r w :
    xs <> [] -> zlen xs <= zlen out ->
    pipe_spec_step {| stream := xs ++ q; spec_readers := r; spec_writers := w |}
      (OpRead out) (ObsRead (ReadBytes (zlen xs)) (copy_into out 0 xs))
      {| stream := q; spec_readers := r; spec_writers := w |}
| spec_write_nothing q :
    pipe_spec_step q (OpWrite []) (ObsWrite (WriteBytes 0)) q
| spec_write_broken bytes q w :
    bytes <> [] ->
    pipe_spec_step {| stream := q; spec_readers := 0; spec_writers := w |}
      (OpWrite bytes) (ObsWrite BrokenPipe)
      {| stream := q; spec_readers := 0; spec_writers := w |}
| spec_write_full bytes q r w :
    bytes <> [] -> r <> 0 -> zlen q = PIPE_BUFFER_BYTES ->
    pipe_spec_step {| stream := q; spec_readers := r; spec_writers := w |}
      (OpWrite bytes) (ObsWrite WouldBlock)
      {| stream := q; spec_readers := r; spec_writers := w |}
| spec_write_bytes xs rest q r w :
    xs <> [] -> r <> 0 ->
    (zlen (q ++ xs) = PIPE_BUFFER_BYTES \/ rest = []) -> zlen (q ++ xs) <= PIPE_BUFFER_BYTES ->
    pipe_spec_step {| stream := q; spec_readers := r; spec_writers := w |}
      (OpWrite (xs ++ rest)) (ObsWrite (WriteBytes (zlen xs)))
      {| stream := q ++ xs; spec_readers := r; spec_writers := w |}
| spec_close_reader q r w :
    pipe_spec_step {| stream := q; spec_readers := r; spec_writers := w |}
      OpCloseReader (ObsClosed (Z.max 0 (r - 1) =? 0))
      {| stream := q; spec_readers := Z.max 0 (r - 1); spec_writers := w |}
| spec_close_writer q r w :
    pipe_spec_step {| stream := q; spec_readers := r; spec_writers := w |}
      OpCloseWriter (ObsClosed (Z.max 0 (w - 1) =? 0))
      {| stream := q; spec_readers := r; spec_writers := Z.max 0 (w - 1) |}
| spec_add_reader q r w :
    pipe_spec_step {| stream := q; spec_readers := r; spec_writers := w |}
      OpAddReader ObsUnit
      {| stream := q; spec_readers := Z.min U32_MAX (r + 1); spec_writers := w |}
| spec_add_writer q r w :
    pipe_spec_step {| stream := q; spec_readers := r; spec_writers := w |}
      OpAddWriter ObsUnit
      {| stream := q; spec_readers := r; spec_writers := Z.min U32_MAX (w + 1) |}.

#[export] Hint Constructors pipe_spec_step : kernel.

Definition pipe_abs (s : PipeState) : PipeSpec :=
  {| stream := pipe_contents s; spec_readers := readers s; spec_writers := writers s |}.

Lemma zlen_pipe_contents s : pipe_wf s -> zlen (pipe_contents s) = len s.
Proof.
  intros (_ & _ & Hl & _). unfold zlen, pipe_contents.
  rewrite length_ring_contents; lia.
Qed.

Lemma pipe_contents_empty s : pipe_wf s -> (pipe_contents s = [] <-> len s = 0).
Proof.
  intros Hwf. rewrite <- (zlen_pipe_contents s Hwf). unfold zlen.
  destruct (pipe_contents s); simpl; split; (done || lia).
Qed.

Lemma pipe_read_refines s out :
  pipe_wf s ->
  let '(r, out', s') := PipeObject.read s out in
  pipe_wf s' /\ pipe_spec_step (pipe_abs s) (OpRead out) (ObsRead r out') (pipe_abs s').
Proof.
  intros Hwf. destruct (decide (len s = 0)) as [Hz|Hnz].
  { unfold PipeObject.read. rewrite Hz. simpl. split; [done|]. unfold pipe_abs.
    rewrite (proj2 (pipe_contents_empty s Hwf) Hz).
    destruct (Z.eqb_spec (writers s) 0) as [->|]; auto with kernel. }
  destruct (decide (out = [])) as [->|Hout].
  { unfold PipeObject.read. rewrite (proj2 (Z.eqb_neq _ _) Hnz). simpl. split; [done|].
    apply spec_read_no_room. by rewrite (pipe_contents_empty s Hwf). }
  destruct (pipe_read_contents s out Hwf Hnz Hout)
    as (count & s' & -> & Hc & Hwf' & Hr & Hw & Hsplit).
  split; [done|]. unfold pipe_abs. rewrite Hr, Hw, Hsplit at 1.
  set (xs := take (Z.to_nat count) (pipe_contents s)) in *.
  assert (zlen xs = count) as Hlen.
  { pose proof (zlen_pipe_contents s Hwf) as Hz. unfold xs, zlen in *.
    rewrite length_take. lia. }
  rewrite <- Hlen. apply spec_read_bytes; [|lia]. intros Hnil. rewrite Hnil in Hlen.
  unfold zlen in Hlen. simpl in Hlen. lia.
Qed.

Lemma pipe_write_refines s bytes :
  pipe_wf s ->
  let '(r, s') := PipeObject.write s bytes in
  pipe_wf s' /\ pipe_spec_step (pipe_abs s) (OpWrite bytes) (ObsWrite r) (pipe_abs s').
Proof.
  intros Hwf. destruct (decide (bytes = [])) as [->|Hb].
  { simpl. auto with kernel. }
  destruct (decide (readers s = 0)) as [Hr0|Hr].
  { unfold PipeObject.write. rewrite bool_decide_eq_false_2 by done. rewrite Hr0. simpl.
    split; [done|]. unfold pipe_abs. rewrite Hr0. auto with kernel. }
  destruct (decide (len s = PIPE_BUFFER_BYTES)) as [Hfull|Hroom].
  { unfold PipeObject.write. rewrite bool_decide_eq_false_2 by done.
    rewrite (proj2 (Z.eqb_neq _ _) Hr), Hfull, Z.sub_diag. simpl. split; [done|].
    apply spec_write_full; [done..|]. by rewrite zlen_pipe_contents. }
  destruct (pipe_write_contents s bytes Hwf Hb Hr Hroom)
    as (count & s' & -> & Hc & Hpos & Hwf' & Hr' & Hw' & Happ).
  split; [done|]. unfold pipe_abs. rewrite Hr', Hw', Happ.
  pose proof (zlen_pipe_contents s Hwf) as Hz. destruct (Hwf) as (_ & _ & Hl & _).
  set (xs := take (Z.to_nat count) bytes).
  assert (zlen xs = count) as Hlen
    by (unfold xs, zlen in *; rewrite length_take; lia).
  rewrite <- Hlen. rewrite <- (take_drop (Z.to_nat count) bytes) at 1. fold xs.
  unfold zlen in *. apply spec_write_bytes; unfold zlen; rewrite ?length_app; [|done| |lia].
  - destruct xs; [simpl in *; lia|done].
  - destruct (decide (count = Z.of_nat (length bytes))) as [->|].
    + right. rewrite Nat2Z.id. apply drop_all.
    + left. lia.
Qed.

Lemma pipe_exec_refines s s' op obs :
  pipe_wf s -> pipe_exec s op = (obs, s') ->
  pipe_wf s' /\ pipe_spec_step (pipe_abs s) op obs (pipe_abs s').
Proof.
  intros Hwf. destruct op as [out|bytes| | | |]; simpl.
  - pose proof (pipe_read_refines s out Hwf) as H.
    destruct (PipeObject.read s out) as [[r out'] s'']. naive_solver.
  - pose proof (pipe_write_refines s bytes Hwf) as H.
    destruct (PipeObject.write s bytes) as [r s'']. naive_solver.
  - intros [= <- <-]. destruct (Hwf) as (? & ? & ? & ? & ?).
    replace (if 0 <? readers s then readers s - 1 else readers s)
      with (Z.max 0 (readers s - 1)) by (unfold is_u32 in *; zcases; lia).
    split; [|apply spec_close_reader]. unfold pipe_wf, is_u32 in *; simpl; split_and!; lia.
  - intros [= <- <-]. destruct (Hwf) as (? & ? & ? & ? & ?).
    replace (if 0 <? writers s then writers s - 1 else writers s)
      with (Z.max 0 (writers s - 1)) by (unfold is_u32 in *; zcases; lia).
    split; [|apply spec_close_writer]. unfold pipe_wf, is_u32 in *; simpl; split_and!; lia.
  - intros [= <- <-]. destruct (Hwf) as (? & ? & ? & ? & ?).
    split; [|apply spec_add_reader]. unfold pipe_wf, is_u32, PipeObject.add_reader, PipeObject.add_writer, saturating_add in *.
    cbn [buf head len readers writers].
    split_and!; lia.
  - intros [= <- <-]. destruct (Hwf) as (? & ? & ? & ? & ?).
    split; [|apply spec_add_writer]. unfold pipe_wf, is_u32, PipeObject.add_reader, PipeObject.add_writer, saturating_add in *.
    cbn [buf head len readers writers].
    split_and!; lia.
Qed.

(** ** Sequences of operations *)

Fixpoint pipe_run (s : PipeState) (ops : list PipeOp)
    : list (PipeOp * PipeObs) * PipeState :=
  match ops with
  | [] => ([], s)
  | op :: ops' =>
      let '(obs, s1) := pipe_exec s op in
      let '(trace, s2) := pipe_run s1 ops' in
      ((op, obs) :: trace, s2)
  end.

Inductive pipe_spec_run : PipeSpec -> list (PipeOp * PipeObs) -> PipeSpec -> Prop :=
| spec_run_nil q : pipe_spec_run q [] q
| spec_run_cons q q1 q2 op obs trace :
    pipe_spec_step q op obs q1 -> pipe_spec_run q1 trace q2 ->
    pipe_spec_run q ((op, obs) :: trace) q2.

Lemma pipe_run_refines s ops trace s' :
  pipe_wf s -> pipe_run s ops = (trace, s') ->
  pipe_wf s' /\ pipe_spec_run (pipe_abs s) trace (pipe_abs s').
Proof.
  revert s trace. induction ops as [|op ops IH]; intros s trace Hwf Hrun; simpl in Hrun.
  { simplify_eq. split; [done|constructor]. }
  destruct (pipe_exec s op) as [obs s1] eqn:E1.
  destruct (pipe_run s1 ops) as [trace1 s2] eqn:E2. simplify_eq.
  destruct (pipe_exec_refines _ _ _ _ Hwf E1) as [Hwf1 Hstep].
  destruct (IH _ _ Hwf1 E2) as [Hwf2 Hrun]. split; [done|by econstructor].
Qed.

(** C8: the ring buffer implements a byte stream.  For every sequence of
    operations on a well-formed pipe, the indices stay in range and the
    reference counts within [u32], and the results are those of the abstract
    pipe on the queue of bytes in flight: reads return a non-empty prefix in
    order, end of stream is reported exactly when the queue is empty and no
    writer remains, writes append a prefix that is everything or fills the
    buffer, [BrokenPipe] means no reader and [WouldBlock] a full buffer. *)
Theorem pipe_refines_byte_stream (s s' : PipeState) (ops : list PipeOp) trace :
  pipe_wf s -> pipe_run s ops = (trace, s') ->
  pipe_wf s' /\ pipe_spec_run (pipe_abs s) trace (pipe_abs s').
Proof. apply pipe_run_refines. Qed.

(** The bytes a read delivers and the bytes a write accepts. *)
Definition delivered (obs : PipeObs) : list Z :=
  match obs with
  | ObsRead (ReadBytes n) out => take (Z.to_nat n) out
  | _ => []
  end.

Definition accepted (op : PipeOp) (obs : PipeObs) : list Z :=
  match op, obs with
  | OpWrite bytes, ObsWrite (WriteBytes n) => take (Z.to_nat n) bytes
  | _, _ => []
  end.

Definition delivered_trace (trace : list (PipeOp * PipeObs)) : list Z :=
  concat ((fun p => delivered p.2) <$> trace).
Definition accepted_trace (trace : list (PipeOp * PipeObs)) : list Z :=
  concat ((fun p => accepted p.1 p.2) <$> trace).

Lemma spec_step_conserves q op obs q' :
  pipe_spec_step q op obs q' ->
  stream q ++ accepted op obs = delivered obs ++ stream q'.
Proof.
  destruct 1; simpl; rewrite ?app_nil_r; try done.
  - unfold copy_into, zlen. rewrite Nat2Z.id. simpl. by rewrite take_app_length.
  - unfold zlen. by rewrite Nat2Z.id, take_app_length.
Qed.

(** bytes come out in the order they went in, none lost, duplicated or
    invented: over any sequence of operations, the bytes in flight at the
    start followed by the bytes the writes accepted are the bytes the reads
    delivered followed by the bytes still in flight. *)
Theorem pipe_stream_in_order (s s' : PipeState) (ops : list PipeOp) trace :
  pipe_wf s -> pipe_run s ops = (trace, s') ->
  pipe_contents s ++ accepted_trace trace = delivered_trace trace ++ pipe_contents s'.
Proof.
  intros Hwf Hrun. destruct (pipe_run_refines _ _ _ _ Hwf Hrun) as [_ Hspec].
  change (stream (pipe_abs s) ++ accepted_trace trace =
          delivered_trace trace ++ stream (pipe_abs s')).
  clear Hwf Hrun. induction Hspec as [q|q q1 q2 op obs trace Hstep _ IH].
  { apply app_nil_r. }
  change (accepted_trace ((op, obs) :: trace)) with (accepted op obs ++ accepted_trace trace).
  change (delivered_trace ((op, obs) :: trace)) with (delivered obs ++ delivered_trace trace).
  by rewrite app_assoc, (spec_step_conserves _ _ _ _ Hstep), <- !app_assoc, IH.
Qed.

(** *** Witnesses *)

Lemma pipe_new_wf : pipe_wf PipeObject.new.
Proof.
  split; [|vm_compute; intuition discriminate].
  unfold zlen. cbn [PipeObject.new buf]. rewrite length_replicate.
  pose proof PIPE_BUFFER_BYTES_pos. lia.
Qed.

Definition example_ops : list PipeOp :=
  [OpWrite [104; 105; 33]; OpRead [0; 0]; OpCloseWriter; OpRead [0; 0]; OpRead [0]].

Lemma pipe_refines_byte_stream_witness :
  pipe_wf (pipe_run PipeObject.new example_ops).2 /\
  pipe_spec_run (pipe_abs PipeObject.new) (pipe_run PipeObject.new example_ops).1
    (pipe_abs (pipe_run PipeObject.new example_ops).2).
Proof.
  apply (pipe_refines_byte_stream PipeObject.new _ example_ops).
  - exact pipe_new_wf.
  - apply surjective_pairing.
Defined.

Lemma pipe_stream_in_order_witness :
  (pipe_run PipeObject.new example_ops).1 =
    [(OpWrite [104; 105; 33], ObsWrite (WriteBytes 3));
     (OpRead [0; 0], ObsRead (ReadBytes 2) [104; 105]);
     (OpCloseWriter, ObsClosed true);
     (OpRead [0; 0], ObsRead (ReadBytes 1) [33; 0]);
     (OpRead [0], ObsRead EndOfStream [0])] /\
  pipe_contents PipeObject.new ++ accepted_trace (pipe_run PipeObject.new example_ops).1 =
  delivered_trace (pipe_run PipeObject.new example_ops).1 ++
    pipe_contents (pipe_run PipeObject.new example_ops).2.
Proof.
  split; [vm_compute; reflexivity|].
  apply (pipe_stream_in_order PipeObject.new _ example_ops).
  - exact pipe_new_wf.
  - apply surjective_pairing.
Defined.
