(* ===== verification/Arrays.v ===== *)
(** * Fixed-size tables with a live prefix

    The kernel keeps several tables as a fixed array and a count of the slots
    in use ([EarlyFrameAllocator::reclaimed], [FreeListAllocator::regions]).
    Slots are opened and closed by element-wise shift loops; this file models
    the loops as the source writes them and relates them to insertion into and
    deletion from the live prefix. *)

From S2P Require Import Prelude.
From stdpp Require Import base list.
From Stdlib Require Import Lia.

Section arrays.
Context {A : Type} `{Inhabited A}.
Implicit Types a : list A.

(** [for c in from..to { a[c] = a[c + 1]; }] *)
Definition shift_left a (from to : nat) : list A :=
  foldl (fun a c => <[c := a !!! (c + 1)]> a) a (seq from (to - from)).

(** [for c in (from..to).rev() { a[c + 1] = a[c]; }] *)
Definition shift_right a (from to : nat) : list A :=
  foldl (fun a c => <[c + 1 := a !!! c]> a) a (rev (seq from (to - from))).

Lemma length_shift_left a from to : length (shift_left a from to) = length a.
Proof.
  unfold shift_left. generalize (seq from (to - from)) as l. intros l. revert a.
  induction l as [|c l IH]; intros a; simpl; [done|]. by rewrite IH, length_insert.
Qed.

Lemma length_shift_right a from to : length (shift_right a from to) = length a.
Proof.
  unfold shift_right. generalize (rev (seq from (to - from))) as l. intros l. revert a.
  induction l as [|c l IH]; intros a; simpl; [done|]. by rewrite IH, length_insert.
Qed.

Lemma shift_left_lookup a from to i :
  to <= length a ->
  shift_left a from to !!! i =
  if decide (from <= i < to) then a !!! (i + 1) else a !!! i.
Proof.
  intros Hto. unfold shift_left.
  assert (forall n, from + n <= length a -> forall i,
    foldl (fun a c => <[c := a !!! (c + 1)]> a) a (seq from n) !!! i =
    if decide (from <= i < from + n) then a !!! (i + 1) else a !!! i) as Hn.
  { induction n as [|n IH]; intros Hle j.
    { simpl. rewrite decide_False by lia. done. }
    rewrite seq_S, foldl_app. simpl.
    set (a' := foldl _ a (seq from n)) in *.
    assert (length a' = length a) as Hlen.
    { pose proof (length_shift_left a from (from + n)) as Hl. unfold shift_left in Hl.
      by replace (from + n - from) with n in Hl by lia. }
    destruct (decide (j = from + n)) as [->|Hne].
    - rewrite list_lookup_total_insert_eq by lia. rewrite IH by lia.
      rewrite !decide_False by lia. by rewrite decide_True by lia.
    - rewrite list_lookup_total_insert_ne by done. rewrite IH by lia.
      repeat case_decide; (done || lia). }
  destruct (decide (from <= to)).
  - rewrite Hn by lia. repeat case_decide; (done || lia).
  - replace (to - from) with 0 by lia. simpl. rewrite decide_False by lia. done.
Qed.

Lemma shift_right_lookup a from to i :
  to < length a -> from <= to ->
  shift_right a from to !!! i =
  if decide (from < i <= to) then a !!! (i - 1) else a !!! i.
Proof.
  intros Hto Hft. unfold shift_right.
  remember (to - from) as n eqn:Hn. revert from Hft Hn i.
  induction n as [|n IH]; intros from Hft Hn i; simpl.
  { rewrite decide_False by lia. done. }
  rewrite foldl_app. simpl.
  set (a' := foldl _ a (rev (seq (S from) n))) in *.
  assert (length a' = length a) as Hlen.
  { pose proof (length_shift_right a (S from) to) as Hl. unfold shift_right in Hl.
    by replace (to - S from) with n in Hl by lia. }
  destruct (decide (i = from + 1)) as [->|Hne].
  - rewrite list_lookup_total_insert_eq by lia. unfold a'. rewrite IH by lia.
    rewrite decide_False by lia. rewrite decide_True by lia. f_equal. lia.
  - rewrite list_lookup_total_insert_ne by done. unfold a'. rewrite IH by lia.
    repeat case_decide; (done || lia).
Qed.

(** Closing slot [i] of the live prefix deletes it; opening slot [i] inserts. *)
Lemma take_shift_left a i count :
  i < count -> count <= length a ->
  take (count - 1) (shift_left a i (count - 1)) = delete i (take count a).
Proof.
  intros Hi Hc. apply list_eq_same_length with (count - 1).
  - rewrite length_delete by (apply lookup_lt_is_Some; rewrite length_take; lia).
    rewrite length_take. lia.
  - rewrite length_take, length_shift_left. lia.
  - intros j x y Hj Hx Hy. rewrite lookup_take_lt in Hx by lia.
    apply list_lookup_total_correct in Hx. rewrite shift_left_lookup in Hx by lia.
    destruct (decide (j < i)).
    + rewrite list_lookup_delete_lt, lookup_take_lt in Hy by lia.
      apply list_lookup_total_correct in Hy. rewrite decide_False in Hx by lia. congruence.
    + rewrite list_lookup_delete_ge, lookup_take_lt in Hy by lia.
      apply list_lookup_total_correct in Hy. rewrite decide_True in Hx by lia.
      replace (S j) with (j + 1) in Hy by lia. congruence.
Qed.

Lemma take_shift_right a i count x :
  i <= count -> count < length a ->
  take (count + 1) (<[i := x]> (shift_right a i count)) =
  take i a ++ x :: drop i (take count a).
Proof.
  intros Hi Hc. apply list_eq_same_length with (count + 1).
  - rewrite length_app. simpl. rewrite length_drop, !length_take. lia.
  - rewrite length_take, length_insert, length_shift_right. lia.
  - intros j y z Hj Hy Hz. rewrite lookup_take_lt in Hy by lia.
    destruct (decide (j = i)) as [->|Hne].
    { rewrite list_lookup_insert_eq in Hy by (rewrite length_shift_right; lia).
      rewrite lookup_app_r in Hz by (rewrite length_take; lia).
      rewrite length_take, Nat.min_l, Nat.sub_diag in Hz by lia. simpl in Hz. congruence. }
    rewrite list_lookup_insert_ne in Hy by done.
    apply list_lookup_total_correct in Hy. rewrite shift_right_lookup in Hy by lia.
    destruct (decide (j < i)).
    + rewrite lookup_app_l, lookup_take_lt in Hz by (rewrite ?length_take; lia).
      apply list_lookup_total_correct in Hz. rewrite decide_False in Hy by lia. congruence.
    + rewrite lookup_app_r in Hz by (rewrite length_take; lia).
      rewrite length_take, Nat.min_l in Hz by lia.
      destruct (j - i) as [|k] eqn:Hk; [lia|]. simpl in Hz.
      rewrite lookup_drop, lookup_take_lt in Hz by lia.
      apply list_lookup_total_correct in Hz. rewrite decide_True in Hy by lia.
      replace (j - 1) with (i + k) in Hy by lia. congruence.
Qed.

Lemma delete_insert_same a i x : delete i (<[i := x]> a) = delete i a.
Proof.
  revert i. induction a as [|y a IH]; intros [|i]; [done..|].
  exact (f_equal (cons y) (IH i)).
Qed.

Lemma delete_insert_before a i j x :
  i < j -> delete j (<[i := x]> a) = <[i := x]> (delete j a).
Proof.
  revert i j. induction a as [|y a IH]; intros [|i] [|j] Hij; [done || lia..|].
  exact (f_equal (cons y) (IH i j ltac:(lia))).
Qed.

End arrays.

#[global] Arguments shift_left : simpl never.
#[global] Arguments shift_right : simpl never.
