(* ===== verification/MemTypes.v ===== *)
(** * Memory vocabulary

    Models [kernel/core/src/memory/types.rs], [layout.rs], [address_space.rs]
    and the boot memory map of [kernel/core/src/bootstrap/types.rs].  A
    physical or virtual address is a [Z] in [u64] range.  An operation whose
    arithmetic the source leaves unchecked returns [option]; [None] is the
    overflow panic of a build with overflow checks. *)

From S2P Require Import Prelude.
From stdpp Require Import base list.
From Stdlib Require Import ZArith Lia.

#[local] Open Scope Z_scope.

Definition PAGE_SIZE_BYTES : Z := 4096.

Module PhysicalAddress.

Definition align_up (address align : Z) : option Z :=
  let remainder := address mod align in
  if remainder =? 0 then Some address
  else checked_add U64_MAX address (align - remainder).

Definition align_down (address align : Z) : Z := address - address mod align.

End PhysicalAddress.

Module VirtualAddress.

Definition offset (address bytes : Z) : option Z := checked_add U64_MAX address bytes.

End VirtualAddress.

Inductive PageSize := Size4KiB | Size2MiB | Size1GiB.

Definition PageSize_bytes (size : PageSize) : Z :=
  match size with
  | Size4KiB => 4 * 1024
  | Size2MiB => 2 * 1024 * 1024
  | Size1GiB => 1024 * 1024 * 1024
  end.

Inductive MemoryUse :=
| KernelText | KernelData | KernelStack | KernelHeap | KernelObjects
| UserPrivate | Shared | DeviceMmio.

Record VirtualMemoryRange := mkVirtualMemoryRange {
  vrange_start : Z;
  vrange_end : Z;
  use_class : MemoryUse;
}.

Module VirtualMemoryRange.

(** [self.end - self.start]: the subtraction is checked. *)
Definition size_bytes (range : VirtualMemoryRange) : option Z :=
  if vrange_start range <=? vrange_end range
  then Some (vrange_end range - vrange_start range) else None.

Definition page_count_4kib (range : VirtualMemoryRange) : option Z :=
  size ← size_bytes range; Some (size / PAGE_SIZE_BYTES).

End VirtualMemoryRange.

Record Frame := mkFrame {
  frame_base : Z;
  frame_size : PageSize;
}.

Module MappingFlags.

Definition WRITABLE : Z := Z.shiftl 1 0.
Definition EXECUTABLE : Z := Z.shiftl 1 1.
Definition USER_ACCESSIBLE : Z := Z.shiftl 1 2.
Definition GLOBAL : Z := Z.shiftl 1 3.

Definition empty : Z := 0.
Definition contains (self other : Z) : bool := Z.land self other =? other.
Definition kernel_data : Z := Z.lor WRITABLE GLOBAL.
Definition bitor (self rhs : Z) : Z := Z.lor self rhs.

End MappingFlags.

Inductive MappingError :=
| AddressAlignment | AlreadyMapped | FrameAllocationFailed | MappingUnsupported.

(** ** Boot memory map *)

Inductive BootMemoryRegionKind :=
| Usable | BootServicesReclaimable | BootloaderOwned | AcpiReclaimable
| FirmwareReserved | Device | Reserved | Unknown (code : Z).

#[export] Instance BootMemoryRegionKind_eq_dec : EqDecision BootMemoryRegionKind.
Proof. solve_decision. Defined.

Record BootMemoryRegion := mkBootMemoryRegion {
  region_start : Z;
  region_end : Z;
  region_kind : BootMemoryRegionKind;
}.

(** The part of [BootContext] the memory subsystem reads. *)
Record BootContext := mkBootContext {
  memory_regions : list BootMemoryRegion;
  memory_map_available : bool;
}.

(** ** Kernel virtual layout *)

Definition USER_SPACE_START : Z := 0x1000.
Definition USER_SPACE_END : Z := 0x800000000000.
Definition KERNEL_PHYSICAL_WINDOW_START : Z := 0xffff800000000000.
Definition KERNEL_PHYSICAL_WINDOW_END : Z := 0xffffc00000000000.
Definition KERNEL_HEAP_START : Z := 0xffffc10000000000.
Definition KERNEL_HEAP_END : Z := 0xffffc10004000000.
Definition KERNEL_OBJECTS_START : Z := 0xffffc20000000000.
Definition KERNEL_OBJECTS_END : Z := 0xffffc20100000000.

Record KernelVirtualLayout := mkKernelVirtualLayout {
  user_range : VirtualMemoryRange;
  physical_window : VirtualMemoryRange;
  layout_heap : VirtualMemoryRange;
  kernel_objects : VirtualMemoryRange;
}.

Module KernelVirtualLayout.

Definition bootstrap_default : KernelVirtualLayout := {|
  user_range := mkVirtualMemoryRange USER_SPACE_START USER_SPACE_END UserPrivate;
  physical_window := mkVirtualMemoryRange KERNEL_PHYSICAL_WINDOW_START
                       KERNEL_PHYSICAL_WINDOW_END KernelData;
  layout_heap := mkVirtualMemoryRange KERNEL_HEAP_START KERNEL_HEAP_END KernelHeap;
  kernel_objects := mkVirtualMemoryRange KERNEL_OBJECTS_START KERNEL_OBJECTS_END
                      KernelObjects;
|}.

Definition kernel_reserved_start (layout : KernelVirtualLayout) : Z :=
  vrange_start (physical_window layout).

Definition kernel_reserved_end (layout : KernelVirtualLayout) : Z :=
  vrange_end (kernel_objects layout).

End KernelVirtualLayout.

Record KernelAddressSpace := mkKernelAddressSpace {
  root_level_4_frame : Z;
  address_space_layout : KernelVirtualLayout;
}.

(** ** Alignment lemmas *)

Lemma align_up_spec address align aligned :
  0 < align -> 0 <= address ->
  PhysicalAddress.align_up address align = Some aligned ->
  address <= aligned < address + align /\ aligned mod align = 0.
Proof.
  unfold PhysicalAddress.align_up. intros Ha H0 Hup.
  pose proof (Z.mod_pos_bound address align Ha).
  destruct (Z.eqb_spec (address mod align) 0); simplify_eq; [lia|].
  apply checked_add_Some in Hup as [-> _]. split; [lia|].
  replace (address + (align - address mod align))
    with ((address / align + 1) * align)
    by (pose proof (Z.div_mod address align); lia).
  apply Z.mod_mul. lia.
Qed.

Lemma align_down_spec address align :
  0 < align ->
  PhysicalAddress.align_down address align <= address /\
  PhysicalAddress.align_down address align mod align = 0.
Proof.
  unfold PhysicalAddress.align_down. intros Ha.
  pose proof (Z.mod_pos_bound address align Ha). split; [lia|].
  replace (address - address mod align) with (address / align * align)
    by (pose proof (Z.div_mod address align); lia).
  apply Z.mod_mul. lia.
Qed.
