(* ===== verification/FrameAllocator.v ===== *)
(** * Physical frame allocator

    Models [kernel/core/src/memory/phys.rs].  The two fixed tables are lists of
    their full length with the source's counters; a table index or count is a
    [nat], a frame number a [Z].  Frame counters are exact: no build runs long
    enough to wrap a [u64] counter of allocations.

    The theorems relate the allocator to the multiset of frames it may still
    hand out ([free_frames]) and to a ghost record of the frames callers hold. *)

From S2P Require Import Prelude Arrays MemTypes.
From stdpp Require Import base list sorting.
From stdpp Require Import relations.
From Stdlib Require Import ZArith Lia.

#[local] Open Scope Z_scope.

Definition MAX_ALLOCATABLE_REGIONS : nat := 128.
Definition MAX_RECLAIMED_REGIONS : nat := 256.

Inductive InitializationError :=
| MissingMemoryMap
| HeapAlreadyInitialized
| KernelHeapExhausted
| Mapping (error : MappingError)
| TooManyUsableRegions.

Record FrameRegionCursor := mkCursor {
  start_frame : Z;
  end_frame_exclusive : Z;
  next_frame : Z;
}.

#[export] Instance FrameRegionCursor_inhabited : Inhabited FrameRegionCursor :=
  populate (mkCursor 0 0 0).

Record FrameAllocatorStats := mkFrameAllocatorStats {
  stat_allocatable_regions : nat;
  stat_allocated_frames : Z;
  stat_remaining_frames : Z;
  stat_reclaimed_boot_service_frames : Z;
  stat_freed_frames_recorded : Z;
  stat_dropped_free_frames : Z;
}.

Record EarlyFrameAllocator := mkEarlyFrameAllocator {
  regions : list FrameRegionCursor;
  region_count : nat;
  active_region : nat;
  allocated_frames : Z;
  reclaimed_boot_service_frames : Z;
  reclaimed : list FrameRegionCursor;
  reclaimed_count : nat;
  freed_frames_recorded : Z;
  dropped_free_frames : Z;
}.

(** Outcome of the merge scan of [free_4kib]. *)
Inductive FreeScan :=
| AppendTo (index : nat)
| PrependTo (index : nat)
| InsertAt (index : nat).

Module EarlyFrameAllocator.

Definition push_region (table : list FrameRegionCursor) (count : nat) (start end_ : Z) :
    result (list FrameRegionCursor * nat) InitializationError :=
  if (count =? length table)%nat then Err TooManyUsableRegions
  else Ok (<[count := mkCursor start end_ start]> table, (count + 1)%nat).

(** The whole-page frame range of a boot region; [None] is the overflow of
    [align_up]. *)
Definition region_frames (region : BootMemoryRegion) : option (Z * Z) :=
  start ← PhysicalAddress.align_up (region_start region) PAGE_SIZE_BYTES;
  let end_ := PhysicalAddress.align_down (region_end region) PAGE_SIZE_BYTES in
  Some (start / PAGE_SIZE_BYTES, end_ / PAGE_SIZE_BYTES).

(** The loop body shared by [from_boot_context] and [reclaim_boot_services]:
    push every region of [kind] that holds a whole page, adding its frames to
    the running total.  On an error the table is as the loop left it. *)
Fixpoint push_regions (kind : BootMemoryRegionKind) (rs : list BootMemoryRegion)
    (table : list FrameRegionCursor) (count : nat) (frames : Z) :
    option (list FrameRegionCursor * nat * result Z InitializationError) :=
  match rs with
  | [] => Some (table, count, Ok frames)
  | region :: rs =>
      if bool_decide (region_kind region = kind) then
        '(start, end_) ← region_frames region;
        if end_ <=? start then push_regions kind rs table count frames
        else
          match push_region table count start end_ with
          | Err e => Some (table, count, Err e)
          | Ok (table', count') =>
              push_regions kind rs table' count'
                (saturating_add U64_MAX frames (end_ - start))
          end
      else push_regions kind rs table count frames
  end.

Definition from_boot_context (ctx : BootContext) :
    option (result EarlyFrameAllocator InitializationError) :=
  '(table, count, r) ← push_regions Usable (memory_regions ctx)
                         (replicate MAX_ALLOCATABLE_REGIONS (mkCursor 0 0 0)) 0 0;
  match r with
  | Err e => Some (Err e)
  | Ok _ =>
      Some (Ok {|
        regions := table;
        region_count := count;
        active_region := 0;
        allocated_frames := 0;
        reclaimed_boot_service_frames := 0;
        reclaimed := replicate MAX_RECLAIMED_REGIONS (mkCursor 0 0 0);
        reclaimed_count := 0;
        freed_frames_recorded := 0;
        dropped_free_frames := 0;
      |})
  end.

Definition with_regions (a : EarlyFrameAllocator) table count active :=
  {| regions := table;
     region_count := count;
     active_region := active;
     allocated_frames := allocated_frames a;
     reclaimed_boot_service_frames := reclaimed_boot_service_frames a;
     reclaimed := reclaimed a;
     reclaimed_count := reclaimed_count a;
     freed_frames_recorded := freed_frames_recorded a;
     dropped_free_frames := dropped_free_frames a |}.

Definition with_reclaimed (a : EarlyFrameAllocator) table count :=
  {| regions := regions a;
     region_count := region_count a;
     active_region := active_region a;
     allocated_frames := allocated_frames a;
     reclaimed_boot_service_frames := reclaimed_boot_service_frames a;
     reclaimed := table;
     reclaimed_count := count;
     freed_frames_recorded := freed_frames_recorded a;
     dropped_free_frames := dropped_free_frames a |}.

Definition with_counters (a : EarlyFrameAllocator) allocated boot freed dropped :=
  {| regions := regions a;
     region_count := region_count a;
     active_region := active_region a;
     allocated_frames := allocated;
     reclaimed_boot_service_frames := boot;
     reclaimed := reclaimed a;
     reclaimed_count := reclaimed_count a;
     freed_frames_recorded := freed;
     dropped_free_frames := dropped |}.

Definition note_allocated (a : EarlyFrameAllocator) :=
  with_counters a (allocated_frames a + 1) (reclaimed_boot_service_frames a)
    (freed_frames_recorded a) (dropped_free_frames a).

Definition note_freed (a : EarlyFrameAllocator) :=
  with_counters a (allocated_frames a) (reclaimed_boot_service_frames a)
    (freed_frames_recorded a + 1) (dropped_free_frames a).

Definition note_dropped (a : EarlyFrameAllocator) :=
  with_counters a (allocated_frames a) (reclaimed_boot_service_frames a)
    (freed_frames_recorded a) (dropped_free_frames a + 1).

Definition reclaim_boot_services (a : EarlyFrameAllocator) (ctx : BootContext) :
    option (EarlyFrameAllocator * result Z InitializationError) :=
  '(table, count, r) ← push_regions BootServicesReclaimable (memory_regions ctx)
                         (regions a) (region_count a) 0;
  let a' := with_regions a table count (active_region a) in
  match r with
  | Err e => Some (a', Err e)
  | Ok frames =>
      Some (with_counters a' (allocated_frames a)
              (saturating_add U64_MAX (reclaimed_boot_service_frames a) frames)
              (freed_frames_recorded a) (dropped_free_frames a), Ok frames)
  end.

(** First index from [index] on, within [fuel] slots, whose cursor still has
    frames to hand out. *)
Fixpoint first_available (table : list FrameRegionCursor) (index fuel : nat) : option nat :=
  match fuel with
  | O => None
  | S fuel =>
      let region := table !!! index in
      if next_frame region <? end_frame_exclusive region then Some index
      else first_available table (index + 1) fuel
  end.

Definition advance (region : FrameRegionCursor) : FrameRegionCursor :=
  mkCursor (start_frame region) (end_frame_exclusive region) (next_frame region + 1).

Definition frame_at (region : FrameRegionCursor) : Frame :=
  mkFrame (next_frame region * PAGE_SIZE_BYTES) Size4KiB.

Definition allocate_4kib (a : EarlyFrameAllocator) : option Frame * EarlyFrameAllocator :=
  match first_available (reclaimed a) 0 (reclaimed_count a) with
  | Some index =>
      let region := reclaimed a !!! index in
      (Some (frame_at region),
       note_allocated (with_reclaimed a (<[index := advance region]> (reclaimed a))
                         (reclaimed_count a)))
  | None =>
      match first_available (regions a) (active_region a)
              (region_count a - active_region a) with
      | Some index =>
          let region := regions a !!! index in
          (Some (frame_at region),
           note_allocated (with_regions a (<[index := advance region]> (regions a))
                             (region_count a) index))
      | None =>
          (None, with_regions a (regions a) (region_count a)
                   (Nat.max (active_region a) (region_count a)))
      end
  end.

Definition remove_reclaimed (a : EarlyFrameAllocator) (index : nat) : EarlyFrameAllocator :=
  with_reclaimed a (shift_left (reclaimed a) index (reclaimed_count a - 1))
    (reclaimed_count a - 1).

Definition set_end (region : FrameRegionCursor) (end_ : Z) : FrameRegionCursor :=
  mkCursor (start_frame region) end_ (next_frame region).

Definition absorb_right (a : EarlyFrameAllocator) (index : nat) : EarlyFrameAllocator :=
  let region := reclaimed a !!! index in
  let right := reclaimed a !!! (index + 1)%nat in
  if ((index + 1 <? reclaimed_count a)%nat
      && (end_frame_exclusive region =? start_frame right))%bool
  then
    remove_reclaimed
      (with_reclaimed a (<[index := set_end region (end_frame_exclusive right)]> (reclaimed a))
         (reclaimed_count a))
      (index + 1)
  else a.

Definition absorb_left (a : EarlyFrameAllocator) (index : nat) : EarlyFrameAllocator :=
  let region := reclaimed a !!! index in
  let left := reclaimed a !!! (index - 1)%nat in
  if ((0 <? index)%nat && (end_frame_exclusive left =? start_frame region))%bool
  then
    remove_reclaimed
      (with_reclaimed a
         (<[(index - 1)%nat := set_end left (end_frame_exclusive region)]> (reclaimed a))
         (reclaimed_count a))
      index
  else a.

(** The scan of [free_4kib] from [index] on, [fuel] slots to go. *)
Fixpoint free_scan (table : list FrameRegionCursor) (count : nat) (frame : Z)
    (index insert_at fuel : nat) : FreeScan :=
  match fuel with
  | O => InsertAt insert_at
  | S fuel =>
      let region := table !!! index in
      if end_frame_exclusive region =? frame then AppendTo index
      else if ((start_frame region =? frame + 1)
               && (next_frame region =? start_frame region))%bool then PrependTo index
      else
        free_scan table count frame (index + 1)
          (if ((frame <? start_frame region) && (insert_at =? count)%nat)%bool
           then index else insert_at) fuel
  end.

Definition scan (a : EarlyFrameAllocator) (frame : Z) : FreeScan :=
  free_scan (reclaimed a) (reclaimed_count a) frame 0 (reclaimed_count a)
    (reclaimed_count a).

Definition free_4kib (a : EarlyFrameAllocator) (base : Z) : bool * EarlyFrameAllocator :=
  if negb (base mod PAGE_SIZE_BYTES =? 0) then (false, a)
  else
    let frame := base / PAGE_SIZE_BYTES in
    match scan a frame with
    | AppendTo index =>
        let region := reclaimed a !!! index in
        let a1 := with_reclaimed a
                    (<[index := set_end region (end_frame_exclusive region + 1)]> (reclaimed a))
                    (reclaimed_count a) in
        (true, note_freed (absorb_right a1 index))
    | PrependTo index =>
        let region := reclaimed a !!! index in
        let a1 := with_reclaimed a
                    (<[index := mkCursor frame (end_frame_exclusive region) frame]> (reclaimed a))
                    (reclaimed_count a) in
        (true, note_freed (absorb_left a1 index))
    | InsertAt index =>
        if (reclaimed_count a =? MAX_RECLAIMED_REGIONS)%nat then (false, note_dropped a)
        else
          (true,
           note_freed
             (with_reclaimed a
                (<[index := mkCursor frame (frame + 1) frame]>
                   (shift_right (reclaimed a) index (reclaimed_count a)))
                (reclaimed_count a + 1)))
    end.

Definition sum_available (table : list FrameRegionCursor) : Z :=
  foldr Z.add 0 ((fun region => end_frame_exclusive region - next_frame region) <$> table).

Definition remaining_frames (a : EarlyFrameAllocator) : Z :=
  sum_available (take (region_count a) (regions a)).

Definition reclaimable_frames (a : EarlyFrameAllocator) : Z :=
  sum_available (take (reclaimed_count a) (reclaimed a)).

Definition usable_headroom_frames (a : EarlyFrameAllocator) : Z :=
  remaining_frames a + reclaimable_frames a.

Definition stats (a : EarlyFrameAllocator) : FrameAllocatorStats := {|
  stat_allocatable_regions := region_count a;
  stat_allocated_frames := allocated_frames a;
  stat_remaining_frames := remaining_frames a;
  stat_reclaimed_boot_service_frames := reclaimed_boot_service_frames a;
  stat_freed_frames_recorded := freed_frames_recorded a;
  stat_dropped_free_frames := dropped_free_frames a;
|}.

End EarlyFrameAllocator.

(** ** Free frames and well-formedness *)

Definition cursor_frames (c : FrameRegionCursor) : list Z :=
  seqZ (next_frame c) (end_frame_exclusive c - next_frame c).

Definition table_frames (table : list FrameRegionCursor) : list Z :=
  table ≫= cursor_frames.

#[global] Arguments table_frames : simpl never.
#[global] Arguments cursor_frames : simpl never.

Definition free_frames (a : EarlyFrameAllocator) : list Z :=
  table_frames (take (reclaimed_count a) (reclaimed a)) ++
  table_frames (take (region_count a) (regions a)).

Definition cursor_wf (c : FrameRegionCursor) : Prop :=
  start_frame c <= next_frame c <= end_frame_exclusive c.

#[export] Instance cursor_wf_dec c : Decision (cursor_wf c).
Proof. unfold cursor_wf. apply _. Defined.

Record alloc_wf (a : EarlyFrameAllocator) : Prop := {
  awf_regions_len : length (regions a) = MAX_ALLOCATABLE_REGIONS;
  awf_region_count : (region_count a <= MAX_ALLOCATABLE_REGIONS)%nat;
  awf_active : (active_region a <= region_count a)%nat;
  awf_exhausted : table_frames (take (active_region a) (regions a)) = [];
  awf_regions : Forall cursor_wf (take (region_count a) (regions a));
  awf_reclaimed_len : length (reclaimed a) = MAX_RECLAIMED_REGIONS;
  awf_reclaimed_count : (reclaimed_count a <= MAX_RECLAIMED_REGIONS)%nat;
  awf_reclaimed : Forall cursor_wf (take (reclaimed_count a) (reclaimed a));
}.

Section tables.
Implicit Types (t : list FrameRegionCursor) (c : FrameRegionCursor).

Lemma table_frames_delete t i c :
  t !! i = Some c -> table_frames t ≡ₚ cursor_frames c ++ table_frames (delete i t).
Proof.
  intros Hi. unfold table_frames. rewrite (delete_Permutation t i c Hi) at 1. done.
Qed.

Lemma table_frames_insert t i c :
  (i < length t)%nat ->
  table_frames (<[i := c]> t) ≡ₚ cursor_frames c ++ table_frames (delete i t).
Proof.
  intros Hi. rewrite (table_frames_delete _ i c) by (by apply list_lookup_insert_eq).
  by rewrite delete_insert_same.
Qed.

Lemma cursor_frames_advance c :
  next_frame c < end_frame_exclusive c ->
  cursor_frames c = next_frame c :: cursor_frames (EarlyFrameAllocator.advance c).
Proof.
  intros Hlt. unfold cursor_frames, EarlyFrameAllocator.advance. cbn [next_frame end_frame_exclusive].
  rewrite seqZ_cons by lia. do 2 f_equal; lia.
Qed.

Lemma cursor_frames_set_end c m :
  cursor_wf c -> end_frame_exclusive c <= m ->
  cursor_frames (EarlyFrameAllocator.set_end c m) =
  cursor_frames c ++ seqZ (end_frame_exclusive c) (m - end_frame_exclusive c).
Proof.
  unfold cursor_wf, cursor_frames, EarlyFrameAllocator.set_end. intros Hwf Hm.
  cbn [next_frame end_frame_exclusive].
  replace (m - next_frame c)
    with ((end_frame_exclusive c - next_frame c) + (m - end_frame_exclusive c)) by lia.
  rewrite seqZ_app by lia. do 2 f_equal; lia.
Qed.

Lemma cursor_frames_exhausted c :
  end_frame_exclusive c <= next_frame c -> cursor_frames c = [].
Proof. intros. unfold cursor_frames. apply seqZ_nil. lia. Qed.

Lemma first_available_Some t index fuel i :
  EarlyFrameAllocator.first_available t index fuel = Some i ->
  (index <= i < index + fuel)%nat /\
  next_frame (t !!! i) < end_frame_exclusive (t !!! i) /\
  forall j, (index <= j < i)%nat -> end_frame_exclusive (t !!! j) <= next_frame (t !!! j).
Proof.
  revert index. induction fuel as [|fuel IH]; intros index; simpl; [done|].
  destruct (Z.ltb_spec (next_frame (t !!! index)) (end_frame_exclusive (t !!! index)));
    intros Hf; simplify_eq.
  - split_and!; [lia|lia|done|intros; lia].
  - apply IH in Hf as (Hi & Hlt & Hpre). split_and!; [lia|lia|done|].
    intros j Hj. destruct (decide (j = index)) as [->|]; [done|]. apply Hpre. lia.
Qed.

Lemma first_available_None t index fuel j :
  EarlyFrameAllocator.first_available t index fuel = None ->
  (index <= j < index + fuel)%nat -> end_frame_exclusive (t !!! j) <= next_frame (t !!! j).
Proof.
  revert index. induction fuel as [|fuel IH]; intros index; simpl; [lia|].
  destruct (Z.ltb_spec (next_frame (t !!! index)) (end_frame_exclusive (t !!! index)));
    intros Hf Hj; simplify_eq.
  destruct (decide (j = index)) as [->|]; [done|]. apply (IH (index + 1)%nat); [done|lia].
Qed.

(** A prefix whose slots are all exhausted has no frames. *)
Lemma table_frames_nil t :
  (forall j, (j < length t)%nat -> end_frame_exclusive (t !!! j) <= next_frame (t !!! j)) ->
  table_frames t = [].
Proof.
  intros Hall. induction t as [|c t IH]; [done|].
  change (cursor_frames c ++ table_frames t = []).
  rewrite cursor_frames_exhausted, IH; [done| |].
  - intros j Hj. apply (Hall (S j)). simpl. lia.
  - apply (Hall 0%nat). simpl. lia.
Qed.

Lemma table_frames_exhausted t j :
  table_frames t = [] -> (j < length t)%nat ->
  end_frame_exclusive (t !!! j) <= next_frame (t !!! j).
Proof.
  intros Hnil Hj. destruct (lookup_lt_is_Some_2 t j Hj) as [c Hc].
  rewrite (list_lookup_total_correct _ _ _ Hc).
  pose proof (table_frames_delete _ _ _ Hc) as Hp. rewrite Hnil in Hp.
  apply Permutation_nil_l, eq_sym, app_eq_nil in Hp as [Hp _].
  destruct (Z.lt_ge_cases (next_frame c) (end_frame_exclusive c)); [|done].
  by rewrite cursor_frames_advance in Hp by done.
Qed.

(** Taking the first frame of live slot [i] out of a table. *)
Lemma table_frames_take_first t count i :
  (count <= length t)%nat -> (i < count)%nat ->
  next_frame (t !!! i) < end_frame_exclusive (t !!! i) ->
  Forall cursor_wf (take count t) ->
  let t' := <[i := EarlyFrameAllocator.advance (t !!! i)]> t in
  table_frames (take count t) ≡ₚ next_frame (t !!! i) :: table_frames (take count t') /\
  Forall cursor_wf (take count t').
Proof.
  intros Hc Hi Hlt Hwf t'. subst t'.
  assert (take count t !! i = Some (t !!! i)) as Hl.
  { rewrite lookup_take_lt by done. apply list_lookup_lookup_total_lt. lia. }
  rewrite take_insert_lt by done. split.
  - rewrite (table_frames_delete _ i (t !!! i)) by done.
    rewrite table_frames_insert by (rewrite length_take; lia).
    by rewrite cursor_frames_advance by done.
  - apply Forall_insert; [done|]. apply (Forall_lookup_1 _ _ _ _ Hwf) in Hl.
    unfold cursor_wf, EarlyFrameAllocator.advance in *. simpl. lia.
Qed.

End tables.

(** ** Allocation *)

Lemma take_insert_exhausted (t : list FrameRegionCursor) i n c :
  (n <= i)%nat -> table_frames (take n (<[i := c]> t)) = table_frames (take n t).
Proof. intros. by rewrite take_insert_ge. Qed.

(** One allocation takes exactly the frame it returns out of the free frames,
    and fails only when there is none. *)
Lemma frame_allocate_spec a :
  alloc_wf a ->
  match EarlyFrameAllocator.allocate_4kib a with
  | (Some f, a') =>
      alloc_wf a' /\
      exists n, f = mkFrame (n * PAGE_SIZE_BYTES) Size4KiB /\
                free_frames a ≡ₚ n :: free_frames a'
  | (None, a') => alloc_wf a' /\ free_frames a = [] /\ free_frames a' = []
  end.
Proof.
  intros [Hl1 Hc1 Hact Hex Hwf1 Hl2 Hc2 Hwf2].
  unfold EarlyFrameAllocator.allocate_4kib.
  destruct (EarlyFrameAllocator.first_available (reclaimed a) 0 _) as [i|] eqn:Hrec.
  { apply first_available_Some in Hrec as (Hi & Hlt & _).
    destruct (table_frames_take_first (reclaimed a) (reclaimed_count a) i)
      as [Hp Hw]; [lia|lia|done|done|].
    split; [constructor; cbn -[MAX_RECLAIMED_REGIONS]; try done; by rewrite length_insert|].
    exists (next_frame (reclaimed a !!! i)). split; [done|].
    unfold free_frames. cbn. by rewrite Hp. }
  assert (table_frames (take (reclaimed_count a) (reclaimed a)) = []) as Hnil.
  { apply table_frames_nil. intros j Hj. rewrite length_take in Hj.
    rewrite lookup_total_take_lt by lia. eapply first_available_None; [done|lia]. }
  destruct (EarlyFrameAllocator.first_available (regions a) _ _) as [i|] eqn:Hreg.
  - apply first_available_Some in Hreg as (Hi & Hlt & Hpre).
    destruct (table_frames_take_first (regions a) (region_count a) i)
      as [Hp Hw]; [lia|lia|done|done|].
    split.
    + constructor; cbn -[MAX_ALLOCATABLE_REGIONS]; try done; [by rewrite length_insert|lia|].
      rewrite take_insert_exhausted by done. apply table_frames_nil. intros j Hj.
      rewrite length_take in Hj. rewrite lookup_total_take_lt by lia.
      destruct (decide (j < active_region a)%nat); [|apply Hpre; lia].
      rewrite <- (lookup_total_take_lt _ (active_region a)) by done.
      apply table_frames_exhausted; [done|]. rewrite length_take. lia.
    + exists (next_frame (regions a !!! i)). split; [done|].
      unfold free_frames. cbn. by rewrite Hnil, Hp.
  - assert (table_frames (take (region_count a) (regions a)) = []) as Hnil'.
    { apply table_frames_nil. intros j Hj. rewrite length_take in Hj.
      rewrite lookup_total_take_lt by lia.
      destruct (decide (j < active_region a)%nat).
      - rewrite <- (lookup_total_take_lt _ (active_region a)) by done.
        apply table_frames_exhausted; [done|]. rewrite length_take. lia.
      - eapply first_available_None; [done|lia]. }
    unfold free_frames. cbn. rewrite Hnil, Hnil'. split_and!; [|done..].
    constructor; cbn -[MAX_ALLOCATABLE_REGIONS]; try done; [lia|].
    by rewrite Nat.max_r by lia.
Qed.

(** ** Freeing *)

(** The guard [absorb_right] does not have: the right neighbour it folds in
    has already handed out some of its frames. *)
Definition absorbs_consumed (a : EarlyFrameAllocator) (frame : Z) : bool :=
  match EarlyFrameAllocator.scan a frame with
  | AppendTo index =>
      let region := reclaimed a !!! index in
      let right := reclaimed a !!! (index + 1)%nat in
      ((index + 1 <? reclaimed_count a)%nat
       && (end_frame_exclusive region + 1 =? start_frame right)
       && negb (next_frame right =? start_frame right))%bool
  | _ => false
  end.

Lemma free_scan_spec t count frame index insert_at fuel :
  (count = index + fuel)%nat -> (insert_at <= count)%nat ->
  match EarlyFrameAllocator.free_scan t count frame index insert_at fuel with
  | AppendTo i => (index <= i < count)%nat /\ end_frame_exclusive (t !!! i) = frame
  | PrependTo i =>
      (index <= i < count)%nat /\ start_frame (t !!! i) = frame + 1 /\
      next_frame (t !!! i) = start_frame (t !!! i) /\
      forall j, (index <= j < i)%nat -> end_frame_exclusive (t !!! j) <> frame
  | InsertAt i => (i <= count)%nat
  end.
Proof.
  revert index insert_at. induction fuel as [|fuel IH]; intros index insert_at Hc Hins;
    simpl; [done|].
  destruct (Z.eqb_spec (end_frame_exclusive (t !!! index)) frame) as [|Hne].
  { split; [lia|done]. }
  destruct ((start_frame (t !!! index) =? frame + 1)
            && (next_frame (t !!! index) =? start_frame (t !!! index)))%bool eqn:Hpre.
  { apply andb_prop in Hpre as [H1%Z.eqb_eq H2%Z.eqb_eq].
    split_and!; [lia|lia|done|done|intros; lia]. }
  set (ins := if (_ && _)%bool then index else insert_at).
  assert (ins <= count)%nat as Hins' by (subst ins; case_match; lia).
  specialize (IH (index + 1)%nat ins ltac:(lia) Hins').
  destruct (EarlyFrameAllocator.free_scan _ _ _ _ _ _) as [i|i|i]; [naive_solver lia| |done].
  destruct IH as (Hi & Hs & Hn & Hj). split_and!; [lia|lia|done|done|].
  intros j Hj'. destruct (decide (j = index)) as [->|]; [done|]. apply Hj. lia.
Qed.

Lemma scan_spec a frame :
  match EarlyFrameAllocator.scan a frame with
  | AppendTo i =>
      (i < reclaimed_count a)%nat /\ end_frame_exclusive (reclaimed a !!! i) = frame
  | PrependTo i =>
      (i < reclaimed_count a)%nat /\ start_frame (reclaimed a !!! i) = frame + 1 /\
      next_frame (reclaimed a !!! i) = start_frame (reclaimed a !!! i) /\
      forall j, (j < i)%nat -> end_frame_exclusive (reclaimed a !!! j) <> frame
  | InsertAt i => (i <= reclaimed_count a)%nat
  end.
Proof.
  pose proof (free_scan_spec (reclaimed a) (reclaimed_count a) frame 0 (reclaimed_count a)
    (reclaimed_count a) ltac:(lia) ltac:(lia)) as Hs.
  unfold EarlyFrameAllocator.scan.
  destruct (EarlyFrameAllocator.free_scan _ _ _ _ _ _) as [i|i|i].
  - destruct Hs. split; [lia|done].
  - destruct Hs as (? & ? & ? & Hj). split_and!; [lia|done|done|]. intros. apply Hj. lia.
  - done.
Qed.

(** Replacing the live slot [i] by [c] that covers [frame] besides. *)
Lemma reclaimed_grow a i c frame :
  alloc_wf a -> (i < reclaimed_count a)%nat -> cursor_wf c ->
  cursor_frames c ≡ₚ frame :: cursor_frames (reclaimed a !!! i) ->
  let a' := EarlyFrameAllocator.with_reclaimed a (<[i := c]> (reclaimed a)) (reclaimed_count a) in
  alloc_wf a' /\ free_frames a' ≡ₚ frame :: free_frames a.
Proof.
  intros [Hl1 Hc1 Hact Hex Hwf1 Hl2 Hc2 Hwf2] Hi Hc Hp a'. subst a'. split.
  - constructor; cbn -[MAX_RECLAIMED_REGIONS]; try done; [by rewrite length_insert|].
    rewrite take_insert_lt by done. by apply Forall_insert.
  - unfold free_frames. cbn. rewrite take_insert_lt by done.
    rewrite table_frames_insert by (rewrite length_take; lia).
    rewrite (table_frames_delete (take _ (reclaimed a)) i (reclaimed a !!! i)).
    2: { rewrite lookup_take_lt by done. apply list_lookup_lookup_total_lt. lia. }
    by rewrite Hp.
Qed.

(** Folding an unconsumed right neighbour in keeps the free frames. *)
Lemma absorb_right_spec a i :
  alloc_wf a -> (i < reclaimed_count a)%nat ->
  ((i + 1 < reclaimed_count a)%nat ->
   end_frame_exclusive (reclaimed a !!! i) = start_frame (reclaimed a !!! (i + 1)%nat) ->
   next_frame (reclaimed a !!! (i + 1)%nat) = start_frame (reclaimed a !!! (i + 1)%nat)) ->
  alloc_wf (EarlyFrameAllocator.absorb_right a i) /\
  free_frames (EarlyFrameAllocator.absorb_right a i) ≡ₚ free_frames a.
Proof.
  intros Hwf Hi Hfresh. unfold EarlyFrameAllocator.absorb_right.
  case_match eqn:Hg; [|done].
  apply andb_prop in Hg as [Hlt%Nat.ltb_lt Heq%Z.eqb_eq]. specialize (Hfresh Hlt Heq).
  destruct Hwf as [Hl1 Hc1 Hact Hex Hwf1 Hl2 Hc2 Hwf2].
  set (c := reclaimed a !!! i) in *. set (r := reclaimed a !!! (i + 1)%nat) in *.
  set (pre := take (reclaimed_count a) (reclaimed a)) in *.
  assert (pre !! i = Some c /\ pre !! (i + 1)%nat = Some r) as [Hci Hri].
  { subst pre. rewrite !lookup_take_lt by lia.
    split; apply list_lookup_lookup_total_lt; lia. }
  pose proof (Forall_lookup_1 _ _ _ _ Hwf2 Hci) as Hcw.
  pose proof (Forall_lookup_1 _ _ _ _ Hwf2 Hri) as Hrw.
  set (c' := EarlyFrameAllocator.set_end c (end_frame_exclusive r)).
  assert (cursor_frames c' = cursor_frames c ++ cursor_frames r) as Hfr.
  { subst c'. unfold cursor_wf in *. rewrite cursor_frames_set_end by (unfold cursor_wf; lia).
    unfold cursor_frames. do 2 f_equal; lia. }
  unfold EarlyFrameAllocator.remove_reclaimed, free_frames. cbn -[MAX_RECLAIMED_REGIONS].
  assert (take (reclaimed_count a - 1)
            (shift_left (<[i := c']> (reclaimed a)) (i + 1) (reclaimed_count a - 1))
          = <[i := c']> (delete (i + 1)%nat pre)) as Htake.
  { rewrite take_shift_left by (rewrite ?length_insert; lia).
    rewrite take_insert_lt by done. apply delete_insert_before. lia. }
  assert (Hlen : (i < length (delete (i + 1)%nat pre))%nat).
  { rewrite length_delete by eauto. subst pre. rewrite length_take. lia. }
  split.
  - constructor; cbn -[MAX_RECLAIMED_REGIONS]; try done.
    + by rewrite length_shift_left, length_insert.
    + lia.
    + rewrite Htake. apply Forall_insert; [by apply Forall_delete|].
      subst c'. unfold cursor_wf in *. simpl. lia.
  - fold pre. rewrite Htake, table_frames_insert by done. f_equiv.
    rewrite (table_frames_delete pre (i + 1) r) by done.
    rewrite (table_frames_delete (delete (i + 1)%nat pre) i c)
      by (rewrite list_lookup_delete_lt by lia; done).
    rewrite Hfr, <- app_assoc. apply Permutation_app_swap_app.
Qed.

Lemma insert_reclaimed_spec a i frame :
  alloc_wf a -> (i <= reclaimed_count a)%nat ->
  (reclaimed_count a < MAX_RECLAIMED_REGIONS)%nat ->
  let a' := EarlyFrameAllocator.with_reclaimed a
              (<[i := mkCursor frame (frame + 1) frame]>
                 (shift_right (reclaimed a) i (reclaimed_count a)))
              (reclaimed_count a + 1) in
  alloc_wf a' /\ free_frames a' ≡ₚ frame :: free_frames a.
Proof.
  intros [Hl1 Hc1 Hact Hex Hwf1 Hl2 Hc2 Hwf2] Hi Hmax a'. subst a'.
  set (c := mkCursor frame (frame + 1) frame).
  set (pre := take (reclaimed_count a) (reclaimed a)) in *.
  assert (take (reclaimed_count a + 1)
            (<[i := c]> (shift_right (reclaimed a) i (reclaimed_count a)))
          = take i pre ++ c :: drop i pre) as Htake.
  { rewrite take_shift_right by lia. subst pre. by rewrite take_take, Nat.min_l by done. }
  assert (take i pre ++ c :: drop i pre ≡ₚ c :: pre) as Hperm.
  { rewrite <- Permutation_middle. by rewrite take_drop. }
  split.
  - constructor; cbn -[MAX_RECLAIMED_REGIONS]; try done; try lia.
    + by rewrite length_insert, length_shift_right.
    + rewrite Htake, Hperm. constructor; [|done]. unfold cursor_wf. simpl. lia.
  - unfold free_frames. cbn. rewrite Htake. unfold table_frames at 1. rewrite Hperm.
    change ((cursor_frames c ++ table_frames pre) ++
      table_frames (take (region_count a) (regions a)) ≡ₚ
      frame :: table_frames pre ++ table_frames (take (region_count a) (regions a))).
    unfold cursor_frames at 1. subst c. cbn.
    replace (frame + 1 - frame) with 1 by lia. done.
Qed.

(** [absorb_left] never fires: the scan would have appended to the left
    neighbour before reaching the slot it prepends to. *)
Lemma absorb_left_noop a i frame e :
  (forall j, (j < i)%nat -> end_frame_exclusive (reclaimed a !!! j) <> frame) ->
  (i < length (reclaimed a))%nat ->
  let a' := EarlyFrameAllocator.with_reclaimed a
              (<[i := mkCursor frame e frame]> (reclaimed a)) (reclaimed_count a) in
  EarlyFrameAllocator.absorb_left a' i = a'.
Proof.
  intros Hj Hi a'. unfold EarlyFrameAllocator.absorb_left.
  destruct (Nat.ltb_spec 0 i) as [Hpos|]; simpl; [|done].
  rewrite (list_lookup_total_insert_ne _ i (i - 1)) by lia.
  rewrite list_lookup_total_insert_eq by done. simpl.
  destruct (Z.eqb_spec (end_frame_exclusive (reclaimed a !!! (i - 1)%nat)) frame); [|done].
  exfalso. eapply Hj; [|done]. lia.
Qed.

(** Freeing a page-aligned base adds exactly its frame to the free frames when
    it is recorded, and nothing when it is dropped. *)
Lemma free_spec a n :
  alloc_wf a -> absorbs_consumed a n = false ->
  let '(recorded, a') := EarlyFrameAllocator.free_4kib a (n * PAGE_SIZE_BYTES) in
  alloc_wf a' /\
  if recorded then free_frames a' ≡ₚ n :: free_frames a else free_frames a' = free_frames a.
Proof.
  intros Hwf Hclean. unfold EarlyFrameAllocator.free_4kib.
  rewrite Z.mod_mul, Z.div_mul by done. cbn [negb Z.eqb].
  pose proof (scan_spec a n) as Hs. unfold absorbs_consumed in Hclean.
  pose proof (awf_reclaimed_count a Hwf). pose proof (awf_reclaimed_len a Hwf).
  assert (forall i, (i < reclaimed_count a)%nat -> cursor_wf (reclaimed a !!! i)) as Hcw.
  { intros i Hi. eapply Forall_lookup_1; [apply (awf_reclaimed a Hwf)|].
    rewrite lookup_take_lt by done. apply list_lookup_lookup_total_lt. lia. }
  destruct (EarlyFrameAllocator.scan a n) as [i|i|i].
  - destruct Hs as [Hi He]. specialize (Hcw i Hi).
    destruct (reclaimed_grow a i (EarlyFrameAllocator.set_end (reclaimed a !!! i)
      (end_frame_exclusive (reclaimed a !!! i) + 1)) n) as [Hwf' Hf']; [done|done| | |].
    { unfold cursor_wf in *. simpl. lia. }
    { rewrite cursor_frames_set_end by (done || lia). rewrite He.
      replace (n + 1 - n) with 1 by lia. symmetry. apply Permutation_cons_append. }
    set (a1 := EarlyFrameAllocator.with_reclaimed _ _ _) in *.
    destruct (absorb_right_spec a1 i) as [Hwf'' Hf'']; [done|done| |].
    { subst a1. cbn. rewrite list_lookup_total_insert_eq by lia.
      rewrite list_lookup_total_insert_ne by lia. cbn. intros Hlt Heq.
      apply Nat.ltb_lt in Hlt. rewrite Hlt, Heq, Z.eqb_refl in Hclean. cbn in Hclean.
      apply negb_false_iff, Z.eqb_eq in Hclean. done. }
    split; [by destruct Hwf''; constructor|]. by rewrite <- Hf', <- Hf''.
  - destruct Hs as (Hi & Hst & Hnx & Hj). specialize (Hcw i Hi).
    rewrite absorb_left_noop by (done || lia).
    destruct (reclaimed_grow a i (mkCursor n (end_frame_exclusive (reclaimed a !!! i)) n) n)
      as [Hwf' Hf']; [done|done| | |].
    { unfold cursor_wf in *. simpl. lia. }
    { unfold cursor_wf, cursor_frames in *. cbn. rewrite seqZ_cons by lia.
      replace (Z.succ n) with (next_frame (reclaimed a !!! i)) by lia.
      do 2 f_equiv. lia. }
    split; [by destruct Hwf'; constructor|done].
  - destruct (Nat.eqb_spec (reclaimed_count a) MAX_RECLAIMED_REGIONS).
    { split; [by destruct Hwf; constructor|done]. }
    destruct (insert_reclaimed_spec a i n) as [Hwf' Hf']; [done|done|lia|].
    split; [by destruct Hwf'; constructor|done].
Qed.

(** ** Boot *)

(** The frames of the whole pages of a boot region. *)
Definition page_frames (region : BootMemoryRegion) : list Z :=
  match EarlyFrameAllocator.region_frames region with
  | Some (start, end_) => seqZ start (end_ - start)
  | None => []
  end.

Definition kind_frames (kind : BootMemoryRegionKind) (rs : list BootMemoryRegion) : list Z :=
  filter (fun r => region_kind r = kind) rs ≫= page_frames.

(** Frame [n] is a whole page inside the region. *)
Definition page_inside (region : BootMemoryRegion) (n : Z) : Prop :=
  region_start region <= n * PAGE_SIZE_BYTES /\
  (n + 1) * PAGE_SIZE_BYTES <= region_end region.

Lemma region_frames_spec region s e n :
  0 <= region_start region ->
  EarlyFrameAllocator.region_frames region = Some (s, e) ->
  (s <= n < e <-> page_inside region n).
Proof.
  unfold EarlyFrameAllocator.region_frames, page_inside. intros H0 Hr.
  destruct (PhysicalAddress.align_up _ _) as [up|] eqn:Hup; simpl in Hr; [|done].
  apply align_up_spec in Hup as [Hup Hmod]; [|done|done]. simplify_eq.
  pose proof (align_down_spec (region_end region) PAGE_SIZE_BYTES ltac:(done)) as [Hd Hdm].
  revert Hmod Hdm Hd. unfold PhysicalAddress.align_down, PAGE_SIZE_BYTES in *.
  pose proof (Z.mod_pos_bound (region_end region) 4096).
  set (d := region_end region - region_end region mod 4096) in *. intros.
  pose proof (Z.div_mod up 4096). pose proof (Z.div_mod d 4096). lia.
Qed.

Lemma push_regions_spec kind rs t count frames t' count' r :
  EarlyFrameAllocator.push_regions kind rs t count frames = Some (t', count', r) ->
  (count <= length t)%nat -> Forall cursor_wf (take count t) ->
  length t' = length t /\ (count <= count' <= length t')%nat /\
  take count t' = take count t /\ Forall cursor_wf (take count' t') /\
  (is_ok r = true ->
   table_frames (take count' t') = table_frames (take count t) ++ kind_frames kind rs).
Proof.
  revert t count frames. induction rs as [|region rs IH]; intros t count frames; simpl.
  { intros [= <- <- <-] Hc Hwf. split_and!; [done|lia..|done|done|].
    intros _. unfold kind_frames. simpl. by rewrite app_nil_r. }
  unfold kind_frames. rewrite filter_cons. case_bool_decide as Hk.
  2: { rewrite decide_False by done. apply IH. }
  rewrite decide_True by done. cbn [mbind list_bind].
  unfold page_frames at 1.
  destruct (EarlyFrameAllocator.region_frames region) as [[s e]|]; simpl; [|done].
  destruct (Z.leb_spec e s).
  { rewrite seqZ_nil by lia. apply IH. }
  unfold EarlyFrameAllocator.push_region.
  destruct (Nat.eqb_spec count (length t)) as [|Hne].
  { intros [= <- <- <-] Hc Hwf. split_and!; done || lia. }
  intros Hrun Hc Hwf.
  assert (take (count + 1) (<[count := mkCursor s e s]> t) =
          take count t ++ [mkCursor s e s]) as Htk.
  { rewrite Nat.add_1_r. erewrite take_S_r by (apply list_lookup_insert_eq; lia).
    by rewrite take_insert_ge. }
  apply IH in Hrun as (Hl & Hcc & Htake & Hwf' & Hf).
  - rewrite length_insert in Hl. split_and!; [done|lia|lia| |done|].
    + transitivity (take count (take (count + 1) t')); [by rewrite take_take, Nat.min_l by lia|].
      by rewrite Htake, Htk, take_app_length' by (rewrite length_take; lia).
    + intros Hok. rewrite (Hf Hok), Htk. unfold table_frames, kind_frames.
      rewrite bind_app, <- app_assoc. f_equal. cbn. by rewrite app_nil_r.
  - rewrite length_insert. lia.
  - rewrite Htk. apply Forall_app. split; [done|]. constructor; [|done].
    unfold cursor_wf. simpl. lia.
Qed.

Lemma elem_of_kind_frames kind rs n :
  Forall (fun r => 0 <= region_start r) rs ->
  (forall r, r ∈ rs -> region_kind r = kind ->
     is_Some (EarlyFrameAllocator.region_frames r)) ->
  n ∈ kind_frames kind rs <->
  exists r, r ∈ rs /\ region_kind r = kind /\ page_inside r n.
Proof.
  intros H0 Hsome. unfold kind_frames. rewrite list_elem_of_bind.
  split.
  - intros (r & Hn & [Hk Hr]%list_elem_of_filter). exists r. split_and!; [done..|].
    destruct (Hsome r Hr Hk) as [[s e] Hse]. unfold page_frames in Hn. rewrite Hse in Hn.
    apply elem_of_seqZ in Hn. eapply region_frames_spec; [|done|lia].
    by eapply Forall_forall in H0.
  - intros (r & Hr & Hk & Hin). exists r. rewrite list_elem_of_filter.
    split; [|done]. destruct (Hsome r Hr Hk) as [[s e] Hse].
    unfold page_frames. rewrite Hse. apply elem_of_seqZ.
    eapply region_frames_spec in Hin; [|by eapply Forall_forall in H0|done]. lia.
Qed.

Lemma push_regions_no_overflow kind rs t count frames t' count' f :
  EarlyFrameAllocator.push_regions kind rs t count frames = Some (t', count', Ok f) ->
  forall r, r ∈ rs -> region_kind r = kind -> is_Some (EarlyFrameAllocator.region_frames r).
Proof.
  revert t count frames. induction rs as [|region rs IH]; intros t count frames; simpl.
  { intros _ r Hr. by apply not_elem_of_nil in Hr. }
  intros Hrun r [->|Hr]%elem_of_cons Hk.
  - rewrite bool_decide_true in Hrun by done.
    destruct (EarlyFrameAllocator.region_frames region) as [[s e]|]; [eauto|done].
  - revert Hrun. case_bool_decide; [|intros; by eapply IH].
    destruct (EarlyFrameAllocator.region_frames region) as [[s e]|]; simpl; [|done].
    case_match; [intros; by eapply IH|].
    destruct (EarlyFrameAllocator.push_region _ _ _ _) as [[t1 c1]|]; [|done].
    intros. by eapply IH.
Qed.

Lemma from_boot_context_frames ctx a :
  EarlyFrameAllocator.from_boot_context ctx = Some (Ok a) ->
  alloc_wf a /\ free_frames a = kind_frames Usable (memory_regions ctx).
Proof.
  unfold EarlyFrameAllocator.from_boot_context.
  destruct (EarlyFrameAllocator.push_regions _ _ _ _ _) as [[[t c] [f|e]]|] eqn:Hp; cbn -[replicate];
    intros ?; simplify_eq.
  apply push_regions_spec in Hp as (Hl & Hc & _ & Hwf & Hf); [|lia|constructor].
  rewrite length_replicate in Hl. split.
  - constructor; cbn -[replicate MAX_RECLAIMED_REGIONS MAX_ALLOCATABLE_REGIONS];
      rewrite ?length_replicate; try done; lia.
  - unfold free_frames. cbn -[replicate kind_frames]. rewrite (Hf eq_refl). done.
Qed.

(** ** Callers

    The allocator together with the frames its callers hold and the frames it
    dropped because the reclaimed pool was full.  Callers free only what they
    hold. *)
Record FrameSystem := mkFrameSystem {
  allocator : EarlyFrameAllocator;
  held : list Z;
  dropped : list Z;
}.

Inductive frame_step (clean : bool) : FrameSystem -> FrameSystem -> Prop :=
| step_allocate a h d n a' :
    EarlyFrameAllocator.allocate_4kib a =
      (Some (mkFrame (n * PAGE_SIZE_BYTES) Size4KiB), a') ->
    frame_step clean (mkFrameSystem a h d) (mkFrameSystem a' (n :: h) d)
| step_exhausted a h d a' :
    EarlyFrameAllocator.allocate_4kib a = (None, a') ->
    frame_step clean (mkFrameSystem a h d) (mkFrameSystem a' h d)
| step_free a h h' d n a' recorded :
    h ≡ₚ n :: h' ->
    (clean = true -> absorbs_consumed a n = false) ->
    EarlyFrameAllocator.free_4kib a (n * PAGE_SIZE_BYTES) = (recorded, a') ->
    frame_step clean (mkFrameSystem a h d)
      (mkFrameSystem a' h' (if recorded then d else n :: d)).

Definition all_frames (s : FrameSystem) : list Z :=
  held s ++ dropped s ++ free_frames (allocator s).

Lemma frame_step_conserves s s' :
  frame_step true s s' -> alloc_wf (allocator s) ->
  alloc_wf (allocator s') /\ all_frames s' ≡ₚ all_frames s.
Proof.
  intros Hstep Hwf. unfold all_frames.
  destruct Hstep as [a h d n a' Ha|a h d a' Ha|a h h' d n a' recorded Hh Hcl Hf]; cbn in *.
  - pose proof (frame_allocate_spec a Hwf) as Hs. rewrite Ha in Hs.
    destruct Hs as (Hwf' & m & Hm & Hp). split; [done|].
    assert (m = n) as -> by (unfold PAGE_SIZE_BYTES in Hm; simplify_eq; lia).
    rewrite Hp. by rewrite !Permutation_middle.
  - pose proof (frame_allocate_spec a Hwf) as Hs. rewrite Ha in Hs.
    destruct Hs as (Hwf' & -> & ->). done.
  - pose proof (free_spec a n Hwf (Hcl eq_refl)) as Hs. rewrite Hf in Hs.
    destruct Hs as (Hwf' & Hp). split; [done|]. rewrite Hh. destruct recorded.
    + rewrite Hp. by rewrite <- !Permutation_middle.
    + rewrite Hp. cbn. by rewrite <- Permutation_middle.
Qed.

Lemma frame_run_conserves s s' :
  rtc (frame_step true) s s' -> alloc_wf (allocator s) ->
  alloc_wf (allocator s') /\ all_frames s' ≡ₚ all_frames s.
Proof.
  induction 1 as [|s s1 s' Hs _ IH]; [done|]. intros Hwf.
  destruct (frame_step_conserves _ _ Hs Hwf) as [Hwf1 Hp1].
  destruct (IH Hwf1) as [Hwf2 Hp2]. split; [done|]. by rewrite Hp2.
Qed.

Lemma sum_available_length table :
  Forall cursor_wf table ->
  EarlyFrameAllocator.sum_available table = Z.of_nat (length (table_frames table)).
Proof.
  induction 1 as [|c t Hc Ht IH]; [done|].
  change (table_frames (c :: t)) with (cursor_frames c ++ table_frames t).
  rewrite length_app, Nat2Z.inj_add, <- IH.
  change (EarlyFrameAllocator.sum_available (c :: t)) with
    (end_frame_exclusive c - next_frame c + EarlyFrameAllocator.sum_available t).
  unfold cursor_frames, cursor_wf in *. rewrite length_seqZ. lia.
Qed.

(** ** Executable runs *)

Inductive FrameOp := OpAllocate | OpFree (n : Z).

Definition frame_exec (s : FrameSystem) (op : FrameOp) : option FrameSystem :=
  match op with
  | OpAllocate =>
      match EarlyFrameAllocator.allocate_4kib (allocator s) with
      | (Some f, a') =>
          Some (mkFrameSystem a' (frame_base f / PAGE_SIZE_BYTES :: held s) (dropped s))
      | (None, a') => Some (mkFrameSystem a' (held s) (dropped s))
      end
  | OpFree n =>
      '(i, _) ← list_find (n =.) (held s);
      let h' := delete i (held s) in
      let '(recorded, a') :=
        EarlyFrameAllocator.free_4kib (allocator s) (n * PAGE_SIZE_BYTES) in
      Some (mkFrameSystem a' h' (if recorded then dropped s else n :: dropped s))
  end.

Definition op_clean (s : FrameSystem) (op : FrameOp) : bool :=
  match op with
  | OpAllocate => true
  | OpFree n => negb (absorbs_consumed (allocator s) n)
  end.

Fixpoint frame_exec_all (clean : bool) (s : FrameSystem) (ops : list FrameOp) :
    option FrameSystem :=
  match ops with
  | [] => Some s
  | op :: ops =>
      if (negb clean || op_clean s op)%bool
      then s' ← frame_exec s op; frame_exec_all clean s' ops
      else None
  end.

Lemma allocate_frame_shape a f a' :
  EarlyFrameAllocator.allocate_4kib a = (Some f, a') ->
  f = mkFrame (frame_base f / PAGE_SIZE_BYTES * PAGE_SIZE_BYTES) Size4KiB.
Proof.
  unfold EarlyFrameAllocator.allocate_4kib, EarlyFrameAllocator.frame_at. intros Ha.
  repeat case_match; simplify_eq; cbn [frame_base]; by rewrite Z.div_mul.
Qed.

Lemma frame_exec_all_rtc clean s ops s' :
  frame_exec_all clean s ops = Some s' -> rtc (frame_step clean) s s'.
Proof.
  revert s. induction ops as [|op ops IH]; intros s; cbn; [intros [= <-]; reflexivity|].
  destruct (negb clean || op_clean s op)%bool eqn:Hcl; [|done].
  destruct (frame_exec s op) as [s1|] eqn:He; cbn; [|done].
  intros Hrest. apply rtc_l with s1; [|by apply IH].
  destruct s as [a h d], op as [|n]; cbn in He.
  - destruct (EarlyFrameAllocator.allocate_4kib a) as [[f|] a'] eqn:Ha; simplify_eq.
    + apply step_allocate. rewrite Ha. do 2 f_equal. by eapply allocate_frame_shape.
    + by apply step_exhausted.
  - destruct (list_find (n =.) h) as [[i m]|] eqn:Hr; cbn in He; [|done].
    apply list_find_Some in Hr as (Hi & <- & _).
    destruct (EarlyFrameAllocator.free_4kib a _) as [b a'] eqn:Hf. simplify_eq.
    eapply step_free; [by apply delete_Permutation|intros ->|done].
    cbn in Hcl. by apply negb_true_iff in Hcl.
Qed.

(** Concrete runs used by the witnesses. *)
Module FrameExamples.

Definition ctx : BootContext := {|
  memory_regions := [mkBootMemoryRegion 0x1000 0x7000 Usable;
                     mkBootMemoryRegion 0x7000 0x9800 BootServicesReclaimable];
  memory_map_available := true;
|}.

Definition boot : EarlyFrameAllocator :=
  match EarlyFrameAllocator.from_boot_context ctx with
  | Some (Ok a) => a
  | _ => mkEarlyFrameAllocator [] 0 0 0 0 [] 0 0 0
  end.

Definition start : FrameSystem := mkFrameSystem boot [] [].

Definition state_after (s : FrameSystem) (ops : list FrameOp) : FrameSystem :=
  default s (frame_exec_all false s ops).

(** Hold frames 1 to 5; give 4 and 5 back as one region; take 4 out of it
    again; give 2 back, then 3, which joins 2 to the region that starts at 4. *)
Definition merge_run : list FrameOp :=
  [OpAllocate; OpAllocate; OpAllocate; OpAllocate; OpAllocate;
   OpFree 4; OpFree 5; OpAllocate; OpFree 2; OpFree 3; OpAllocate; OpAllocate].

Definition merged : FrameSystem := state_after start merge_run.

Definition clean_run : list FrameOp :=
  [OpAllocate; OpAllocate; OpAllocate; OpFree 2; OpFree 1; OpAllocate].

Definition cleaned : FrameSystem := state_after start clean_run.

End FrameExamples.

(** ** Properties *)

(** C9: Along any run of allocations and frees in which callers free only frames
    they hold and no free folds in a right neighbour that has already handed
    out frames, the held, dropped and free frames are a permutation of the
    initial ones; so a frame handed out is neither held by a caller nor lost. *)
Theorem clean_runs_never_double_allocate s0 s f a' :
  rtc (frame_step true) s0 s ->
  alloc_wf (allocator s0) -> NoDup (all_frames s0) ->
  EarlyFrameAllocator.allocate_4kib (allocator s) = (Some f, a') ->
  all_frames s ≡ₚ all_frames s0 /\
  exists n, f = mkFrame (n * PAGE_SIZE_BYTES) Size4KiB /\
            n ∈ all_frames s0 /\ (n ∉ held s) /\ (n ∉ dropped s).
Proof.
  intros Hrun Hwf0 Hnd Ha.
  destruct (frame_run_conserves _ _ Hrun Hwf0) as [Hwf Hp]. split; [done|].
  pose proof (frame_allocate_spec _ Hwf) as Hs. rewrite Ha in Hs.
  destruct Hs as (_ & n & -> & Hfree). exists n. rewrite <- Hp in Hnd. rewrite <- Hp.
  assert (n ∈ free_frames (allocator s)) as Hin by (rewrite Hfree; left).
  unfold all_frames in *. apply NoDup_app in Hnd as (_ & Hd1 & Hnd).
  apply NoDup_app in Hnd as (_ & Hd2 & _). split_and!; [done| | |].
  - rewrite !elem_of_app. auto.
  - intros Hh. apply (Hd1 n Hh). rewrite elem_of_app. auto.
  - intros Hh. by apply (Hd2 n Hh).
Qed.

(** C36: Freeing through a partially consumed right neighbour breaks that
    guarantee.  From a boot memory map with one usable region of six pages,
    a run in which every caller frees only frames it holds reaches a state
    whose next allocation is a frame a caller still holds. *)
Theorem free_merge_double_allocates :
  exists ctx a0 s n a',
    EarlyFrameAllocator.from_boot_context ctx = Some (Ok a0) /\
    NoDup (free_frames a0) /\
    rtc (frame_step false) (mkFrameSystem a0 [] []) s /\
    EarlyFrameAllocator.allocate_4kib (allocator s) =
      (Some (mkFrame (n * PAGE_SIZE_BYTES) Size4KiB), a') /\
    n ∈ held s.
Proof.
  exists FrameExamples.ctx, FrameExamples.boot, FrameExamples.merged, 4.
  exists (EarlyFrameAllocator.allocate_4kib (allocator FrameExamples.merged)).2.
  split_and!.
  - vm_compute. reflexivity.
  - apply (bool_decide_unpack _). vm_compute. exact I.
  - apply (frame_exec_all_rtc _ _ FrameExamples.merge_run). vm_compute. reflexivity.
  - vm_compute. reflexivity.
  - apply (bool_decide_unpack _). vm_compute. exact I.
Qed.

(** Witness: three frames taken, two given back, one taken again. *)
Lemma clean_runs_never_double_allocate_witness :
  exists n, n ∈ free_frames FrameExamples.boot /\ n ∉ held FrameExamples.cleaned.
Proof.
  destruct (clean_runs_never_double_allocate FrameExamples.start FrameExamples.cleaned
    (mkFrame 0x2000 Size4KiB)
    (EarlyFrameAllocator.allocate_4kib (allocator FrameExamples.cleaned)).2)
    as (_ & n & _ & Hin & Hh & _).
  - apply (frame_exec_all_rtc _ _ FrameExamples.clean_run). vm_compute. reflexivity.
  - constructor; try (apply (bool_decide_unpack _); vm_compute; exact I);
      vm_compute; (reflexivity || lia).
  - apply (bool_decide_unpack _). vm_compute. exact I.
  - vm_compute. reflexivity.
  - exists n. split; [exact Hin|exact Hh].
Defined.

(** After boot the allocator is well formed and its free frames are exactly
    the whole pages inside the usable regions of the memory map: no byte of a
    reserved, firmware or device region is ever handed out, and no usable page
    is lost. *)
Theorem boot_frames_exactly_usable ctx a :
  EarlyFrameAllocator.from_boot_context ctx = Some (Ok a) ->
  Forall (fun r => 0 <= region_start r) (memory_regions ctx) ->
  alloc_wf a /\
  forall n, n ∈ free_frames a <->
    exists r, r ∈ memory_regions ctx /\ region_kind r = Usable /\ page_inside r n.
Proof.
  intros Hboot H0. destruct (from_boot_context_frames ctx a Hboot) as [Hwf Hfree].
  split; [done|]. intros n. rewrite Hfree. apply elem_of_kind_frames; [done|].
  unfold EarlyFrameAllocator.from_boot_context in Hboot.
  destruct (EarlyFrameAllocator.push_regions _ _ _ _ _) as [[[t c] [f|e]]|] eqn:Hp;
    [|done|done].
  eapply push_regions_no_overflow, Hp.
Qed.

Lemma boot_frames_exactly_usable_witness : alloc_wf FrameExamples.boot.
Proof.
  apply (boot_frames_exactly_usable FrameExamples.ctx).
  - vm_compute. reflexivity.
  - repeat constructor; vm_compute; discriminate.
Defined.

(** The headroom the allocator reports (fresh regions plus the reclaimed
    pool) is the number of its free frames, and an allocation fails exactly
    when it is zero. *)
Theorem headroom_decides_allocation a :
  alloc_wf a ->
  EarlyFrameAllocator.usable_headroom_frames a = Z.of_nat (length (free_frames a)) /\
  ((EarlyFrameAllocator.allocate_4kib a).1 = None <->
   EarlyFrameAllocator.usable_headroom_frames a = 0).
Proof.
  intros Hwf.
  assert (EarlyFrameAllocator.usable_headroom_frames a
          = Z.of_nat (length (free_frames a))) as Hlen.
  { unfold EarlyFrameAllocator.usable_headroom_frames, EarlyFrameAllocator.remaining_frames,
      EarlyFrameAllocator.reclaimable_frames, free_frames.
    rewrite !sum_available_length by apply Hwf. rewrite length_app. lia. }
  split; [done|]. rewrite Hlen. pose proof (frame_allocate_spec a Hwf) as Hs.
  destruct (EarlyFrameAllocator.allocate_4kib a) as [[f|] a']; cbn.
  - destruct Hs as (_ & n & _ & Hp). apply Permutation_length in Hp. simpl in Hp.
    split; [done|lia].
  - destruct Hs as (_ & -> & _). done.
Qed.

Lemma headroom_decides_allocation_witness :
  EarlyFrameAllocator.usable_headroom_frames FrameExamples.boot = 6.
Proof.
  rewrite (proj1 (headroom_decides_allocation FrameExamples.boot
    ltac:(constructor; try (apply (bool_decide_unpack _); vm_compute; exact I);
          vm_compute; (reflexivity || lia)))).
  vm_compute. reflexivity.
Defined.
