(* ===== verification/KernelHeap.v ===== *)
(** * Kernel heap

    Models the free-list allocator of [kernel/core/src/memory/heap.rs].  The
    region table is a list of its full length with the source's [len]; the
    live regions are its prefix.  A pointer is its address and the null pointer
    is 0.  [None] is the overflow panic of [align_up]; every other addition of
    the source stays in range on well-formed tables ([region_wf]).

    The theorems view a table as the set of bytes it covers. *)

From S2P Require Import Prelude Arrays MemTypes.
From stdpp Require Import base list sorting relations.
From Stdlib Require Import ZArith Lia.

#[local] Open Scope Z_scope.

Definition MAX_FREE_REGIONS : nat := 4096.

(** [core::alloc::Layout] *)
Record Layout := mkLayout {
  layout_size : Z;
  layout_align : Z;
}.

Record FreeRegion := mkFreeRegion {
  fr_start : Z;
  fr_size : Z;
}.

#[export] Instance FreeRegion_inhabited : Inhabited FreeRegion :=
  populate (mkFreeRegion 0 0).

Definition fr_end (r : FreeRegion) : Z := fr_start r + fr_size r.

Record HeapUsage := mkHeapUsage {
  usage_total_bytes : Z;
  usage_free_bytes : Z;
}.

Record FreeListAllocator := mkFreeListAllocator {
  heap_regions : list FreeRegion;
  heap_len : nat;
  heap_initialized : bool;
  capacity_bytes : Z;
  free_bytes : Z;
  dropped_free_bytes : Z;
  dropped_free_events : Z;
}.

(** Outcome of the first-fit scan of [allocate]. *)
Inductive AllocScan :=
| ScanPanic
| ScanNull
| ScanFound (index : nat) (start end_ : Z).

Definition align_up (value align : Z) : option Z :=
  let mask := align - 1 in
  sum ← checked_add USIZE_MAX value mask;
  Some (Z.land sum (Z.lxor mask USIZE_MAX)).

Module FreeListAllocator.

Definition empty : FreeListAllocator := {|
  heap_regions := replicate MAX_FREE_REGIONS (mkFreeRegion 0 0);
  heap_len := 0;
  heap_initialized := false;
  capacity_bytes := 0;
  free_bytes := 0;
  dropped_free_bytes := 0;
  dropped_free_events := 0;
|}.

Definition initialize (h : FreeListAllocator) (start size : Z) :
    result unit unit * FreeListAllocator :=
  if heap_initialized h then (Err tt, h)
  else
    (Ok tt, {|
      heap_regions := <[0%nat := mkFreeRegion start size]> (heap_regions h);
      heap_len := 1;
      heap_initialized := true;
      capacity_bytes := size;
      free_bytes := size;
      dropped_free_bytes := dropped_free_bytes h;
      dropped_free_events := dropped_free_events h;
    |}).

Definition with_table (h : FreeListAllocator) table len := {|
  heap_regions := table;
  heap_len := len;
  heap_initialized := heap_initialized h;
  capacity_bytes := capacity_bytes h;
  free_bytes := free_bytes h;
  dropped_free_bytes := dropped_free_bytes h;
  dropped_free_events := dropped_free_events h;
|}.

Definition with_accounts (h : FreeListAllocator) free dropped events := {|
  heap_regions := heap_regions h;
  heap_len := heap_len h;
  heap_initialized := heap_initialized h;
  capacity_bytes := capacity_bytes h;
  free_bytes := free;
  dropped_free_bytes := dropped;
  dropped_free_events := events;
|}.

Definition set_region (h : FreeListAllocator) (index : nat) (region : FreeRegion) :=
  with_table h (<[index := region]> (heap_regions h)) (heap_len h).

Definition remove_region (h : FreeListAllocator) (index : nat) : FreeListAllocator :=
  let table := shift_left (heap_regions h) index (heap_len h - 1) in
  if (0 <? heap_len h)%nat
  then with_table h (<[(heap_len h - 1)%nat := mkFreeRegion 0 0]> table) (heap_len h - 1)
  else with_table h table (heap_len h).

Definition insert_region (h : FreeListAllocator) (index : nat) (region : FreeRegion) :
    FreeListAllocator :=
  with_table h (<[index := region]> (shift_right (heap_regions h) index (heap_len h)))
    (heap_len h + 1).

Fixpoint alloc_scan (table : list FreeRegion) (size align : Z) (index fuel : nat) : AllocScan :=
  match fuel with
  | O => ScanNull
  | S fuel =>
      let region := table !!! index in
      match align_up (fr_start region) align with
      | None => ScanPanic
      | Some start =>
          match checked_add USIZE_MAX start size with
          | None => ScanNull
          | Some end_ =>
              if fr_end region <? end_ then alloc_scan table size align (index + 1) fuel
              else ScanFound index start end_
          end
      end
  end.

(** Cut [start, end_) out of the region at [index]; [None] when that would need
    a slot the full table does not have. *)
Definition carve (h : FreeListAllocator) (index : nat) (start end_ : Z) :
    option FreeListAllocator :=
  let region := heap_regions h !!! index in
  let prefix_size := start - fr_start region in
  let suffix_size := fr_end region - end_ in
  match 0 <? prefix_size, 0 <? suffix_size with
  | false, false => Some (remove_region h index)
  | false, true => Some (set_region h index (mkFreeRegion end_ suffix_size))
  | true, false => Some (set_region h index (mkFreeRegion (fr_start region) prefix_size))
  | true, true =>
      if (heap_len h =? length (heap_regions h))%nat then None
      else
        let h1 := insert_region h (index + 1) (mkFreeRegion end_ suffix_size) in
        Some (set_region h1 index (mkFreeRegion (fr_start region) prefix_size))
  end.

Definition allocate (h : FreeListAllocator) (layout : Layout) :
    option (Z * FreeListAllocator) :=
  if negb (heap_initialized h) then Some (0, h)
  else
    let size := Z.max (layout_size layout) 1 in
    match alloc_scan (heap_regions h) size (layout_align layout) 0 (heap_len h) with
    | ScanPanic => None
    | ScanNull => Some (0, h)
    | ScanFound index start end_ =>
        match carve h index start end_ with
        | None => Some (0, h)
        | Some h1 =>
            Some (start, with_accounts h1 (saturating_sub (free_bytes h1) size)
                           (dropped_free_bytes h1) (dropped_free_events h1))
        end
    end.

(** [while index < len && regions[index].start < start { index += 1; }] *)
Fixpoint position (table : list FreeRegion) (start : Z) (index fuel : nat) : nat :=
  match fuel with
  | O => index
  | S fuel =>
      if fr_start (table !!! index) <? start then position table start (index + 1) fuel
      else index
  end.

Definition merge (a b : FreeRegion) : FreeRegion :=
  let merged_start := Z.min (fr_start a) (fr_start b) in
  let merged_end := Z.max (fr_end a) (fr_end b) in
  mkFreeRegion merged_start (merged_end - merged_start).

Definition coalesce_left (h : FreeListAllocator) (index : nat) (region : FreeRegion) :
    FreeListAllocator * nat * FreeRegion :=
  let left := heap_regions h !!! (index - 1)%nat in
  if ((0 <? index)%nat && (fr_start region <=? fr_end left))%bool
  then (remove_region h (index - 1), (index - 1)%nat, merge left region)
  else (h, index, region).

(** The right-merging loop; every iteration that continues removes a live
    region, so [heap_len h] iterations suffice. *)
Fixpoint coalesce_right (h : FreeListAllocator) (index : nat) (region : FreeRegion)
    (fuel : nat) : FreeListAllocator * FreeRegion :=
  match fuel with
  | O => (h, region)
  | S fuel =>
      if (index <? heap_len h)%nat then
        let next := heap_regions h !!! index in
        if fr_end region <? fr_start next then (h, region)
        else coalesce_right (remove_region h index) index (merge region next) fuel
      else (h, region)
  end.

Definition insert_and_coalesce (h : FreeListAllocator) (region : FreeRegion) :
    FreeListAllocator :=
  if fr_size region =? 0 then h
  else
    let freed_bytes := fr_size region in
    let index := position (heap_regions h) (fr_start region) 0 (heap_len h) in
    let '(h1, index, region) := coalesce_left h index region in
    let '(h2, region) := coalesce_right h1 index region (heap_len h1) in
    if (heap_len h2 =? length (heap_regions h2))%nat then
      with_accounts h2 (free_bytes h2)
        (saturating_add U64_MAX (dropped_free_bytes h2) (fr_size region))
        (saturating_add U64_MAX (dropped_free_events h2) 1)
    else
      insert_region
        (with_accounts h2 (saturating_add U64_MAX (free_bytes h2) freed_bytes)
           (dropped_free_bytes h2) (dropped_free_events h2))
        index region.

Definition deallocate (h : FreeListAllocator) (ptr : Z) (layout : Layout) :
    FreeListAllocator :=
  if negb (heap_initialized h) then h
  else
    match checked_add USIZE_MAX ptr (Z.max (layout_size layout) 1) with
    | None => h
    | Some end_ => insert_and_coalesce h (mkFreeRegion ptr (end_ - ptr))
    end.

Definition usage (h : FreeListAllocator) : HeapUsage :=
  mkHeapUsage (capacity_bytes h) (free_bytes h).

(** [KernelAllocator::usage_if_initialized] *)
Definition usage_if_initialized (h : FreeListAllocator) : option HeapUsage :=
  if heap_initialized h then Some (usage h) else None.

End FreeListAllocator.

(** ** Byte sets and well-formed tables *)

Definition in_region (r : FreeRegion) (b : Z) : Prop := fr_start r <= b < fr_end r.

Definition covers (l : list FreeRegion) (b : Z) : Prop := exists r, r ∈ l /\ in_region r b.

(** Regions of a table lie left to right with a gap between neighbours. *)
Definition left_of (a b : FreeRegion) : Prop := fr_end a < fr_start b.

Definition region_wf (r : FreeRegion) : Prop :=
  0 < fr_start r /\ 0 < fr_size r /\ fr_end r <= USIZE_MAX.

Definition regions_wf (l : list FreeRegion) : Prop :=
  StronglySorted left_of l /\ Forall region_wf l.

Definition total_size (l : list FreeRegion) : Z := foldr (fun r n => fr_size r + n) 0 l.

Definition live (h : FreeListAllocator) : list FreeRegion :=
  take (heap_len h) (heap_regions h).

#[global] Arguments live : simpl never.

Record heap_wf (h : FreeListAllocator) : Prop := {
  hwf_initialized : heap_initialized h = true;
  hwf_table : length (heap_regions h) = MAX_FREE_REGIONS;
  hwf_len : (heap_len h <= MAX_FREE_REGIONS)%nat;
  hwf_live : regions_wf (live h);
  hwf_free : free_bytes h = total_size (live h);
}.

(** [Layout] guarantees a power-of-two alignment and a size that fits [isize]. *)
Definition layout_wf (layout : Layout) : Prop :=
  0 <= layout_size layout <= USIZE_MAX / 2 /\
  exists k, 0 <= k < 64 /\ layout_align layout = 2 ^ k.

Definition block_size (layout : Layout) : Z := Z.max (layout_size layout) 1.

Section regions.
Implicit Types (l : list FreeRegion) (r : FreeRegion).

Lemma covers_app l1 l2 b : covers (l1 ++ l2) b <-> covers l1 b \/ covers l2 b.
Proof. unfold covers. setoid_rewrite elem_of_app. naive_solver. Qed.

Lemma covers_cons r l b : covers (r :: l) b <-> in_region r b \/ covers l b.
Proof. unfold covers. setoid_rewrite elem_of_cons. naive_solver. Qed.

Lemma covers_nil b : ~ covers [] b.
Proof. intros (r & Hr & _). by apply not_elem_of_nil in Hr. Qed.

Lemma total_size_app l1 l2 : total_size (l1 ++ l2) = total_size l1 + total_size l2.
Proof. induction l1; simpl; lia. Qed.

Lemma regions_wf_app l1 l2 :
  regions_wf (l1 ++ l2) <->
  regions_wf l1 /\ regions_wf l2 /\ (forall x y, x ∈ l1 -> y ∈ l2 -> left_of x y).
Proof.
  unfold regions_wf. rewrite StronglySorted_app, Forall_app. naive_solver.
Qed.

Lemma regions_wf_cons r l :
  regions_wf (r :: l) <-> region_wf r /\ regions_wf l /\ (forall y, y ∈ l -> left_of r y).
Proof.
  unfold regions_wf. rewrite StronglySorted_cons, Forall_cons, (Forall_forall (left_of r)).
  naive_solver.
Qed.

Lemma regions_wf_elem l r : regions_wf l -> r ∈ l -> region_wf r.
Proof. intros [_ Hf] Hr. by eapply Forall_forall in Hf. Qed.

(** Distinct live regions fit side by side below [USIZE_MAX]. *)
Lemma total_size_bound l lo :
  regions_wf l -> (forall r, r ∈ l -> lo <= fr_start r) -> lo <= USIZE_MAX ->
  0 <= total_size l <= USIZE_MAX - lo.
Proof.
  revert lo. induction l as [|r l IH]; intros lo Hwf Hlo Hmax; simpl; [lia|].
  apply regions_wf_cons in Hwf as (Hr & Hwf & Hleft). unfold region_wf, left_of, fr_end in *.
  specialize (Hlo r ltac:(left)).
  assert (0 <= total_size l <= USIZE_MAX - (fr_start r + fr_size r)); [|lia].
  apply IH; [done| |lia]. intros r' Hr'. specialize (Hleft r' Hr'). lia.
Qed.

Lemma covers_first r l b :
  (forall y, y ∈ l -> left_of r y) -> covers (r :: l) b -> in_region r b \/ fr_end r < b.
Proof.
  intros Hlt [Hr|(y & Hy & Hr)]%covers_cons; [by left|right].
  specialize (Hlt y Hy). unfold left_of, in_region in *. lia.
Qed.

Lemma covers_tail r l b :
  (forall y, y ∈ l -> left_of r y) -> covers l b <-> covers (r :: l) b /\ ~ in_region r b.
Proof.
  intros Hlt. rewrite covers_cons. split; [|naive_solver].
  intros Hc. split; [by right|]. destruct Hc as (y & Hy & Hr).
  specialize (Hlt y Hy). unfold left_of, in_region in *. lia.
Qed.

(** A table that covers another starts no later, and its first region ends no
    earlier when both start together. *)
Lemma covers_first_le r r' l l' :
  region_wf r -> region_wf r' -> (forall y, y ∈ l' -> left_of r' y) ->
  (forall b, covers (r :: l) b -> covers (r' :: l') b) ->
  fr_start r' <= fr_start r /\ (fr_start r' = fr_start r -> fr_end r <= fr_end r').
Proof.
  intros Hr Hr' Hlt Hsub. unfold region_wf in *.
  assert (forall b, in_region r b -> in_region r' b \/ fr_end r' < b) as Hin.
  { intros b Hb. apply (covers_first r' l'); [done|]. apply Hsub, covers_cons. by left. }
  pose proof (Hin (fr_start r)) as H1. pose proof (Hin (fr_end r')) as H2.
  unfold in_region, fr_end in *. lia.
Qed.

(** Well-formed tables are canonical: the covered bytes determine the list. *)
Lemma regions_canonical l1 l2 :
  regions_wf l1 -> regions_wf l2 -> (forall b, covers l1 b <-> covers l2 b) -> l1 = l2.
Proof.
  assert (forall r l, regions_wf (r :: l) -> exists b, covers (r :: l) b) as Hne.
  { intros r l ((? & ? & ?) & _)%regions_wf_cons. exists (fr_start r).
    apply covers_cons. left. unfold in_region, fr_end. lia. }
  revert l2. induction l1 as [|r1 l1 IH]; intros [|r2 l2] H1 H2 Hb; [done|..].
  { destruct (Hne r2 l2 H2) as [b Hc]. by apply Hb, covers_nil in Hc. }
  { destruct (Hne r1 l1 H1) as [b Hc]. by apply Hb, covers_nil in Hc. }
  apply regions_wf_cons in H1 as (Hr1 & Hl1 & Hlt1).
  apply regions_wf_cons in H2 as (Hr2 & Hl2 & Hlt2).
  pose proof (covers_first_le r1 r2 l1 l2 Hr1 Hr2 Hlt2 ltac:(apply Hb)) as [Hs1 He1].
  pose proof (covers_first_le r2 r1 l2 l1 Hr2 Hr1 Hlt1 ltac:(apply Hb)) as [Hs2 He2].
  assert (r1 = r2) as ->.
  { unfold fr_end in *. destruct r1 as [s1 z1], r2 as [s2 z2]; cbn in *.
    assert (s1 = s2) as -> by lia. f_equal. lia. }
  f_equal. apply IH; [done..|].
  intros b. rewrite (covers_tail r2 l1 b), (covers_tail r2 l2 b) by done. by rewrite Hb.
Qed.

End regions.

(** [align_up] rounds up to the alignment. *)
Lemma align_up_pow2 value k aligned :
  0 <= k < 64 -> 0 <= value ->
  align_up value (2 ^ k) = Some aligned ->
  value <= aligned < value + 2 ^ k /\ (2 ^ k | aligned).
Proof.
  intros Hk Hv. unfold align_up. intros Hup.
  destruct (checked_add _ _ _) as [sum|] eqn:Hs; simpl in Hup; [|done].
  apply checked_add_Some in Hs as [-> Hmax].
  assert (0 < 2 ^ k) by (apply Z.pow_pos_nonneg; lia).
  assert (aligned = Z.ldiff (value + (2 ^ k - 1)) (Z.ones k)) as ->.
  { injection Hup as <-. rewrite Z.ones_equiv, <- Z.sub_1_r. apply Z.bits_inj'. intros i Hi.
    rewrite Z.land_spec, Z.lxor_spec, Z.ldiff_spec.
    change USIZE_MAX with (Z.ones 64). destruct (Z.lt_ge_cases i 64).
    - rewrite (Z.ones_spec_low 64 i) by lia. by destruct (Z.testbit (2 ^ k - 1) i).
    - assert (Z.testbit (value + (2 ^ k - 1)) i = false) as ->; [|done].
      apply Z.testbit_false; [done|]. rewrite Z.div_small; [done|]. split; [lia|].
      apply Z.le_lt_trans with USIZE_MAX; [done|].
      apply Z.lt_le_trans with (2 ^ 64); [done|]. apply Z.pow_le_mono_r; lia. }
  rewrite Z.ldiff_ones_r, Z.shiftl_mul_pow2, Z.shiftr_div_pow2 by lia.
  pose proof (Z.div_mod (value + (2 ^ k - 1)) (2 ^ k) ltac:(lia)).
  pose proof (Z.mod_pos_bound (value + (2 ^ k - 1)) (2 ^ k) ltac:(lia)).
  split; [lia|]. apply Z.divide_factor_r.
Qed.

(** ** Table operations on the live prefix *)

Definition table_ok (h : FreeListAllocator) : Prop :=
  length (heap_regions h) = MAX_FREE_REGIONS /\ (heap_len h <= MAX_FREE_REGIONS)%nat.

Section table.
Implicit Types (h : FreeListAllocator) (r : FreeRegion).

Lemma length_live h : table_ok h -> length (live h) = heap_len h.
Proof. intros [Hl Hn]. unfold live. rewrite length_take. lia. Qed.

Lemma live_split h i :
  table_ok h -> (i < heap_len h)%nat ->
  live h = take i (live h) ++ (heap_regions h !!! i) :: drop (S i) (live h).
Proof.
  intros [Hl Hn] Hi. symmetry. apply take_drop_middle. unfold live.
  rewrite lookup_take_lt by done. apply list_lookup_lookup_total_lt. lia.
Qed.

Lemma live_middle h l1 r l2 :
  table_ok h -> live h = l1 ++ r :: l2 ->
  heap_regions h !!! length l1 = r /\ (length l1 < heap_len h)%nat.
Proof.
  intros Hok Heq. assert (length l1 < heap_len h)%nat as Hlt.
  { rewrite <- (length_live h Hok), Heq, length_app. simpl. lia. }
  split; [|done].
  assert (live h !! length l1 = Some r) as Hl by (rewrite Heq; by apply list_lookup_middle).
  unfold live in Hl. rewrite lookup_take_lt in Hl by done. by apply list_lookup_total_correct.
Qed.

Lemma live_remove h l1 r l2 :
  table_ok h -> live h = l1 ++ r :: l2 ->
  let h' := FreeListAllocator.remove_region h (length l1) in
  table_ok h' /\ live h' = l1 ++ l2 /\ (heap_len h' < heap_len h)%nat.
Proof.
  intros Hok Heq h'. subst h'. destruct (live_middle _ _ _ _ Hok Heq) as [_ Hlt].
  destruct Hok as [Hl Hn]. unfold FreeListAllocator.remove_region.
  destruct (Nat.ltb_spec 0 (heap_len h)); [|lia]. unfold table_ok, live. cbn -[MAX_FREE_REGIONS].
  rewrite length_insert, length_shift_left. split_and!; [done|lia| |lia].
  rewrite take_insert_ge, take_shift_left by lia. unfold live in Heq. rewrite Heq.
  rewrite delete_take_drop, take_app_length.
  rewrite drop_app_ge by lia. replace (S (length l1) - length l1)%nat with 1%nat by lia. done.
Qed.

Lemma live_insert h l1 l2 r :
  table_ok h -> (heap_len h < MAX_FREE_REGIONS)%nat -> live h = l1 ++ l2 ->
  let h' := FreeListAllocator.insert_region h (length l1) r in
  table_ok h' /\ live h' = l1 ++ r :: l2.
Proof.
  intros Hok Hmax Heq h'. subst h'. pose proof (length_live h Hok) as Hlen.
  rewrite Heq, length_app in Hlen. destruct Hok as [Hl Hn].
  unfold FreeListAllocator.insert_region, table_ok, live in *. cbn -[MAX_FREE_REGIONS].
  rewrite length_insert, length_shift_right. split_and!; [done|lia|].
  rewrite take_shift_right by lia. rewrite Heq, drop_app_length. f_equal.
  transitivity (take (length l1) (take (heap_len h) (heap_regions h))).
  - by rewrite take_take, Nat.min_l by lia.
  - by rewrite Heq, take_app_length.
Qed.

Lemma live_set h l1 r l2 r' :
  table_ok h -> live h = l1 ++ r :: l2 ->
  let h' := FreeListAllocator.set_region h (length l1) r' in
  table_ok h' /\ live h' = l1 ++ r' :: l2.
Proof.
  intros Hok Heq h'. subst h'. destruct (live_middle _ _ _ _ Hok Heq) as [_ Hlt].
  destruct Hok as [Hl Hn]. unfold FreeListAllocator.set_region, table_ok, live in *.
  cbn -[MAX_FREE_REGIONS]. rewrite length_insert. split_and!; [done|lia|].
  rewrite take_insert_lt by done. rewrite Heq.
  rewrite insert_app_r_alt, Nat.sub_diag by done. done.
Qed.

(** The region of free bytes [s, e), when there are any. *)
Definition piece (s e : Z) : list FreeRegion :=
  if 0 <? e - s then [mkFreeRegion s (e - s)] else [].

Lemma carve_live h l1 r l2 start end_ h1 :
  table_ok h -> live h = l1 ++ r :: l2 ->
  FreeListAllocator.carve h (length l1) start end_ = Some h1 ->
  table_ok h1 /\
  live h1 = l1 ++ piece (fr_start r) start ++ piece end_ (fr_end r) ++ l2 /\
  FreeListAllocator.with_table h1 [] 0 = FreeListAllocator.with_table h [] 0.
Proof.
  intros Hok Heq. destruct (live_middle _ _ _ _ Hok Heq) as [Hr Hlt].
  unfold FreeListAllocator.carve, piece. rewrite Hr.
  destruct (0 <? start - fr_start r), (0 <? fr_end r - end_).
  - destruct (Nat.eqb_spec (heap_len h) (length (heap_regions h))); [done|].
    intros [= <-].
    destruct (live_insert h (l1 ++ [r]) l2 (mkFreeRegion end_ (fr_end r - end_)))
      as [Hok1 Hl1]; [done|destruct Hok; lia|by rewrite <- app_assoc|].
    rewrite length_app in Hok1, Hl1. rewrite <- app_assoc in Hl1.
    destruct (live_set _ _ _ _ (mkFreeRegion (fr_start r) (start - fr_start r)) Hok1 Hl1)
      as [Hok2 Hl2]. done.
  - intros [= <-].
    destruct (live_set _ _ _ _ (mkFreeRegion (fr_start r) (start - fr_start r)) Hok Heq)
      as [Hok2 Hl2]. done.
  - intros [= <-].
    destruct (live_set _ _ _ _ (mkFreeRegion end_ (fr_end r - end_)) Hok Heq)
      as [Hok2 Hl2]. done.
  - intros [= <-]. destruct (live_remove _ _ _ _ Hok Heq) as (Hok2 & Hl2 & _).
    split_and!; [done..|]. unfold FreeListAllocator.remove_region. by case_match.
Qed.

Lemma alloc_scan_found table size align index fuel i start end_ :
  FreeListAllocator.alloc_scan table size align index fuel = ScanFound i start end_ ->
  (index <= i < index + fuel)%nat /\
  align_up (fr_start (table !!! i)) align = Some start /\
  end_ = start + size /\ end_ <= USIZE_MAX /\ end_ <= fr_end (table !!! i).
Proof.
  revert index. induction fuel as [|fuel IH]; intros index; simpl; [done|].
  destruct (align_up (fr_start (table !!! index)) align) as [s|] eqn:Hup; [|done].
  destruct (checked_add _ _ _) as [e|] eqn:Hadd; [|done].
  apply checked_add_Some in Hadd as [-> Hmax].
  destruct (Z.ltb_spec (fr_end (table !!! index)) (s + size)) as [|Hle].
  - intros Hf. apply IH in Hf as (Hi & Hrest). split; [lia|done].
  - intros [= <- <- <-]. split_and!; try lia. done.
Qed.

End table.

(** ** Allocation *)

Section carving.
Implicit Types (l : list FreeRegion) (r : FreeRegion).

Lemma elem_of_piece x s e : x ∈ piece s e <-> x = mkFreeRegion s (e - s) /\ s < e.
Proof.
  unfold piece. destruct (Z.ltb_spec 0 (e - s)).
  - rewrite list_elem_of_singleton. intuition lia.
  - split; [by intros ?%not_elem_of_nil|lia].
Qed.

Lemma covers_piece s e b : covers (piece s e) b <-> s <= b < e.
Proof.
  unfold covers, in_region, fr_end. setoid_rewrite elem_of_piece. split.
  - intros (x & [-> ?] & ?). cbn in *. lia.
  - intros. exists (mkFreeRegion s (e - s)). cbn. intuition lia.
Qed.

Lemma total_size_piece s e : s <= e -> total_size (piece s e) = e - s.
Proof. intros. unfold piece. destruct (Z.ltb_spec 0 (e - s)); simpl; lia. Qed.

Lemma regions_wf_piece s e : 0 < s -> e <= USIZE_MAX -> regions_wf (piece s e).
Proof.
  intros. unfold piece. destruct (Z.ltb_spec 0 (e - s)).
  - apply regions_wf_cons. split_and!; [|split; constructor|intros y []%elem_of_nil].
    unfold region_wf, fr_end. simpl. lia.
  - split; constructor.
Qed.

Lemma carve_regions l1 r l2 s e :
  regions_wf (l1 ++ r :: l2) -> fr_start r <= s -> s < e -> e <= fr_end r ->
  let l' := l1 ++ piece (fr_start r) s ++ piece e (fr_end r) ++ l2 in
  regions_wf l' /\ total_size l' = total_size (l1 ++ r :: l2) - (e - s) /\
  (forall b, covers l' b <-> covers (l1 ++ r :: l2) b /\ ~ s <= b < e).
Proof.
  intros (Hw1 & (Hr & Hw2 & Hlt2)%regions_wf_cons & Hlt1)%regions_wf_app Hs Hse He l'.
  assert (forall x, x ∈ l1 -> fr_end x < fr_start r) as Ha.
  { intros x Hx. apply (Hlt1 x r Hx). left. }
  assert (forall y, y ∈ l2 -> fr_end r < fr_start y) as Hb by apply Hlt2.
  subst l'. split_and!.
  - destruct Hr as (Hr1 & Hr2 & Hr3).
    rewrite !regions_wf_app. split_and!; try done;
      try (apply regions_wf_piece; lia);
      intros x y; rewrite ?elem_of_app, ?elem_of_piece; unfold left_of.
    + intros (-> & _) Hy. specialize (Hb y Hy). unfold fr_end in *. cbn. lia.
    + intros (-> & _) [(-> & _)|Hy]; unfold fr_end in *; cbn; [lia|].
      specialize (Hb y Hy). lia.
    + intros Hx. specialize (Ha x Hx). unfold fr_end in *.
      intros [(-> & _)|[(-> & _)|Hy]]; cbn; [lia|lia|]. specialize (Hb y Hy). lia.
  - rewrite !total_size_app. simpl. rewrite !total_size_piece by lia. unfold fr_end. lia.
  - intros b. rewrite !covers_app, !covers_cons, !covers_piece. unfold in_region.
    assert (covers l1 b -> b < fr_start r).
    { intros (x & Hx & Hi). specialize (Ha x Hx). unfold in_region in Hi. lia. }
    assert (covers l2 b -> fr_end r <= b).
    { intros (x & Hx & Hi). specialize (Hb x Hx). unfold in_region in Hi. lia. }
    intuition lia.
Qed.

(** Either a slot became free or a neighbour of the block is still in the table. *)
Lemma carve_neighbour l1 r l2 s e :
  fr_start r <= s -> e <= fr_end r ->
  let l' := l1 ++ piece (fr_start r) s ++ piece e (fr_end r) ++ l2 in
  (length l' < length (l1 ++ r :: l2))%nat \/
  exists x, x ∈ l' /\ (fr_end x = s \/ fr_start x = e).
Proof.
  intros Hs He l'.
  destruct (Z.lt_ge_cases (fr_start r) s) as [H1|H1].
  { right. exists (mkFreeRegion (fr_start r) (s - fr_start r)). subst l'.
    rewrite !elem_of_app, !elem_of_piece. unfold fr_end. cbn. intuition lia. }
  destruct (Z.lt_ge_cases e (fr_end r)) as [H2|H2].
  { right. exists (mkFreeRegion e (fr_end r - e)). subst l'.
    rewrite !elem_of_app, !elem_of_piece. unfold fr_end. cbn. intuition lia. }
  left. subst l'. unfold piece. rewrite !(proj2 (Z.ltb_ge _ _)) by lia.
  rewrite !length_app. simpl. lia.
Qed.

End carving.

Definition with_live_of (h h' : FreeListAllocator) : Prop :=
  heap_initialized h' = heap_initialized h /\ capacity_bytes h' = capacity_bytes h.

(** What an allocation does to a well-formed heap. *)
Lemma heap_allocate_spec h layout p h' :
  heap_wf h -> layout_wf layout ->
  FreeListAllocator.allocate h layout = Some (p, h') ->
  (p = 0 /\ h' = h) \/
  (0 < p /\ p + block_size layout <= USIZE_MAX /\ (layout_align layout | p) /\
   heap_wf h' /\ with_live_of h h' /\
   (forall b, p <= b < p + block_size layout -> covers (live h) b) /\
   (forall b, covers (live h') b <-> covers (live h) b /\ ~ p <= b < p + block_size layout) /\
   free_bytes h' = free_bytes h - block_size layout /\
   dropped_free_bytes h' = dropped_free_bytes h /\
   ((heap_len h' < MAX_FREE_REGIONS)%nat \/
    exists x, x ∈ live h' /\ (fr_end x = p \/ fr_start x = p + block_size layout))).
Proof.
  intros [Hinit Htab Hlen Hlive Hfree] (Hsz & k & Hk & Hal).
  assert (table_ok h) as Hok by done.
  unfold FreeListAllocator.allocate, block_size. rewrite Hinit. cbn [negb].
  set (size := Z.max (layout_size layout) 1).
  destruct (FreeListAllocator.alloc_scan _ _ _ _ _) as [| |i s e] eqn:Hscan;
    [done|by intros [= <- <-]; left|].
  apply alloc_scan_found in Hscan as (Hi & Hup & -> & Hmax & Hfit).
  set (r := heap_regions h !!! i) in *.
  pose proof (live_split h i Hok ltac:(lia)) as Hsplit. fold r in Hsplit.
  set (l1 := take i (live h)) in *. set (l2 := drop (S i) (live h)) in *.
  assert (length l1 = i) as Hl1.
  { subst l1. rewrite length_take, (length_live h Hok). lia. }
  rewrite Hsplit in Hlive, Hfree.
  assert (region_wf r) as Hr.
  { eapply regions_wf_elem; [exact Hlive|]. rewrite elem_of_app, elem_of_cons. auto. }
  rewrite Hal in Hup. destruct Hr as (Hr1 & Hr2 & Hr3).
  apply align_up_pow2 in Hup as [Hrs Hdiv]; [|done|lia].
  rewrite <- Hl1. destruct (FreeListAllocator.carve _ _ _ _) as [h1|] eqn:Hc;
    [|by intros [= <- <-]; left].
  intros [= <- <-]. right.
  apply (carve_live h l1 r l2) in Hc as ([Hok1 Hok1'] & Hlive1 & Hsame); [|done..].
  injection Hsame as Hinit1 Hcap1 Hfree1 Hdrop1 _.
  destruct (carve_regions l1 r l2 s (s + size)) as (Hw & Htot & Hcov); [done|lia..|].
  pose proof (carve_neighbour l1 r l2 s (s + size) ltac:(lia) ltac:(lia)) as Hnb.
  cbv zeta in Hnb.
  rewrite <- Hlive1 in Hw, Htot, Hcov, Hnb. rewrite <- Hsplit in Hcov, Hnb.
  change (live (FreeListAllocator.with_accounts h1 _ _ _)) with (live h1).
  assert (0 <= total_size (live h1)) as Hpos
    by (eapply (total_size_bound _ 0); [done| |done]; intros x Hx;
        destruct (regions_wf_elem _ _ Hw Hx); lia).
  assert (saturating_sub (free_bytes h1) size = total_size (live h1)) as Hsat.
  { unfold saturating_sub. rewrite Hfree1, Hfree. lia. }
  split_and!; [lia|lia|by rewrite Hal| |split; [done|done]| |done| | |].
  - constructor; cbn -[MAX_FREE_REGIONS]; try done. congruence.
  - intros b Hb. rewrite Hsplit. apply covers_app. right. apply covers_cons. left.
    unfold in_region. lia.
  - cbn. rewrite Hsat, Htot, Hfree. lia.
  - done.
  - cbn -[MAX_FREE_REGIONS]. rewrite (length_live h), (length_live h1) in Hnb by done.
    destruct Hnb as [|Hnb]; [left; lia|by right].
Qed.

(** ** Deallocation *)

Section coalescing.
Implicit Types (h : FreeListAllocator) (l : list FreeRegion) (r : FreeRegion).

Lemma position_spec table start index fuel :
  let i := FreeListAllocator.position table start index fuel in
  (index <= i <= index + fuel)%nat /\
  (forall j, (index <= j < i)%nat -> fr_start (table !!! j) < start) /\
  ((i < index + fuel)%nat -> start <= fr_start (table !!! i)).
Proof.
  revert index. induction fuel as [|fuel IH]; intros index; simpl.
  { split_and!; intros; lia. }
  destruct (Z.ltb_spec (fr_start (table !!! index)) start) as [Hlt|Hge].
  - destruct (IH (index + 1)%nat) as (H1 & H2 & H3). split_and!; [lia|lia| |].
    + intros j Hj. destruct (decide (j = index)) as [->|]; [done|]. apply H2. lia.
    + intros. apply H3. lia.
  - split_and!; [lia|lia| |done]. intros. lia.
Qed.

Lemma regions_apart l r x :
  regions_wf l -> region_wf r -> (forall b, in_region r b -> ~ covers l b) -> x ∈ l ->
  fr_end x <= fr_start r \/ fr_end r <= fr_start x.
Proof.
  intros Hwf (? & ? & ?) Hdis Hx. destruct (regions_wf_elem _ _ Hwf Hx) as (? & ? & ?).
  pose proof (Hdis (Z.max (fr_start x) (fr_start r))) as Hd. unfold in_region, fr_end in *.
  destruct (Z.le_gt_cases (fr_start x + fr_size x) (fr_start r)); [by left|right].
  destruct (Z.le_gt_cases (fr_start r + fr_size r) (fr_start x)); [done|].
  exfalso. apply Hd; [lia|]. exists x. split; [done|]. unfold in_region, fr_end. lia.
Qed.

Lemma regions_start_mono l i j x y :
  regions_wf l -> l !! i = Some x -> l !! j = Some y -> (i <= j)%nat ->
  fr_start x <= fr_start y.
Proof.
  intros Hwf Hx Hy Hij. destruct (decide (i = j)) as [->|Hne]; [simplify_eq; lia|].
  rewrite <- (take_drop_middle _ _ _ Hx) in Hwf.
  apply regions_wf_app in Hwf as (_ & ((_ & ? & _) & _ & Hlt)%regions_wf_cons & _).
  assert (left_of x y) as Hxy; [|unfold left_of, fr_end in Hxy; lia].
  apply Hlt. apply (list_elem_of_lookup_2 _ (j - S i)). rewrite lookup_drop.
  by replace (S i + (j - S i))%nat with j by lia.
Qed.

(** The insertion point splits the live regions around a block disjoint from
    all of them. *)
Lemma position_split h r :
  table_ok h -> regions_wf (live h) -> region_wf r ->
  (forall b, in_region r b -> ~ covers (live h) b) ->
  exists l1 l2,
    live h = l1 ++ l2 /\
    FreeListAllocator.position (heap_regions h) (fr_start r) 0 (heap_len h) = length l1 /\
    (forall x, x ∈ l1 -> fr_end x <= fr_start r) /\
    (forall y, y ∈ l2 -> fr_end r <= fr_start y).
Proof.
  intros Hok Hwf Hr Hdis.
  pose proof (position_spec (heap_regions h) (fr_start r) 0 (heap_len h)) as (Hi & Hbelow & Habove).
  set (i := FreeListAllocator.position _ _ _ _) in *.
  assert (forall j x, live h !! j = Some x -> heap_regions h !!! j = x /\ (j < heap_len h)%nat)
    as Htot.
  { intros j x [Hx Hj]%lookup_take_Some. split; [|done]. by apply list_lookup_total_correct. }
  exists (take i (live h)), (drop i (live h)). split_and!.
  - by rewrite take_drop.
  - rewrite length_take, length_live by done. lia.
  - intros x [j [Hj Hlt]%lookup_take_Some]%list_elem_of_lookup.
    pose proof (Hbelow j ltac:(lia)) as Hb. rewrite (proj1 (Htot j x Hj)) in Hb.
    destruct (regions_apart _ r x Hwf Hr Hdis); [by eapply list_elem_of_lookup_2|done|].
    destruct Hr. unfold fr_end in *. lia.
  - intros y [j Hj]%list_elem_of_lookup. rewrite lookup_drop in Hj.
    destruct (Htot _ _ Hj) as [_ Hlt].
    destruct (lookup_lt_is_Some_2 (live h) i) as [z Hz]; [rewrite length_live by done; lia|].
    pose proof (Habove ltac:(lia)) as Hab. rewrite (proj1 (Htot i z Hz)) in Hab.
    pose proof (regions_start_mono _ _ _ _ _ Hwf Hz Hj ltac:(lia)).
    assert (y ∈ live h) as Hin by (by eapply list_elem_of_lookup_2).
    destruct (regions_wf_elem _ _ Hwf Hin) as (? & ? & ?).
    destruct (regions_apart _ r y Hwf Hr Hdis Hin); [|done]. unfold fr_end in *. lia.
Qed.

(** [r'] is [r] with the adjacent free regions [mid] folded in. *)
Definition folded (mid : list FreeRegion) (r r' : FreeRegion) : Prop :=
  region_wf r' /\ fr_size r' = total_size mid + fr_size r /\
  (forall b, in_region r' b <-> covers mid b \/ in_region r b).

Definition same_accounts (h h' : FreeListAllocator) : Prop :=
  FreeListAllocator.with_table h' [] 0 = FreeListAllocator.with_table h [] 0.

Lemma folded_nil r : region_wf r -> folded [] r r.
Proof.
  intros Hr. split_and!; [done|done|]. intros b. pose proof (covers_nil b). naive_solver.
Qed.

Lemma merge_adjacent a b :
  region_wf a -> region_wf b -> fr_end a = fr_start b ->
  FreeListAllocator.merge a b = mkFreeRegion (fr_start a) (fr_size a + fr_size b).
Proof.
  unfold region_wf, FreeListAllocator.merge, fr_end. intros. f_equal; lia.
Qed.

Lemma remove_same_accounts h i : same_accounts h (FreeListAllocator.remove_region h i).
Proof. unfold same_accounts, FreeListAllocator.remove_region. by case_match. Qed.

Lemma coalesce_left_spec h l1 l2 r h1 i r' :
  table_ok h -> live h = l1 ++ l2 -> regions_wf l1 -> region_wf r ->
  (forall x, x ∈ l1 -> fr_end x <= fr_start r) ->
  FreeListAllocator.coalesce_left h (length l1) r = (h1, i, r') ->
  exists l1' mid,
    l1 = l1' ++ mid /\ table_ok h1 /\ live h1 = l1' ++ l2 /\ i = length l1' /\
    same_accounts h h1 /\ folded mid r r' /\ fr_end r' = fr_end r /\
    (forall x, x ∈ l1' -> left_of x r') /\
    ((mid = [] /\ heap_len h1 = heap_len h /\ forall x, x ∈ l1 -> fr_end x <> fr_start r) \/
     (heap_len h1 < MAX_FREE_REGIONS)%nat).
Proof.
  intros Hok Heq Hwf Hr Hle. unfold FreeListAllocator.coalesce_left, left_of.
  destruct l1 as [|x l1 _] using rev_ind.
  { cbn. intros [= <- <- <-]. exists [], []. split_and!; try done; [by apply folded_nil| |].
    - intros x []%elem_of_nil.
    - left. split_and!; [done..|]. intros x []%elem_of_nil. }
  rewrite <- app_assoc in Heq. cbn in Heq.
  destruct (live_middle _ _ _ _ Hok Heq) as [Hx Hlt].
  rewrite length_app, Nat.add_1_r. cbn [length Nat.sub].
  rewrite Nat.sub_0_r, Hx. cbn [Nat.ltb Nat.leb andb].
  apply regions_wf_app in Hwf as (Hwf1 & (Hxw & _)%regions_wf_cons & Hl1x).
  assert (forall y, y ∈ l1 -> fr_end y < fr_start x) as Hl1.
  { intros y Hy. apply (Hl1x y x Hy). left. }
  specialize (Hle x) as Hlex. rewrite elem_of_app, elem_of_cons in Hlex.
  specialize (Hlex ltac:(auto)).
  destruct (Z.leb_spec (fr_start r) (fr_end x)) as [Hadj|Hgap]; intros [= <- <- <-].
  - assert (fr_end x = fr_start r) as He by lia.
    destruct (live_remove _ _ _ _ Hok Heq) as (Hok1 & Hl & Hlen).
    exists l1, [x]. rewrite merge_adjacent by done.
    split_and!; try done; [apply remove_same_accounts| | |].
    + unfold folded. unfold region_wf, in_region, fr_end in *. cbn.
      split_and!; [lia..|]. intros b. rewrite covers_cons. pose proof (covers_nil b).
      unfold in_region, fr_end. intuition lia.
    + unfold fr_end in *. cbn. lia.
    + right. destruct Hok. lia.
  - exists (l1 ++ [x]), []. rewrite app_nil_r, <- app_assoc, length_app. cbn.
    split_and!; try done; [lia|by apply folded_nil| |].
    + intros y [Hy|[->|[]%elem_of_nil]%elem_of_cons]%elem_of_app; [|done].
      specialize (Hl1 y Hy). destruct Hxw as (? & ? & ?). unfold fr_end in *. lia.
    + left. split_and!; [done..|].
      intros y [Hy|[->|[]%elem_of_nil]%elem_of_cons]%elem_of_app; [|lia].
      specialize (Hl1 y Hy). destruct Hxw as (? & ? & ?). unfold fr_end in *. lia.
Qed.

Lemma coalesce_right_spec h l1 l2 r fuel h1 r' :
  table_ok h -> live h = l1 ++ l2 -> regions_wf l2 -> region_wf r ->
  (forall y, y ∈ l2 -> fr_end r <= fr_start y) -> (length l2 <= fuel)%nat ->
  FreeListAllocator.coalesce_right h (length l1) r fuel = (h1, r') ->
  exists mid l2',
    l2 = mid ++ l2' /\ table_ok h1 /\ live h1 = l1 ++ l2' /\
    same_accounts h h1 /\ folded mid r r' /\ fr_start r' = fr_start r /\
    (forall y, y ∈ l2' -> left_of r' y) /\
    ((mid = [] /\ heap_len h1 = heap_len h /\ forall y, y ∈ l2 -> fr_start y <> fr_end r) \/
     (heap_len h1 < MAX_FREE_REGIONS)%nat).
Proof.
  revert h r fuel. induction l2 as [|y l2 IH]; intros h r fuel Hok Heq Hwf Hr Hle Hfuel.
  { assert (FreeListAllocator.coalesce_right h (length l1) r fuel = (h, r)) as ->.
    { destruct fuel; [done|]. cbn [FreeListAllocator.coalesce_right].
      rewrite app_nil_r in Heq. rewrite <- Heq, length_live by done.
      by rewrite Nat.ltb_irrefl. }
    intros [= <- <-]. exists [], []. split_and!; try done; [by apply folded_nil| |].
    - intros x []%elem_of_nil.
    - left. split_and!; [done..|]. intros x []%elem_of_nil. }
  destruct fuel as [|fuel]; [simpl in Hfuel; lia|]. cbn [FreeListAllocator.coalesce_right].
  destruct (live_middle _ _ _ _ Hok Heq) as [Hy Hlt]. apply Nat.ltb_lt in Hlt as Hltb.
  rewrite Hltb, Hy. apply regions_wf_cons in Hwf as (Hyw & Hwf & Hyl).
  specialize (Hle y ltac:(left)) as Hley.
  destruct (Z.ltb_spec (fr_end r) (fr_start y)) as [Hgap|Hadj].
  { intros [= <- <-]. exists [], (y :: l2).
    assert (forall z, z ∈ y :: l2 -> left_of r z) as Hall.
    { intros z [->|Hz]%elem_of_cons; [done|]. specialize (Hyl z Hz).
      destruct Hyw as (? & ? & ?). unfold left_of, fr_end in *. lia. }
    split_and!; try done; [by apply folded_nil|]. left. split_and!; [done..|].
    intros z Hz. specialize (Hall z Hz). unfold left_of in Hall. lia. }
  destruct (live_remove _ _ _ _ Hok Heq) as (Hok1 & Hl & Hlen).
  rewrite merge_adjacent by (done || lia). intros Hrun.
  apply IH in Hrun as (mid & l2' & -> & Hok' & Hl' & Hacc & Hfold & Hst & Hleft & Hcase).
  - exists (y :: mid), l2'. split_and!; try done.
    + unfold same_accounts in *. by rewrite Hacc, remove_same_accounts.
    + destruct Hfold as (Hw & Hsz & Hb). cbn in Hsz. split_and!; [done|simpl; lia|].
      intros b. rewrite Hb, covers_cons. unfold in_region, fr_end in *. cbn.
      destruct Hyw as (? & ? & ?). destruct Hr as (? & ? & ?). intuition lia.
    + right. destruct Hok as [_ Hn]. destruct Hcase as [(_ & -> & _)|]; [lia|done].
  - done.
  - done.
  - done.
  - unfold region_wf, fr_end in *. cbn. lia.
  - intros z Hz. specialize (Hyl z Hz). unfold left_of, fr_end in *. cbn. lia.
  - simpl in Hfuel. lia.
Qed.

Lemma same_accounts_fields h h' :
  same_accounts h h' ->
  heap_initialized h' = heap_initialized h /\ capacity_bytes h' = capacity_bytes h /\
  free_bytes h' = free_bytes h /\ dropped_free_bytes h' = dropped_free_bytes h /\
  dropped_free_events h' = dropped_free_events h.
Proof. by intros [= -> -> -> -> ->]. Qed.

End coalescing.

(** What freeing a block outside the free bytes does to a well-formed heap. *)
Definition freed (h h' : FreeListAllocator) (p size : Z) : Prop :=
  (forall b, covers (live h') b <-> covers (live h) b \/ p <= b < p + size) /\
  free_bytes h' = free_bytes h + size /\ dropped_free_bytes h' = dropped_free_bytes h.

Definition drop_counted (h h' : FreeListAllocator) (p size : Z) : Prop :=
  heap_len h = MAX_FREE_REGIONS /\
  (forall x, x ∈ live h -> fr_end x <> p /\ fr_start x <> p + size) /\
  live h' = live h /\ free_bytes h' = free_bytes h /\
  dropped_free_bytes h' = saturating_add U64_MAX (dropped_free_bytes h) size /\
  dropped_free_events h' = saturating_add U64_MAX (dropped_free_events h) 1.

(** The live regions after coalescing around a block are well formed. *)
Lemma insert_regions l1 l2 r l1' ml mr l2' r1 r2 :
  regions_wf (l1 ++ l2) -> l1 = l1' ++ ml -> l2 = mr ++ l2' ->
  folded ml r r1 -> folded mr r1 r2 -> fr_start r2 = fr_start r1 ->
  (forall x, x ∈ l1' -> left_of x r1) -> (forall y, y ∈ l2' -> left_of r2 y) ->
  regions_wf (l1' ++ r2 :: l2') /\
  total_size (l1' ++ r2 :: l2') = total_size (l1 ++ l2) + fr_size r /\
  (forall b, covers (l1' ++ r2 :: l2') b <-> covers (l1 ++ l2) b \/ in_region r b).
Proof.
  intros Hwf -> -> (Hw1 & Hs1 & Hb1) (Hw2 & Hs2 & Hb2) Hst Hl Hr.
  rewrite !regions_wf_app in Hwf. destruct Hwf as ((Hwl & _ & _) & (_ & Hwr & _) & Hlr).
  split_and!.
  - rewrite regions_wf_app, regions_wf_cons. split_and!; try done.
    intros x y Hx [->|Hy]%elem_of_cons.
    + specialize (Hl x Hx). unfold left_of in *. lia.
    + apply Hlr; rewrite elem_of_app; auto.
  - rewrite !total_size_app. simpl. lia.
  - intros b. rewrite !covers_app, !covers_cons, Hb2, Hb1. tauto.
Qed.

Lemma live_with_accounts h f d e :
  live (FreeListAllocator.with_accounts h f d e) = live h.
Proof. done. Qed.

Lemma no_neighbour l1 l2 r x :
  regions_wf l1 -> regions_wf l2 -> region_wf r ->
  (forall x, x ∈ l1 -> fr_end x <= fr_start r) -> (forall y, y ∈ l2 -> fr_end r <= fr_start y) ->
  (forall x, x ∈ l1 -> fr_end x <> fr_start r) -> (forall y, y ∈ l2 -> fr_start y <> fr_end r) ->
  x ∈ l1 ++ l2 -> fr_end x <> fr_start r /\ fr_start x <> fr_start r + fr_size r.
Proof.
  intros Hw1 Hw2 (? & ? & ?) Hle1 Hle2 Hn1 Hn2 [Hx|Hx]%elem_of_app.
  - specialize (Hle1 x Hx). specialize (Hn1 x Hx).
    destruct (regions_wf_elem l1 x Hw1 Hx) as (? & ? & ?). unfold fr_end in *. lia.
  - specialize (Hle2 x Hx). specialize (Hn2 x Hx).
    destruct (regions_wf_elem l2 x Hw2 Hx) as (? & ? & ?). unfold fr_end in *. lia.
Qed.

Lemma insert_and_coalesce_spec h r :
  heap_wf h -> region_wf r -> (forall b, in_region r b -> ~ covers (live h) b) ->
  let h' := FreeListAllocator.insert_and_coalesce h r in
  heap_wf h' /\ with_live_of h h' /\
  (freed h h' (fr_start r) (fr_size r) \/ drop_counted h h' (fr_start r) (fr_size r)).
Proof.
  intros [Hinit Htab Hlen Hlive Hfree] Hr Hdis h'. subst h'.
  assert (table_ok h) as Hok by done.
  unfold FreeListAllocator.insert_and_coalesce.
  destruct (Z.eqb_spec (fr_size r) 0); [destruct Hr as (? & ? & ?); lia|].
  destruct (position_split h r Hok Hlive Hr Hdis) as (l1 & l2 & Heq & -> & Hle1 & Hle2).
  rewrite Heq in Hlive. pose proof Hlive as (Hwf1 & Hwf2 & _)%regions_wf_app.
  destruct (FreeListAllocator.coalesce_left _ _ _) as [[h1 i] r1] eqn:Hcl.
  apply (coalesce_left_spec h l1 l2 r) in Hcl
    as (l1' & ml & El & Hok1 & Hlv1 & -> & Hac1 & Hf1 & He1 & Hlt1 & Hc1); [|done..].
  destruct (FreeListAllocator.coalesce_right _ _ _ _) as [h2 r2] eqn:Hcr.
  apply (coalesce_right_spec h1 l1' l2 r1) in Hcr
    as (mr & l2' & Er & Hok2 & Hlv2 & Hac2 & Hf2 & Hst2 & Hlt2 & Hc2); [|done..| | |].
  2: apply Hf1.
  2: by rewrite He1.
  2: { rewrite <- (length_live h1 Hok1), Hlv1, length_app. lia. }
  destruct (insert_regions l1 l2 r l1' ml mr l2' r1 r2) as (Hw & Htot & Hcov); [done..|].
  apply same_accounts_fields in Hac1 as (I1 & C1 & F1 & D1 & E1).
  apply same_accounts_fields in Hac2 as (I2 & C2 & F2 & D2 & E2).
  destruct Hok2 as [Hok2 Hok2']. rewrite Hok2.
  destruct (Nat.eqb_spec (heap_len h2) MAX_FREE_REGIONS) as [Hfull|Hroom].
  - destruct Hc2 as [(-> & Hn2 & Hnr)|]; [|lia]. destruct Hc1 as [(-> & Hn1 & Hnl)|]; [|lia].
    rewrite app_nil_r in El. cbn in Er. subst l1' l2'. rewrite <- Heq in Hlv2.
    destruct Hf1 as (_ & Hs1 & _), Hf2 as (_ & Hs2 & _). simpl in Hs1, Hs2.
    split_and!.
    + constructor; rewrite ?live_with_accounts, ?Hlv2, ?Heq; cbn -[MAX_FREE_REGIONS];
        try done; congruence.
    + split; cbn; congruence.
    + right. split_and!; cbn; try congruence.
      * intros x Hx. rewrite He1 in Hnr. rewrite Heq in Hx.
        by eapply no_neighbour in Hx.
      * by rewrite live_with_accounts.
      * by rewrite D2, D1, Hs2, Hs1.
  - set (ha := FreeListAllocator.with_accounts h2 _ _ _).
    destruct (live_insert ha l1' l2' r2) as [[Hok3 Hok3'] Hlv3]; [done|cbn; lia|done|].
    rewrite Heq in Hfree. rewrite <- Hlv3 in Hw, Htot, Hcov. rewrite <- Heq in Hcov.
    assert (0 <= total_size (live (FreeListAllocator.insert_region ha (length l1') r2))
            <= USIZE_MAX - 0) as Hbd.
    { apply total_size_bound; [done| |done]. intros x Hx.
      destruct (regions_wf_elem _ _ Hw Hx). lia. }
    assert (free_bytes (FreeListAllocator.insert_region ha (length l1') r2) =
            free_bytes h + fr_size r) as Hfb.
    { subst ha. cbn. unfold saturating_add. rewrite F2, F1, Hfree.
      unfold U64_MAX, USIZE_MAX in *. lia. }
    split_and!.
    + constructor; try done; [cbn; congruence|by rewrite Hfb, Htot, Hfree].
    + split; cbn; congruence.
    + left. split_and!; [done|done|cbn; congruence].
Qed.


Lemma deallocate_spec h p layout :
  heap_wf h -> 0 < p -> p + block_size layout <= USIZE_MAX ->
  (forall b, p <= b < p + block_size layout -> ~ covers (live h) b) ->
  let h' := FreeListAllocator.deallocate h p layout in
  heap_wf h' /\ with_live_of h h' /\
  (freed h h' p (block_size layout) \/ drop_counted h h' p (block_size layout)).
Proof.
  intros Hwf Hp Hmax Hdis h'. subst h'.
  unfold FreeListAllocator.deallocate. rewrite (hwf_initialized h Hwf). cbn [negb].
  destruct (checked_add _ _ _) as [e|] eqn:Hadd.
  2: { apply checked_add_None in Hadd. unfold block_size in Hmax. lia. }
  apply checked_add_Some in Hadd as [-> _].
  change (Z.max (layout_size layout) 1) with (block_size layout).
  replace (p + block_size layout - p) with (block_size layout) by lia.
  apply (insert_and_coalesce_spec h (mkFreeRegion p (block_size layout))); [done| |done].
  unfold region_wf, fr_end, block_size in *. cbn. lia.
Qed.

(** Both outcomes of the first-fit scan without a fit. *)
Lemma alloc_scan_null table size align k index fuel :
  0 <= k < 64 -> align = 2 ^ k ->
  (forall i j, (index <= i <= j)%nat -> (j < index + fuel)%nat ->
     0 <= fr_start (table !!! i) <= fr_start (table !!! j) /\
     fr_end (table !!! j) <= USIZE_MAX) ->
  FreeListAllocator.alloc_scan table size align index fuel = ScanNull ->
  forall i p, (index <= i < index + fuel)%nat -> (align | p) ->
    fr_start (table !!! i) <= p -> fr_end (table !!! i) < p + size.
Proof.
  intros Hk ->. revert index.
  assert (forall v s p, 0 <= v -> align_up v (2 ^ k) = Some s -> (2 ^ k | p) -> v <= p -> s <= p)
    as Hleast.
  { intros v s p Hv Hup [q ->] Hle. apply align_up_pow2 in Hup as [Hs [q' ->]]; [|done..].
    assert (0 < 2 ^ k) by (apply Z.pow_pos_nonneg; lia).
    assert (q' < q + 1); [|apply Z.mul_le_mono_nonneg_r; lia].
    apply (Z.mul_lt_mono_pos_r (2 ^ k)); lia. }
  induction fuel as [|fuel IH]; intros index Hmono; simpl; [lia|].
  destruct (align_up (fr_start (table !!! index)) (2 ^ k)) as [s|] eqn:Hup; [|done].
  destruct (checked_add USIZE_MAX s size) as [e|] eqn:Hadd.
  - apply checked_add_Some in Hadd as [-> _].
    destruct (Z.ltb_spec (fr_end (table !!! index)) (s + size)); [|done].
    intros Hscan i p Hi Hdiv Hle. destruct (decide (i = index)) as [->|].
    + pose proof (Hleast _ s p (proj1 (proj1 (Hmono index index ltac:(lia) ltac:(lia))))
        Hup Hdiv Hle). lia.
    + apply (IH (index + 1)%nat); [|done|lia|done|done].
      intros i' j' Hij Hj. apply Hmono; lia.
  - apply checked_add_None in Hadd. intros _ i p Hi Hdiv Hle.
    destruct (Hmono index i ltac:(lia) ltac:(lia)) as [? ?].
    assert (s <= p) by (eapply Hleast; [|exact Hup|exact Hdiv|]; lia). lia.
Qed.

(** ** The heap and its callers

    The blocks callers hold, with the layout they were allocated with.  A
    caller frees a block it holds, with that layout, as [GlobalAlloc] asks. *)
Record HeapSystem := mkHeapSystem {
  heap : FreeListAllocator;
  blocks : list (Z * Layout);
}.

Inductive heap_step : HeapSystem -> HeapSystem -> Prop :=
| heap_step_alloc h bs layout p h' :
    layout_wf layout -> FreeListAllocator.allocate h layout = Some (p, h') -> p <> 0 ->
    heap_step (mkHeapSystem h bs) (mkHeapSystem h' ((p, layout) :: bs))
| heap_step_null h bs layout h' :
    layout_wf layout -> FreeListAllocator.allocate h layout = Some (0, h') ->
    heap_step (mkHeapSystem h bs) (mkHeapSystem h' bs)
| heap_step_dealloc h bs1 bs2 p layout :
    heap_step (mkHeapSystem h (bs1 ++ (p, layout) :: bs2))
      (mkHeapSystem (FreeListAllocator.deallocate h p layout) (bs1 ++ bs2)).

Definition in_block (blk : Z * Layout) (b : Z) : Prop :=
  blk.1 <= b < blk.1 + block_size blk.2.

Definition block_disjoint (x y : Z * Layout) : Prop :=
  forall b, in_block x b -> ~ in_block y b.

Definition held_bytes (bs : list (Z * Layout)) : Z :=
  foldr (fun blk n => block_size blk.2 + n) 0 bs.

Record heap_inv (base size : Z) (s : HeapSystem) : Prop := {
  hinv_wf : heap_wf (heap s);
  hinv_capacity : capacity_bytes (heap s) = size;
  hinv_dropped : 0 <= dropped_free_bytes (heap s);
  hinv_range : forall b, covers (live (heap s)) b -> base <= b < base + size;
  hinv_blocks : Forall (fun blk => 0 < blk.1 /\ (layout_align blk.2 | blk.1) /\
                                   base <= blk.1 /\
                                   blk.1 + block_size blk.2 <= base + size) (blocks s);
  hinv_free : Forall (fun blk => forall b, in_block blk b -> ~ covers (live (heap s)) b) (blocks s);
  hinv_disjoint : StronglySorted block_disjoint (blocks s);
  hinv_account :
    free_bytes (heap s) + held_bytes (blocks s) + dropped_free_bytes (heap s) = size;
}.

Lemma held_bytes_app bs1 bs2 : held_bytes (bs1 ++ bs2) = held_bytes bs1 + held_bytes bs2.
Proof. induction bs1; simpl; lia. Qed.

Lemma held_bytes_nonneg bs : 0 <= held_bytes bs.
Proof. induction bs as [|[p l] bs IH]; simpl; [lia|]. unfold block_size. lia. Qed.

Lemma held_bytes_cons p layout bs :
  held_bytes ((p, layout) :: bs) = block_size layout + held_bytes bs.
Proof. done. Qed.

#[global] Arguments held_bytes : simpl never.

Lemma heap_inv_alloc base size h bs layout p h' :
  heap_inv base size (mkHeapSystem h bs) -> layout_wf layout ->
  FreeListAllocator.allocate h layout = Some (p, h') -> p <> 0 ->
  heap_inv base size (mkHeapSystem h' ((p, layout) :: bs)).
Proof.
  intros [Hwf Hcap Hd Hrange Hblk Hfree Hdis Hacc] Hlay Ha Hp. cbn in *.
  destruct (heap_allocate_spec _ _ _ _ Hwf Hlay Ha) as
    [[? _]|(Hpos & Hmax & Hal & Hwf' & [Hi Hc] & Hin & Hcov & Hfb & Hdb & _)]; [done|].
  constructor; cbn; try done.
  - congruence.
  - lia.
  - intros b Hb. apply Hrange. by apply Hcov.
  - constructor; [|done]. cbn. split_and!; [done|done| |].
    + destruct (Hrange p); [|lia]. apply Hin. unfold block_size. lia.
    + destruct (Hrange (p + block_size layout - 1)); [|lia]. apply Hin. unfold block_size. lia.
  - constructor; [|]; cbn.
    + intros b Hb Hcv. apply Hcov in Hcv as [_ Hn]. by apply Hn.
    + eapply Forall_impl; [exact Hfree|]. intros blk Hblk' b Hb Hcv.
      apply (Hblk' b Hb). by apply Hcov.
  - constructor; [done|]. eapply Forall_impl; [exact Hfree|].
    intros blk Hblk' b Hb Hb'. apply (Hblk' b Hb'). by apply Hin.
  - rewrite Hfb, Hdb, held_bytes_cons. lia.
Qed.

Lemma heap_inv_dealloc base size h bs1 bs2 p layout :
  base + size <= USIZE_MAX -> 0 <= base ->
  heap_inv base size (mkHeapSystem h (bs1 ++ (p, layout) :: bs2)) ->
  heap_inv base size (mkHeapSystem (FreeListAllocator.deallocate h p layout) (bs1 ++ bs2)).
Proof.
  intros Hmax Hb0 [Hwf Hcap Hd Hrange Hblk Hfree Hdis Hacc]. cbn in *.
  apply Forall_app in Hblk as [Hblk1 [(Hp & Hal & Hlo & Hhi) Hblk2]%Forall_cons].
  apply Forall_app in Hfree as [Hfree1 [Hfp Hfree2]%Forall_cons].
  apply StronglySorted_app in Hdis as (Hd12 & Hd1 & [Hdp Hd2]%StronglySorted_cons).
  rewrite held_bytes_app, held_bytes_cons in Hacc. cbn in *.
  pose proof (held_bytes_nonneg bs1). pose proof (held_bytes_nonneg bs2).
  destruct (deallocate_spec h p layout Hwf Hp ltac:(lia) Hfp) as (Hwf' & [Hi Hc] & Hcase).
  assert (0 <= free_bytes h) as Hf0.
  { rewrite (hwf_free h Hwf). eapply (total_size_bound _ 0); [apply Hwf| |done].
    intros x Hx. destruct (regions_wf_elem _ _ (hwf_live h Hwf) Hx). lia. }
  assert (forall b, covers (live (FreeListAllocator.deallocate h p layout)) b ->
    covers (live h) b \/ p <= b < p + block_size layout) as Hsub.
  { intros b. destruct Hcase as [(Hcov & _)|(_ & _ & -> & _)]; [by rewrite Hcov|auto]. }
  constructor; cbn; try done.
  - congruence.
  - destruct Hcase as [(_ & _ & ->)|(_ & _ & _ & _ & -> & _)]; [done|].
    unfold saturating_add, block_size, U64_MAX. lia.
  - intros b [Hb|Hb]%Hsub; [by apply Hrange|]. lia.
  - by apply Forall_app.
  - apply Forall_forall. intros blk Hin b Hb [Hcv|Hcv]%Hsub.
    + apply elem_of_app in Hin as [Hin|Hin].
      * by eapply Forall_forall in Hfree1; [apply (Hfree1 b)|].
      * by eapply Forall_forall in Hfree2; [apply (Hfree2 b)|].
    + apply elem_of_app in Hin as [Hin|Hin].
      * refine (Hd12 blk (p, layout) Hin _ b Hb Hcv). left.
      * eapply Forall_forall in Hdp; [|exact Hin]. by apply (Hdp b).
  - apply StronglySorted_app. split_and!; [|done|done].
    intros x y Hx Hy. apply Hd12; [done|by right].
  - rewrite held_bytes_app. destruct Hcase as [(_ & -> & ->)|(_ & _ & _ & -> & -> & _)]; [lia|].
    unfold saturating_add. rewrite Z.min_r; [lia|]. unfold USIZE_MAX, U64_MAX in *. lia.
Qed.

Lemma heap_inv_run base size s s' :
  base + size <= USIZE_MAX -> 0 <= base ->
  rtc heap_step s s' -> heap_inv base size s -> heap_inv base size s'.
Proof.
  intros Hmax Hb0. induction 1 as [|s s1 s' Hs _ IH]; [done|]. intros Hinv. apply IH.
  destruct Hs as [h bs layout p h' Hl Ha Hp|h bs layout h' Hl Ha|h bs1 bs2 p layout].
  - by eapply heap_inv_alloc.
  - destruct (heap_allocate_spec _ _ _ _ (hinv_wf _ _ _ Hinv) Hl Ha) as [[_ ->]|[? _]]; [done|lia].
  - by apply heap_inv_dealloc.
Qed.

Lemma heap_inv_boot base size h :
  0 < base -> 0 < size -> base + size <= USIZE_MAX ->
  FreeListAllocator.initialize FreeListAllocator.empty base size = (Ok tt, h) ->
  heap_inv base size (mkHeapSystem h []).
Proof.
  intros Hb Hs Hmax Hi. unfold FreeListAllocator.initialize in Hi.
  change (heap_initialized FreeListAllocator.empty) with false in Hi.
  injection Hi as <-.
  match goal with |- heap_inv _ _ (mkHeapSystem ?h' _) => set (h := h') end.
  assert (live h = [mkFreeRegion base size]) as Hlive by reflexivity.
  assert (length (heap_regions h) = MAX_FREE_REGIONS) as Hlen.
  { vm_compute. reflexivity. }
  constructor; cbn [heap blocks]; rewrite ?Hlive.
  - constructor; rewrite ?Hlive; try done.
    + cbn. unfold MAX_FREE_REGIONS. lia.
    + split; repeat constructor; unfold fr_end; cbn; lia.
    + cbn. lia.
  - done.
  - done.
  - intros b [Hin|Hn]%covers_cons; [exact Hin|by apply covers_nil in Hn].
  - constructor.
  - constructor.
  - constructor.
  - cbn. unfold held_bytes. cbn. lia.
Qed.

(** Concrete heaps used by the witnesses. *)
Module HeapExamples.

Definition base : Z := 0x10000.
Definition size : Z := 0x1000.

Definition boot : FreeListAllocator :=
  (FreeListAllocator.initialize FreeListAllocator.empty base size).2.

Definition word : Layout := mkLayout 24 16.

Definition after (h : FreeListAllocator) (layout : Layout) : Z * FreeListAllocator :=
  default (0, h) (FreeListAllocator.allocate h layout).

Definition one : HeapSystem := mkHeapSystem (after boot word).2 [(base, word)].

End HeapExamples.

(** ** Properties *)

(** C3: Whatever sequence of allocations and frees callers make on a booted heap,
    the blocks they hold are aligned, lie inside the heap, do not overlap each
    other and do not overlap any byte the table considers free; and the free
    bytes the heap reports, the bytes held and the bytes counted as dropped
    always add up to the heap's capacity. *)
Theorem heap_blocks_never_overlap base size h s :
  0 < base -> 0 < size -> base + size <= USIZE_MAX ->
  FreeListAllocator.initialize FreeListAllocator.empty base size = (Ok tt, h) ->
  rtc heap_step (mkHeapSystem h []) s ->
  heap_inv base size s.
Proof.
  intros Hb Hs Hmax Hboot Hrun.
  eapply heap_inv_run; [done|lia|exact Hrun|by apply heap_inv_boot].
Qed.

Lemma heap_blocks_never_overlap_witness :
  heap_inv HeapExamples.base HeapExamples.size HeapExamples.one.
Proof.
  apply (heap_blocks_never_overlap HeapExamples.base HeapExamples.size HeapExamples.boot).
  - done.
  - done.
  - vm_compute. discriminate.
  - vm_compute. reflexivity.
  - apply rtc_once. eapply (heap_step_alloc _ _ HeapExamples.word).
    + split; [split; vm_compute; discriminate|]. exists 4. split; [lia|done].
    + vm_compute. reflexivity.
    + done.
Defined.

(** Freeing a block straight after allocating it puts the region table back
    exactly as it was: the two halves the allocation may have split a region
    into are coalesced again, the free-byte account is restored and nothing is
    dropped, even when the allocation filled the table. *)
Theorem heap_free_undoes_allocate h layout p h' :
  heap_wf h -> layout_wf layout ->
  FreeListAllocator.allocate h layout = Some (p, h') -> p <> 0 ->
  let h'' := FreeListAllocator.deallocate h' p layout in
  live h'' = live h /\ free_bytes h'' = free_bytes h /\
  dropped_free_bytes h'' = dropped_free_bytes h.
Proof.
  intros Hwf Hlay Ha Hp. cbv zeta.
  destruct (heap_allocate_spec _ _ _ _ Hwf Hlay Ha) as
    [[? _]|(Hpos & Hmax & _ & Hwf' & _ & Hin & Hcov & Hfb & Hdb & Hnb)]; [done|].
  destruct (deallocate_spec h' p layout Hwf' Hpos Hmax) as (Hwf'' & _ & Hcase).
  { intros b Hb Hc. apply Hcov in Hc as [_ Hn]. done. }
  destruct Hcase as [(Hcov' & Hfb' & Hdb')|(Hfull & Hno & _)].
  - split_and!; [|lia|lia]. apply regions_canonical; [apply Hwf''|apply Hwf|].
    intros b. rewrite Hcov', Hcov. split; [naive_solver|].
    intros Hc. destruct (decide (p <= b < p + block_size layout)); [by right|left; done].
  - exfalso. destruct Hnb as [Hlt|(x & Hx & Hadj)]; [lia|].
    destruct (Hno x Hx). tauto.
Qed.

Lemma heap_free_undoes_allocate_witness :
  live (FreeListAllocator.deallocate (heap HeapExamples.one) HeapExamples.base
          HeapExamples.word) = live HeapExamples.boot.
Proof.
  apply (heap_free_undoes_allocate HeapExamples.boot HeapExamples.word HeapExamples.base
    (heap HeapExamples.one)).
  - apply (hinv_wf HeapExamples.base HeapExamples.size (mkHeapSystem HeapExamples.boot [])).
    apply heap_inv_boot; [done|done|vm_compute; discriminate|vm_compute; reflexivity].
  - split; [split; vm_compute; discriminate|]. exists 4. split; [lia|done].
  - vm_compute. reflexivity.
  - done.
Defined.

(** A null result leaves the heap untouched and is honest: either the region
    table is full, or no aligned block of the requested size fits into any
    live free region. *)
Theorem heap_null_means_no_fit h layout h' :
  heap_wf h -> layout_wf layout ->
  FreeListAllocator.allocate h layout = Some (0, h') ->
  h' = h /\
  (heap_len h = MAX_FREE_REGIONS \/
   forall r p, r ∈ live h -> (layout_align layout | p) -> fr_start r <= p ->
     fr_end r < p + block_size layout).
Proof.
  intros Hwf Hlay Ha. pose proof Hlay as (_ & k & Hk & Hal).
  destruct (heap_allocate_spec _ _ _ _ Hwf Hlay Ha) as [[_ ->]|[? _]]; [split; [done|]|lia].
  assert (table_ok h) as Hok by (split; apply Hwf).
  assert (forall i, (i < heap_len h)%nat -> live h !! i = Some (heap_regions h !!! i)) as Hlk.
  { intros i Hi. unfold live. rewrite lookup_take_lt by done.
    apply list_lookup_lookup_total_lt. destruct Hok. lia. }
  unfold FreeListAllocator.allocate in Ha. rewrite (hwf_initialized h Hwf) in Ha.
  cbn [negb] in Ha. fold (block_size layout) in Ha.
  destruct (FreeListAllocator.alloc_scan _ _ _ _ _) as [| |i s e] eqn:Hscan; [done| |].
  - right. intros r p [i Hi]%list_elem_of_lookup Hdiv Hle.
    assert (i < heap_len h)%nat as Hlt.
    { apply lookup_lt_Some in Hi. by rewrite length_live in Hi. }
    rewrite (Hlk i Hlt) in Hi. injection Hi as <-.
    eapply alloc_scan_null; [exact Hk|exact Hal| |exact Hscan|lia|done|done].
    intros i' j' Hij Hj. pose proof (Hlk i' ltac:(lia)) as Hi'. pose proof (Hlk j' ltac:(lia)) as Hj'.
    pose proof (regions_start_mono _ _ _ _ _ (hwf_live h Hwf) Hi' Hj' ltac:(lia)).
    apply list_elem_of_lookup_2 in Hi', Hj'.
    destruct (regions_wf_elem _ _ (hwf_live h Hwf) Hi') as (? & ? & ?).
    destruct (regions_wf_elem _ _ (hwf_live h Hwf) Hj') as (? & ? & ?). lia.
  - left. apply alloc_scan_found in Hscan as (Hi & Hup & _).
    assert (heap_regions h !!! i ∈ live h) as Hin by (eapply list_elem_of_lookup_2, Hlk; lia).
    destruct (regions_wf_elem _ _ (hwf_live h Hwf) Hin) as (? & ? & ?).
    rewrite Hal in Hup. apply align_up_pow2 in Hup as [? _]; [|done|lia].
    unfold FreeListAllocator.carve in Ha. rewrite (hwf_table h Hwf) in Ha.
    destruct (Nat.eqb_spec (heap_len h) MAX_FREE_REGIONS) as [->|]; [done|].
    destruct (0 <? _), (0 <? _); simplify_eq; lia.
Qed.

Lemma heap_null_means_no_fit_witness :
  fr_end (mkFreeRegion HeapExamples.base HeapExamples.size) < HeapExamples.base + 8192.
Proof.
  destruct (heap_null_means_no_fit HeapExamples.boot (mkLayout 8192 16) HeapExamples.boot)
    as [_ [Hfull|Hfit]].
  - apply (hinv_wf HeapExamples.base HeapExamples.size (mkHeapSystem HeapExamples.boot [])).
    apply heap_inv_boot; [done|done|vm_compute; discriminate|vm_compute; reflexivity].
  - split; [split; vm_compute; discriminate|]. exists 4. split; [lia|done].
  - vm_compute. reflexivity.
  - vm_compute in Hfull. discriminate.
  - apply (Hfit _ HeapExamples.base); [left|exists 4096; reflexivity|done].
Defined.
