(* ===== verification/Message.v ===== *)
(** * Messages and message queues

    Models [kernel/core/src/ipc/types.rs] and the [MessageQueue] and endpoint
    state of [kernel/core/src/ipc/endpoint.rs].  A message carries fixed arrays
    of words and prepared capability transfers with the source's counts; the
    queue is a ring of optional envelopes.  [queue_rep] relates the ring to the
    list of queued messages. *)

From S2P Require Import Prelude Ring Capability.
From stdpp Require Import base list.
From Stdlib Require Import ZArith Lia.

#[local] Open Scope Z_scope.

Definition MAX_MESSAGE_WORDS : nat := 16.

(** [serviceos_abi::IPC_MAX_HANDLES] *)
Definition MAX_MESSAGE_CAPABILITIES : nat := 8.
Definition MAX_QUEUED_MESSAGES_PER_ENDPOINT : Z := 64.

Record MessageBufferDescriptor := mkMessageBufferDescriptor {
  mbd_word_count : nat;
  transfers_capability : bool;
}.

Record SharedMemoryHint := mkSharedMemoryHint {
  offset_bytes : Z;
  length_bytes : Z;
  hint_writable : bool;
}.

(** [OutgoingMessage] and [MessageEnvelope] have the same fields; sending moves
    the fields of the one into the other. *)
Record OutgoingMessage := mkOutgoingMessage {
  om_tag : Z;
  om_word_count : nat;
  om_words : list Z;
  om_capability_count : nat;
  om_capabilities : list (option PreparedTransfer);
  om_reply_endpoint : option PreparedTransfer;
  om_shared_memory_hint : option SharedMemoryHint;
}.

Record MessageEnvelope := mkMessageEnvelope {
  env_tag : Z;
  env_word_count : nat;
  env_words : list Z;
  env_capability_count : nat;
  env_capabilities : list (option PreparedTransfer);
  env_reply_endpoint : option PreparedTransfer;
  env_shared_memory_hint : option SharedMemoryHint;
}.

Record ReceivedMessage := mkReceivedMessage {
  rm_tag : Z;
  rm_word_count : nat;
  rm_words : list Z;
  rm_transferred_capability_count : nat;
  rm_transferred_capabilities : list Z;
  rm_reply_endpoint : option Z;
  rm_shared_memory_hint : option SharedMemoryHint;
}.

Record MessageReceipt := mkMessageReceipt {
  receipt_peer : Z;
  receipt_descriptor : MessageBufferDescriptor;
}.

Record ChannelQueueState := mkChannelQueueState {
  cqs_peer : option Z;
  queued_messages : Z;
}.

Inductive IpcError :=
| EndpointNotReady
| BufferShapeInvalid
| IpcCapability (error : CapabilityError)
| ObjectKindMismatch
| EndpointClosed
| InvalidReplyEndpoint
| QueueEmpty
| QueueFull (queued max_messages : Z)
| MessageTooLarge (word_count max_words : nat)
| TooManyTransfers (transfer_count max_transfers : nat).

Module OutgoingMessage.

Definition new (tag : Z) (words : list Z) : result OutgoingMessage IpcError :=
  if (MAX_MESSAGE_WORDS <? length words)%nat then
    Err (MessageTooLarge (length words) MAX_MESSAGE_WORDS)
  else
    Ok {|
      om_tag := tag;
      om_word_count := length words;
      om_words := copy_into (replicate MAX_MESSAGE_WORDS 0) 0 words;
      om_capability_count := 0;
      om_capabilities := replicate MAX_MESSAGE_CAPABILITIES None;
      om_reply_endpoint := None;
      om_shared_memory_hint := None;
    |}.

Definition add_transfer (m : OutgoingMessage) (transfer : PreparedTransfer) :
    result OutgoingMessage IpcError :=
  if (om_capability_count m =? MAX_MESSAGE_CAPABILITIES)%nat then
    Err (TooManyTransfers (om_capability_count m + 1) MAX_MESSAGE_CAPABILITIES)
  else
    Ok {|
      om_tag := om_tag m;
      om_word_count := om_word_count m;
      om_words := om_words m;
      om_capability_count := om_capability_count m + 1;
      om_capabilities := <[om_capability_count m := Some transfer]> (om_capabilities m);
      om_reply_endpoint := om_reply_endpoint m;
      om_shared_memory_hint := om_shared_memory_hint m;
    |}.

Definition with_reply_endpoint (m : OutgoingMessage) (reply : PreparedTransfer) :
    OutgoingMessage :=
  {| om_tag := om_tag m;
     om_word_count := om_word_count m;
     om_words := om_words m;
     om_capability_count := om_capability_count m;
     om_capabilities := om_capabilities m;
     om_reply_endpoint := Some reply;
     om_shared_memory_hint := om_shared_memory_hint m |}.

Definition with_shared_memory_hint (m : OutgoingMessage) (hint : SharedMemoryHint) :
    OutgoingMessage :=
  {| om_tag := om_tag m;
     om_word_count := om_word_count m;
     om_words := om_words m;
     om_capability_count := om_capability_count m;
     om_capabilities := om_capabilities m;
     om_reply_endpoint := om_reply_endpoint m;
     om_shared_memory_hint := Some hint |}.

Definition descriptor (m : OutgoingMessage) : MessageBufferDescriptor :=
  mkMessageBufferDescriptor (om_word_count m)
    (negb (om_capability_count m =? 0)%nat || bool_decide (is_Some (om_reply_endpoint m))).

(** The envelope [enqueue] builds. *)
Definition envelope (m : OutgoingMessage) : MessageEnvelope :=
  {| env_tag := om_tag m;
     env_word_count := om_word_count m;
     env_words := om_words m;
     env_capability_count := om_capability_count m;
     env_capabilities := om_capabilities m;
     env_reply_endpoint := om_reply_endpoint m;
     env_shared_memory_hint := om_shared_memory_hint m |}.

End OutgoingMessage.

Module ReceivedMessage.

Definition words (m : ReceivedMessage) : list Z := take (rm_word_count m) (rm_words m).

Definition transferred_capabilities (m : ReceivedMessage) : list Z :=
  take (rm_transferred_capability_count m) (rm_transferred_capabilities m).

End ReceivedMessage.

(** ** The queue *)

Record MessageQueue := mkMessageQueue {
  slots : list (option MessageEnvelope);
  queue_head : Z;
  queue_len : Z;
}.

Module MessageQueue.

Definition new : MessageQueue := {|
  slots := replicate (Z.to_nat MAX_QUEUED_MESSAGES_PER_ENDPOINT) None;
  queue_head := 0;
  queue_len := 0;
|}.

Definition push_back (q : MessageQueue) (envelope : MessageEnvelope) :
    result unit MessageEnvelope * MessageQueue :=
  if queue_len q =? zlen (slots q) then (Err envelope, q)
  else
    let index := (queue_head q + queue_len q) mod zlen (slots q) in
    (Ok tt, mkMessageQueue (<[Z.to_nat index := Some envelope]> (slots q))
              (queue_head q) (queue_len q + 1)).

Definition pop_front (q : MessageQueue) : option MessageEnvelope * MessageQueue :=
  if queue_len q =? 0 then (None, q)
  else
    let envelope := slots q !!! Z.to_nat (queue_head q) in
    (envelope, mkMessageQueue (<[Z.to_nat (queue_head q) := None]> (slots q))
                 ((queue_head q + 1) mod zlen (slots q)) (queue_len q - 1)).

Definition push_front (q : MessageQueue) (envelope : MessageEnvelope) :
    result unit MessageEnvelope * MessageQueue :=
  if queue_len q =? zlen (slots q) then (Err envelope, q)
  else
    let head := (queue_head q + zlen (slots q) - 1) mod zlen (slots q) in
    (Ok tt, mkMessageQueue (<[Z.to_nat head := Some envelope]> (slots q))
              head (queue_len q + 1)).

End MessageQueue.

Record ChannelEndpointState := mkChannelEndpointState {
  peer : option Z;
  queue : MessageQueue;
}.

Module ChannelEndpointObject.

(** A dangling [Weak::new()] is [None]. *)
Definition new : ChannelEndpointState := mkChannelEndpointState None MessageQueue.new.

Definition connect (s : ChannelEndpointState) (peer_id : Z) : ChannelEndpointState :=
  mkChannelEndpointState (Some peer_id) (queue s).

End ChannelEndpointObject.

(** ** The ring represents a list of messages *)

Definition queue_rep (q : MessageQueue) (l : list MessageEnvelope) : Prop :=
  zlen (slots q) = MAX_QUEUED_MESSAGES_PER_ENDPOINT /\
  0 <= queue_head q < MAX_QUEUED_MESSAGES_PER_ENDPOINT /\
  queue_len q = zlen l /\ zlen l <= MAX_QUEUED_MESSAGES_PER_ENDPOINT /\
  ring_contents (slots q) (queue_head q) (queue_len q) = Some <$> l.

Lemma queue_rep_new : queue_rep MessageQueue.new [].
Proof. unfold queue_rep. vm_compute. intuition discriminate. Qed.

Lemma push_back_rep q l m :
  queue_rep q l ->
  if decide (zlen l = MAX_QUEUED_MESSAGES_PER_ENDPOINT)
  then MessageQueue.push_back q m = (Err m, q)
  else exists q', MessageQueue.push_back q m = (Ok tt, q') /\ queue_rep q' (l ++ [m]).
Proof.
  intros (Hcap & Hh & Hlen & Hmax & Hc). unfold MessageQueue.push_back. rewrite Hlen, Hcap.
  case_decide as Hfull; [by rewrite Hfull, Z.eqb_refl|].
  rewrite (proj2 (Z.eqb_neq _ _) Hfull). eexists. split; [done|].
  pose proof (zlen_nonneg l). unfold queue_rep. cbn [slots queue_head queue_len].
  rewrite zlen_insert, zlen_app. change (zlen [m]) with 1. rewrite <- Hcap in *.
  split_and!; [done|lia..|]. rewrite ring_contents_push by lia.
  rewrite <- Hlen, Hc. by rewrite fmap_app.
Qed.

Lemma pop_front_rep q l :
  queue_rep q l ->
  match l with
  | [] => MessageQueue.pop_front q = (None, q)
  | m :: l' => exists q', MessageQueue.pop_front q = (Some m, q') /\ queue_rep q' l'
  end.
Proof.
  intros (Hcap & Hh & Hlen & Hmax & Hc). unfold MessageQueue.pop_front. rewrite Hlen.
  destruct l as [|m l']; [done|]. pose proof (zlen_nonneg l'). rewrite zlen_cons in *.
  rewrite (proj2 (Z.eqb_neq _ _)) by lia. rewrite <- Hcap in *.
  rewrite (ring_contents_pop _ _ _ None) in Hc by lia. cbn [fmap list_fmap] in Hc.
  injection Hc as Hm Hc. rewrite Hm. eexists. split; [done|].
  unfold queue_rep. cbn [slots queue_head queue_len]. rewrite zlen_insert, <- Hcap.
  split_and!; [done|apply Z.mod_pos_bound; lia..|lia|lia|]. rewrite <- Hlen. exact Hc.
Qed.

Lemma push_front_rep q l m :
  queue_rep q l ->
  if decide (zlen l = MAX_QUEUED_MESSAGES_PER_ENDPOINT)
  then MessageQueue.push_front q m = (Err m, q)
  else exists q', MessageQueue.push_front q m = (Ok tt, q') /\ queue_rep q' (m :: l).
Proof.
  intros (Hcap & Hh & Hlen & Hmax & Hc). unfold MessageQueue.push_front.
  rewrite Hlen, Hcap. case_decide as Hfull; [by rewrite Hfull, Z.eqb_refl|].
  rewrite (proj2 (Z.eqb_neq _ _) Hfull). eexists. split; [done|].
  pose proof (zlen_nonneg l). unfold queue_rep. cbn [slots queue_head queue_len].
  rewrite zlen_insert, zlen_cons. rewrite <- Hcap in *.
  split_and!; [done|apply Z.mod_pos_bound; lia..|lia|lia|].
  rewrite ring_contents_push_front by lia. rewrite <- Hlen, Hc. done.
Qed.

(** ** The bounded double-ended queue the ring implements *)

Inductive QueueOp :=
| OpPushBack (m : MessageEnvelope)
| OpPopFront
| OpPushFront (m : MessageEnvelope).

Inductive QueueObs :=
| ObsPush (r : result unit MessageEnvelope)
| ObsPop (r : option MessageEnvelope).

Definition queue_exec (q : MessageQueue) (op : QueueOp) : QueueObs * MessageQueue :=
  match op with
  | OpPushBack m => let '(r, q') := MessageQueue.push_back q m in (ObsPush r, q')
  | OpPopFront => let '(r, q') := MessageQueue.pop_front q in (ObsPop r, q')
  | OpPushFront m => let '(r, q') := MessageQueue.push_front q m in (ObsPush r, q')
  end.

Definition deque_exec (l : list MessageEnvelope) (op : QueueOp) :
    QueueObs * list MessageEnvelope :=
  let full := bool_decide (zlen l = MAX_QUEUED_MESSAGES_PER_ENDPOINT) in
  match op with
  | OpPushBack m => if full then (ObsPush (Err m), l) else (ObsPush (Ok tt), l ++ [m])
  | OpPopFront => (ObsPop (head l), tail l)
  | OpPushFront m => if full then (ObsPush (Err m), l) else (ObsPush (Ok tt), m :: l)
  end.

(** The observations of a run, and the final state. *)
Fixpoint run {S : Type} (exec : S -> QueueOp -> QueueObs * S) (s : S) (ops : list QueueOp) :
    list QueueObs * S :=
  match ops with
  | [] => ([], s)
  | op :: ops =>
      let '(obs, s1) := exec s op in
      let '(trace, s2) := run exec s1 ops in (obs :: trace, s2)
  end.

Lemma queue_exec_refines q l op :
  queue_rep q l ->
  (queue_exec q op).1 = (deque_exec l op).1 /\
  queue_rep (queue_exec q op).2 (deque_exec l op).2.
Proof.
  intros Hrep. destruct op as [m| |m]; cbn [queue_exec deque_exec].
  - pose proof (push_back_rep q l m Hrep) as Hp. case_decide as Hf.
    + rewrite Hp, bool_decide_true by done. done.
    + destruct Hp as (q' & -> & Hrep'). by rewrite bool_decide_false by done.
  - pose proof (pop_front_rep q l Hrep) as Hp. destruct l as [|m l].
    + by rewrite Hp.
    + by destruct Hp as (q' & -> & Hrep').
  - pose proof (push_front_rep q l m Hrep) as Hp. case_decide as Hf.
    + rewrite Hp, bool_decide_true by done. done.
    + destruct Hp as (q' & -> & Hrep'). by rewrite bool_decide_false by done.
Qed.

(** The ring of a channel endpoint is observationally a bounded
    double-ended queue of 64 messages: for every sequence of push_back,
    pop_front and push_front on a fresh queue, the results (messages handed
    out in FIFO order, rejected messages handed back) are those of the plain
    list, and the ring still represents that list at the end. *)
Theorem message_queue_is_bounded_deque (ops : list QueueOp) :
  (run queue_exec MessageQueue.new ops).1 = (run deque_exec [] ops).1 /\
  queue_rep (run queue_exec MessageQueue.new ops).2 (run deque_exec [] ops).2.
Proof.
  assert (forall q l, queue_rep q l ->
    (run queue_exec q ops).1 = (run deque_exec l ops).1 /\
    queue_rep (run queue_exec q ops).2 (run deque_exec l ops).2) as Hrun.
  { induction ops as [|op ops IH]; intros q l Hrep; [done|]. cbn [run].
    destruct (queue_exec_refines q l op Hrep) as [Hobs Hrep'].
    destruct (queue_exec q op) as [o q1], (deque_exec l op) as [o' l1]. cbn in *.
    destruct (IH q1 l1 Hrep') as [Htrace Hrep''].
    destruct (run queue_exec q1 ops), (run deque_exec l1 ops). cbn in *.
    split; [congruence|done]. }
  apply Hrun, queue_rep_new.
Qed.
