(* ===== verification/Ipc.v ===== *)
(** * Channel IPC

    Models [IpcKernel] of [kernel/core/src/ipc/kernel.rs]: sending with
    rollback of moved capabilities, and receiving with installation of the
    transferred ones.  The operations run against an interface to the rest of
    the kernel ([ChannelKernel]): finding endpoints, upgrading a weak peer
    reference and waking receivers.

    A receive takes the endpoint lock twice, once to take the message out and
    once to put it back on failure; [receive_begin] and [receive_finish] are
    those two critical sections and [receive] their sequential composition. *)

From S2P Require Import Prelude Ring Capability Message.
From stdpp Require Import base list gmap.
From Stdlib Require Import ZArith Lia.

#[local] Open Scope Z_scope.

(** ** What IPC needs from the kernel *)

Class ChannelKernel (K : Type) := {
  (** [KernelObjectRecord::channel_endpoint] of a live object *)
  channel_endpoint : K -> Z -> option ChannelEndpointState;
  (** [Weak::upgrade] of a peer reference *)
  upgrade : K -> option Z -> option Z;
  set_channel_endpoint : K -> Z -> ChannelEndpointState -> K;
  (** [task::notify_channel_ready] *)
  notify_channel_ready : K -> Z -> K;
}.

(** Writing one endpoint changes that endpoint only, and waking receivers
    changes none. *)
Class ChannelKernelLaws (K : Type) `{ChannelKernel K} := {
  endpoint_set_eq k id st st0 :
    channel_endpoint k id = Some st0 ->
    channel_endpoint (set_channel_endpoint k id st) id = Some st;
  endpoint_set_ne k id id' st :
    id <> id' -> channel_endpoint (set_channel_endpoint k id st) id' = channel_endpoint k id';
  endpoint_notify k id id' :
    channel_endpoint (notify_channel_ready k id) id' = channel_endpoint k id';
}.

Section ipc.
Context {K : Type} `{ChannelKernel K}.

Definition moved (t : option PreparedTransfer) : option PreparedTransfer :=
  transfer ← t; if bool_decide (is_Some (moved_source transfer)) then Some transfer else None.

(** The [moved_transfers] array of [send], flattened. *)
Definition moved_transfers (m : OutgoingMessage) : list PreparedTransfer :=
  omap moved (take (om_capability_count m) (om_capabilities m)) ++
  omap moved [om_reply_endpoint m].

Definition enqueue (k : K) (sender : CapabilitySpaceState) (handle : Z) (m : OutgoingMessage) :
    result MessageReceipt IpcError * K :=
  let descriptor := OutgoingMessage.descriptor m in
  match CapabilitySpace.resolve sender handle CapabilityRights.SEND with
  | Err e => (Err (IpcCapability e), k)
  | Ok endpoint =>
      match channel_endpoint k (cv_object endpoint) with
      | None => (Err ObjectKindMismatch, k)
      | Some channel =>
          match upgrade k (peer channel) with
          | None => (Err EndpointClosed, k)
          | Some peer_id =>
              match channel_endpoint k peer_id with
              | None => (Err ObjectKindMismatch, k)
              | Some peer_state =>
                  if match om_reply_endpoint m with
                     | Some reply => bool_decide (channel_endpoint k (pt_object reply) = None)
                     | None => false
                     end
                  then (Err InvalidReplyEndpoint, k)
                  else if MAX_QUEUED_MESSAGES_PER_ENDPOINT <=? queue_len (queue peer_state)
                  then (Err (QueueFull (queue_len (queue peer_state))
                               MAX_QUEUED_MESSAGES_PER_ENDPOINT), k)
                  else
                    match MessageQueue.push_back (queue peer_state)
                            (OutgoingMessage.envelope m) with
                    | (Err _, _) =>
                        (Err (QueueFull MAX_QUEUED_MESSAGES_PER_ENDPOINT
                                MAX_QUEUED_MESSAGES_PER_ENDPOINT), k)
                    | (Ok _, q') =>
                        let k1 := set_channel_endpoint k peer_id
                                    (mkChannelEndpointState (peer peer_state) q') in
                        (Ok (mkMessageReceipt peer_id descriptor),
                         notify_channel_ready k1 peer_id)
                    end
              end
          end
      end
  end.

Definition rollback_all (s : CapabilitySpaceState) (ts : list PreparedTransfer) :
    CapabilitySpaceState :=
  foldl (fun s t => (CapabilitySpace.rollback_moved s t).2) s ts.

Definition send (k : K) (sender : CapabilitySpaceState) (handle : Z) (m : OutgoingMessage) :
    result MessageReceipt IpcError * K * CapabilitySpaceState :=
  match enqueue k sender handle m with
  | (Ok receipt, k') => (Ok receipt, k', sender)
  | (Err error, k') => (Err error, k', rollback_all sender (moved_transfers m))
  end.

(** The accepting loop of [install_transferred_capabilities]. *)
Fixpoint accept_loop (s : CapabilitySpaceState) (ts : list PreparedTransfer)
    (handles : list Z) (count : nat) :
    result unit CapabilityError * list Z * nat * CapabilitySpaceState :=
  match ts with
  | [] => (Ok tt, handles, count, s)
  | t :: ts =>
      match CapabilitySpace.accept_transfer s t with
      | (Ok handle, s1) => accept_loop s1 ts (<[count := handle]> handles) (count + 1)
      | (Err e, s1) => (Err e, handles, count, s1)
      end
  end.

Definition close_all (s : CapabilitySpaceState) (handles : list Z) : CapabilitySpaceState :=
  foldl (fun s h => (CapabilitySpace.close s h).2) s handles.

Definition transfers (m : MessageEnvelope) : list PreparedTransfer :=
  omap id (take (env_capability_count m) (env_capabilities m)).

Definition install_transferred_capabilities (receiver : CapabilitySpaceState)
    (m : MessageEnvelope) :
    result (list Z * nat * option Z) IpcError * CapabilitySpaceState :=
  let '(outcome, handles, count, s1) :=
    accept_loop receiver (transfers m) (replicate MAX_MESSAGE_CAPABILITIES 0) 0 in
  match outcome with
  | Err e => (Err (IpcCapability e), close_all s1 (take count handles))
  | Ok _ =>
      match env_reply_endpoint m with
      | None => (Ok (handles, count, None), s1)
      | Some t =>
          match CapabilitySpace.accept_transfer s1 t with
          | (Ok handle, s2) => (Ok (handles, count, Some handle), s2)
          | (Err e, s2) => (Err (IpcCapability e), close_all s2 (take count handles))
          end
      end
  end.

(** Resolve the endpoint and take the first message out. *)
Definition receive_begin (k : K) (receiver : CapabilitySpaceState) (handle : Z) :
    result (Z * MessageEnvelope) IpcError * K :=
  match CapabilitySpace.resolve receiver handle CapabilityRights.RECEIVE with
  | Err e => (Err (IpcCapability e), k)
  | Ok endpoint =>
      match channel_endpoint k (cv_object endpoint) with
      | None => (Err ObjectKindMismatch, k)
      | Some channel =>
          match MessageQueue.pop_front (queue channel) with
          | (None, q') =>
              (Err QueueEmpty, set_channel_endpoint k (cv_object endpoint)
                                 (mkChannelEndpointState (peer channel) q'))
          | (Some m, q') =>
              (Ok (cv_object endpoint, m),
               set_channel_endpoint k (cv_object endpoint)
                 (mkChannelEndpointState (peer channel) q'))
          end
      end
  end.

(** Build the received message, or put the envelope back on failure; the
    result of [push_front] is ignored. *)
Definition receive_finish (k : K) (channel_id : Z) (m : MessageEnvelope)
    (installed : result (list Z * nat * option Z) IpcError) :
    result ReceivedMessage IpcError * K :=
  match installed with
  | Ok (handles, count, reply) =>
      (Ok {| rm_tag := env_tag m;
             rm_word_count := env_word_count m;
             rm_words := env_words m;
             rm_transferred_capability_count := count;
             rm_transferred_capabilities := handles;
             rm_reply_endpoint := reply;
             rm_shared_memory_hint := env_shared_memory_hint m |}, k)
  | Err error =>
      match channel_endpoint k channel_id with
      | None => (Err error, k)
      | Some channel =>
          let '(_, q') := MessageQueue.push_front (queue channel) m in
          (Err error, set_channel_endpoint k channel_id
                        (mkChannelEndpointState (peer channel) q'))
      end
  end.

Definition receive (k : K) (receiver : CapabilitySpaceState) (handle : Z) :
    result ReceivedMessage IpcError * K * CapabilitySpaceState :=
  match receive_begin k receiver handle with
  | (Err e, k1) => (Err e, k1, receiver)
  | (Ok (channel_id, m), k1) =>
      let '(installed, s1) := install_transferred_capabilities receiver m in
      let '(r, k2) := receive_finish k1 channel_id m installed in
      (r, k2, s1)
  end.

Definition endpoint_object_id (k : K) (s : CapabilitySpaceState) (handle required : Z) :
    result Z IpcError :=
  match CapabilitySpace.resolve s handle required with
  | Err e => Err (IpcCapability e)
  | Ok endpoint =>
      match channel_endpoint k (cv_object endpoint) with
      | None => Err ObjectKindMismatch
      | Some _ => Ok (cv_object endpoint)
      end
  end.

End ipc.

(** ** Sending *)

(** The transfers a message carries, the reply endpoint last. *)
Definition message_transfers (m : OutgoingMessage) : list PreparedTransfer :=
  omap id (take (om_capability_count m) (om_capabilities m)) ++ omap id [om_reply_endpoint m].

(** [ts] were prepared one after the other, taking the space from [s] to [s']. *)
Inductive prepared : CapabilitySpaceState -> list PreparedTransfer -> CapabilitySpaceState -> Prop :=
| prepared_nil s : prepared s [] s
| prepared_cons s handle requested mode t s1 ts s2 :
    CapabilitySpace.prepare_transfer s handle requested mode = (Ok t, s1) ->
    prepared s1 ts s2 -> prepared s (t :: ts) s2.

Section sending.
Implicit Types s : CapabilitySpaceState.

Lemma moved_transfers_eq m :
  moved_transfers m = omap (fun t => moved (Some t)) (message_transfers m).
Proof.
  unfold moved_transfers, message_transfers. rewrite omap_app. f_equal.
  - induction (take _ _) as [|[t|] l IH]; [done|..]; cbn; [|done].
    destruct (bool_decide _); by rewrite IH.
  - destruct (om_reply_endpoint m); [|done]. done.
Qed.

(** Preparing transfers does not touch an unrelated handle. *)
Lemma prepared_frame s ts s' h e :
  prepared s ts s' -> entries s !! h = None ->
  entries s' !! h = None /\
  prepared (CapabilitySpace.insert_entry s h e) ts (CapabilitySpace.insert_entry s' h e).
Proof.
  induction 1 as [s|s handle requested mode t s1 ts s2 Hp _ IH]; intros Hh.
  { split; [done|constructor]. }
  assert (handle <> h) as Hne.
  { intros ->. unfold CapabilitySpace.prepare_transfer in Hp. by rewrite Hh in Hp. }
  assert (entries s1 !! h = None) as Hh1.
  { apply prepare_cases in Hp as [[_ Hp]|(e0 & t0 & _ & _ & _ & _ & _ & _ & _ & _ & Hm)]; [done|].
    destruct mode; destruct Hm as [-> _]; [|done]. cbn. by rewrite lookup_delete_ne. }
  destruct (IH Hh1) as [Hn Hpr]. split; [done|].
  apply prepared_cons with handle requested mode (CapabilitySpace.insert_entry s1 h e); [|done].
  unfold CapabilitySpace.prepare_transfer in *. cbn. rewrite lookup_insert_ne by done.
  destruct (entries s !! handle) as [e0|]; [|done].
  repeat (case_match; [done|]). injection Hp as <- <-. f_equal.
  destruct mode; cbn; [|done].
  unfold CapabilitySpace.remove_entry, CapabilitySpace.insert_entry. cbn.
  by rewrite delete_insert_ne.
Qed.

Lemma rollback_moved_entry s t h e :
  moved_source t = Some h -> moved_source_rights t = Some (ce_rights e) ->
  moved_source_badge t = Some (ce_badge e) -> pt_object t = ce_object e ->
  entries s !! h = None ->
  (CapabilitySpace.rollback_moved s t).2 = CapabilitySpace.insert_entry s h e.
Proof.
  intros Hs Hr Hb Ho Hn. unfold CapabilitySpace.rollback_moved. rewrite Hs, Hr, Hb, Hn, Ho.
  rewrite bool_decide_false by (intros [? ?]; done). cbn. by destruct e.
Qed.

Lemma rollback_all_moved s t ts :
  rollback_all s (omap (fun t => moved (Some t)) (t :: ts)) =
  rollback_all (if bool_decide (is_Some (moved_source t))
                then (CapabilitySpace.rollback_moved s t).2 else s)
    (omap (fun t => moved (Some t)) ts).
Proof. cbn. by case_bool_decide. Qed.

(** Rolling back everything that was prepared restores the space. *)
Lemma rollback_all_prepared s ts s' :
  prepared s ts s' -> rollback_all s' (omap (fun t => moved (Some t)) ts) = s.
Proof.
  revert s s'. induction ts as [|t ts IH]; intros s s' Hprep; inversion Hprep; subst; [done|].
  rename select (CapabilitySpace.prepare_transfer _ _ _ _ = _) into Hp.
  rename select (prepared _ ts _) into Hrest.
  apply prepare_cases in Hp as [[_ Hp]|Hp]; [done|]. rewrite rollback_all_moved.
  destruct Hp as (e & t0 & He & [= <-] & _ & _ & _ & Ho & _ & Hb & Hm).
  destruct mode.
  - destruct Hm as (-> & Hs & Hr & Hbd). rewrite bool_decide_true by eauto.
    destruct (prepared_frame _ _ _ handle e Hrest) as [Hnone Hframe].
    { cbn. apply lookup_delete_eq. }
    rewrite (rollback_moved_entry _ _ handle e) by done. apply IH.
    assert (CapabilitySpace.insert_entry (CapabilitySpace.remove_entry s handle) handle e = s)
      as Hback; [|by rewrite Hback in Hframe].
    unfold CapabilitySpace.insert_entry, CapabilitySpace.remove_entry. cbn.
    rewrite insert_delete_id by done. by destruct s.
  - destruct Hm as (-> & Hs & _). rewrite Hs, bool_decide_false by (intros [? ?]; done).
    by apply IH.
Qed.

End sending.

(** ** Receiving *)

Definition transfer_entry (t : PreparedTransfer) : CapabilityEntry :=
  {| ce_object := pt_object t; ce_rights := pt_rights t; ce_badge := pt_badge t |}.

Section receiving.
Implicit Types s : CapabilitySpaceState.

Lemma close_entries s h : entries (CapabilitySpace.close s h).2 = delete h (entries s).
Proof.
  unfold CapabilitySpace.close. destruct (entries s !! h) eqn:Hh; [done|].
  cbn. by rewrite delete_id.
Qed.

Lemma close_all_entries s hs : entries (close_all s hs) = foldr delete (entries s) hs.
Proof.
  revert s. induction hs as [|h hs IH]; intros s; [done|]. cbn [close_all foldl foldr].
  fold (close_all (CapabilitySpace.close s h).2 hs). rewrite IH, close_entries.
  clear IH. induction hs as [|h' hs IH]; [done|]. cbn. by rewrite IH, delete_delete.
Qed.

(** The accepting loop issues fresh handles; closing them undoes it. *)
Lemma accept_loop_spec s ts hs count r hs' count' s' :
  space_wf s -> (count + length ts <= length hs)%nat ->
  accept_loop s ts hs count = (r, hs', count', s') ->
  exists new,
    take count' hs' = take count hs ++ new /\ (count <= count' <= length hs')%nat /\
    space_wf s' /\ entries s ⊆ entries s' /\
    foldr delete (entries s') new = entries s /\
    (is_ok r = true ->
     Forall2 (fun h t => entries s' !! h = Some (transfer_entry t)) new ts).
Proof.
  revert s hs count. induction ts as [|t ts IH]; intros s hs count Hwf Hlen Hrun; cbn in *.
  { injection Hrun as <- <- <- <-. exists []. rewrite app_nil_r.
    split_and!; try done; lia. }
  destruct (CapabilitySpace.accept_transfer s t) as [r1 s1] eqn:Ha.
  apply accept_cases in Ha as [(-> & -> & _)|(-> & Hmax & ->)].
  { injection Hrun as <- <- <- <-. exists []. rewrite app_nil_r.
    split_and!; try done; lia. }
  set (h := next_handle s) in *.
  assert (entries s !! h = None) as Hfresh.
  { destruct (entries s !! h) as [e|] eqn:He; [|done]. destruct Hwf as [_ Hin].
    specialize (Hin h e He). unfold h in Hin. lia. }
  apply IH in Hrun as (new & Htk & Hc & Hwf' & Hsub & Hdel & Hall).
  - cbn in *. exists (h :: new). split_and!; try done.
    + rewrite Htk, Nat.add_1_r. erewrite take_S_r by (apply list_lookup_insert_eq; lia).
      rewrite take_insert_ge by done. by rewrite <- app_assoc.
    + lia.
    + lia.
    + etransitivity; [|exact Hsub]. by apply insert_subseteq.
    + cbn. rewrite Hdel. by apply delete_insert_id.
    + intros Hok. constructor; [|by apply Hall].
      eapply lookup_weaken; [|exact Hsub]. apply lookup_insert_eq.
  - destruct Hwf as [Hn Hin]. split; cbn; [unfold h in *; lia|].
    intros h' e' Hh'. destruct (decide (h' = h)) as [->|]; [unfold h; lia|].
    rewrite lookup_insert_ne in Hh' by done. specialize (Hin h' e' Hh'). lia.
  - rewrite length_insert. lia.
Qed.

End receiving.

Definition message_wf (m : MessageEnvelope) : Prop :=
  length (env_capabilities m) = MAX_MESSAGE_CAPABILITIES /\
  (env_capability_count m <= MAX_MESSAGE_CAPABILITIES)%nat.

(** The handles a successful installation reports, and what they name. *)
Definition installed_ok (s s' : CapabilitySpaceState) (m : MessageEnvelope)
    (handles : list Z) (reply : option Z) : Prop :=
  entries s ⊆ entries s' /\
  Forall2 (fun h t => entries s' !! h = Some (transfer_entry t)) handles (transfers m) /\
  match env_reply_endpoint m, reply with
  | None, None => True
  | Some t, Some h => entries s' !! h = Some (transfer_entry t)
  | _, _ => False
  end.

Lemma length_omap_id {A} (l : list (option A)) : (length (omap id l) <= length l)%nat.
Proof. induction l as [|[x|] l IH]; cbn in *; lia. Qed.

Lemma transfers_bound m : message_wf m -> (length (transfers m) <= MAX_MESSAGE_CAPABILITIES)%nat.
Proof.
  intros [Hl Hc]. unfold transfers. etransitivity; [apply length_omap_id|].
  rewrite length_take. lia.
Qed.

Lemma install_transferred_spec s m r s' :
  space_wf s -> message_wf m ->
  install_transferred_capabilities s m = (r, s') ->
  match r with
  | Ok (handles, count, reply) => installed_ok s s' m (take count handles) reply
  | Err _ => entries s' = entries s
  end.
Proof.
  intros Hwf Hm. pose proof (transfers_bound m Hm) as Hlen.
  unfold install_transferred_capabilities.
  destruct (accept_loop _ _ _ _) as [[[o hs] c] s1] eqn:Hloop.
  apply accept_loop_spec in Hloop as (new & Htk & Hc & Hwf1 & Hsub & Hdel & Hall);
    [|done|by rewrite length_replicate].
  cbn in Htk. rewrite Htk. destruct o as [[]|e]; cbn in Hall.
  2: { intros [= <- <-]. by rewrite close_all_entries. }
  unfold installed_ok. destruct (env_reply_endpoint m) as [t|].
  2: { intros [= <- <-]. rewrite Htk. auto. }
  destruct (CapabilitySpace.accept_transfer s1 t) as [r1 s2] eqn:Ha.
  apply accept_cases in Ha as [(-> & -> & _)|(-> & Hmax & ->)]; intros [= <- <-].
  { by rewrite close_all_entries. }
  assert (entries s1 ⊆ <[next_handle s1 := transfer_entry t]> (entries s1)) as Hsub1.
  { apply insert_subseteq. destruct (entries s1 !! next_handle s1) as [e|] eqn:He; [|done].
    destruct Hwf1 as [_ Hin]. specialize (Hin _ _ He). lia. }
  rewrite Htk. cbn. split_and!.
  - by transitivity (entries s1).
  - eapply Forall2_impl; [by apply Hall|]. intros h t' Hh.
    exact (lookup_weaken _ _ _ _ Hh Hsub1).
  - apply lookup_insert_eq.
Qed.

Section laws.
Context {K : Type} `{ChannelKernelLaws K}.

(** Endpoint [id] holds the queued messages [l]. *)
Definition endpoint_holds (k : K) (id : Z) (l : list MessageEnvelope) : Prop :=
  exists st, channel_endpoint k id = Some st /\ queue_rep (queue st) l.

(** All endpoints but [id] are as they were. *)
Definition others_kept (k k' : K) (id : Z) : Prop :=
  forall id', id' <> id -> channel_endpoint k' id' = channel_endpoint k id'.

Lemma receive_begin_spec k s handle v l r k' :
  CapabilitySpace.resolve s handle CapabilityRights.RECEIVE = Ok v ->
  endpoint_holds k (cv_object v) l ->
  receive_begin k s handle = (r, k') ->
  others_kept k k' (cv_object v) /\
  match l with
  | [] => r = Err QueueEmpty /\ endpoint_holds k' (cv_object v) []
  | m :: l' => r = Ok (cv_object v, m) /\ endpoint_holds k' (cv_object v) l'
  end.
Proof.
  intros Hres (st & Hst & Hq) Hrun. unfold receive_begin in Hrun. rewrite Hres, Hst in Hrun.
  pose proof (pop_front_rep _ _ Hq) as Hp. destruct l as [|m l].
  - rewrite Hp in Hrun. injection Hrun as <- <-. split.
    + intros id' Hne. by apply endpoint_set_ne.
    + split; [done|]. eexists. split; [by eapply endpoint_set_eq|]. done.
  - destruct Hp as (q' & Hp & Hq'). rewrite Hp in Hrun. injection Hrun as <- <-. split.
    + intros id' Hne. by apply endpoint_set_ne.
    + split; [done|]. eexists. split; [by eapply endpoint_set_eq|]. done.
Qed.

Lemma receive_finish_err k id m e l k' r :
  endpoint_holds k id l -> zlen l < MAX_QUEUED_MESSAGES_PER_ENDPOINT ->
  receive_finish k id m (Err e) = (r, k') ->
  r = Err e /\ others_kept k k' id /\ endpoint_holds k' id (m :: l).
Proof.
  intros (st & Hst & Hq) Hlen. unfold receive_finish. rewrite Hst.
  pose proof (push_front_rep _ _ m Hq) as Hp. rewrite decide_False in Hp by lia.
  destruct Hp as (q' & -> & Hq'). intros [= <- <-]. split_and!; [done| |].
  - intros id' Hne. by apply endpoint_set_ne.
  - eexists. split; [by eapply endpoint_set_eq|]. done.
Qed.

Lemma send_ok_spec (k k' : K) s s' handle m receipt st l :
  channel_endpoint k (receipt_peer receipt) = Some st -> queue_rep (queue st) l ->
  send k s handle m = (Ok receipt, k', s') ->
  s' = s /\
  (exists e, entries s !! handle = Some e /\
             CapabilityRights.contains (ce_rights e) CapabilityRights.SEND = true) /\
  endpoint_holds k' (receipt_peer receipt) (l ++ [OutgoingMessage.envelope m]) /\
  others_kept k k' (receipt_peer receipt).
Proof.
  intros Hst Hq. unfold send.
  destruct (enqueue k s handle m) as [[r|e] k1] eqn:He; [|done]. intros [= -> <- <-].
  unfold enqueue in He.
  destruct (CapabilitySpace.resolve s handle _) as [v|] eqn:Hres; [|done].
  destruct (channel_endpoint k (cv_object v)) as [channel|]; [|done].
  destruct (upgrade k (peer channel)) as [p|]; [|done].
  destruct (channel_endpoint k p) as [pst|] eqn:Hp; [|done].
  destruct (match om_reply_endpoint m with Some _ => _ | None => _ end); [done|].
  destruct (MAX_QUEUED_MESSAGES_PER_ENDPOINT <=? _); [done|].
  destruct (MessageQueue.push_back _ _) as [[[]|] q'] eqn:Hpush; [|done].
  injection He as <- <-. cbn [receipt_peer] in *. rewrite Hp in Hst. injection Hst as ->.
  split_and!; [done| | |].
  - unfold CapabilitySpace.resolve in Hres.
    destruct (entries s !! handle) as [e|]; [|done]. exists e. split; [done|].
    by destruct (CapabilityRights.contains _ _).
  - pose proof (push_back_rep _ _ (OutgoingMessage.envelope m) Hq) as Hpb.
    case_decide; [congruence|]. destruct Hpb as (q & Hpb & Hrep).
    rewrite Hpush in Hpb. injection Hpb as ->.
    eexists. rewrite endpoint_notify. split; [by eapply endpoint_set_eq|done].
  - intros id' Hne. rewrite endpoint_notify. by apply endpoint_set_ne.
Qed.

(** ** Properties *)

(** C16: A send that fails for any reason (bad handle, missing right, closed
    peer, wrong object kind, invalid reply endpoint, full queue) changes
    nothing: the kernel is as before and the sender's capability space is
    exactly what it was before the message's transfers were prepared, with
    every moved capability back under its own handle. *)
Theorem failed_send_restores_sender (k k' : K) s0 s1 s2 handle m e :
  prepared s0 (message_transfers m) s1 ->
  send k s1 handle m = (Err e, k', s2) ->
  s2 = s0 /\ k' = k.
Proof.
  intros Hprep. unfold send. destruct (enqueue k s1 handle m) as [[receipt|e'] k1] eqn:He; [done|].
  intros [= <- <- <-]. split.
  - rewrite moved_transfers_eq. by apply rollback_all_prepared.
  - unfold enqueue in He. repeat case_match; simplify_eq; done.
Qed.



(** A receive that fails leaves the queued messages of every endpoint and
    the receiver's capabilities as they were: the message is back at the front
    of its queue and the handles installed so far are closed. *)
Theorem failed_receive_keeps_message (k k' : K) s s' handle v l e :
  space_wf s -> Forall message_wf l ->
  CapabilitySpace.resolve s handle CapabilityRights.RECEIVE = Ok v ->
  endpoint_holds k (cv_object v) l ->
  receive k s handle = (Err e, k', s') ->
  endpoint_holds k' (cv_object v) l /\ others_kept k k' (cv_object v) /\
  entries s' = entries s.
Proof.
  intros Hwf Hmsgs Hres Hholds. pose proof Hholds as (st0 & _ & (_ & _ & _ & Hmax & _)).
  unfold receive. destruct (receive_begin k s handle) as [r1 k1] eqn:Hb.
  destruct (receive_begin_spec _ _ _ _ _ _ _ Hres Hholds Hb) as [Hoth Hl].
  destruct l as [|m l].
  { destruct Hl as [-> Hholds']. intros [= <- <- <-]. done. }
  destruct Hl as [-> Hholds'].
  destruct (install_transferred_capabilities s m) as [inst s1] eqn:Hi.
  apply Forall_cons in Hmsgs as [Hm _].
  pose proof (install_transferred_spec _ _ _ _ Hwf Hm Hi) as Hspec.
  destruct inst as [[[hs c] reply]|e']; [done|].
  destruct (receive_finish k1 (cv_object v) m (Err e')) as [r2 k2] eqn:Hf.
  rewrite zlen_cons in Hmax.
  apply (receive_finish_err _ _ _ _ l) in Hf as (-> & Hoth' & Hholds''); [|done|lia].
  intros [= <- <- <-]. split_and!; [done| |done].
  intros id' Hne. by rewrite Hoth', Hoth.
Qed.


End laws.

(** ** A concrete kernel for the witnesses

    Endpoints only, with nobody to wake. *)
Module IpcExamples.

Definition kernel : Type := gmap Z ChannelEndpointState.

#[global] Instance kernel_channels : ChannelKernel kernel := {|
  channel_endpoint k id := k !! id;
  upgrade k p := id ← p; if bool_decide (is_Some (k !! id)) then Some id else None;
  set_channel_endpoint k id st := <[id := st]> k;
  notify_channel_ready k _ := k;
|}.

#[global] Instance kernel_laws : ChannelKernelLaws kernel.
Proof.
  constructor; cbn.
  - intros. apply lookup_insert_eq.
  - intros. by apply lookup_insert_ne.
  - done.
Qed.

(** Endpoints 10 and 11 are connected. *)
Definition idle : kernel :=
  {[ 10 := mkChannelEndpointState (Some 11) MessageQueue.new;
     11 := mkChannelEndpointState (Some 10) MessageQueue.new ]}.

Definition sender : CapabilitySpaceState :=
  (CapabilitySpace.install
     (CapabilitySpace.install CapabilitySpace.new 10 CapabilityRights.channel_endpoint None).2
     20 CapabilityRights.event None).2.

Definition receiver : CapabilitySpaceState :=
  (CapabilitySpace.install CapabilitySpace.new 11 CapabilityRights.channel_endpoint None).2.

(** The event capability of the sender, moved out. *)
Definition transfer : PreparedTransfer :=
  {| pt_object := 20; pt_rights := CapabilityRights.WAIT; pt_badge := None;
     moved_source := Some 2; moved_source_rights := Some CapabilityRights.event;
     moved_source_badge := Some None |}.

Definition sender_moved : CapabilitySpaceState := CapabilitySpace.remove_entry sender 2.

Definition plain : OutgoingMessage :=
  match OutgoingMessage.new 7 [1; 2; 3] with
  | Ok m => m
  | Err _ => mkOutgoingMessage 0 0 [] 0 [] None None
  end.

Definition message : OutgoingMessage :=
  match OutgoingMessage.add_transfer plain transfer with Ok m => m | Err _ => plain end.

Definition sent : kernel := (send idle sender_moved 1 message).1.2.

Definition received := receive sent receiver 1.

(** A receiver whose handle space is exhausted. *)
Definition exhausted : CapabilitySpaceState :=
  {| next_handle := U32_MAX; entries := entries receiver |}.

Definition full_queue : MessageQueue :=
  (run queue_exec MessageQueue.new
     (OpPushBack (OutgoingMessage.envelope message) ::
      replicate 63 (OpPushBack (OutgoingMessage.envelope plain)))).2.

Definition full : kernel := <[11 := mkChannelEndpointState (Some 10) full_queue]> idle.

Definition view : CapabilityView :=
  {| cv_handle := 1; cv_object := 11; cv_rights := CapabilityRights.channel_endpoint;
     cv_badge := None |}.

Lemma receiver_entries h e : entries receiver !! h = Some e -> h = 1.
Proof.
  assert (entries receiver = {[1 := {| ce_object := 11;
    ce_rights := CapabilityRights.channel_endpoint; ce_badge := None |}]}) as -> by reflexivity.
  by intros [-> _]%lookup_singleton_Some.
Qed.

Lemma receiver_wf : space_wf receiver.
Proof.
  split; [vm_compute; split; discriminate|].
  intros h e ->%receiver_entries. vm_compute. split; [discriminate|done].
Qed.

Lemma exhausted_wf : space_wf exhausted.
Proof.
  split; [vm_compute; split; discriminate|].
  intros h e ->%receiver_entries. vm_compute. split; [discriminate|done].
Qed.

Lemma sent_holds : endpoint_holds sent 11 [OutgoingMessage.envelope message].
Proof.
  eexists. split; [vm_compute; reflexivity|].
  unfold queue_rep. split_and!; try (vm_compute; (reflexivity || discriminate)).
Qed.

Lemma full_holds :
  endpoint_holds full 11
    (OutgoingMessage.envelope message :: replicate 63 (OutgoingMessage.envelope plain)).
Proof.
  eexists. split; [vm_compute; reflexivity|].
  unfold queue_rep. split_and!; try (vm_compute; (reflexivity || discriminate)).
Qed.

End IpcExamples.

Lemma failed_send_restores_sender_witness :
  (send IpcExamples.idle IpcExamples.sender_moved 9 IpcExamples.message).2 = IpcExamples.sender.
Proof.
  apply (failed_send_restores_sender IpcExamples.idle IpcExamples.idle IpcExamples.sender
    IpcExamples.sender_moved _ 9 IpcExamples.message (IpcCapability InvalidHandle)).
  - apply (prepared_cons _ 2 CapabilityRights.WAIT Move _ IpcExamples.sender_moved).
    + vm_compute. reflexivity.
    + constructor.
  - vm_compute. reflexivity.
Defined.



Lemma failed_receive_keeps_message_witness :
  endpoint_holds (receive IpcExamples.sent IpcExamples.exhausted 1).1.2 11
    [OutgoingMessage.envelope IpcExamples.message].
Proof.
  apply (failed_receive_keeps_message IpcExamples.sent
    (receive IpcExamples.sent IpcExamples.exhausted 1).1.2 IpcExamples.exhausted
    (receive IpcExamples.sent IpcExamples.exhausted 1).2 1 IpcExamples.view
    [OutgoingMessage.envelope IpcExamples.message] (IpcCapability HandleSpaceExhausted)).
  - exact IpcExamples.exhausted_wf.
  - repeat constructor.
  - vm_compute. reflexivity.
  - exact IpcExamples.sent_holds.
  - vm_compute. reflexivity.
Defined.

