(* ===== verification/Time.v ===== *)
(** * Timers and wakeups

    Models [kernel/core/src/time/manager.rs] and [types.rs].  The two slot
    tables are lists of their full length; the [TimeManager] mutex makes each
    method one atomic function on [TimeState].  The theorems say what a tick
    does to the multisets of armed timers and ready wakeups, and when a timer
    fires. *)

From S2P Require Import Prelude.
From stdpp Require Import base list.
From Stdlib Require Import ZArith Lia.

#[local] Open Scope Z_scope.

Definition MAX_ARMED_TIMERS : nat := 64.
Definition MAX_READY_WAKEUPS : nat := 64.

Inductive TimeInitializationError := InvalidTickRate.

Inductive TimerError := TimerUnsupported | CapacityExceeded.

(** [WakeEvent]; [DeadlineExpired] is the only [WakeReason]. *)
Inductive TimeWakeReason := DeadlineExpired.

Record WakeEvent := mkWakeEvent {
  we_token : Z;
  we_reason : TimeWakeReason;
}.

Record TimerRequest := mkTimerRequest {
  req_deadline : Z;
  req_interval_ticks : option Z;
}.

Record ArmedTimer := mkArmedTimer {
  at_id : Z;
  at_token : Z;
  at_request : TimerRequest;
}.

Record TickOutcome := mkTickOutcome {
  tick_now : Z;
  expired_timers : nat;
}.

Record TimeSnapshot := mkTimeSnapshot {
  snap_now : Z;
  snap_tick_hz : Z;
  snap_pending_timers : nat;
  snap_ready_wakeups : nat;
}.

Record TimeState := mkTimeState {
  tick_hz : Z;
  next_timer_id : Z;
  now : Z;
  timers : list (option ArmedTimer);
  ready : list (option WakeEvent);
}.

Definition one_shot (deadline : Z) : TimerRequest := mkTimerRequest deadline None.

(** Fill the first empty slot, if there is one. *)
Fixpoint fill_slot {A : Type} (slots : list (option A)) (x : A) : option (list (option A)) :=
  match slots with
  | [] => None
  | None :: rest => Some (Some x :: rest)
  | Some y :: rest => rest' ← fill_slot rest x; Some (Some y :: rest')
  end.

Module ReadyWakeupRing.

Definition new : list (option WakeEvent) := replicate MAX_READY_WAKEUPS None.

Definition push (ring : list (option WakeEvent)) (event : WakeEvent) :
    bool * list (option WakeEvent) :=
  match fill_slot ring event with
  | Some ring' => (true, ring')
  | None => (false, ring)
  end.

Fixpoint pop (ring : list (option WakeEvent)) :
    option WakeEvent * list (option WakeEvent) :=
  match ring with
  | [] => (None, [])
  | Some event :: rest => (Some event, None :: rest)
  | None :: rest => let '(r, rest') := pop rest in (r, None :: rest')
  end.

Definition len (ring : list (option WakeEvent)) : nat :=
  length (filter (fun slot => is_Some slot) ring).

End ReadyWakeupRing.

Module TimeState.

Definition new (hz : Z) : TimeState := {|
  tick_hz := hz;
  next_timer_id := 1;
  now := 0;
  timers := replicate MAX_ARMED_TIMERS None;
  ready := ReadyWakeupRing.new;
|}.

Definition arm_wakeup (s : TimeState) (token : Z) (request : TimerRequest) :
    result Z TimerError * TimeState :=
  let id := next_timer_id s in
  let next := saturating_add U64_MAX (next_timer_id s) 1 in
  if req_deadline request <=? now s then
    let '(pushed, ring) := ReadyWakeupRing.push (ready s) (mkWakeEvent token DeadlineExpired) in
    let s' := mkTimeState (tick_hz s) next (now s) (timers s) ring in
    if pushed then (Ok id, s') else (Err CapacityExceeded, s')
  else
    match fill_slot (timers s) (mkArmedTimer id token request) with
    | Some table => (Ok id, mkTimeState (tick_hz s) next (now s) table (ready s))
    | None => (Err CapacityExceeded, mkTimeState (tick_hz s) next (now s) (timers s) (ready s))
    end.

(** What becomes of the slot of a timer that fired. *)
Definition rearm (now : Z) (timer : ArmedTimer) : option ArmedTimer :=
  match req_interval_ticks (at_request timer) with
  | Some interval =>
      if 0 <? interval then
        Some (mkArmedTimer (at_id timer) (at_token timer)
                (mkTimerRequest (saturating_add U64_MAX now interval) (Some interval)))
      else None
  | None => None
  end.

(** The slot loop of [handle_tick]. *)
Fixpoint tick_slots (now : Z) (slots : list (option ArmedTimer)) (ring : list (option WakeEvent)) :
    list (option ArmedTimer) * list (option WakeEvent) * nat :=
  match slots with
  | [] => ([], ring, 0%nat)
  | slot :: rest =>
      let '(slot', ring', fired) :=
        match slot with
        | None => (slot, ring, 0%nat)
        | Some timer =>
            if now <? req_deadline (at_request timer) then (slot, ring, 0%nat)
            else
              let '(pushed, ring') :=
                ReadyWakeupRing.push ring (mkWakeEvent (at_token timer) DeadlineExpired) in
              if pushed then (rearm now timer, ring', 1%nat) else (slot, ring', 0%nat)
        end in
      let '(rest', ring'', fired') := tick_slots now rest ring' in
      (slot' :: rest', ring'', (fired + fired')%nat)
  end.

Definition handle_tick (s : TimeState) : TickOutcome * TimeState :=
  let now' := saturating_add U64_MAX (now s) 1 in
  let '(table, ring, fired) := tick_slots now' (timers s) (ready s) in
  (mkTickOutcome now' fired, mkTimeState (tick_hz s) (next_timer_id s) now' table ring).

Definition take_wakeup (s : TimeState) : option WakeEvent * TimeState :=
  let '(r, ring) := ReadyWakeupRing.pop (ready s) in
  (r, mkTimeState (tick_hz s) (next_timer_id s) (now s) (timers s) ring).

Definition pending_timers (s : TimeState) : nat :=
  length (filter (fun slot => is_Some slot) (timers s)).

Definition snapshot (s : TimeState) : TimeSnapshot := {|
  snap_now := now s;
  snap_tick_hz := tick_hz s;
  snap_pending_timers := pending_timers s;
  snap_ready_wakeups := ReadyWakeupRing.len (ready s);
|}.

End TimeState.

(** [time::initialize] *)
Definition time_initialize (hz : Z) : result TimeState TimeInitializationError :=
  if hz =? 0 then Err InvalidTickRate else Ok (TimeState.new hz).

(** ** Slot tables as multisets *)

Definition occupied {A : Type} (slots : list (option A)) : list A := omap id slots.

Definition armed (s : TimeState) : list ArmedTimer := occupied (timers s).

Definition wakeups (s : TimeState) : list Z := we_token <$> occupied (ready s).

Section slots.
Context {A : Type}.
Implicit Types (slots : list (option A)) (x : A).

Lemma fill_slot_spec slots x :
  match fill_slot slots x with
  | Some slots' =>
      occupied slots' ≡ₚ x :: occupied slots /\ length slots' = length slots
  | None => length (occupied slots) = length slots
  end.
Proof.
  induction slots as [|[y|] slots IH]; cbn; [done| |done].
  destruct (fill_slot slots x) as [slots'|]; cbn.
  - destruct IH as [Hp Hl]. split; [|lia]. unfold occupied in Hp. rewrite Hp. constructor.
  - unfold occupied in IH. cbn. lia.
Qed.

Lemma length_occupied slots : (length (occupied slots) <= length slots)%nat.
Proof.
  unfold occupied. induction slots as [|[y|] slots IH]; cbn in *; lia.
Qed.

Lemma fill_slot_room slots x :
  (length (occupied slots) < length slots)%nat -> is_Some (fill_slot slots x).
Proof.
  intros Hlt. pose proof (fill_slot_spec slots x) as Hs. destruct (fill_slot slots x); [eauto|lia].
Qed.

End slots.

Lemma push_spec ring event :
  match ReadyWakeupRing.push ring event with
  | (true, ring') => occupied ring' ≡ₚ event :: occupied ring /\ length ring' = length ring
  | (false, ring') => ring' = ring /\ length (occupied ring) = length ring
  end.
Proof.
  unfold ReadyWakeupRing.push. pose proof (fill_slot_spec ring event) as Hs.
  by destruct (fill_slot ring event).
Qed.

Lemma pop_spec ring :
  match ReadyWakeupRing.pop ring with
  | (Some event, ring') => occupied ring = event :: occupied ring' /\ length ring' = length ring
  | (None, ring') => occupied ring = [] /\ ring' = ring
  end.
Proof.
  unfold occupied. induction ring as [|[e|] ring IH]; cbn; [done|done|].
  destruct (ReadyWakeupRing.pop ring) as [[e|] ring']; cbn.
  - destruct IH as [? ?]. split; [done|lia].
  - destruct IH as [? ->]. done.
Qed.

(** One pass over the slots splits the armed timers into those that fired and
    those that stayed. *)
Lemma tick_slots_spec now slots ring slots' ring' fired :
  TimeState.tick_slots now slots ring = (slots', ring', fired) ->
  exists expired kept,
    occupied slots ≡ₚ expired ++ kept /\
    occupied slots' ≡ₚ omap (TimeState.rearm now) expired ++ kept /\
    we_token <$> occupied ring' ≡ₚ (at_token <$> expired) ++ (we_token <$> occupied ring) /\
    fired = length expired /\ length slots' = length slots /\ length ring' = length ring /\
    Forall (fun t => req_deadline (at_request t) <= now) expired /\
    Forall (fun t => now < req_deadline (at_request t) \/
                     length (occupied ring') = length ring') kept.
Proof.
  revert ring slots' ring' fired.
  induction slots as [|slot slots IH]; intros ring slots' ring' fired; cbn.
  { intros [= <- <- <-]. exists [], []. split_and!; done || constructor. }
  destruct (match slot with Some _ => _ | None => _ end) as [[slot' ring1] fired1] eqn:Hslot.
  destruct (TimeState.tick_slots now slots ring1) as [[rest' ring2] fired2] eqn:Hrest.
  intros [= <- <- <-].
  destruct (IH _ _ _ _ Hrest) as
    (exp & kept & Ho & Ho' & Hr & -> & Hl & Hlr & Hexp & Hkept). clear IH Hrest.
  destruct slot as [t|]; [|injection Hslot as <- <- <-; exists exp, kept; split_and!; done || (cbn; lia)].
  destruct (Z.ltb_spec now (req_deadline (at_request t))) as [Hlate|Hdue].
  { injection Hslot as <- <- <-. exists exp, (t :: kept). unfold occupied in *. cbn.
    split_and!; try done || lia.
    - rewrite Ho. apply Permutation_middle.
    - rewrite Ho'. apply Permutation_middle.
    - constructor; [by left|done]. }
  pose proof (push_spec ring (mkWakeEvent (at_token t) DeadlineExpired)) as Hpush.
  destruct (ReadyWakeupRing.push ring _) as [[] r1]; injection Hslot as <- <- <-.
  - destruct Hpush as [Hp Hlp]. exists (t :: exp), kept. unfold occupied in *. cbn.
    split_and!; try done || lia.
    + by rewrite Ho.
    + destruct (TimeState.rearm now t); by rewrite Ho'.
    + rewrite Hr, Hp. cbn. by rewrite Permutation_middle.
    + by constructor.
  - destruct Hpush as [-> Hfull]. exists exp, (t :: kept).
    assert (length (occupied ring2) = length ring2) as Hfull2.
    { apply Permutation_length in Hr. rewrite length_app, !length_fmap in Hr.
      pose proof (length_occupied ring2). lia. }
    unfold occupied in *. cbn. split_and!; try done || lia.
    + rewrite Ho. apply Permutation_middle.
    + rewrite Ho'. apply Permutation_middle.
    + constructor; [by right|done].
Qed.

(** ** Ticks with the wakeups drained in between

    The scheduler takes the ready wakeups until there is none left. *)
Fixpoint drain (fuel : nat) (s : TimeState) : list Z * TimeState :=
  match fuel with
  | O => ([], s)
  | S fuel =>
      match TimeState.take_wakeup s with
      | (None, s') => ([], s')
      | (Some e, s') => let '(tokens, s'') := drain fuel s' in (we_token e :: tokens, s'')
      end
  end.

Definition tick_and_drain (s : TimeState) : list Z * TimeState :=
  drain MAX_READY_WAKEUPS (TimeState.handle_tick s).2.

Fixpoint after_ticks (n : nat) (s : TimeState) : TimeState :=
  match n with
  | O => s
  | S n => after_ticks n (tick_and_drain s).2
  end.

Record time_wf (s : TimeState) : Prop := {
  twf_timers : length (timers s) = MAX_ARMED_TIMERS;
  twf_ring : length (ready s) = MAX_READY_WAKEUPS;
  twf_now : 0 <= now s;
  twf_drained : occupied (ready s) = [];
  twf_pending : Forall (fun t => now s < req_deadline (at_request t)) (armed s);
}.

Lemma drain_spec fuel s tokens s' :
  (length (occupied (ready s)) <= fuel)%nat -> drain fuel s = (tokens, s') ->
  tokens = wakeups s /\ occupied (ready s') = [] /\ length (ready s') = length (ready s) /\
  timers s' = timers s /\ now s' = now s.
Proof.
  unfold wakeups. revert s tokens s'. induction fuel as [|fuel IH]; intros s tokens s' Hf; cbn.
  { intros [= <- <-]. apply Nat.le_0_r, nil_length_inv in Hf. by rewrite Hf. }
  unfold TimeState.take_wakeup. pose proof (pop_spec (ready s)) as Hp.
  destruct (ReadyWakeupRing.pop (ready s)) as [[e|] ring].
  - destruct Hp as [Hp Hl]. rewrite Hp in *. cbn [length] in Hf.
    destruct (drain fuel _) as [toks s1] eqn:Hd. intros [= <- <-].
    apply IH in Hd as (-> & He & Hlen & Ht & Hn); cbn [ready timers now] in *; [|lia].
    split_and!; [done|congruence..].
  - destruct Hp as [Hp ->]. intros [= <- <-]. cbn [ready timers now]. by rewrite Hp.
Qed.

Lemma rearm_later clock t t' :
  0 <= clock < U64_MAX -> TimeState.rearm clock t = Some t' ->
  clock < req_deadline (at_request t').
Proof.
  intros Hc. unfold TimeState.rearm. destruct (req_interval_ticks _) as [i|]; [|done].
  destruct (Z.ltb_spec 0 i); [|done]. intros [= <-]. cbn. unfold saturating_add. lia.
Qed.

Lemma tick_and_drain_spec s tokens s' :
  time_wf s -> now s + 1 < U64_MAX -> tick_and_drain s = (tokens, s') ->
  time_wf s' /\ now s' = now s + 1 /\
  forall t, t ∈ armed s ->
    (req_deadline (at_request t) <= now s + 1 -> at_token t ∈ tokens) /\
    (now s + 1 < req_deadline (at_request t) -> t ∈ armed s').
Proof.
  intros [Hlt Hlr Hn Hdr Hpend] Hmax. unfold tick_and_drain, TimeState.handle_tick.
  assert (saturating_add U64_MAX (now s) 1 = now s + 1) as -> by (unfold saturating_add; lia).
  destruct (TimeState.tick_slots _ _ _) as [[table ring] fired] eqn:Hts. cbn [snd].
  intros Hd.
  apply tick_slots_spec in Hts as (exp & kept & Ho & Ho' & Hr & _ & Hl & Hlr' & Hexp & Hkept).
  rewrite Hdr, app_nil_r in Hr.
  assert (length exp + length kept <= MAX_ARMED_TIMERS)%nat as Hexplen.
  { pose proof (length_occupied (timers s)) as Hle. apply Permutation_length in Ho.
    rewrite length_app in Ho. lia. }
  assert (length (occupied ring) = length exp) as Hring.
  { apply Permutation_length in Hr. by rewrite !length_fmap in Hr. }
  apply drain_spec in Hd as (-> & He & Hlen & Ht & Hnow); cbn [ready timers now] in *.
  2: { rewrite Hring.
       change MAX_READY_WAKEUPS with MAX_ARMED_TIMERS. lia. }
  assert (Forall (fun t => now s + 1 < req_deadline (at_request t)) kept) as Hkept'.
  { apply Forall_forall. intros t Hin. pose proof Hin as Hin'.
    eapply Forall_forall in Hin'; [|exact Hkept]. destruct Hin' as [|Hfull]; [done|].
    exfalso. rewrite Hring, Hlr', Hlr in Hfull.
    change MAX_READY_WAKEUPS with MAX_ARMED_TIMERS in Hfull.
    destruct kept; [by apply not_elem_of_nil in Hin|cbn in Hexplen; lia]. }
  split_and!; [|done|].
  - constructor; rewrite ?Hnow, ?Ht; [congruence|congruence|lia|done|].
    unfold armed. rewrite Ht, Ho'. apply Forall_app. split; [|done].
    apply Forall_forall. intros t (t0 & Hin & Hre)%list_elem_of_omap.
    eapply rearm_later; [|exact Hre]. lia.
  - intros t Hin. unfold armed in *. rewrite Ho, elem_of_app in Hin.
    assert (t ∈ exp -> req_deadline (at_request t) <= now s + 1) as Hle.
    { intros Hx. by eapply Forall_forall in Hx; [|exact Hexp]. }
    assert (t ∈ kept -> now s + 1 < req_deadline (at_request t)) as Hgt.
    { intros Hx. by eapply Forall_forall in Hx; [|exact Hkept']. }
    split; intros Hd; destruct Hin as [Hin|Hin].
    + unfold wakeups. cbn. rewrite Hr. by apply list_elem_of_fmap_2.
    + specialize (Hgt Hin). lia.
    + specialize (Hle Hin). lia.
    + rewrite Ht, Ho', elem_of_app. by right.
Qed.

(** ** Properties *)

(** A tick advances the clock by one and splits the armed timers into those
    that fire and those that stay.  Only due timers fire, each adds its token
    to the ready wakeups exactly once and is counted once, a one-shot timer
    that fires is gone and a periodic one is armed again; a due timer stays
    armed only when the ready table is full, so no wakeup is ever lost. *)
Theorem tick_accounts_for_every_timer s out s' :
  TimeState.handle_tick s = (out, s') ->
  exists expired kept,
    armed s ≡ₚ expired ++ kept /\
    armed s' ≡ₚ omap (TimeState.rearm (now s')) expired ++ kept /\
    wakeups s' ≡ₚ (at_token <$> expired) ++ wakeups s /\
    expired_timers out = length expired /\ tick_now out = now s' /\
    Forall (fun t => req_deadline (at_request t) <= now s') expired /\
    Forall (fun t => now s' < req_deadline (at_request t) \/
                     length (wakeups s') = length (ready s')) kept.
Proof.
  unfold TimeState.handle_tick.
  destruct (TimeState.tick_slots _ _ _) as [[table ring] fired] eqn:Hts.
  intros [= <- <-]. unfold wakeups. setoid_rewrite length_fmap.
  apply tick_slots_spec in Hts as (exp & kept & Ho & Ho' & Hr & Hf & _ & _ & Hexp & Hkept).
  exists exp, kept. done.
Qed.

(** With the ready wakeups drained between ticks, an armed timer with [n]
    ticks to go stays armed through the first [n - 1] ticks and its token is
    delivered by the [n]-th: wakeups are neither early nor late. *)
Theorem timer_fires_at_its_deadline s t (n : nat) :
  time_wf s -> t ∈ armed s -> (0 < n)%nat ->
  req_deadline (at_request t) = now s + Z.of_nat n ->
  req_deadline (at_request t) < U64_MAX ->
  (forall j, (j < n)%nat -> t ∈ armed (after_ticks j s)) /\
  at_token t ∈ (tick_and_drain (after_ticks (n - 1) s)).1.
Proof.
  revert s. induction n as [|n IH]; intros s Hwf Hin Hn Hd Hmax; [lia|].
  destruct (tick_and_drain s) as [tokens s1] eqn:Htick.
  destruct (tick_and_drain_spec s tokens s1 Hwf ltac:(lia) Htick) as (Hwf1 & Hnow1 & Hall).
  destruct (Hall t Hin) as [Hfire Hstay].
  destruct n as [|n].
  { split; [|cbn [after_ticks Nat.sub]; rewrite Htick; apply Hfire; lia].
    intros [|j] Hj; [exact Hin|lia]. }
  destruct (IH s1 Hwf1 ltac:(apply Hstay; lia) ltac:(lia) ltac:(lia) Hmax) as [Hj Htok].
  split.
  - intros [|j] Hlt; [exact Hin|]. cbn [after_ticks]. rewrite Htick. apply Hj. lia.
  - replace (S (S n) - 1)%nat with (S (S n - 1)) by lia. cbn [after_ticks].
    by rewrite Htick.
Qed.

(** Concrete clock used by the witness. *)
Module TimeExamples.

Definition clock : TimeState :=
  (TimeState.arm_wakeup (TimeState.arm_wakeup (TimeState.new 100) 41 (one_shot 3)).2
     42 (mkTimerRequest 2 (Some 5))).2.

Definition timer : ArmedTimer := mkArmedTimer 1 41 (one_shot 3).

End TimeExamples.

Lemma timer_fires_at_its_deadline_witness :
  at_token TimeExamples.timer ∈ (tick_and_drain (after_ticks (3 - 1) TimeExamples.clock)).1.
Proof.
  destruct (timer_fires_at_its_deadline TimeExamples.clock TimeExamples.timer 3) as [_ Hfires].
  - constructor.
    + vm_compute. reflexivity.
    + vm_compute. reflexivity.
    + vm_compute. discriminate.
    + vm_compute. reflexivity.
    + vm_compute. repeat constructor.
  - vm_compute. left.
  - lia.
  - vm_compute. reflexivity.
  - vm_compute. reflexivity.
  - exact Hfires.
Defined.

Lemma tick_accounts_for_every_timer_witness :
  exists expired kept, armed TimeExamples.clock ≡ₚ expired ++ kept /\
    expired_timers (TimeState.handle_tick TimeExamples.clock).1 = length expired.
Proof.
  destruct (tick_accounts_for_every_timer TimeExamples.clock
    (TimeState.handle_tick TimeExamples.clock).1 (TimeState.handle_tick TimeExamples.clock).2)
    as (expired & kept & Hsplit & _ & _ & Hcount & _).
  - vm_compute. reflexivity.
  - exists expired, kept. split; [exact Hsplit|exact Hcount].
Defined.
