(* ===== verification/Pressure.v ===== *)
(** * Memory pressure and the out-of-memory policy

    Models [kernel/core/src/memory/pressure.rs] and [oom.rs].  Listeners are
    opaque function pointers, represented by a number each; [observe] returns
    the list of listeners it called besides the transition.  The recovery hooks
    are function parameters over an arbitrary state. *)

From S2P Require Import Prelude.
From stdpp Require Import base list strings sets.
From Stdlib Require Import ZArith Lia.

#[local] Open Scope Z_scope.

(** ** Pressure *)

Definition TIGHT_HEADROOM_PERMILLE : Z := 250.
Definition CRITICAL_HEADROOM_PERMILLE : Z := 100.
Definition MAX_RECORDED_TRANSITIONS : nat := 16.

Inductive PressureLevel := Normal | Tight | Critical.

#[export] Instance PressureLevel_eq_dec : EqDecision PressureLevel.
Proof. solve_decision. Defined.

Record PressureReading := mkPressureReading {
  frames_headroom_permille : Z;
  heap_headroom_permille : Z;
}.

Record PressureTransition := mkPressureTransition {
  pt_from : PressureLevel;
  pt_to : PressureLevel;
  pt_tick : Z;
}.

Record PressureMonitor := mkPressureMonitor {
  current : PressureLevel;
  listeners : list Z;
  transitions : list PressureTransition;
}.

Definition headroom_permille (free total : Z) : Z :=
  if total =? 0 then 1000 else saturating_mul U64_MAX free 1000 / total.

Definition classify (reading : PressureReading) : PressureLevel :=
  let worst := Z.min (frames_headroom_permille reading) (heap_headroom_permille reading) in
  if worst <=? CRITICAL_HEADROOM_PERMILLE then Critical
  else if worst <=? TIGHT_HEADROOM_PERMILLE then Tight
  else Normal.

Definition severity (level : PressureLevel) : Z :=
  match level with Normal => 0 | Tight => 1 | Critical => 2 end.

Module PressureMonitor.

Definition new : PressureMonitor := mkPressureMonitor Normal [] [].

End PressureMonitor.

(** The monitor is set once; [None] is the state before. *)
Definition register_listener (monitor : option PressureMonitor) (listener : Z) :
    option PressureMonitor :=
  (fun m => mkPressureMonitor (current m) (listeners m ++ [listener]) (transitions m)) <$> monitor.

(** The listener [initialize] registers, which mirrors transitions into the
    kernel event ring. *)
Definition emit_kernel_event : Z := 0.

Definition pressure_initialize (monitor : option PressureMonitor) : option PressureMonitor :=
  register_listener (Some (default PressureMonitor.new monitor)) emit_kernel_event.

Definition current_level (monitor : option PressureMonitor) : option PressureLevel :=
  current <$> monitor.

Definition transitions_snapshot (monitor : option PressureMonitor) : list PressureTransition :=
  default [] (transitions <$> monitor).

(** The result, the listeners called in order, and the new monitor. *)
Definition observe (monitor : option PressureMonitor) (reading : PressureReading) (tick : Z) :
    option PressureTransition * list Z * option PressureMonitor :=
  match monitor with
  | None => (None, [], None)
  | Some m =>
      let next := classify reading in
      if bool_decide (next = current m) then (None, [], Some m)
      else
        let transition := mkPressureTransition (current m) next tick in
        let log := transitions m ++ [transition] in
        let log := if (MAX_RECORDED_TRANSITIONS <? length log)%nat
                   then drop (length log - MAX_RECORDED_TRANSITIONS) log else log in
        (Some transition, listeners m, Some (mkPressureMonitor next (listeners m) log))
  end.

(** ** Out-of-memory victims *)

Definition OOM_EXIT_CODE : Z := 0x4F4F4D00.

Definition PROTECTED_TASK_NAMES : list string :=
  ["root-manager"; "console-service"; "shell-service"]%string.

Record VictimCandidate := mkVictimCandidate {
  vc_task : Z;
  vc_name : option string;
  footprint_frames : Z;
  reclaimable : bool;
}.

Definition is_protected (candidate : VictimCandidate) : bool :=
  negb (reclaimable candidate) ||
  match vc_name candidate with
  | Some name => bool_decide (name ∈ PROTECTED_TASK_NAMES)
  | None => false
  end.

(** [a.footprint.cmp(&b.footprint).then_with(|| b.task.cmp(&a.task))] *)
Definition victim_cmp (a b : VictimCandidate) : comparison :=
  match Z.compare (footprint_frames a) (footprint_frames b) with
  | Eq => Z.compare (vc_task b) (vc_task a)
  | c => c
  end.

(** [Iterator::max_by]: the last element among the greatest. *)
Definition max_by {A : Type} (cmp : A -> A -> comparison) (l : list A) : option A :=
  match l with
  | [] => None
  | x :: l =>
      Some (foldl (fun best y => match cmp best y with Gt => best | _ => y end) x l)
  end.

Definition select_victim (candidates : list VictimCandidate) : option VictimCandidate :=
  max_by victim_cmp (filter (fun c => is_protected c = false) candidates).

Inductive OomError := NoRecoveryAvailable | ProtectedSetExhausted.

Section recovery.
Context {S T : Type}.

Record OomHooks := mkOomHooks {
  hook_candidates : S -> list VictimCandidate;
  hook_reclaim : S -> VictimCandidate -> S;
}.

Definition recover_with_retry (hooks : option OomHooks) (allocate : S -> option T * S) (s : S) :
    result T OomError * S :=
  match hooks with
  | None => (Err NoRecoveryAvailable, s)
  | Some hooks =>
      match select_victim (hook_candidates hooks s) with
      | None => (Err ProtectedSetExhausted, s)
      | Some victim =>
          match allocate (hook_reclaim hooks s victim) with
          | (Some t, s') => (Ok t, s')
          | (None, s') => (Err ProtectedSetExhausted, s')
          end
      end
  end.

End recovery.

Arguments OomHooks : clear implicits.

(** ** Lemmas *)

(** Each recorded transition starts where the one before it ended. *)
Fixpoint chained (level : PressureLevel) (log : list PressureTransition) : Prop :=
  match log with
  | [] => True
  | t :: log => pt_from t = level /\ pt_from t <> pt_to t /\ chained (pt_to t) log
  end.

Definition final_level (level : PressureLevel) (log : list PressureTransition) : PressureLevel :=
  foldl (fun _ t => pt_to t) level log.

Lemma chained_app level log t :
  chained level (log ++ [t]) <->
  chained level log /\ pt_from t = final_level level log /\ pt_from t <> pt_to t.
Proof.
  revert level. induction log as [|t0 log IH]; intros level; cbn; [tauto|].
  rewrite IH. unfold final_level. cbn. tauto.
Qed.

Lemma chained_drop n level log :
  chained level log -> chained (final_level level (take n log)) (drop n log).
Proof.
  revert level log. induction n as [|n IH]; intros level [|t log] Hc; cbn; try done.
  apply IH, Hc.
Qed.

Lemma final_level_app level l1 l2 :
  final_level level (l1 ++ l2) = final_level (final_level level l1) l2.
Proof. unfold final_level. by rewrite foldl_app. Qed.

(** The log is a chain that ends at the current level and fits its bound. *)
Definition monitor_wf (m : PressureMonitor) : Prop :=
  (length (transitions m) <= MAX_RECORDED_TRANSITIONS)%nat /\
  exists level, chained level (transitions m) /\ final_level level (transitions m) = current m.

Lemma observe_wf m reading tick r called m' :
  monitor_wf m -> observe (Some m) reading tick = (r, called, Some m') -> monitor_wf m'.
Proof.
  intros [Hlen (level & Hc & Hf)]. unfold observe. case_bool_decide as Heq; intros [= <- <- <-].
  { split; [done|]. by exists level. }
  set (t := mkPressureTransition (current m) (classify reading) tick).
  set (log := transitions m ++ [t]).
  assert (chained level log) as Hlog.
  { apply chained_app. split_and!; [done|by rewrite Hf|]. cbn. congruence. }
  assert (final_level level log = classify reading) as Hfl.
  { unfold log. by rewrite final_level_app. }
  unfold monitor_wf. cbn [transitions current].
  destruct (Nat.ltb_spec MAX_RECORDED_TRANSITIONS (length log)).
  - split; [rewrite length_drop; lia|].
    exists (final_level level (take (length log - MAX_RECORDED_TRANSITIONS) log)).
    split; [by apply chained_drop|]. by rewrite <- final_level_app, take_drop.
  - split; [done|]. by exists level.
Qed.

Fixpoint observe_all (m : option PressureMonitor) (inputs : list (PressureReading * Z)) :
    option PressureMonitor :=
  match inputs with
  | [] => m
  | (reading, tick) :: inputs => observe_all (observe m reading tick).2 inputs
  end.

Section max_by.
Context {A : Type} (cmp : A -> A -> comparison).
Hypothesis cmp_trans : forall a b c, cmp a b <> Gt -> cmp b c <> Gt -> cmp a c <> Gt.
Hypothesis cmp_refl : forall a, cmp a a <> Gt.
Hypothesis cmp_sym : forall a b, cmp a b = Gt -> cmp b a <> Gt.

Lemma max_by_spec l x :
  max_by cmp l = Some x -> x ∈ l /\ forall y, y ∈ l -> cmp y x <> Gt.
Proof using All.
  destruct l as [|z l]; [done|]. cbn. intros [= <-].
  induction l as [|y l IH] using rev_ind.
  { split; [left|]. by intros y ->%list_elem_of_singleton. }
  rewrite foldl_app. cbn. set (best := foldl _ z l) in *. destruct IH as [Hin Hall].
  destruct (cmp best y) eqn:Hc.
  all: split; [set_solver|].
  all: intros w Hw; assert (w ∈ z :: l \/ w = y) as [Hw'| ->] by set_solver; auto.
  1,2: eapply cmp_trans; [by apply Hall|congruence].
Qed.

End max_by.

Lemma victim_cmp_le a b :
  victim_cmp a b <> Gt <->
  footprint_frames a < footprint_frames b \/
  (footprint_frames a = footprint_frames b /\ vc_task b <= vc_task a).
Proof.
  unfold victim_cmp. destruct (Z.compare_spec (footprint_frames a) (footprint_frames b));
    [destruct (Z.compare_spec (vc_task b) (vc_task a))|..]; intuition (congruence || lia).
Qed.

(** ** Properties *)

(** Whatever readings are fed to a fresh monitor, it keeps at most sixteen
    transitions, each a real change of level that starts where the previous one
    ended, and the last one ends at the level the monitor reports. *)
Theorem pressure_log_is_a_chain (inputs : list (PressureReading * Z)) :
  exists m, observe_all (pressure_initialize None) inputs = Some m /\ monitor_wf m.
Proof.
  assert (forall m, monitor_wf m -> exists m', observe_all (Some m) inputs = Some m' /\ monitor_wf m')
    as Hall.
  { induction inputs as [|[reading tick] inputs IH]; intros m Hwf; [by exists m|]. cbn [observe_all].
    destruct (observe (Some m) reading tick) as [[r called] [m1|]] eqn:Ho.
    - apply IH. by eapply observe_wf.
    - cbn in Ho. by case_bool_decide. }
  apply Hall. split; [cbn; unfold MAX_RECORDED_TRANSITIONS; lia|]. by exists Normal.
Qed.

(** Less headroom in either domain never lowers the reported level. *)
Theorem classify_antitone (r1 r2 : PressureReading) :
  frames_headroom_permille r1 <= frames_headroom_permille r2 ->
  heap_headroom_permille r1 <= heap_headroom_permille r2 ->
  severity (classify r2) <= severity (classify r1).
Proof.
  intros Hf Hh. unfold classify, severity, CRITICAL_HEADROOM_PERMILLE, TIGHT_HEADROOM_PERMILLE.
  repeat (case_match; try done; try lia); repeat match goal with
    | H : (_ <=? _) = true |- _ => apply Z.leb_le in H
    | H : (_ <=? _) = false |- _ => apply Z.leb_gt in H
    end; lia.
Qed.

Lemma classify_antitone_witness :
  severity (classify (mkPressureReading 500 500)) <= severity (classify (mkPressureReading 90 400)).
Proof.
  apply (classify_antitone (mkPressureReading 90 400) (mkPressureReading 500 500)); cbn; lia.
Defined.

(** The OOM policy never picks a protected task; among the others it picks
    the largest footprint, breaking ties toward the lowest task id, and it
    picks someone whenever there is an unprotected candidate. *)
Theorem victim_is_largest_unprotected (candidates : list VictimCandidate) :
  match select_victim candidates with
  | Some v =>
      v ∈ candidates /\ is_protected v = false /\
      forall c, c ∈ candidates -> is_protected c = false ->
        footprint_frames c < footprint_frames v \/
        (footprint_frames c = footprint_frames v /\ vc_task v <= vc_task c)
  | None => forall c, c ∈ candidates -> is_protected c = true
  end.
Proof.
  unfold select_victim. destruct (max_by _ _) as [v|] eqn:Hmax.
  - apply max_by_spec in Hmax as [Hin Hall].
    + apply list_elem_of_filter in Hin as [Hp Hin]. split_and!; [done..|].
      intros c Hc Hcp. apply victim_cmp_le, Hall. by apply list_elem_of_filter.
    + intros a b c. rewrite !victim_cmp_le. lia.
    + intros a. rewrite victim_cmp_le. lia.
    + intros a b Hgt. apply victim_cmp_le.
      destruct (decide (footprint_frames b < footprint_frames a)); [by left|right].
      assert (~ victim_cmp a b <> Gt) as Hn by (intros Hx; by apply Hx).
      rewrite victim_cmp_le in Hn. lia.
  - intros c Hc. destruct (is_protected c) eqn:Hp; [done|].
    assert (c ∈ filter (fun c => is_protected c = false) candidates) as Hf
      by (by apply list_elem_of_filter).
    destruct (filter _ candidates); [by apply not_elem_of_nil in Hf|done].
Qed.
