(* ===== verification/MemoryManager.v ===== *)
(** * Memory manager

    Models [kernel/core/src/memory/manager.rs] and the mapping loop of
    [initialize_kernel_heap] in [heap.rs]: bringing up the frame allocator, the
    mapped kernel heap, the statistics and the pressure baseline, and frame
    allocation under the out-of-memory policy.

    The page mapper is an architecture trait; it is a type class here, with the
    laws the bring-up relies on in [PageMapperLaws].  [None] as the result of a
    definition is a panic: an arithmetic overflow or the explicit OOM panics. *)

From S2P Require Import Prelude MemTypes FrameAllocator KernelHeap Pressure.
From stdpp Require Import base list gmap.
From Stdlib Require Import ZArith Lia.

#[local] Open Scope Z_scope.

(** ** The page mapper *)

Class PageMapper (M : Type) := {
  active_root_frame : M -> Z;
  map_page : M -> Z -> Frame -> Z -> EarlyFrameAllocator ->
             result unit MappingError * M * EarlyFrameAllocator;
  translate : M -> Z -> option Z;
}.

(** Mapping a page makes it translate to the frame, keeps the translations of
    other pages, and takes page-table frames only from the allocator. *)
Class PageMapperLaws (M : Type) `{PageMapper M} := {
  map_translates m page frame flags a m' a' :
    map_page m page frame flags a = (Ok tt, m', a') ->
    translate m' page = Some (frame_base frame);
  map_keeps m page frame flags a m' a' page' p :
    map_page m page frame flags a = (Ok tt, m', a') ->
    page' <> page -> translate m page' = Some p -> translate m' page' = Some p;
  map_allocates m page frame flags a r m' a' :
    map_page m page frame flags a = (r, m', a') -> alloc_wf a ->
    alloc_wf a' /\ exists used, free_frames a ≡ₚ used ++ free_frames a';
}.

Record MemoryStats := mkMemoryStats {
  total_bytes : Z;
  usable_bytes : Z;
  boot_services_reclaimable_bytes : Z;
  reclaimed_boot_services_bytes : Z;
  acpi_reclaimable_bytes : Z;
  reserved_bytes : Z;
  mapped_heap_bytes : Z;
  remaining_usable_bytes : Z;
}.

Record MemoryManager := mkMemoryManager {
  frame_allocator : EarlyFrameAllocator;
  mm_stats : MemoryStats;
  kernel_address_space : KernelAddressSpace;
  mm_heap : VirtualMemoryRange;
}.

(** The manager with the statics it uses: the kernel heap and the pressure
    monitor. *)
Record MemoryState := mkMemoryState {
  manager : MemoryManager;
  kernel_heap : FreeListAllocator;
  monitor : option PressureMonitor;
}.

Definition with_frame_allocator (mm : MemoryManager) (a : EarlyFrameAllocator) :=
  mkMemoryManager a (mm_stats mm) (kernel_address_space mm) (mm_heap mm).

Section bring_up.
Context {M : Type} `{PageMapper M}.

(** The mapping loop of [initialize_kernel_heap], [n] pages to go. *)
Fixpoint map_heap_pages (n : nat) (next_page : Z) (mapper : M) (a : EarlyFrameAllocator) :
    option (result unit InitializationError * M * EarlyFrameAllocator) :=
  match n with
  | O => Some (Ok tt, mapper, a)
  | S n =>
      match EarlyFrameAllocator.allocate_4kib a with
      | (None, a1) => Some (Err KernelHeapExhausted, mapper, a1)
      | (Some frame, a1) =>
          match map_page mapper next_page frame MappingFlags.kernel_data a1 with
          | (Err e, mapper1, a2) => Some (Err (Mapping e), mapper1, a2)
          | (Ok _, mapper1, a2) =>
              next ← VirtualAddress.offset next_page PAGE_SIZE_BYTES;
              map_heap_pages n next mapper1 a2
          end
      end
  end.

Definition initialize_kernel_heap (mapper : M) (a : EarlyFrameAllocator)
    (layout : KernelVirtualLayout) (h : FreeListAllocator) :
    option (result VirtualMemoryRange InitializationError * M * EarlyFrameAllocator
            * FreeListAllocator) :=
  let range := mkVirtualMemoryRange (vrange_start (layout_heap layout))
                 (vrange_end (layout_heap layout)) KernelHeap in
  pages ← VirtualMemoryRange.page_count_4kib range;
  '(r, mapper1, a1) ← map_heap_pages (Z.to_nat pages) (vrange_start range) mapper a;
  match r with
  | Err e => Some (Err e, mapper1, a1, h)
  | Ok _ =>
      size ← VirtualMemoryRange.size_bytes range;
      match FreeListAllocator.initialize h (vrange_start range) size with
      | (Err _, h1) => Some (Err HeapAlreadyInitialized, mapper1, a1, h1)
      | (Ok _, h1) => Some (Ok range, mapper1, a1, h1)
      end
  end.

End bring_up.

Module MemoryStats.

(** The running totals of the region loop: total, usable, boot services, ACPI
    and reserved bytes. *)
Fixpoint tally (rs : list BootMemoryRegion) (total usable boot acpi reserved : Z) :
    option (Z * Z * Z * Z * Z) :=
  match rs with
  | [] => Some (total, usable, boot, acpi, reserved)
  | region :: rs =>
      bytes ← (if region_start region <=? region_end region
               then Some (region_end region - region_start region) else None);
      total ← checked_add U64_MAX total bytes;
      match region_kind region with
      | Usable =>
          usable ← checked_add U64_MAX usable bytes;
          tally rs total usable boot acpi reserved
      | BootServicesReclaimable =>
          boot ← checked_add U64_MAX boot bytes;
          reserved ← checked_add U64_MAX reserved bytes;
          tally rs total usable boot acpi reserved
      | AcpiReclaimable =>
          acpi ← checked_add U64_MAX acpi bytes;
          reserved ← checked_add U64_MAX reserved bytes;
          tally rs total usable boot acpi reserved
      | _ =>
          reserved ← checked_add U64_MAX reserved bytes;
          tally rs total usable boot acpi reserved
      end
  end.

Definition from_boot_context (ctx : BootContext) (heap : VirtualMemoryRange)
    (a : EarlyFrameAllocator) (reclaimed_boot_services : Z) : option MemoryStats :=
  '(total, usable, boot, acpi, reserved) ← tally (memory_regions ctx) 0 0 0 0 0;
  heap_bytes ← VirtualMemoryRange.size_bytes heap;
  Some {|
    total_bytes := total;
    usable_bytes := usable;
    boot_services_reclaimable_bytes := boot;
    reclaimed_boot_services_bytes := reclaimed_boot_services;
    acpi_reclaimable_bytes := acpi;
    reserved_bytes := reserved;
    mapped_heap_bytes := heap_bytes;
    remaining_usable_bytes := EarlyFrameAllocator.remaining_frames a * PAGE_SIZE_BYTES;
  |}.

End MemoryStats.

Module MemoryManager.

Definition pressure_reading (mm : MemoryManager) (h : FreeListAllocator) : PressureReading :=
  let total_frames := usable_bytes (mm_stats mm) / PAGE_SIZE_BYTES in
  let free_frames := EarlyFrameAllocator.usable_headroom_frames (frame_allocator mm) in
  let '(heap_total, heap_free) :=
    match FreeListAllocator.usage_if_initialized h with
    | Some usage => (usage_total_bytes usage, usage_free_bytes usage)
    | None => (0, 0)
    end in
  mkPressureReading (headroom_permille free_frames total_frames)
    (headroom_permille heap_free heap_total).

Definition current_pressure_level (s : MemoryState) : option PressureLevel :=
  current_level (monitor s).

(** [tick] is what the time manager reports, 0 before there is one. *)
Definition refresh_pressure (s : MemoryState) (tick : Z) :
    option PressureTransition * list Z * MemoryState :=
  let '(r, called, m') := observe (monitor s) (pressure_reading (manager s) (kernel_heap s)) tick in
  (r, called, mkMemoryState (manager s) (kernel_heap s) m').

(** [initialize] for a given [virtual_layout]; the manager is set once, and
    only here. *)
Definition initialize_with_layout {M : Type} `{PageMapper M} (layout : KernelVirtualLayout)
    (ctx : BootContext) (mapper : M) (h : FreeListAllocator) (m : option PressureMonitor)
    (tick : Z) : option (result MemoryState InitializationError * M) :=
  if negb (memory_map_available ctx) then Some (Err MissingMemoryMap, mapper)
  else
    boot ← EarlyFrameAllocator.from_boot_context ctx;
    match boot with
    | Err e => Some (Err e, mapper)
    | Ok a =>
        '(heap, mapper1, a1, h1) ← initialize_kernel_heap mapper a layout h;
        match heap with
        | Err e => Some (Err e, mapper1)
        | Ok range =>
            '(a2, reclaimed) ← EarlyFrameAllocator.reclaim_boot_services a1 ctx;
            match reclaimed with
            | Err e => Some (Err e, mapper1)
            | Ok frames =>
                let reclaimed_bytes := frames * PAGE_SIZE_BYTES in
                let space := mkKernelAddressSpace (active_root_frame mapper1) layout in
                stats ← MemoryStats.from_boot_context ctx range a2 reclaimed_bytes;
                let s := mkMemoryState (mkMemoryManager a2 stats space range) h1
                           (pressure_initialize m) in
                Some (Ok (refresh_pressure s tick).2, mapper1)
            end
        end
    end.

Definition initialize {M : Type} `{PageMapper M} :=
  initialize_with_layout (M := M) KernelVirtualLayout.bootstrap_default.

Section oom.
(** [X] is the rest of the kernel, which the recovery hooks may change too. *)
Context {X : Type}.

Definition allocate_4kib (s : MemoryState * X) : option Frame * (MemoryState * X) :=
  let '(r, a) := EarlyFrameAllocator.allocate_4kib (frame_allocator (manager s.1)) in
  (r, (mkMemoryState (with_frame_allocator (manager s.1) a) (kernel_heap s.1) (monitor s.1), s.2)).

Definition allocate_frame_with_oom_policy (hooks : option (OomHooks (MemoryState * X)))
    (s : MemoryState * X) (tick : Z) : option (Frame * (MemoryState * X)) :=
  match allocate_4kib s with
  | (Some frame, s1) => Some (frame, s1)
  | (None, s1) =>
      let s2 := ((refresh_pressure s1.1 tick).2, s1.2) in
      match recover_with_retry hooks allocate_4kib s2 with
      | (Ok frame, s3) => Some (frame, s3)
      | (Err _, _) => None
      end
  end.

End oom.

End MemoryManager.

(** ** Bring-up *)

Lemma frame_allocate_some a f a' :
  alloc_wf a -> EarlyFrameAllocator.allocate_4kib a = (Some f, a') ->
  alloc_wf a' /\ exists n, frame_base f = n * PAGE_SIZE_BYTES /\ free_frames a ≡ₚ n :: free_frames a'.
Proof.
  intros Hwf Ha. pose proof (frame_allocate_spec a Hwf) as Hs. rewrite Ha in Hs.
  destruct Hs as (Hwf' & n & -> & Hp). eauto.
Qed.

Section bring_up_proofs.
Context {M : Type} `{PageMapperLaws M}.

(** Page [i] of the range at [p] translates to the [i]-th of [frames]. *)
Definition maps_pages (m : M) (p : Z) (frames : list Z) : Prop :=
  forall i f, frames !! i = Some f ->
    translate m (p + Z.of_nat i * PAGE_SIZE_BYTES) = Some (f * PAGE_SIZE_BYTES).

Lemma map_heap_pages_spec n p m a m' a' :
  map_heap_pages n p m a = Some (Ok tt, m', a') -> alloc_wf a ->
  alloc_wf a' /\
  (forall q x, q < p -> translate m q = Some x -> translate m' q = Some x) /\
  exists frames used, length frames = n /\
    free_frames a ≡ₚ frames ++ used ++ free_frames a' /\ maps_pages m' p frames.
Proof.
  revert p m a. induction n as [|n IH]; intros p m a; cbn [map_heap_pages].
  { intros [= <- <-] Hwf. split_and!; [done|done|]. exists [], []. split_and!; done. }
  destruct (EarlyFrameAllocator.allocate_4kib a) as [[f|] a1] eqn:Ha; [|done].
  destruct (map_page m p f _ a1) as [[[[]|e] m1] a2] eqn:Hm; [|done].
  destruct (VirtualAddress.offset p _) as [next|] eqn:Hn; cbn; [|done].
  apply checked_add_Some in Hn as [-> _]. intros Hrun Hwf.
  destruct (frame_allocate_some _ _ _ Hwf Ha) as (Hwf1 & num & Hbase & Hp1).
  destruct (map_allocates _ _ _ _ _ _ _ _ Hm Hwf1) as (Hwf2 & used2 & Hp2).
  destruct (IH _ _ _ Hrun Hwf2) as (Hwf' & Hkeep & frames & used & Hlen & Hp & Hmaps).
  split_and!; [done| |].
  - intros q x Hq Hx. unfold PAGE_SIZE_BYTES in *. apply Hkeep; [lia|].
    eapply map_keeps; [exact Hm|lia|exact Hx].
  - exists (num :: frames), (used2 ++ used). split_and!; [by cbn; rewrite Hlen| |].
    + rewrite Hp1, Hp2, Hp, <- app_assoc, <- app_comm_cons. f_equiv.
      apply Permutation_app_swap_app.
    + intros [|i] f' Hf'; cbn in Hf'.
      * injection Hf' as <-. rewrite Z.add_0_r. apply Hkeep; [unfold PAGE_SIZE_BYTES; lia|].
        rewrite <- Hbase. by eapply map_translates.
      * apply Hmaps in Hf'. rewrite <- Hf'. f_equal. lia.
Qed.

Lemma initialize_kernel_heap_spec m a layout h range m' a' h' :
  initialize_kernel_heap m a layout h = Some (Ok range, m', a', h') -> alloc_wf a ->
  alloc_wf a' /\
  exists size, VirtualMemoryRange.size_bytes (layout_heap layout) = Some size /\
    FreeListAllocator.initialize h (vrange_start (layout_heap layout)) size = (Ok tt, h') /\
  exists frames used, length frames = Z.to_nat (size / PAGE_SIZE_BYTES) /\
    free_frames a ≡ₚ frames ++ used ++ free_frames a' /\
    maps_pages m' (vrange_start (layout_heap layout)) frames.
Proof.
  unfold initialize_kernel_heap, VirtualMemoryRange.page_count_4kib, VirtualMemoryRange.size_bytes.
  cbn [vrange_start vrange_end]. case_match; cbn; [|done].
  destruct (map_heap_pages _ _ m a) as [[[[[]|e] m1] a1]|] eqn:Hmap; cbn; [|done|done].
  destruct (FreeListAllocator.initialize h _ _) as [[[]|] h1] eqn:Hi; [|done].
  intros [= <- <- <- <-] Hwf.
  apply map_heap_pages_spec in Hmap as (Hwf' & _ & Hfr); [|done].
  split; [done|]. eexists. split; [done|]. split; [done|exact Hfr].
Qed.

End bring_up_proofs.

Lemma reclaim_boot_services_spec a ctx a' frames :
  alloc_wf a -> EarlyFrameAllocator.reclaim_boot_services a ctx = Some (a', Ok frames) ->
  alloc_wf a' /\
  free_frames a' = free_frames a ++ kind_frames BootServicesReclaimable (memory_regions ctx).
Proof.
  intros [Hl1 Hc1 Hact Hex Hwf1 Hl2 Hc2 Hwf2]. unfold EarlyFrameAllocator.reclaim_boot_services.
  destruct (EarlyFrameAllocator.push_regions _ _ _ _ _) as [[[t c] [f|e]]|] eqn:Hp; cbn; [|done|done].
  intros [= <- <-].
  apply push_regions_spec in Hp as (Hl & Hc & Htk & Hwf & Hf); [|lia|done]. split.
  - constructor; cbn -[MAX_ALLOCATABLE_REGIONS]; try done; [congruence|lia|lia|].
    assert (take (active_region a) t = take (active_region a) (regions a)) as ->; [|done].
    transitivity (take (active_region a) (take (region_count a) t)).
    + by rewrite take_take, Nat.min_l by done.
    + by rewrite Htk, take_take, Nat.min_l by done.
  - unfold free_frames. cbn. rewrite (Hf eq_refl). by rewrite app_assoc.
Qed.


(** The stages a successful bring-up went through. *)
Lemma initialize_ok_inv {M : Type} `{PageMapper M} layout ctx (mapper mapper' : M) h m tick s :
  MemoryManager.initialize_with_layout layout ctx mapper h m tick = Some (Ok s, mapper') ->
  exists a range a1 a2 h1 frames,
    EarlyFrameAllocator.from_boot_context ctx = Some (Ok a) /\
    initialize_kernel_heap mapper a layout h =
      Some (Ok range, mapper', a1, h1) /\
    EarlyFrameAllocator.reclaim_boot_services a1 ctx = Some (a2, Ok frames) /\
    frame_allocator (manager s) = a2 /\ kernel_heap s = h1.
Proof.
  intros Hrun. unfold MemoryManager.initialize_with_layout in Hrun.
  destruct (memory_map_available ctx); [|done].
  apply bind_Some in Hrun as ([a|e] & Hboot & Hrun); [|done].
  apply bind_Some in Hrun as ([[[[range|e] m1] a1] h1] & Hheap & Hrun); [|done].
  apply bind_Some in Hrun as ([a2 [frames|e]] & Hrec & Hrun); [|done].
  apply bind_Some in Hrun as (stats & _ & Hrun).
  injection Hrun as <- <-. exists a, range, a1, a2, h1, frames.
  split_and!; [exact Hboot|exact Hheap|exact Hrec|..];
    unfold MemoryManager.refresh_pressure; by destruct (observe _ _ _) as [[r called] m'].
Qed.

(** A mapper for the witnesses: a page table without intermediate levels. *)
Module MemoryExamples.

Definition mapper : Type := gmap Z Z.

#[global] Instance mapper_ops : PageMapper mapper := {|
  active_root_frame _ := 0;
  map_page m page frame _ a := (Ok tt, <[page := frame_base frame]> m, a);
  translate m page := m !! page;
|}.

#[global] Instance mapper_laws : PageMapperLaws mapper.
Proof.
  constructor.
  - intros m page frame flags a m' a' [= <- <-]. apply lookup_insert_eq.
  - intros m page frame flags a m' a' page' p [= <- <-] Hne Hp.
    by apply lookup_insert_Some; right.
  - intros m page frame flags a r m' a' [= <- <- <-] Hwf. split; [done|]. by exists [].
Qed.

(** Five usable pages beyond the heap's, and 128 MiB of boot services. *)
Definition ctx : BootContext := {|
  memory_regions := [mkBootMemoryRegion 0x100000 0x4105000 Usable;
                     mkBootMemoryRegion 0x8000000 0x10000000 BootServicesReclaimable];
  memory_map_available := true;
|}.

Definition succeeded {S E M : Type} (r : option (result S E * M)) : bool :=
  match r with Some (Ok _, _) => true | _ => false end.

Lemma succeeded_inv {S E M : Type} (r : option (result S E * M)) :
  succeeded r = true -> exists s m, r = Some (Ok s, m).
Proof. destruct r as [[[s|e] m]|]; [eauto|done|done]. Qed.

Lemma ctx_frames_distinct :
  NoDup (kind_frames Usable (memory_regions ctx) ++
         kind_frames BootServicesReclaimable (memory_regions ctx)).
Proof.
  assert (forall r s e, EarlyFrameAllocator.region_frames r = Some (s, e) ->
    page_frames r ++ [] = seqZ s (e - s)) as Hp.
  { intros r s e Hr. unfold page_frames. by rewrite Hr, app_nil_r. }
  change (NoDup ((page_frames (mkBootMemoryRegion 0x100000 0x4105000 Usable) ++ []) ++
    (page_frames (mkBootMemoryRegion 0x8000000 0x10000000 BootServicesReclaimable) ++ []))).
  rewrite (Hp _ 256 16645), (Hp _ 32768 65536) by (vm_compute; reflexivity).
  apply NoDup_app. split_and!; [apply NoDup_seqZ| |apply NoDup_seqZ].
  intros x. rewrite !elem_of_seqZ. lia.
Qed.

End MemoryExamples.

(** ** Properties *)

(** When bring-up succeeds on a memory map whose regions do not overlap,
    every page of the kernel heap range is mapped, to pairwise distinct frames
    of usable memory that are no longer free; the heap allocator starts with
    exactly that range; and the frame allocator is well formed. *)
Theorem initialize_maps_kernel_heap {M : Type} `{PageMapperLaws M}
    ctx (mapper mapper' : M) tick s :
  NoDup (kind_frames Usable (memory_regions ctx) ++
         kind_frames BootServicesReclaimable (memory_regions ctx)) ->
  MemoryManager.initialize ctx mapper FreeListAllocator.empty None tick =
    Some (Ok s, mapper') ->
  alloc_wf (frame_allocator (manager s)) /\
  heap_inv KERNEL_HEAP_START (KERNEL_HEAP_END - KERNEL_HEAP_START)
    (mkHeapSystem (kernel_heap s) []) /\
  exists frames,
    zlen frames = (KERNEL_HEAP_END - KERNEL_HEAP_START) / PAGE_SIZE_BYTES /\
    maps_pages mapper' KERNEL_HEAP_START frames /\
    NoDup (frames ++ free_frames (frame_allocator (manager s))) /\
    Forall (fun f => f ∈ kind_frames Usable (memory_regions ctx)) frames.
Proof.
  intros Hnd Hrun.
  destruct (initialize_ok_inv _ _ _ _ _ _ _ _ Hrun)
    as (a & range & a1 & a2 & h1 & frames & Hboot & Hheap & Hrec & Ha & Hh).
  rewrite Ha, Hh. clear Hrun Ha Hh.
  destruct (from_boot_context_frames _ _ Hboot) as [Hwf Hfree].
  destruct (initialize_kernel_heap_spec _ _ _ _ _ _ _ _ Hheap Hwf)
    as (Hwf1 & size & Hsize & Hinit & fr & used & Hlen & Hperm & Hmaps).
  destruct (reclaim_boot_services_spec _ _ _ _ Hwf1 Hrec) as [Hwf2 Hfree2].
  assert (size = KERNEL_HEAP_END - KERNEL_HEAP_START) as Hsz
    by (vm_compute in Hsize; vm_compute; congruence).
  assert (zlen fr = size / PAGE_SIZE_BYTES) as Hlen'.
  { unfold zlen. rewrite Hlen, Z2Nat.id; [done|]. rewrite Hsz. vm_compute. discriminate. }
  rewrite Hsz in Hlen', Hinit. clear Hlen Hsize Hsz.
  split_and!; [exact Hwf2|by apply heap_inv_boot|].
  exists fr. split_and!; [exact Hlen'|exact Hmaps| |].
  - rewrite Hfree2. rewrite Hfree in Hperm. rewrite Hperm, <- !app_assoc in Hnd.
    apply NoDup_app in Hnd as (Hn1 & Hd1 & Hn2). apply NoDup_app in Hn2 as (_ & _ & Hn3).
    apply NoDup_app. split_and!; [done| |done].
    intros x Hx Hx'. apply (Hd1 x Hx). rewrite elem_of_app. by right.
  - apply Forall_forall. intros x Hx. rewrite <- Hfree, Hperm, elem_of_app. by left.
Qed.

Lemma initialize_maps_kernel_heap_witness :
  exists s m, MemoryManager.initialize MemoryExamples.ctx (∅ : MemoryExamples.mapper)
                FreeListAllocator.empty None 0 = Some (Ok s, m) /\
              alloc_wf (frame_allocator (manager s)).
Proof.
  destruct (MemoryExamples.succeeded_inv (MemoryManager.initialize MemoryExamples.ctx
    (∅ : MemoryExamples.mapper) FreeListAllocator.empty None 0)) as (s & m & Hrun).
  - vm_compute. reflexivity.
  - exists s, m. split; [exact Hrun|].
    exact (proj1 (initialize_maps_kernel_heap MemoryExamples.ctx (∅ : MemoryExamples.mapper)
      m 0 s MemoryExamples.ctx_frames_distinct Hrun)).
Defined.

(** The frame headroom a booted kernel reads can exceed 1000 per mille: the
    free frames include the reclaimed boot-services memory that the total of
    usable frames leaves out, so pressure is under-reported. *)
Theorem frame_headroom_exceeds_total :
  exists ctx s (m : MemoryExamples.mapper),
    MemoryManager.initialize ctx (∅ : MemoryExamples.mapper) FreeListAllocator.empty None 0 =
      Some (Ok s, m) /\
    1000 < frames_headroom_permille (MemoryManager.pressure_reading (manager s) (kernel_heap s)).
Proof.
  assert (forall r : option (result MemoryState InitializationError * MemoryExamples.mapper),
    match r with
    | Some (Ok s, _) => 1000 <? frames_headroom_permille
                                  (MemoryManager.pressure_reading (manager s) (kernel_heap s))
    | _ => false
    end = true ->
    exists s m, r = Some (Ok s, m) /\
      1000 < frames_headroom_permille (MemoryManager.pressure_reading (manager s) (kernel_heap s)))
    as Hinv.
  { intros [[[s|e] m]|] Hr; [|done|done]. exists s, m. split; [done|]. by apply Z.ltb_lt. }
  exists MemoryExamples.ctx. apply Hinv. vm_compute. reflexivity.
Qed.

(** The state the OOM recovery starts from. *)
Definition exhausted_state {X : Type} (s : MemoryState * X) (tick : Z) : MemoryState * X :=
  let s1 := (MemoryManager.allocate_4kib s).2 in
  ((MemoryManager.refresh_pressure s1.1 tick).2, s1.2).

Definition headroom {X : Type} (s : MemoryState * X) : Z :=
  EarlyFrameAllocator.usable_headroom_frames (frame_allocator (manager s.1)).

Lemma allocate_4kib_none {X : Type} (s : MemoryState * X) :
  alloc_wf (frame_allocator (manager s.1)) ->
  (MemoryManager.allocate_4kib s).1 = None <-> headroom s = 0.
Proof.
  intros Hwf. unfold MemoryManager.allocate_4kib, headroom.
  pose proof (frame_allocate_spec _ Hwf) as Hs.
  pose proof (awf_reclaimed _ Hwf) as H1. pose proof (awf_regions _ Hwf) as H2.
  unfold EarlyFrameAllocator.usable_headroom_frames, EarlyFrameAllocator.remaining_frames,
    EarlyFrameAllocator.reclaimable_frames.
  rewrite !sum_available_length by done. unfold free_frames in Hs.
  destruct (EarlyFrameAllocator.allocate_4kib _) as [[f|] a']; cbn [fst].
  - destruct Hs as (_ & n & _ & Hp). apply Permutation_length in Hp.
    rewrite length_app in Hp. cbn in Hp. split; [done|lia].
  - destruct Hs as (_ & [-> ->]%app_nil & _). done.
Qed.

(** Frame allocation under the OOM policy panics only on real exhaustion:
    exactly when no frame is free and recovery cannot help, because no hooks
    are installed, every candidate is protected, or the one victim's reclaim
    still leaves no free frame. *)
Theorem oom_panics_only_when_exhausted {X : Type} (hooks : option (OomHooks (MemoryState * X)))
    (s : MemoryState * X) tick :
  alloc_wf (frame_allocator (manager s.1)) ->
  (forall hk v, hooks = Some hk ->
     alloc_wf (frame_allocator (manager (hook_reclaim hk (exhausted_state s tick) v).1))) ->
  MemoryManager.allocate_frame_with_oom_policy hooks s tick = None <->
  headroom s = 0 /\
  match hooks with
  | None => True
  | Some hk =>
      match select_victim (hook_candidates hk (exhausted_state s tick)) with
      | None => True
      | Some v => headroom (hook_reclaim hk (exhausted_state s tick) v) = 0
      end
  end.
Proof.
  intros Hwf Hhooks. rewrite <- (allocate_4kib_none s Hwf).
  unfold MemoryManager.allocate_frame_with_oom_policy, exhausted_state in *.
  destruct (MemoryManager.allocate_4kib s) as [[f|] s1]; cbn [fst snd] in *; [naive_solver|].
  unfold recover_with_retry. destruct hooks as [hk|]; [|naive_solver].
  destruct (select_victim _) as [v|]; [|naive_solver].
  rewrite <- (allocate_4kib_none _ (Hhooks hk v eq_refl)).
  destruct (MemoryManager.allocate_4kib (hook_reclaim hk _ v)) as [[f|] s2]; naive_solver.
Qed.

(** An exhausted manager and a reclaim hook that gives one frame back. *)
Module OomExamples.

Definition stats0 : MemoryStats := mkMemoryStats 0 0 0 0 0 0 0 0.

Definition drained : EarlyFrameAllocator :=
  allocator (FrameExamples.state_after FrameExamples.start
    [OpAllocate; OpAllocate; OpAllocate; OpAllocate; OpAllocate; OpAllocate]).

Definition with_allocator (a : EarlyFrameAllocator) : MemoryState :=
  mkMemoryState
    (mkMemoryManager a stats0
       (mkKernelAddressSpace 0 KernelVirtualLayout.bootstrap_default)
       (layout_heap KernelVirtualLayout.bootstrap_default))
    FreeListAllocator.empty None.

Definition state : MemoryState * unit := (with_allocator drained, tt).

Definition hooks : OomHooks (MemoryState * unit) := {|
  hook_candidates _ := [mkVictimCandidate 5 None 3 true];
  hook_reclaim _ _ := (with_allocator (EarlyFrameAllocator.free_4kib drained 0x3000).2, tt);
|}.

End OomExamples.

Lemma oom_panics_only_when_exhausted_witness :
  MemoryManager.allocate_frame_with_oom_policy (Some OomExamples.hooks) OomExamples.state 7 <> None.
Proof.
  intros Hnone.
  apply (oom_panics_only_when_exhausted (Some OomExamples.hooks) OomExamples.state 7) in Hnone.
  - destruct Hnone as [_ Hv]. vm_compute in Hv. discriminate.
  - constructor; try (apply (bool_decide_unpack _); vm_compute; exact I);
      vm_compute; (reflexivity || lia).
  - intros hk v [= <-].
    constructor; try (apply (bool_decide_unpack _); vm_compute; exact I);
      vm_compute; (reflexivity || lia).
Defined.
