(* ===== verification/MemoryObject.v ===== *)
(** * Event, timer and memory objects

    Models [EventObject], [TimerObject] and [MemoryObject] of
    [kernel/core/src/object/objects.rs].  A memory object starts with a linear
    buffer and is moved onto physical frames when its pages are needed; the
    theorems show that the move and the page-wise copies are invisible.

    Physical memory is a finite map from byte addresses to bytes, absent bytes
    being 0.  [None] as a result is the panic of an index out of range. *)

From S2P Require Import Prelude MemTypes FrameAllocator.
From stdpp Require Import base list gmap.
From Stdlib Require Import ZArith Lia.

#[local] Open Scope Z_scope.

(** ** Events and timers *)

Record EventState := mkEventState {
  signaled : bool;
  signal_count : Z;
}.

Module EventObject.

Definition new (signaled : bool) : EventState := mkEventState signaled 0.

Definition signal (s : EventState) : EventState :=
  mkEventState true (saturating_add U64_MAX (signal_count s) 1).

Definition reset (s : EventState) : EventState := mkEventState false (signal_count s).

End EventObject.

Record TimerState := mkTimerState {
  timer_armed : bool;
  timer_deadline : option Z;
  periodic_interval_ticks : option Z;
}.

Module TimerObject.

Definition new (deadline interval : option Z) : TimerState :=
  mkTimerState (bool_decide (is_Some deadline)) deadline interval.

Definition arm (s : TimerState) (deadline : Z) (interval : option Z) : TimerState :=
  mkTimerState true (Some deadline) interval.

Definition disarm (s : TimerState) : TimerState := mkTimerState false None None.

End TimerObject.

(** ** Memory objects *)

Abbreviation pmem := (gmap Z Z).

Definition byte_at (mem : pmem) (a : Z) : Z := default 0 (mem !! a).

(** [n] bytes starting at [a]. *)
Definition read_bytes (mem : pmem) (a n : Z) : list Z :=
  (fun k => byte_at mem (a + k)) <$> seqZ 0 n.

Fixpoint write_bytes (mem : pmem) (a : Z) (bytes : list Z) : pmem :=
  match bytes with
  | [] => mem
  | b :: bytes => write_bytes (<[a := b]> mem) (a + 1) bytes
  end.

Inductive DmaSafety := DmaUnsafe | PagePinned | Contiguous.

Record MemoryObjectInfo := mkMemoryObjectInfo {
  size_bytes : Z;
  page_count : nat;
  writable : bool;
  dma_safety : DmaSafety;
}.

Inductive WritableMemoryBacking :=
| Linear (bytes : list Z)
| PageBacked (frames : list Z).

Inductive MemoryStorage :=
| ReadOnly (bytes : list Z)
| Writable (backing : WritableMemoryBacking).

Record MemoryObject := mkMemoryObject {
  info : MemoryObjectInfo;
  storage : MemoryStorage;
}.

Inductive MemoryAccessError :=
| AccessReadOnly | Busy | AccessUnsupported | DmaPolicyViolation.

(** [bytes.get(offset..)] copied into the destination. *)
Definition read_linear (bytes : list Z) (offset : Z) (destination : list Z) : Z * list Z :=
  if zlen bytes <? offset then (0, destination)
  else
    let source := slice bytes offset (zlen bytes) in
    let len := Z.min (zlen source) (zlen destination) in
    (len, copy_into destination 0 (slice source 0 len)).

Definition write_linear (bytes : list Z) (offset : Z) (source : list Z) : Z * list Z :=
  if zlen bytes <? offset then (0, bytes)
  else
    let len := Z.min (zlen bytes - offset) (zlen source) in
    (len, copy_into bytes offset (slice source 0 len)).

(** The copy loop of [read_page_backed]; a round copies at least one byte, so
    [remaining] rounds suffice. *)
Fixpoint read_pages (mem : pmem) (frames : list Z) (destination : list Z)
    (position destination_offset remaining : Z) (fuel : nat) : option (Z * list Z) :=
  if remaining <=? 0 then Some (destination_offset, destination)
  else
    match fuel with
    | O => None
    | S fuel =>
        let page_index := position / PAGE_SIZE_BYTES in
        let page_offset := position mod PAGE_SIZE_BYTES in
        let copy_len := Z.min remaining (PAGE_SIZE_BYTES - page_offset) in
        frame_base ← frames !! Z.to_nat page_index;
        read_pages mem frames
          (copy_into destination destination_offset
             (read_bytes mem (frame_base + page_offset) copy_len))
          (position + copy_len) (destination_offset + copy_len) (remaining - copy_len) fuel
    end.

Definition read_page_backed (mem : pmem) (frames : list Z) (size offset : Z)
    (destination : list Z) : option (Z * list Z) :=
  if size <=? offset then Some (0, destination)
  else
    let remaining := Z.min (zlen destination) (size - offset) in
    read_pages mem frames destination offset 0 remaining (Z.to_nat remaining).

(** The copy loop of [write_page_backed]. *)
Fixpoint write_pages (mem : pmem) (frames : list Z) (source : list Z)
    (position source_offset remaining : Z) (fuel : nat) : option (Z * pmem) :=
  if remaining <=? 0 then Some (source_offset, mem)
  else
    match fuel with
    | O => None
    | S fuel =>
        let page_index := position / PAGE_SIZE_BYTES in
        let page_offset := position mod PAGE_SIZE_BYTES in
        let copy_len := Z.min remaining (PAGE_SIZE_BYTES - page_offset) in
        frame_base ← frames !! Z.to_nat page_index;
        write_pages
          (write_bytes mem (frame_base + page_offset)
             (slice source source_offset (source_offset + copy_len)))
          frames source (position + copy_len) (source_offset + copy_len)
          (remaining - copy_len) fuel
    end.

Definition write_page_backed (mem : pmem) (frames : list Z) (size offset : Z)
    (source : list Z) : option (Z * pmem) :=
  if size <=? offset then Some (0, mem)
  else
    let remaining := Z.min (zlen source) (size - offset) in
    write_pages mem frames source offset 0 remaining (Z.to_nat remaining).

(** The page loop of [allocate_page_backing], pages [page_index] on, [n] to go. *)
Fixpoint back_pages (a : EarlyFrameAllocator) (mem : pmem) (bytes : list Z)
    (page_index : Z) (n : nat) (frames : list Z) :
    result (list Z) MemoryAccessError * EarlyFrameAllocator * pmem :=
  match n with
  | O => (Ok frames, a, mem)
  | S n =>
      match EarlyFrameAllocator.allocate_4kib a with
      | (None, a1) => (Err Busy, a1, mem)
      | (Some frame, a1) =>
          let base := frame_base frame in
          let start := page_index * PAGE_SIZE_BYTES in
          let end_ := Z.min (start + PAGE_SIZE_BYTES) (zlen bytes) in
          let mem1 := write_bytes mem base (replicate (Z.to_nat PAGE_SIZE_BYTES) 0) in
          let mem2 := if start <? end_ then write_bytes mem1 base (slice bytes start end_)
                      else mem1 in
          back_pages a1 mem2 bytes (page_index + 1) n (frames ++ [base])
      end
  end.

(** The kernel's frame allocator, absent before the memory manager is up, and
    physical memory. *)
Record Machine := mkMachine {
  frames_of : option EarlyFrameAllocator;
  memory : pmem;
}.

Definition allocate_page_backing (mc : Machine) (bytes : list Z) (n : nat) :
    result (list Z) MemoryAccessError * Machine :=
  match frames_of mc with
  | None => (Err Busy, mc)
  | Some a =>
      let '(r, a', mem') := back_pages a (memory mc) bytes 0 n [] in
      (r, mkMachine (Some a') mem')
  end.

(** [frames.windows(2).all(..)] *)
Fixpoint frames_are_contiguous (frames : list Z) : bool :=
  match frames with
  | f :: (g :: _) as rest => (g =? f + PAGE_SIZE_BYTES) && frames_are_contiguous rest
  | _ => true
  end.

Definition verify_dma_contiguity (safety : DmaSafety) (frames : list Z) :
    result unit MemoryAccessError :=
  match safety with
  | Contiguous => if frames_are_contiguous frames then Ok tt else Err DmaPolicyViolation
  | _ => Ok tt
  end.

Module MemoryObject.

Definition new (size : Z) (writable : bool) (safety : DmaSafety) : MemoryObject :=
  let zeroed := replicate (Z.to_nat size) 0 in
  mkMemoryObject
    (mkMemoryObjectInfo size (Z.to_nat (div_ceil size 4096)) writable safety)
    (if writable then Writable (Linear zeroed) else ReadOnly zeroed).

Definition from_bytes (bytes : list Z) : MemoryObject :=
  mkMemoryObject
    (mkMemoryObjectInfo (zlen bytes) (Z.to_nat (div_ceil (zlen bytes) 4096)) false DmaUnsafe)
    (ReadOnly bytes).

Definition read (o : MemoryObject) (mem : pmem) (offset : Z) (destination : list Z) :
    option (Z * list Z) :=
  match storage o with
  | ReadOnly bytes => Some (read_linear bytes offset destination)
  | Writable (Linear bytes) => Some (read_linear bytes offset destination)
  | Writable (PageBacked frames) =>
      read_page_backed mem frames (size_bytes (info o)) offset destination
  end.

Definition write (o : MemoryObject) (mem : pmem) (offset : Z) (source : list Z) :
    option (result Z MemoryAccessError * MemoryObject * pmem) :=
  match storage o with
  | ReadOnly _ => Some (Err AccessReadOnly, o, mem)
  | Writable (Linear bytes) =>
      let '(len, bytes') := write_linear bytes offset source in
      Some (Ok len, mkMemoryObject (info o) (Writable (Linear bytes')), mem)
  | Writable (PageBacked frames) =>
      '(len, mem') ← write_page_backed mem frames (size_bytes (info o)) offset source;
      Some (Ok len, o, mem')
  end.

Definition page_frames (o : MemoryObject) (mc : Machine) :
    result (list Z) MemoryAccessError * MemoryObject * Machine :=
  match storage o with
  | ReadOnly _ => (Err AccessReadOnly, o, mc)
  | Writable (PageBacked frames) =>
      match verify_dma_contiguity (dma_safety (info o)) frames with
      | Err e => (Err e, o, mc)
      | Ok _ => (Ok frames, o, mc)
      end
  | Writable (Linear bytes) =>
      match allocate_page_backing mc bytes (page_count (info o)) with
      | (Err e, mc') => (Err e, o, mc')
      | (Ok frames, mc') =>
          let o' := mkMemoryObject (info o) (Writable (PageBacked frames)) in
          match verify_dma_contiguity (dma_safety (info o)) frames with
          | Err e => (Err e, o', mc')
          | Ok _ => (Ok frames, o', mc')
          end
      end
  end.

Definition device_backing (o : MemoryObject) (mc : Machine) :
    result (list Z) MemoryAccessError * MemoryObject * Machine :=
  match dma_safety (info o) with
  | DmaUnsafe => (Err DmaPolicyViolation, o, mc)
  | _ => page_frames o mc
  end.

End MemoryObject.

(** ** Bytes through a frame table *)

(** Byte [i] of the memory the frames make up. *)
Definition content_at (mem : pmem) (frames : list Z) (i : Z) : Z :=
  byte_at mem (frames !!! Z.to_nat (i / PAGE_SIZE_BYTES) + i mod PAGE_SIZE_BYTES).

Definition window (mem : pmem) (frames : list Z) (pos n : Z) : list Z :=
  (fun k => content_at mem frames (pos + k)) <$> seqZ 0 n.

(** Distinct page-aligned frames. *)
Definition frames_ok (frames : list Z) : Prop :=
  NoDup frames /\ Forall (fun f => f mod PAGE_SIZE_BYTES = 0) frames.

Definition in_frames (frames : list Z) (x : Z) : Prop :=
  exists f, f ∈ frames /\ f <= x < f + PAGE_SIZE_BYTES.


Section pages.
Implicit Types (mem : pmem) (frames : list Z).

Lemma byte_at_insert mem a b x :
  byte_at (<[a := b]> mem) x = if x =? a then b else byte_at mem x.
Proof.
  unfold byte_at. destruct (Z.eqb_spec x a) as [->|].
  - by rewrite lookup_insert_eq.
  - by rewrite lookup_insert_ne.
Qed.

Lemma byte_at_write mem a bytes x :
  byte_at (write_bytes mem a bytes) x =
  if (a <=? x) && (x <? a + zlen bytes) then bytes !!! Z.to_nat (x - a) else byte_at mem x.
Proof.
  revert mem a. induction bytes as [|b bytes IH]; intros mem a; cbn [write_bytes].
  { change (zlen []) with 0. destruct (Z.leb_spec a x), (Z.ltb_spec x (a + 0)); cbn; (done || lia). }
  rewrite IH, byte_at_insert, zlen_cons. pose proof (zlen_nonneg bytes).
  destruct (Z.eqb_spec x a) as [->|].
  - rewrite (proj2 (Z.leb_gt _ _)) by lia. cbn [andb].
    rewrite Z.leb_refl, (proj2 (Z.ltb_lt _ _)) by lia. by rewrite Z.sub_diag.
  - replace ((a + 1 <=? x) && (x <? a + 1 + zlen bytes)) with
      ((a <=? x) && (x <? a + (1 + zlen bytes)))
      by (destruct (Z.leb_spec a x), (Z.leb_spec (a + 1) x),
            (Z.ltb_spec x (a + (1 + zlen bytes))), (Z.ltb_spec x (a + 1 + zlen bytes)); lia).
    destruct (_ && _) eqn:Hin; [|done]. apply andb_prop in Hin as [?%Z.leb_le ?%Z.ltb_lt].
    replace (Z.to_nat (x - a)) with (S (Z.to_nat (x - (a + 1)))) by lia. done.
Qed.

Lemma zlen_window mem frames pos n : 0 <= n -> zlen (window mem frames pos n) = n.
Proof. intros. unfold window, zlen. rewrite length_fmap, length_seqZ. lia. Qed.

Lemma window_app mem frames pos n1 n2 :
  0 <= n1 -> 0 <= n2 ->
  window mem frames pos (n1 + n2) = window mem frames pos n1 ++ window mem frames (pos + n1) n2.
Proof.
  intros. unfold window. rewrite seqZ_app, fmap_app by lia. f_equal.
  rewrite Z.add_0_l. rewrite <- (Z.add_0_r n1) at 1. rewrite <- fmap_add_seqZ, <- list_fmap_compose.
  apply list_fmap_ext. intros i x _. unfold compose. f_equal. lia.
Qed.

Lemma window_lookup mem frames pos n i :
  0 <= i < n -> window mem frames pos n !!! Z.to_nat i = content_at mem frames (pos + i).
Proof.
  intros Hi. unfold window. apply list_lookup_total_correct. rewrite list_lookup_fmap.
  rewrite lookup_seqZ_lt by lia. cbn. do 2 f_equal. lia.
Qed.

(** A run of bytes inside one page. *)
Lemma same_page pos k :
  0 <= pos -> 0 <= k < PAGE_SIZE_BYTES - pos mod PAGE_SIZE_BYTES ->
  (pos + k) / PAGE_SIZE_BYTES = pos / PAGE_SIZE_BYTES /\
  (pos + k) mod PAGE_SIZE_BYTES = pos mod PAGE_SIZE_BYTES + k.
Proof.
  intros Hpos Hk. pose proof (Z.div_mod pos PAGE_SIZE_BYTES ltac:(done)).
  pose proof (Z.mod_pos_bound pos PAGE_SIZE_BYTES ltac:(done)).
  split; symmetry.
  - apply (Z.div_unique_pos _ _ _ (pos mod PAGE_SIZE_BYTES + k)); lia.
  - apply (Z.mod_unique_pos _ _ (pos / PAGE_SIZE_BYTES)); lia.
Qed.

Lemma read_bytes_window mem frames pos n base :
  0 <= pos -> 0 <= n <= PAGE_SIZE_BYTES - pos mod PAGE_SIZE_BYTES ->
  frames !! Z.to_nat (pos / PAGE_SIZE_BYTES) = Some base ->
  read_bytes mem (base + pos mod PAGE_SIZE_BYTES) n = window mem frames pos n.
Proof.
  intros Hpos Hn Hbase. unfold read_bytes, window. apply list_fmap_ext.
  intros i k Hk. apply lookup_seqZ in Hk as [-> Hk]. unfold content_at.
  destruct (same_page pos (0 + Z.of_nat i)) as [-> ->]; [done|lia|].
  rewrite (list_lookup_total_correct _ _ _ Hbase). f_equal. lia.
Qed.

Lemma page_in_table frames pos :
  0 <= pos < PAGE_SIZE_BYTES * zlen frames ->
  exists base, frames !! Z.to_nat (pos / PAGE_SIZE_BYTES) = Some base.
Proof.
  intros Hpos. apply lookup_lt_is_Some_2. unfold zlen in Hpos.
  assert (pos / PAGE_SIZE_BYTES < Z.of_nat (length frames))
    by (apply Z.div_lt_upper_bound; unfold PAGE_SIZE_BYTES in *; lia).
  pose proof (Z.div_pos pos PAGE_SIZE_BYTES ltac:(lia) ltac:(done)). lia.
Qed.

Lemma copy_into_nil (dst : list Z) off : copy_into dst off [] = dst.
Proof. unfold copy_into. cbn. rewrite Nat.add_0_r. apply take_drop. Qed.

Lemma read_pages_spec mem frames dst pos doff rem fuel :
  0 <= pos -> 0 <= doff -> 0 <= rem <= Z.of_nat fuel ->
  doff + rem <= zlen dst -> pos + rem <= PAGE_SIZE_BYTES * zlen frames ->
  read_pages mem frames dst pos doff rem fuel =
  Some (doff + rem, copy_into dst doff (window mem frames pos rem)).
Proof.
  revert dst pos doff rem. induction fuel as [|fuel IH];
    intros dst pos doff rem Hpos Hdoff Hrem Hdst Hpg; cbn [read_pages].
  { rewrite (proj2 (Z.leb_le _ _)) by lia. replace rem with 0 by lia.
    by rewrite Z.add_0_r, copy_into_nil. }
  destruct (Z.leb_spec rem 0).
  { replace rem with 0 by lia. by rewrite Z.add_0_r, copy_into_nil. }
  pose proof (Z.mod_pos_bound pos PAGE_SIZE_BYTES ltac:(done)).
  destruct (page_in_table frames pos) as [base Hbase]; [lia|]. rewrite Hbase.
  cbn [mbind option_bind]. set (n := Z.min rem (PAGE_SIZE_BYTES - pos mod PAGE_SIZE_BYTES)).
  rewrite (read_bytes_window mem frames) by (done || lia).
  assert (0 < n <= rem) as Hn by lia.
  assert (zlen (window mem frames pos n) = n) as Hw by (apply zlen_window; lia).
  rewrite IH by (rewrite ?zlen_copy_into; rewrite ?Hw; lia).
  f_equal. f_equal; [lia|].
  replace rem with (n + (rem - n)) at 2 by lia. rewrite window_app by lia.
  rewrite <- copy_into_app by (rewrite ?Hw, ?zlen_window; lia). by rewrite Hw.
Qed.

(** Distinct aligned frames do not share bytes. *)
Lemma frames_disjoint frames i j f g o :
  frames_ok frames -> frames !! i = Some f -> frames !! j = Some g ->
  0 <= o < PAGE_SIZE_BYTES -> f <= g + o < f + PAGE_SIZE_BYTES -> i = j.
Proof.
  intros [Hnd Hal] Hf Hg Ho Hin.
  assert (f mod PAGE_SIZE_BYTES = 0) as Hfa by (by eapply Forall_lookup_1 in Hal).
  assert (g mod PAGE_SIZE_BYTES = 0) as Hga by (by eapply Forall_lookup_1 in Hal).
  apply Z.mod_divide in Hfa as [a ->], Hga as [b ->]; [|done|done].
  assert (a = b) as -> by (unfold PAGE_SIZE_BYTES in *; lia). by eapply NoDup_lookup.
Qed.

(** Writing inside one page of the table changes exactly those bytes. *)
Lemma content_at_write mem frames pos bytes base i :
  frames_ok frames -> 0 <= pos -> zlen bytes <= PAGE_SIZE_BYTES - pos mod PAGE_SIZE_BYTES ->
  frames !! Z.to_nat (pos / PAGE_SIZE_BYTES) = Some base ->
  0 <= i < PAGE_SIZE_BYTES * zlen frames ->
  content_at (write_bytes mem (base + pos mod PAGE_SIZE_BYTES) bytes) frames i =
  if (pos <=? i) && (i <? pos + zlen bytes) then bytes !!! Z.to_nat (i - pos)
  else content_at mem frames i.
Proof.
  intros Hok Hpos Hlen Hbase Hi. unfold content_at. rewrite byte_at_write.
  destruct (page_in_table frames i Hi) as [f Hf]. rewrite (list_lookup_total_correct _ _ _ Hf).
  pose proof (Z.mod_pos_bound pos PAGE_SIZE_BYTES ltac:(done)) as Hpm.
  pose proof (Z.mod_pos_bound i PAGE_SIZE_BYTES ltac:(done)) as Him.
  pose proof (Z.div_mod pos PAGE_SIZE_BYTES ltac:(done)) as Hpd.
  pose proof (Z.div_mod i PAGE_SIZE_BYTES ltac:(done)) as Hid.
  pose proof (Z.div_pos pos PAGE_SIZE_BYTES ltac:(lia) ltac:(done)).
  pose proof (Z.div_pos i PAGE_SIZE_BYTES ltac:(lia) ltac:(done)).
  destruct (decide (i / PAGE_SIZE_BYTES = pos / PAGE_SIZE_BYTES)) as [Hsame|Hdiff].
  - rewrite Hsame in Hf. rewrite Hbase in Hf. injection Hf as ->.
    replace (f + pos mod PAGE_SIZE_BYTES <=? f + i mod PAGE_SIZE_BYTES) with (pos <=? i)
      by (destruct (Z.leb_spec pos i), (Z.leb_spec (f + pos mod PAGE_SIZE_BYTES)
            (f + i mod PAGE_SIZE_BYTES)); lia).
    replace (f + i mod PAGE_SIZE_BYTES <? f + pos mod PAGE_SIZE_BYTES + zlen bytes)
      with (i <? pos + zlen bytes)
      by (destruct (Z.ltb_spec i (pos + zlen bytes)), (Z.ltb_spec (f + i mod PAGE_SIZE_BYTES)
            (f + pos mod PAGE_SIZE_BYTES + zlen bytes)); lia).
    replace (f + i mod PAGE_SIZE_BYTES - (f + pos mod PAGE_SIZE_BYTES)) with (i - pos) by lia.
    done.
  - destruct (_ && _) eqn:Hin.
    { apply andb_prop in Hin as [?%Z.leb_le ?%Z.ltb_lt]. exfalso. apply Hdiff.
      apply Z2Nat.inj; [done|done|].
      eapply (frames_disjoint frames _ _ base f (i mod PAGE_SIZE_BYTES)) in Hbase; [|done|done|lia|lia].
      congruence. }
    destruct (Z.leb_spec pos i), (Z.ltb_spec i (pos + zlen bytes)); cbn; try done.
    exfalso. apply Hdiff. unfold PAGE_SIZE_BYTES in *. lia.
Qed.

Lemma write_pages_spec mem frames src pos soff rem fuel :
  frames_ok frames -> 0 <= pos -> 0 <= soff -> 0 <= rem <= Z.of_nat fuel ->
  soff + rem <= zlen src -> pos + rem <= PAGE_SIZE_BYTES * zlen frames ->
  exists mem', write_pages mem frames src pos soff rem fuel = Some (soff + rem, mem') /\
    forall i, 0 <= i < PAGE_SIZE_BYTES * zlen frames ->
      content_at mem' frames i =
      if (pos <=? i) && (i <? pos + rem) then src !!! Z.to_nat (soff + (i - pos))
      else content_at mem frames i.
Proof.
  intros Hok. revert mem pos soff rem. induction fuel as [|fuel IH];
    intros mem pos soff rem Hpos Hsoff Hrem Hsrc Hpg; cbn [write_pages].
  { rewrite (proj2 (Z.leb_le _ _)) by lia. exists mem. split; [do 2 f_equal; lia|].
    intros i Hi. destruct (Z.leb_spec pos i), (Z.ltb_spec i (pos + rem)); cbn; (done || lia). }
  destruct (Z.leb_spec rem 0).
  { exists mem. split; [do 2 f_equal; lia|].
    intros i Hi. destruct (Z.leb_spec pos i), (Z.ltb_spec i (pos + rem)); cbn; (done || lia). }
  pose proof (Z.mod_pos_bound pos PAGE_SIZE_BYTES ltac:(done)).
  destruct (page_in_table frames pos) as [base Hbase]; [lia|]. rewrite Hbase.
  cbn [mbind option_bind]. set (n := Z.min rem (PAGE_SIZE_BYTES - pos mod PAGE_SIZE_BYTES)).
  assert (0 < n <= rem) as Hn by lia.
  assert (zlen (slice src soff (soff + n)) = n) as Hsl by (rewrite length_slice; lia).
  set (mem1 := write_bytes _ _ _).
  destruct (IH mem1 (pos + n) (soff + n) (rem - n)) as (mem' & Hrun & Hcont); try lia.
  exists mem'. rewrite Hrun. split; [do 2 f_equal; lia|]. intros i Hi. rewrite Hcont by done.
  unfold mem1. rewrite content_at_write by (done || lia). rewrite Hsl.
  destruct (Z.leb_spec (pos + n) i), (Z.ltb_spec i (pos + n + (rem - n)));
    destruct (Z.leb_spec pos i), (Z.ltb_spec i (pos + n)), (Z.ltb_spec i (pos + rem));
    cbn [andb]; try lia; try done.
  - f_equal. lia.
  - unfold slice. rewrite lookup_total_take_lt by lia. rewrite lookup_total_drop.
    f_equal. lia.
Qed.

End pages.

(** ** The bytes of an object *)

Definition contents (o : MemoryObject) (mem : pmem) : list Z :=
  match storage o with
  | ReadOnly bytes | Writable (Linear bytes) => bytes
  | Writable (PageBacked frames) => window mem frames 0 (size_bytes (info o))
  end.

(** The storage has the size the object announces. *)
Definition object_wf (o : MemoryObject) : Prop :=
  0 <= size_bytes (info o) /\
  page_count (info o) = Z.to_nat (div_ceil (size_bytes (info o)) PAGE_SIZE_BYTES) /\
  match storage o with
  | ReadOnly bytes | Writable (Linear bytes) => zlen bytes = size_bytes (info o)
  | Writable (PageBacked frames) =>
      frames_ok frames /\ length frames = page_count (info o)
  end.

Section objects.
Implicit Types (o : MemoryObject) (mem : pmem).

Lemma zlen_contents o mem : object_wf o -> zlen (contents o mem) = size_bytes (info o).
Proof.
  intros (Hsz & _ & Hst). unfold contents.
  destruct (storage o) as [bytes|[bytes|frames]]; [done|done|]. by apply zlen_window.
Qed.

Lemma pages_cover size frames :
  0 <= size -> length frames = Z.to_nat (div_ceil size PAGE_SIZE_BYTES) ->
  size <= PAGE_SIZE_BYTES * zlen (frames : list Z).
Proof.
  intros Hsz Hlen. unfold zlen. rewrite Hlen. unfold div_ceil, PAGE_SIZE_BYTES in *.
  pose proof (Z.div_mod (size + 4096 - 1) 4096 ltac:(done)).
  pose proof (Z.mod_pos_bound (size + 4096 - 1) 4096 ltac:(done)). lia.
Qed.

Lemma slice_window mem frames off n size :
  0 <= off -> 0 <= n -> off + n <= size ->
  slice (window mem frames 0 size) off (off + n) = window mem frames off n.
Proof.
  intros Ho Hn Hle. assert (zlen (window mem frames 0 size) = size) as Hw by (apply zlen_window; lia).
  apply list_eq_zlen.
  { rewrite length_slice by lia. rewrite zlen_window by lia. lia. }
  rewrite length_slice by lia. intros i Hi. rewrite window_lookup by lia.
  unfold slice. rewrite lookup_total_take_lt by lia. rewrite lookup_total_drop.
  replace (Z.to_nat off + Z.to_nat i)%nat with (Z.to_nat (off + i)) by lia.
  rewrite window_lookup by lia. f_equal.
Qed.

(** Bytes available from [offset] on, as [bytes.get(offset..)] sees them. *)
Definition span (size offset n : Z) : Z := Z.min n (size - offset).

Lemma read_linear_spec bytes offset dst :
  0 <= offset <= zlen bytes ->
  let n := span (zlen bytes) offset (zlen dst) in
  read_linear bytes offset dst = (n, copy_into dst 0 (slice bytes offset (offset + n))).
Proof.
  intros Ho n. unfold read_linear. rewrite (proj2 (Z.ltb_ge _ _)) by lia.
  pose proof (zlen_nonneg dst). rewrite length_slice by lia.
  replace (Z.min (zlen bytes - offset) (zlen dst)) with n by (unfold n, span; lia).
  do 2 f_equal. unfold n, span, slice. rewrite drop_0, take_take. f_equal. lia.
Qed.

Lemma write_linear_spec bytes offset src :
  0 <= offset <= zlen bytes ->
  let n := span (zlen bytes) offset (zlen src) in
  write_linear bytes offset src = (n, copy_into bytes offset (slice src 0 n)).
Proof.
  intros Ho n. unfold write_linear. rewrite (proj2 (Z.ltb_ge _ _)) by lia.
  replace (Z.min (zlen bytes - offset) (zlen src)) with n by (unfold n, span; lia). done.
Qed.

Lemma object_read_spec o mem offset dst :
  object_wf o -> 0 <= offset <= size_bytes (info o) ->
  let n := span (size_bytes (info o)) offset (zlen dst) in
  MemoryObject.read o mem offset dst =
  Some (n, copy_into dst 0 (slice (contents o mem) offset (offset + n))).
Proof.
  intros (Hsz & Hpc & Hst) Ho n. unfold MemoryObject.read, contents.
  pose proof (zlen_nonneg dst) as Hd.
  destruct (storage o) as [bytes|[bytes|frames]].
  - rewrite read_linear_spec by lia. by rewrite Hst.
  - rewrite read_linear_spec by lia. by rewrite Hst.
  - destruct Hst as [_ Hlen]. rewrite Hpc in Hlen. apply pages_cover in Hlen; [|done].
    unfold read_page_backed. destruct (Z.leb_spec (size_bytes (info o)) offset).
    { replace n with 0 by (unfold n, span; lia). rewrite Z.add_0_r.
      unfold slice. rewrite Z.sub_diag. cbn. by rewrite copy_into_nil. }
    rewrite read_pages_spec by lia. rewrite slice_window by (unfold n, span; lia). done.
Qed.

Lemma object_write_spec o mem offset src :
  object_wf o -> 0 <= offset <= size_bytes (info o) ->
  let n := span (size_bytes (info o)) offset (zlen src) in
  match storage o with
  | ReadOnly _ => MemoryObject.write o mem offset src = Some (Err AccessReadOnly, o, mem)
  | Writable _ =>
      exists o' mem', MemoryObject.write o mem offset src = Some (Ok n, o', mem') /\
        object_wf o' /\ info o' = info o /\
        contents o' mem' = copy_into (contents o mem) offset (slice src 0 n)
  end.
Proof.
  intros Hwf Ho n. pose proof Hwf as (Hsz & Hpc & Hst).
  pose proof (zlen_nonneg src) as Hs. assert (0 <= n) as Hn by (unfold n, span; lia).
  assert (zlen (slice src 0 n) = n) as Hsl by (rewrite length_slice; unfold n, span in *; lia).
  unfold MemoryObject.write, contents in *.
  destruct (storage o) as [bytes|[bytes|frames]] eqn:Hstor; [done| |].
  - rewrite write_linear_spec by lia. eexists _, mem. rewrite Hst. split; [done|].
    fold n. split_and!; [|done|done]. unfold object_wf. cbn [info storage].
    split_and!; [done|done|]. rewrite zlen_copy_into; unfold n, span in *; lia.
  - destruct Hst as [Hok Hlen]. pose proof Hlen as Hcov. rewrite Hpc in Hcov.
    apply pages_cover in Hcov; [|done]. unfold write_page_backed.
    destruct (Z.leb_spec (size_bytes (info o)) offset).
    { exists o, mem. cbn [mbind option_bind]. rewrite Hstor.
      replace n with 0 by (unfold n, span; lia). unfold slice. cbn [Z.sub Z.to_nat take].
      by rewrite copy_into_nil. }
    destruct (write_pages_spec mem frames src offset 0
      (Z.min (zlen src) (size_bytes (info o) - offset))
      (Z.to_nat (Z.min (zlen src) (size_bytes (info o) - offset))))
      as (mem' & Hrun & Hcont); [done|lia..|].
    rewrite Hrun. exists o, mem'. cbn [mbind option_bind]. rewrite Hstor.
    split_and!; [done|done|done|].
    apply list_eq_zlen; [rewrite zlen_copy_into; rewrite ?zlen_window by lia; unfold n, span in *; lia|].
    rewrite zlen_window by lia. intros i Hi. rewrite window_lookup, Z.add_0_l, Hcont by lia.
    rewrite copy_into_lookup by (rewrite ?zlen_window; unfold n, span in *; lia).
    rewrite Hsl. fold (span (size_bytes (info o)) offset (zlen src)). fold n.
    destruct (_ && _) eqn:Hin; [|by rewrite window_lookup by lia].
    apply andb_prop in Hin as [?%Z.leb_le ?%Z.ltb_lt].
    unfold slice. rewrite drop_0, lookup_total_take_lt by lia. f_equal. 
Qed.

End objects.

(** ** Moving an object onto frames *)

Section backing.

(** The bytes of page [p] of a buffer, zero past its end. *)
Definition page_byte (bytes : list Z) (p o : Z) : Z :=
  let i := p * PAGE_SIZE_BYTES + o in
  if i <? zlen bytes then bytes !!! Z.to_nat i else 0.

Lemma fill_page_spec mem base bytes p x :
  0 <= p ->
  let start := p * PAGE_SIZE_BYTES in
  let end_ := Z.min (start + PAGE_SIZE_BYTES) (zlen bytes) in
  let mem1 := write_bytes mem base (replicate (Z.to_nat PAGE_SIZE_BYTES) 0) in
  byte_at (if start <? end_ then write_bytes mem1 base (slice bytes start end_) else mem1) x =
  if (base <=? x) && (x <? base + PAGE_SIZE_BYTES) then page_byte bytes p (x - base)
  else byte_at mem x.
Proof.
  intros Hp start end_ mem1.
  assert (0 <= start) by (unfold start, PAGE_SIZE_BYTES; lia).
  assert (forall y, byte_at mem1 y =
    if (base <=? y) && (y <? base + PAGE_SIZE_BYTES) then 0 else byte_at mem y) as Hmem1.
  { intros y. unfold mem1. rewrite byte_at_write. unfold zlen at 1.
    rewrite length_replicate, Z2Nat.id by done.
    destruct (_ && _) eqn:Hin; [|done]. apply andb_prop in Hin as [?%Z.leb_le ?%Z.ltb_lt].
    apply lookup_total_replicate_2. lia. }
  unfold page_byte. cbv zeta. fold start.
  destruct (Z.ltb_spec start end_) as [Hne|He].
  - rewrite byte_at_write, Hmem1, length_slice by lia.
    destruct (Z.leb_spec base x), (Z.ltb_spec x (base + (end_ - start))),
      (Z.ltb_spec x (base + PAGE_SIZE_BYTES)), (Z.ltb_spec (start + (x - base)) (zlen bytes));
      cbn [andb]; try done; try lia.
    unfold slice. rewrite lookup_total_take_lt by lia. rewrite lookup_total_drop. f_equal. lia.
  - rewrite Hmem1. destruct (_ && _) eqn:Hin; [|done].
    apply andb_prop in Hin as [?%Z.leb_le ?%Z.ltb_lt].
    rewrite (proj2 (Z.ltb_ge _ _)) by lia. done.
Qed.

Lemma back_pages_spec a mem bytes p n acc frames a' mem' :
  alloc_wf a -> NoDup (free_frames a) -> 0 <= p ->
  back_pages a mem bytes p n acc = (Ok frames, a', mem') ->
  exists nums,
    frames = acc ++ ((fun k => k * PAGE_SIZE_BYTES) <$> nums) /\ length nums = n /\
    alloc_wf a' /\ free_frames a ≡ₚ nums ++ free_frames a' /\
    (forall i k o, nums !! i = Some k -> 0 <= o < PAGE_SIZE_BYTES ->
       byte_at mem' (k * PAGE_SIZE_BYTES + o) = page_byte bytes (p + Z.of_nat i) o) /\
    (forall x, ~ in_frames ((fun k => k * PAGE_SIZE_BYTES) <$> nums) x ->
       byte_at mem' x = byte_at mem x).
Proof.
  revert a mem p acc. induction n as [|n IH]; intros a mem p acc Hwf Hnd Hp; cbn [back_pages].
  { intros [= <- <- <-]. exists []. rewrite app_nil_r. split_and!; done. }
  destruct (EarlyFrameAllocator.allocate_4kib a) as [[f|] a1] eqn:Ha; [|done].
  pose proof (frame_allocate_spec a Hwf) as Hs. rewrite Ha in Hs.
  destruct Hs as (Hwf1 & num & -> & Hp1). cbn [frame_base]. intros Hrun.
  rewrite Hp1 in Hnd. apply NoDup_cons in Hnd as [Hnotin Hnd1].
  apply IH in Hrun as (nums & -> & Hlen & Hwf' & Hp2 & Hbytes & Hother); [|done|done|lia].
  exists (num :: nums).
  assert (num ∉ nums) as Hfresh.
  { intros Hin. apply Hnotin. rewrite Hp2, elem_of_app. by left. }
  split_and!; [by rewrite <- app_assoc|by cbn; rewrite Hlen|done|by rewrite Hp1, Hp2| |].
  - intros [|i] k o Hk Ho; cbn in Hk.
    + injection Hk as <-. rewrite Hother.
      * rewrite fill_page_spec by done. rewrite Z.add_0_r.
        destruct (Z.leb_spec (num * PAGE_SIZE_BYTES) (num * PAGE_SIZE_BYTES + o)),
          (Z.ltb_spec (num * PAGE_SIZE_BYTES + o) (num * PAGE_SIZE_BYTES + PAGE_SIZE_BYTES));
          cbn [andb]; try lia. f_equal. lia.
      * intros (f & (k' & -> & Hk')%list_elem_of_fmap & Hin). apply Hfresh.
        assert (k' = num) as <- by (unfold PAGE_SIZE_BYTES in *; lia). done.
    + rewrite (Hbytes i k o Hk Ho). f_equal. lia.
  - intros x Hx. rewrite Hother.
    + rewrite fill_page_spec by done. destruct (_ && _) eqn:Hin; [|done].
      apply andb_prop in Hin as [?%Z.leb_le ?%Z.ltb_lt]. exfalso. apply Hx.
      exists (num * PAGE_SIZE_BYTES). split; [left|lia].
    + intros (f & Hf & Hin). apply Hx. exists f. split; [by right|done].
Qed.

Lemma back_pages_err a mem bytes p n acc e a' mem' :
  alloc_wf a -> back_pages a mem bytes p n acc = (Err e, a', mem') ->
  e = Busy /\ alloc_wf a' /\ free_frames a' = [].
Proof.
  revert a mem p acc. induction n as [|n IH]; intros a mem p acc Hwf; cbn [back_pages]; [done|].
  pose proof (frame_allocate_spec a Hwf) as Hs.
  destruct (EarlyFrameAllocator.allocate_4kib a) as [[f|] a1] eqn:Ha.
  - destruct Hs as (Hwf1 & _). intros Hrun. by eapply IH.
  - destruct Hs as (Hwf1 & _ & Hnil). by intros [= <- <- <-].
Qed.

Lemma frames_ok_nums nums : NoDup nums -> frames_ok ((fun k => k * PAGE_SIZE_BYTES) <$> nums).
Proof.
  intros Hnd. split.
  - apply NoDup_fmap_2; [|done]. intros x y Hxy. unfold PAGE_SIZE_BYTES in *. lia.
  - apply Forall_fmap, Forall_forall. intros k _. unfold compose. by apply Z.mod_mul.
Qed.

Lemma page_frames_verified o mc frames o' mc' :
  MemoryObject.page_frames o mc = (Ok frames, o', mc') ->
  verify_dma_contiguity (dma_safety (info o)) frames = Ok tt.
Proof.
  unfold MemoryObject.page_frames. intros Hpf.
  repeat case_match; simplify_eq;
    match goal with H : verify_dma_contiguity _ _ = Ok ?u |- _ => by destruct u end.
Qed.

End backing.

(** ** Examples *)

Module ObjectExamples.

Lemma boot_wf :
  alloc_wf FrameExamples.boot /\ NoDup (free_frames FrameExamples.boot).
Proof.
  destruct (from_boot_context_frames FrameExamples.ctx FrameExamples.boot) as [Hwf ->];
    [vm_compute; reflexivity|].
  split; [exact Hwf|]. apply (bool_decide_unpack _). vm_compute. exact I.
Qed.

(** Five thousand bytes over two frames in descending order, a linear object of
    the same size that holds a few bytes across the page border, one too large
    for the frames of the example machine, and one of two pages for a device. *)
Definition spread : MemoryObject :=
  mkMemoryObject (mkMemoryObjectInfo 5000 2 true PagePinned)
    (Writable (PageBacked [0x3000; 0x1000])).

Definition linear_bytes : list Z :=
  copy_into (replicate 5000 0) 4094 [1; 2; 3; 4].

Definition linear : MemoryObject :=
  mkMemoryObject (mkMemoryObjectInfo 5000 2 true PagePinned) (Writable (Linear linear_bytes)).

Definition large : MemoryObject := MemoryObject.new 30000 true PagePinned.

Definition ring : MemoryObject := MemoryObject.new 8192 true Contiguous.

Definition machine : Machine := mkMachine (Some FrameExamples.boot) ∅.

Lemma spread_wf : object_wf spread.
Proof.
  split_and!; [done|vm_compute; reflexivity|]. split; [|vm_compute; reflexivity]. split.
  - apply (bool_decide_unpack _). vm_compute. exact I.
  - repeat constructor.
Qed.

Lemma linear_wf : object_wf linear.
Proof. split_and!; [done|vm_compute; reflexivity|vm_compute; reflexivity]. Qed.

Definition outcome (r : result (list Z) MemoryAccessError * MemoryObject * Machine) :
    option (result (list Z) MemoryAccessError) :=
  match r with
  | (x, _, mkMachine (Some _) _) => Some x
  | _ => None
  end.

Lemma outcome_inv r x :
  outcome r = Some x -> exists o' a' mem', r = (x, o', mkMachine (Some a') mem').
Proof. destruct r as [[y o'] [[a'|] m']]; cbn; [intros [= <-]; eauto|done]. Qed.

End ObjectExamples.

(** ** Properties *)

(** Reading any memory object returns exactly the bytes it holds: for every
    kind of storage, a read within the object copies the available bytes from
    the offset on into the destination, never panics, and reports how many. *)
Theorem memory_read_returns_contents o mem offset dst :
  object_wf o -> 0 <= offset <= size_bytes (info o) ->
  let n := Z.min (zlen dst) (size_bytes (info o) - offset) in
  MemoryObject.read o mem offset dst =
  Some (n, copy_into dst 0 (slice (contents o mem) offset (offset + n))).
Proof. apply object_read_spec. Qed.

Lemma memory_read_returns_contents_witness :
  MemoryObject.read ObjectExamples.spread ∅ 4094 [9; 9; 9; 9] =
  Some (4, copy_into [9; 9; 9; 9] 0 (slice (contents ObjectExamples.spread ∅) 4094 (4094 + 4))).
Proof.
  exact (memory_read_returns_contents ObjectExamples.spread ∅ 4094 [9; 9; 9; 9]
    ObjectExamples.spread_wf ltac:(cbn; lia)).
Defined.

(** Writing a writable object replaces exactly the addressed bytes of its
    contents, whether it is still linear or already spread over frames, and
    never panics; a read-only object refuses and stays as it is. *)
Theorem memory_write_updates_contents o mem offset src :
  object_wf o -> 0 <= offset <= size_bytes (info o) ->
  let n := Z.min (zlen src) (size_bytes (info o) - offset) in
  match storage o with
  | ReadOnly _ => MemoryObject.write o mem offset src = Some (Err AccessReadOnly, o, mem)
  | Writable _ =>
      exists o' mem', MemoryObject.write o mem offset src = Some (Ok n, o', mem') /\
        object_wf o' /\ info o' = info o /\
        contents o' mem' = copy_into (contents o mem) offset (slice src 0 n)
  end.
Proof. apply object_write_spec. Qed.

Lemma memory_write_updates_contents_witness :
  exists o' mem', MemoryObject.write ObjectExamples.spread ∅ 4094 [1; 2; 3; 4] =
                    Some (Ok 4, o', mem') /\ object_wf o'.
Proof.
  destruct (memory_write_updates_contents ObjectExamples.spread ∅ 4094 [1; 2; 3; 4]
    ObjectExamples.spread_wf ltac:(cbn; lia)) as (o' & mem' & Hw & Hwf & _).
  exists o', mem'. split; [exact Hw|exact Hwf].
Defined.

(** Moving a linear object onto physical frames is invisible: when
    page_frames succeeds, the object holds the same bytes as before, its frames
    are distinct, were free and are no longer, and no memory outside them
    changed. *)
Theorem page_backing_preserves_contents o bytes a mem frames o' a' mem' :
  storage o = Writable (Linear bytes) -> object_wf o ->
  alloc_wf a -> NoDup (free_frames a) ->
  MemoryObject.page_frames o (mkMachine (Some a) mem) =
    (Ok frames, o', mkMachine (Some a') mem') ->
  storage o' = Writable (PageBacked frames) /\ object_wf o' /\
  contents o' mem' = contents o mem /\
  (exists nums, frames = ((fun k => k * PAGE_SIZE_BYTES) <$> nums) /\
                free_frames a ≡ₚ nums ++ free_frames a') /\
  (forall x, ~ in_frames frames x -> byte_at mem' x = byte_at mem x).
Proof.
  intros Hst Hwf Hawf Hnd. pose proof Hwf as (Hsz & Hpc & Hlin). rewrite Hst in Hlin.
  unfold MemoryObject.page_frames, allocate_page_backing. rewrite Hst. cbn [frames_of memory].
  destruct (back_pages a mem bytes 0 _ []) as [[[fr|e] a1] mem1] eqn:Hb; [|done].
  destruct (verify_dma_contiguity _ _) as [[]|]; [|done]. intros [= <- <- <- <-].
  apply back_pages_spec in Hb as (nums & -> & Hlen & Hwf1 & Hperm & Hbytes & Hother); [|done..].
  cbn [app] in *. rewrite Hperm in Hnd. apply NoDup_app in Hnd as (Hn1 & _ & _).
  split_and!; [done| | |by exists nums|done].
  - split_and!; [done|done|]. cbn. split; [by apply frames_ok_nums|]. by rewrite length_fmap.
  - unfold contents. cbn [storage info]. rewrite Hst. apply list_eq_zlen.
    { rewrite zlen_window by done. by rewrite Hlin. }
    rewrite zlen_window by done. intros i Hi. rewrite window_lookup by done.
    rewrite Z.add_0_l. unfold content_at.
    pose proof (Z.mod_pos_bound i PAGE_SIZE_BYTES ltac:(done)) as Hm.
    pose proof (Z.div_mod i PAGE_SIZE_BYTES ltac:(done)) as Hdm.
    assert (length ((fun k => k * PAGE_SIZE_BYTES) <$> nums) =
            Z.to_nat (div_ceil (size_bytes (info o)) PAGE_SIZE_BYTES)) as Hcov
      by (by rewrite length_fmap, Hlen).
    apply pages_cover in Hcov; [|done].
    destruct (page_in_table _ i ltac:(split; [lia|eapply Z.lt_le_trans; [apply Hi|exact Hcov]]))
      as [base Hbase].
    rewrite (list_lookup_total_correct _ _ _ Hbase). rewrite list_lookup_fmap in Hbase.
    destruct (nums !! _) as [k|] eqn:Hk; [|done]. injection Hbase as <-.
    rewrite (Hbytes _ _ _ Hk Hm). unfold page_byte.
    pose proof (Z.div_pos i PAGE_SIZE_BYTES ltac:(lia) ltac:(done)).
    rewrite Z2Nat.id, Z.add_0_l by done.
    replace (i / PAGE_SIZE_BYTES * PAGE_SIZE_BYTES + i mod PAGE_SIZE_BYTES) with i by lia.
    rewrite (proj2 (Z.ltb_lt _ _)) by lia. done.
Qed.

Lemma page_backing_preserves_contents_witness :
  exists frames o' mc', MemoryObject.page_frames ObjectExamples.linear ObjectExamples.machine =
      (Ok frames, o', mc') /\
    contents o' (memory mc') = contents ObjectExamples.linear ∅.
Proof.
  destruct (ObjectExamples.outcome_inv
    (MemoryObject.page_frames ObjectExamples.linear ObjectExamples.machine)
    (Ok [0x1000; 0x2000])) as (o' & a' & mem' & Hrun); [vm_compute; reflexivity|].
  exists [0x1000; 0x2000], o', (mkMachine (Some a') mem'). split; [exact Hrun|].
  exact (proj1 (proj2 (proj2 (page_backing_preserves_contents ObjectExamples.linear
    ObjectExamples.linear_bytes FrameExamples.boot ∅ [0x1000; 0x2000] o' a' mem' eq_refl
    ObjectExamples.linear_wf (proj1 ObjectExamples.boot_wf) (proj2 ObjectExamples.boot_wf)
    Hrun)))).
Defined.

(** A page_frames that fails for lack of frames has taken every frame the
    allocator had and gives none back: the allocator ends empty although the
    object is still linear and owns no frame. *)
Theorem failed_page_backing_drains_allocator o bytes a mem e o' mc' :
  storage o = Writable (Linear bytes) -> alloc_wf a ->
  dma_safety (info o) <> Contiguous ->
  MemoryObject.page_frames o (mkMachine (Some a) mem) = (Err e, o', mc') ->
  e = Busy /\ o' = o /\
  exists a', frames_of mc' = Some a' /\ free_frames a' = [].
Proof.
  intros Hst Hwf Hdma. unfold MemoryObject.page_frames, allocate_page_backing.
  rewrite Hst. cbn [frames_of memory].
  destruct (back_pages a mem bytes 0 _ []) as [[[fr|e'] a1] mem1] eqn:Hb.
  - unfold verify_dma_contiguity. by destruct (dma_safety (info o)).
  - apply back_pages_err in Hb as (-> & _ & Hnil); [|done]. intros [= <- <- <-].
    split_and!; [done|done|]. by exists a1.
Qed.

Lemma failed_page_backing_drains_allocator_witness :
  exists o' mc' a', MemoryObject.page_frames ObjectExamples.large ObjectExamples.machine =
      (Err Busy, o', mc') /\ frames_of mc' = Some a' /\ free_frames a' = [].
Proof.
  destruct (ObjectExamples.outcome_inv
    (MemoryObject.page_frames ObjectExamples.large ObjectExamples.machine) (Err Busy))
    as (o' & a' & mem' & Hrun); [vm_compute; reflexivity|].
  destruct (failed_page_backing_drains_allocator ObjectExamples.large
    (replicate (Z.to_nat 30000) 0) FrameExamples.boot ∅ Busy o' (mkMachine (Some a') mem')
    eq_refl (proj1 ObjectExamples.boot_wf) ltac:(discriminate) Hrun)
    as (_ & _ & a'' & Ha & Hnil).
  exists o', (mkMachine (Some a') mem'), a''. split_and!; [exact Hrun|exact Ha|exact Hnil].
Defined.

(** The DMA gate only ever hands out frames of objects declared safe for
    devices, and for contiguous objects only one physically contiguous
    ascending run. *)
Theorem device_backing_respects_policy o mc frames o' mc' :
  MemoryObject.device_backing o mc = (Ok frames, o', mc') ->
  dma_safety (info o) <> DmaUnsafe /\
  (dma_safety (info o) = Contiguous ->
   forall i f g, frames !! i = Some f -> frames !! (i + 1)%nat = Some g ->
     g = f + PAGE_SIZE_BYTES).
Proof.
  intros Hdb.
  assert (dma_safety (info o) <> DmaUnsafe /\
          verify_dma_contiguity (dma_safety (info o)) frames = Ok tt) as [Hsafe Hver].
  { unfold MemoryObject.device_backing in Hdb.
    destruct (dma_safety (info o)) eqn:Hd; [done|..]; (split; [done|]);
      rewrite <- Hd; by eapply page_frames_verified. }
  split; [done|]. intros Hc. rewrite Hc in Hver. cbn in Hver.
  destruct (frames_are_contiguous frames) eqn:Hcon; [|done]. clear -Hcon.
  induction frames as [|f0 [|g0 rest] IH]; intros i f g Hf Hg; [done|by destruct i|].
  cbn in Hcon. apply andb_prop in Hcon as [Heq%Z.eqb_eq Hcon].
  destruct i as [|i]; [cbn in *; congruence|]. by eapply (IH Hcon i).
Qed.

Lemma device_backing_respects_policy_witness :
  exists o' mc', MemoryObject.device_backing ObjectExamples.ring ObjectExamples.machine =
      (Ok [0x1000; 0x2000], o', mc') /\ 0x2000 = 0x1000 + PAGE_SIZE_BYTES.
Proof.
  destruct (ObjectExamples.outcome_inv
    (MemoryObject.device_backing ObjectExamples.ring ObjectExamples.machine)
    (Ok [0x1000; 0x2000])) as (o' & a' & mem' & Hrun); [vm_compute; reflexivity|].
  exists o', (mkMachine (Some a') mem'). split; [exact Hrun|].
  exact (proj2 (device_backing_respects_policy ObjectExamples.ring ObjectExamples.machine
    [0x1000; 0x2000] o' (mkMachine (Some a') mem') Hrun) eq_refl 0%nat 0x1000 0x2000
    eq_refl eq_refl).
Defined.
