(* ===== verification/Task.v ===== *)
(** * Tasks and threads

    Models [kernel/core/src/task/types.rs], [task/objects.rs] and
    [task/kernel_context.rs]: the task and thread objects the scheduler and the
    out-of-memory policy work on, and the first frame of a kernel thread.
    Identifiers, instants and tokens are numbers; the methods of an object run
    under its mutex and are functions of its state. *)

From S2P Require Import Prelude Capability Pressure.
From stdpp Require Import base list gmap.
From Stdlib Require Import ZArith Lia.

#[local] Open Scope Z_scope.

Inductive TaskRole := BootstrapRoot | SystemService | DriverHost | UserService.

Inductive TaskIsolationClass := Unrestricted | Guest.

Inductive ThreadMode := KernelMode | UserMode.

Inductive ExecutionState :=
| Constructing | Runnable | Running | Blocked | Suspended | Dying.

Inductive ThreadWakeReason :=
| WakeBootstrap | WakeYield | WakeTimerExpired | WakeChannelMessage | WakePacketReady
| WakeInputReady | WakeObjectReady | WakeExplicit.

Inductive WaitTarget :=
| ChannelReceive (endpoint : Z)
| ChannelSend (endpoint : Z)
| Reply (endpoint : Z)
| PacketReceive (interface : Z)
| InputReceive (source : Z)
| WaitTimer (token deadline : Z)
| WaitObject (object : Z).

(** [user::TaskExitStatus] *)
Inductive TaskExitStatus := ExitRunning | Exited (code : Z) | Faulted (code : Z).

#[export] Instance TaskRole_eq_dec : EqDecision TaskRole.
Proof. solve_decision. Defined.
#[export] Instance ExecutionState_eq_dec : EqDecision ExecutionState.
Proof. solve_decision. Defined.
#[export] Instance ThreadWakeReason_eq_dec : EqDecision ThreadWakeReason.
Proof. solve_decision. Defined.
#[export] Instance WaitTarget_eq_dec : EqDecision WaitTarget.
Proof. solve_decision. Defined.

Record SchedulingContext := mkSchedulingContext { quantum_ticks : Z }.

Definition round_robin_default : SchedulingContext := mkSchedulingContext 1.

Record TaskDescriptor := mkTaskDescriptor {
  td_address_space : option Z;
  td_role : TaskRole;
  td_isolation : TaskIsolationClass;
  td_owner_env : option Z;
}.

Record ThreadDescriptor := mkThreadDescriptor {
  thd_mode : ThreadMode;
  thd_scheduling_context : SchedulingContext;
  thd_entry_instruction_pointer : option Z;
  thd_stack_pointer : option Z;
}.

Record TaskStateView := mkTaskStateView {
  tv_id : Z;
  tv_role : TaskRole;
  tv_address_space : option Z;
  tv_thread_count : nat;
  tv_exit_status : TaskExitStatus;
}.

Record ThreadStateView := mkThreadStateView {
  thv_id : Z;
  thv_owner : Z;
  thv_mode : ThreadMode;
  thv_scheduling_context : SchedulingContext;
  thv_execution_state : ExecutionState;
  thv_wait_target : option WaitTarget;
  thv_last_wake_reason : option ThreadWakeReason;
  thv_entry_instruction_pointer : option Z;
  thv_stack_pointer : option Z;
}.

(** ** Tasks *)

Record TaskObject := mkTaskObject {
  task_id : Z;
  capability_space : CapabilitySpaceState;
  role : TaskRole;
  address_space : option Z;
  isolation : TaskIsolationClass;
  owner_env : option Z;
  threads_of : list Z;
  exit_status : TaskExitStatus;
  reclaimable : bool;
  charged_frames : list Z;
}.

Module TaskObject.

Definition new (id : Z) (d : TaskDescriptor) : TaskObject := {|
  task_id := id;
  capability_space := CapabilitySpace.new;
  role := td_role d;
  address_space := td_address_space d;
  isolation := td_isolation d;
  owner_env := td_owner_env d;
  threads_of := [];
  exit_status := ExitRunning;
  reclaimable := negb (bool_decide (td_role d = BootstrapRoot));
  charged_frames := [];
|}.

Definition with_capability_space (t : TaskObject) (s : CapabilitySpaceState) : TaskObject :=
  mkTaskObject (task_id t) s (role t) (address_space t) (isolation t) (owner_env t)
    (threads_of t) (exit_status t) (reclaimable t) (charged_frames t).

Definition set_exit_status (t : TaskObject) (status : TaskExitStatus) : TaskObject :=
  mkTaskObject (task_id t) (capability_space t) (role t) (address_space t) (isolation t)
    (owner_env t) (threads_of t) status (reclaimable t) (charged_frames t).

Definition attach_thread (t : TaskObject) (thread : Z) : TaskObject :=
  if bool_decide (thread ∈ threads_of t) then t
  else mkTaskObject (task_id t) (capability_space t) (role t) (address_space t) (isolation t)
         (owner_env t) (threads_of t ++ [thread]) (exit_status t) (reclaimable t)
         (charged_frames t).

Definition snapshot (t : TaskObject) : TaskStateView :=
  mkTaskStateView (task_id t) (role t) (address_space t) (length (threads_of t)) (exit_status t).

Definition set_reclaimable (t : TaskObject) (r : bool) : TaskObject :=
  mkTaskObject (task_id t) (capability_space t) (role t) (address_space t) (isolation t)
    (owner_env t) (threads_of t) (exit_status t) r (charged_frames t).

Definition charge_frames (t : TaskObject) (frames : list Z) : Z * TaskObject :=
  let charged := charged_frames t ++ frames in
  (zlen charged,
   mkTaskObject (task_id t) (capability_space t) (role t) (address_space t) (isolation t)
     (owner_env t) (threads_of t) (exit_status t) (reclaimable t) charged).

Definition footprint_frames (t : TaskObject) : Z := zlen (charged_frames t).

Definition mark_oom_terminated (t : TaskObject) : list Z * TaskObject :=
  (charged_frames t,
   mkTaskObject (task_id t) (capability_space t) (role t) (address_space t) (isolation t)
     (owner_env t) (threads_of t) (Faulted OOM_EXIT_CODE) false []).

End TaskObject.

(** ** Threads *)

Record KernelContext := mkKernelContext {
  rsp : Z; rbx : Z; rbp : Z; r12 : Z; r13 : Z; r14 : Z; r15 : Z;
}.

Record ThreadObject := mkThreadObject {
  thread_id : Z;
  owner : Z;
  mode : ThreadMode;
  scheduling_context : SchedulingContext;
  execution_state : ExecutionState;
  wait_target : option WaitTarget;
  last_wake_reason : option ThreadWakeReason;
  entry_instruction_pointer : option Z;
  stack_pointer : option Z;
  kernel_context : option KernelContext;
}.

Module ThreadObject.

Definition new (id owner : Z) (d : ThreadDescriptor) : ThreadObject := {|
  thread_id := id;
  owner := owner;
  mode := thd_mode d;
  scheduling_context := thd_scheduling_context d;
  execution_state := Constructing;
  wait_target := None;
  last_wake_reason := None;
  entry_instruction_pointer := thd_entry_instruction_pointer d;
  stack_pointer := thd_stack_pointer d;
  kernel_context := None;
|}.

Definition snapshot (t : ThreadObject) : ThreadStateView :=
  mkThreadStateView (thread_id t) (owner t) (mode t) (scheduling_context t) (execution_state t)
    (wait_target t) (last_wake_reason t) (entry_instruction_pointer t) (stack_pointer t).

Definition transition_to (t : ThreadObject) (state : ExecutionState)
    (target : option WaitTarget) (reason : option ThreadWakeReason) : ThreadObject :=
  mkThreadObject (thread_id t) (owner t) (mode t) (scheduling_context t) state target reason
    (entry_instruction_pointer t) (stack_pointer t) (kernel_context t).

Definition set_kernel_context (t : ThreadObject) (context : KernelContext) : ThreadObject :=
  mkThreadObject (thread_id t) (owner t) (mode t) (scheduling_context t) (execution_state t)
    (wait_target t) (last_wake_reason t) (entry_instruction_pointer t) (stack_pointer t)
    (Some context).

End ThreadObject.

(** ** The first frame of a kernel thread *)

(** Memory as 64-bit words; [None] is the panic of a stack top below the frame. *)
Definition init_kernel_thread_context (words : gmap Z Z) (entry stack_top arg : Z) :
    option (KernelContext * gmap Z Z) :=
  if stack_top <? 24 then None
  else
    let rsp := stack_top - 24 in
    let w1 := <[stack_top - 8 := entry]> words in
    let w2 := <[stack_top - 16 := arg]> w1 in
    let w3 := <[stack_top - 24 := 0]> w2 in
    Some (mkKernelContext rsp 0 0 0 0 0 0, w3).

(** ** Properties *)

(** The initial frame of a kernel thread holds, from its stack pointer up, a
    zero frame pointer, then the argument and then the entry point: the return
    address and the argument are the other way round than the layout the
    function documents. *)
Theorem kernel_thread_frame_is_swapped words entry stack_top arg :
  24 <= stack_top ->
  exists ctx words',
    init_kernel_thread_context words entry stack_top arg = Some (ctx, words') /\
    rsp ctx = stack_top - 24 /\ words' !! rsp ctx = Some 0 /\
    words' !! (rsp ctx + 8) = Some arg /\ words' !! (rsp ctx + 16) = Some entry.
Proof.
  intros Hs. unfold init_kernel_thread_context. rewrite (proj2 (Z.ltb_ge _ _)) by lia.
  eexists _, _. split; [done|]. cbn [rsp].
  replace (stack_top - 24 + 8) with (stack_top - 16) by lia.
  replace (stack_top - 24 + 16) with (stack_top - 8) by lia.
  split_and!; [done|by rewrite lookup_insert_eq|..];
    rewrite !lookup_insert_ne by lia; by rewrite lookup_insert_eq.
Qed.

Lemma kernel_thread_frame_is_swapped_witness :
  exists ctx words', init_kernel_thread_context ∅ 0x4000 0x9000 7 = Some (ctx, words') /\
    words' !! (rsp ctx + 8) = Some 7.
Proof.
  destruct (kernel_thread_frame_is_swapped ∅ 0x4000 0x9000 7 ltac:(lia))
    as (ctx & words' & Hrun & _ & _ & Harg & _).
  exists ctx, words'. split; [exact Hrun|exact Harg].
Defined.
