(* ===== verification/Objects.v ===== *)
(** * Kernel objects and their registry

    Models [kernel/core/src/object/types.rs], [object/registry.rs] and
    [object/model.rs].  A [KernelObjectRef] is represented by the object's id;
    [ObjectStore] holds the objects that still have a strong reference, so
    upgrading a weak reference is a lookup and dropping the last strong
    reference is a deletion.  The registry holds weak references only: [live]
    is the set of ids it tracks.

    Device backends ([Arc<dyn ...>]) are opaque handles.  Registering a packet
    interface or an input source also tells the network or input core about it;
    that call is outside this model and its request is returned. *)

From S2P Require Import Prelude Capability Ring Pipe Message MemoryObject Task.
From stdpp Require Import base list gmap.
From stdpp Require Import relations.
From Stdlib Require Import ZArith Lia.

#[local] Open Scope Z_scope.

Inductive ObjectKind :=
| KTask | KThread | KChannelEndpoint | KEvent | KTimer | KMemoryObject | KBootstrapCapability
| KPacketInterface | KDisplayOutput | KInputSource | KAudioEndpoint | KBlockDevice | KPipe.

#[export] Instance ObjectKind_eq_dec : EqDecision ObjectKind.
Proof. solve_decision. Defined.

Record ObjectHeader := mkObjectHeader { hdr_id : Z; hdr_kind : ObjectKind }.

Inductive KernelObject :=
| OTask (task : TaskObject)
| OThread (thread : ThreadObject)
| OChannelEndpoint (endpoint : ChannelEndpointState)
| OEvent (event : EventState)
| OTimer (timer : TimerState)
| OMemoryObject (memory : MemoryObject)
| OBootstrapCapability
| OPacketInterface (backend : Z)
| ODisplayOutput (backend : Z)
| OInputSource (backend : Z)
| OAudioEndpoint (backend : Z)
| OBlockDevice (backend : Z)
| OPipe (pipe : PipeState).

Record KernelObjectRecord := mkKernelObjectRecord {
  header : ObjectHeader;
  body : KernelObject;
}.

Abbreviation ObjectStore := (gmap Z KernelObjectRecord).

Module KernelObjectRecord.

Definition task (r : KernelObjectRecord) : option TaskObject :=
  match body r with OTask t => Some t | _ => None end.
Definition thread (r : KernelObjectRecord) : option ThreadObject :=
  match body r with OThread t => Some t | _ => None end.
Definition channel_endpoint (r : KernelObjectRecord) : option ChannelEndpointState :=
  match body r with OChannelEndpoint e => Some e | _ => None end.
Definition event (r : KernelObjectRecord) : option EventState :=
  match body r with OEvent e => Some e | _ => None end.
Definition timer (r : KernelObjectRecord) : option TimerState :=
  match body r with OTimer t => Some t | _ => None end.
Definition memory_object (r : KernelObjectRecord) : option MemoryObject :=
  match body r with OMemoryObject m => Some m | _ => None end.
Definition pipe (r : KernelObjectRecord) : option PipeState :=
  match body r with OPipe p => Some p | _ => None end.

End KernelObjectRecord.

(** ** The registry *)

Record ObjectRegistryState := mkObjectRegistryState {
  next_id : Z;
  live : gset Z;
  creates_since_gc : Z;
}.

Record ObjectRegistrySnapshot := mkObjectRegistrySnapshot {
  snap_next_id : Z;
  snap_tracked_objects : nat;
}.

Definition GC_CREATE_INTERVAL : Z := 64.

(** [strong_count() > 0] keeps the ids still in the store. *)
Definition collect_dead_objects (s : ObjectRegistryState) (store : ObjectStore) :
    ObjectRegistryState :=
  mkObjectRegistryState (next_id s) (live s ∩ dom store) 0.

(** The registry together with the objects alive. *)
Record Objects := mkObjects {
  registry : ObjectRegistryState;
  store : ObjectStore;
}.

Module ObjectRegistry.

Definition new : ObjectRegistryState := mkObjectRegistryState 1 ∅ 0.

Definition allocate_id (o : Objects) (kind : ObjectKind) : Z * Objects :=
  let s := registry o in
  (next_id s,
   mkObjects (mkObjectRegistryState (saturating_add U64_MAX (next_id s) 1) (live s)
                (creates_since_gc s)) (store o)).

(** The new object is already strongly referenced when the collection runs. *)
Definition register (o : Objects) (object : KernelObjectRecord) : Z * Objects :=
  let id := hdr_id (header object) in
  let store' := <[id := object]> (store o) in
  let s := registry o in
  let s1 := mkObjectRegistryState (next_id s) (live s)
              (saturating_add USIZE_MAX (creates_since_gc s) 1) in
  let s2 := if GC_CREATE_INTERVAL <=? creates_since_gc s1
            then collect_dead_objects s1 store' else s1 in
  (id, mkObjects (mkObjectRegistryState (next_id s2) ({[id]} ∪ live s2) (creates_since_gc s2))
         store').

(** The shape shared by the [create_*] functions: take an id, then register. *)
Definition create (o : Objects) (kind : ObjectKind) (body : Z -> KernelObject) : Z * Objects :=
  let '(id, o1) := allocate_id o kind in
  register o1 (mkKernelObjectRecord (mkObjectHeader id kind) (body id)).

Definition create_task (o : Objects) (d : TaskDescriptor) : Z * Objects :=
  create o KTask (fun id => OTask (TaskObject.new id d)).

Definition create_bootstrap_root_task (o : Objects) : Z * Objects :=
  create_task o (mkTaskDescriptor None BootstrapRoot Unrestricted None).

(** [None] is the panic of an owner that is not a task. *)
Definition create_thread (o : Objects) (owner_task : Z) (d : ThreadDescriptor) :
    option (Z * Objects) :=
  owner ← store o !! owner_task ≫= KernelObjectRecord.task;
  let '(id, o1) := create o KThread (fun id => OThread (ThreadObject.new id (task_id owner) d)) in
  record ← store o1 !! owner_task;
  owner1 ← KernelObjectRecord.task record;
  Some (id, mkObjects (registry o1)
    (<[owner_task := mkKernelObjectRecord (header record)
                       (OTask (TaskObject.attach_thread owner1 id))]> (store o1))).

Definition create_channel_pair (o : Objects) : option (Z * Z * Objects) :=
  let '(first, o1) := create o KChannelEndpoint
                        (fun _ => OChannelEndpoint ChannelEndpointObject.new) in
  let '(second, o2) := create o1 KChannelEndpoint
                         (fun _ => OChannelEndpoint ChannelEndpointObject.new) in
  r1 ← store o2 !! first;
  e1 ← KernelObjectRecord.channel_endpoint r1;
  let s1 := <[first := mkKernelObjectRecord (header r1)
               (OChannelEndpoint (ChannelEndpointObject.connect e1 second))]> (store o2) in
  r2 ← s1 !! second;
  e2 ← KernelObjectRecord.channel_endpoint r2;
  let s2 := <[second := mkKernelObjectRecord (header r2)
               (OChannelEndpoint (ChannelEndpointObject.connect e2 first))]> s1 in
  Some (first, second, mkObjects (registry o2) s2).

Definition create_event (o : Objects) (signaled : bool) : Z * Objects :=
  create o KEvent (fun _ => OEvent (EventObject.new signaled)).

Definition create_timer (o : Objects) (deadline interval : option Z) : Z * Objects :=
  create o KTimer (fun _ => OTimer (TimerObject.new deadline interval)).

Definition create_memory_object (o : Objects) (size : Z) (writable : bool) (safety : DmaSafety) :
    Z * Objects :=
  create o KMemoryObject (fun _ => OMemoryObject (MemoryObject.new size writable safety)).

Definition create_memory_object_from_bytes (o : Objects) (bytes : list Z) : Z * Objects :=
  create o KMemoryObject (fun _ => OMemoryObject (MemoryObject.from_bytes bytes)).

Definition create_pipe (o : Objects) : Z * Objects :=
  create o KPipe (fun _ => OPipe PipeObject.new).

Definition create_bootstrap_capability (o : Objects) : Z * Objects :=
  create o KBootstrapCapability (fun _ => OBootstrapCapability).

(** With the request to [network::register_interface]. *)
Definition create_packet_interface (o : Objects) (backend : Z) : Z * Objects * (Z * Z) :=
  let '(id, o1) := create o KPacketInterface (fun _ => OPacketInterface backend) in
  (id, o1, (id, backend)).

Definition create_display_output (o : Objects) (backend : Z) : Z * Objects :=
  create o KDisplayOutput (fun _ => ODisplayOutput backend).

(** With the request to [input::register_source]. *)
Definition create_input_source (o : Objects) (backend : Z) : Z * Objects * (Z * Z) :=
  let '(id, o1) := create o KInputSource (fun _ => OInputSource backend) in
  (id, o1, (id, backend)).

Definition create_audio_endpoint (o : Objects) (backend : Z) : Z * Objects :=
  create o KAudioEndpoint (fun _ => OAudioEndpoint backend).

Definition create_block_device (o : Objects) (backend : Z) : Z * Objects :=
  create o KBlockDevice (fun _ => OBlockDevice backend).

Definition lookup (o : Objects) (id : Z) : option KernelObjectRecord :=
  if bool_decide (id ∈ live (registry o)) then store o !! id else None.

Definition collect_garbage (o : Objects) : Objects :=
  mkObjects (collect_dead_objects (registry o) (store o)) (store o).

Definition snapshot (o : Objects) : ObjectRegistrySnapshot :=
  mkObjectRegistrySnapshot (next_id (registry o)) (size (live (registry o))).

End ObjectRegistry.

(** ** The object model at boot *)

Record KernelObjectModel := mkKernelObjectModel {
  model_objects : Objects;
  bootstrap_task : Z;
  bootstrap_capability : Z;
}.

Module KernelObjectModel.

(** [None] is a panic of one of the expectations. *)
Definition new : option KernelObjectModel :=
  let o0 := mkObjects ObjectRegistry.new ∅ in
  let '(task, o1) := ObjectRegistry.create_bootstrap_root_task o0 in
  let '(cap, o2) := ObjectRegistry.create_bootstrap_capability o1 in
  record ← store o2 !! task;
  t ← KernelObjectRecord.task record;
  match CapabilitySpace.install (capability_space t) task CapabilityRights.task (Some 0) with
  | (Err _, _) => None
  | (Ok _, space) =>
      let record' := mkKernelObjectRecord (header record)
                       (OTask (TaskObject.with_capability_space t space)) in
      Some (mkKernelObjectModel (mkObjects (registry o2) (<[task := record']> (store o2))) task cap)
  end.

End KernelObjectModel.

(** ** Well-formed registries *)

Definition kind_of (b : KernelObject) : ObjectKind :=
  match b with
  | OTask _ => KTask | OThread _ => KThread | OChannelEndpoint _ => KChannelEndpoint
  | OEvent _ => KEvent | OTimer _ => KTimer | OMemoryObject _ => KMemoryObject
  | OBootstrapCapability => KBootstrapCapability | OPacketInterface _ => KPacketInterface
  | ODisplayOutput _ => KDisplayOutput | OInputSource _ => KInputSource
  | OAudioEndpoint _ => KAudioEndpoint | OBlockDevice _ => KBlockDevice | OPipe _ => KPipe
  end.

(** Every object in the store is tracked under its own id and kind. *)
Record objects_wf (o : Objects) : Prop := {
  wf_next : 0 < next_id (registry o);
  wf_store : forall id r, store o !! id = Some r ->
    header r = mkObjectHeader id (kind_of (body r)) /\ id ∈ live (registry o);
  wf_live : forall id, id ∈ live (registry o) -> id < next_id (registry o);
}.

(** What can happen to the objects: creations, changes of an object's body by
    the component it belongs to, the loss of the last strong reference, and
    collections. *)
Inductive registry_step (o : Objects) : Objects -> Prop :=
| step_create kind mk :
    (forall id, kind_of (mk id) = kind) ->
    registry_step o (ObjectRegistry.create o kind mk).2
| step_create_thread owner d id o' :
    ObjectRegistry.create_thread o owner d = Some (id, o') -> registry_step o o'
| step_create_channel_pair first second o' :
    ObjectRegistry.create_channel_pair o = Some (first, second, o') -> registry_step o o'
| step_update id r b :
    store o !! id = Some r -> kind_of b = kind_of (body r) ->
    registry_step o (mkObjects (registry o) (<[id := mkKernelObjectRecord (header r) b]> (store o)))
| step_drop id :
    registry_step o (mkObjects (registry o) (delete id (store o)))
| step_collect : registry_step o (ObjectRegistry.collect_garbage o).

Section registry.
Implicit Types (o : Objects) (id : Z).

(** What a creation does: the object is stored under the fresh id and tracked,
    and only ids of dead objects stop being tracked. *)
Lemma create_spec o kind mk :
  let id := next_id (registry o) in
  exists o', ObjectRegistry.create o kind mk = (id, o') /\
    store o' = <[id := mkKernelObjectRecord (mkObjectHeader id kind) (mk id)]> (store o) /\
    next_id (registry o') = saturating_add U64_MAX id 1 /\
    id ∈ live (registry o') /\
    (forall j, j ∈ live (registry o') -> j = id \/ j ∈ live (registry o)) /\
    (forall j, j ∈ live (registry o) -> is_Some (store o !! j) -> j ∈ live (registry o')).
Proof.
  intros id. unfold ObjectRegistry.create, ObjectRegistry.allocate_id, ObjectRegistry.register.
  eexists _. split; [done|]. cbn. destruct (GC_CREATE_INTERVAL <=? _); cbn;
    (split_and!; [done|done|set_solver|set_solver|]); [|set_solver].
  intros j Hj [r Hr]. apply elem_of_union_r, elem_of_intersection. split; [done|].
  apply elem_of_dom. destruct (decide (j = id)) as [->|].
  - rewrite lookup_insert_eq. eauto.
  - rewrite lookup_insert_ne by done. eauto.
Qed.

Lemma wf_fresh o : objects_wf o -> store o !! next_id (registry o) = None.
Proof.
  intros [_ Hst Hl]. destruct (store o !! _) as [r|] eqn:Hr; [|done].
  apply Hst in Hr as [_ Hin%Hl]. lia.
Qed.

Lemma create_wf o kind mk id o' :
  objects_wf o -> next_id (registry o) < U64_MAX -> (forall i, kind_of (mk i) = kind) ->
  ObjectRegistry.create o kind mk = (id, o') -> objects_wf o'.
Proof.
  intros Hwf Hmax Hk Hc. destruct (create_spec o kind mk) as (o1 & Hc1 & Hst & Hn & Hid & Hl & Hkeep).
  rewrite Hc in Hc1. injection Hc1 as -> <-. destruct Hwf as [Hn0 Hst0 Hl0].
  unfold saturating_add in Hn. constructor.
  - lia.
  - intros j r. rewrite Hst. destruct (decide (j = next_id (registry o))) as [->|Hne].
    + rewrite lookup_insert_eq. intros [= <-]. cbn. by rewrite Hk.
    + rewrite lookup_insert_ne by done. intros Hr. destruct (Hst0 _ _ Hr). eauto.
  - intros j [->|Hj]%Hl; [lia|]. apply Hl0 in Hj. lia.
Qed.

(** Replacing the body of a stored object. *)
Lemma update_wf o id r b :
  objects_wf o -> store o !! id = Some r -> kind_of b = kind_of (body r) ->
  objects_wf (mkObjects (registry o) (<[id := mkKernelObjectRecord (header r) b]> (store o))).
Proof.
  intros [Hn Hst Hl] Hr Hb. constructor; cbn; [done| |done]. intros j r'.
  destruct (decide (j = id)) as [->|]; [|rewrite lookup_insert_ne by done; apply Hst].
  rewrite lookup_insert_eq. intros [= <-]. apply Hst in Hr as [Hh Hin]. cbn.
  by rewrite Hh, Hb.
Qed.

Lemma task_body r t : KernelObjectRecord.task r = Some t -> body r = OTask t.
Proof. unfold KernelObjectRecord.task. destruct (body r); congruence. Qed.

Lemma endpoint_body r e :
  KernelObjectRecord.channel_endpoint r = Some e -> body r = OChannelEndpoint e.
Proof. unfold KernelObjectRecord.channel_endpoint. destruct (body r); congruence. Qed.

(** A thread creation is a creation followed by an update of the owner. *)
Lemma create_thread_inv o owner d id o' :
  ObjectRegistry.create_thread o owner d = Some (id, o') ->
  exists o1 r t mk, ObjectRegistry.create o KThread mk = (id, o1) /\
    (forall i, kind_of (mk i) = KThread) /\ store o1 !! owner = Some r /\ body r = OTask t /\
    o' = mkObjects (registry o1) (<[owner := mkKernelObjectRecord (header r)
           (OTask (TaskObject.attach_thread t id))]> (store o1)).
Proof.
  unfold ObjectRegistry.create_thread. intros (t0 & _ & Hc)%bind_Some.
  destruct (ObjectRegistry.create _ _ _) as [i o1] eqn:Hcr.
  apply bind_Some in Hc as (r & Hr & (t & Ht & [= <- <-])%bind_Some).
  exists o1, r, t, (fun id => OThread (ThreadObject.new id (task_id t0) d)).
  split_and!; [done|done|done|by apply task_body|done].
Qed.

(** A pair creation is two creations followed by an update of each endpoint. *)
Lemma create_channel_pair_inv o first second o' :
  ObjectRegistry.create_channel_pair o = Some (first, second, o') ->
  let mk := fun _ => OChannelEndpoint ChannelEndpointObject.new in
  exists o1 o2 r1 e1 r2 e2,
    ObjectRegistry.create o KChannelEndpoint mk = (first, o1) /\
    ObjectRegistry.create o1 KChannelEndpoint mk = (second, o2) /\
    store o2 !! first = Some r1 /\ body r1 = OChannelEndpoint e1 /\
    let s1 := <[first := mkKernelObjectRecord (header r1)
                 (OChannelEndpoint (ChannelEndpointObject.connect e1 second))]> (store o2) in
    s1 !! second = Some r2 /\ body r2 = OChannelEndpoint e2 /\
    o' = mkObjects (registry o2) (<[second := mkKernelObjectRecord (header r2)
           (OChannelEndpoint (ChannelEndpointObject.connect e2 first))]> s1).
Proof.
  intros Hc mk. unfold ObjectRegistry.create_channel_pair in Hc.
  destruct (ObjectRegistry.create o _ _) as [f o1] eqn:H1.
  destruct (ObjectRegistry.create o1 _ _) as [s o2] eqn:H2.
  apply bind_Some in Hc as (r1 & Hr1 & (e1 & He1 & Hc)%bind_Some).
  apply bind_Some in Hc as (r2 & Hr2 & (e2 & He2 & [= <- <- <-])%bind_Some).
  exists o1, o2, r1, e1, r2, e2. split_and!; [done|done|done|by apply endpoint_body|].
  split_and!; [done|by apply endpoint_body|done].
Qed.

Lemma step_next_mono o o' :
  registry_step o o' -> next_id (registry o) <= U64_MAX ->
  next_id (registry o) <= next_id (registry o') <= U64_MAX.
Proof.
  assert (forall o kind mk id o1, ObjectRegistry.create o kind mk = (id, o1) ->
    next_id (registry o) <= U64_MAX ->
    next_id (registry o) <= next_id (registry o1) <= U64_MAX) as Hcr.
  { intros oo kind mk id o1 Hc Hm. destruct (create_spec oo kind mk) as (o2 & Hc2 & _ & Hn & _).
    rewrite Hc in Hc2. injection Hc2 as -> <-. unfold saturating_add in Hn. lia. }
  intros Hstep Hm. destruct Hstep as [kind mk _|owner d id o' Hc|f s o' Hc|id r b _ _|id|];
    [|apply create_thread_inv in Hc as (o1 & r & t & mk & Hc & _ & _ & _ & ->)
     |apply create_channel_pair_inv in Hc
        as (o1 & o2 & r1 & e1 & r2 & e2 & Hc1 & Hc2 & _ & _ & _ & _ & ->)|cbn; lia..].
  - destruct (ObjectRegistry.create o kind mk) eqn:Hc. by eapply Hcr.
  - cbn. by eapply Hcr.
  - cbn. pose proof (Hcr _ _ _ _ _ Hc1 Hm). pose proof (Hcr _ _ _ _ _ Hc2 ltac:(lia)). lia.
Qed.

Lemma registry_step_wf o o' :
  objects_wf o -> next_id (registry o) <= U64_MAX -> next_id (registry o') < U64_MAX ->
  registry_step o o' -> objects_wf o'.
Proof.
  intros Hwf Hm Hm' Hstep. pose proof (step_next_mono _ _ Hstep Hm) as Hmono.
  destruct Hstep as [kind mk Hk|owner d id o' Hc|f s o' Hc|id r b Hr Hb|id|].
  - destruct (ObjectRegistry.create o kind mk) eqn:Hc. eapply create_wf; [..|done]; [done|lia|done].
  - apply create_thread_inv in Hc as (o1 & r & t & mk & Hc & Hk & Hr & Hb & ->).
    apply update_wf; [|done|by rewrite Hb]. eapply create_wf; [..|done]; [done|cbn in *; lia|done].
  - apply create_channel_pair_inv in Hc
      as (o1 & o2 & r1 & e1 & r2 & e2 & Hc1 & Hc2 & Hr1 & Hb1 & Hr2 & Hb2 & ->).
    assert (next_id (registry o1) < U64_MAX) as Hn1.
    { destruct (create_spec o1 KChannelEndpoint (fun _ => OChannelEndpoint ChannelEndpointObject.new))
        as (o3 & Hc3 & _ & Hn & _). rewrite Hc2 in Hc3. injection Hc3 as -> <-.
      cbn in *. unfold saturating_add in Hn. lia. }
    assert (objects_wf o1) as Hwf1 by (eapply create_wf; [..|done]; [done|cbn in *; lia|done]).
    assert (objects_wf o2) as Hwf2 by (eapply create_wf; [..|done]; [done|done|done]).
    pose proof (update_wf o2 f r1 _ Hwf2 Hr1 (eq_trans (y := KChannelEndpoint) eq_refl
      (eq_sym (f_equal kind_of Hb1)) : kind_of (OChannelEndpoint
        (ChannelEndpointObject.connect e1 s)) = kind_of (body r1))) as Hwf3.
    by apply (update_wf _ s r2 (OChannelEndpoint (ChannelEndpointObject.connect e2 f))) in Hwf3;
      [|done|rewrite Hb2].
  - by apply update_wf.
  - destruct Hwf as [Hn Hst Hl]. constructor; cbn; [done| |done].
    intros j r Hr. apply lookup_delete_Some in Hr as [_ Hr]. eauto.
  - destruct Hwf as [Hn Hst Hl]. constructor; cbn; [done| |set_solver].
    intros j r Hr. destruct (Hst _ _ Hr) as [Hh Hin]. split; [done|].
    apply elem_of_intersection. split; [done|]. apply elem_of_dom. eauto.
Qed.

Lemma registry_reach_wf o o' :
  rtc registry_step o o' -> objects_wf o -> next_id (registry o') < U64_MAX ->
  next_id (registry o) <= U64_MAX ->
  objects_wf o' /\ next_id (registry o) <= next_id (registry o').
Proof.
  induction 1 as [o|o o1 o2 Hstep Hrest IH]; intros Hwf Hmax Hm; [split; [done|lia]|].
  pose proof (step_next_mono _ _ Hstep Hm).
  assert (next_id (registry o1) <= next_id (registry o2)) as Hle.
  { clear -Hrest H. assert (next_id (registry o1) <= U64_MAX) as Hm by lia. clear H.
    induction Hrest as [|a b c Hs _ IH]; [lia|]. pose proof (step_next_mono _ _ Hs Hm).
    specialize (IH ltac:(lia)). lia. }
  assert (objects_wf o1) as Hwf1 by (eapply registry_step_wf; [..|exact Hstep]; [done|done|lia]).
  destruct (IH Hwf1 Hmax ltac:(lia)). split; [done|lia].
Qed.

Lemma lookup_exact o id : objects_wf o -> ObjectRegistry.lookup o id = store o !! id.
Proof.
  intros [_ Hst _]. unfold ObjectRegistry.lookup. case_bool_decide as Hin; [done|].
  destruct (store o !! id) as [r|] eqn:Hr; [|done]. by apply Hst in Hr as [_ ?].
Qed.

(** An id below the next one that is not in the store is never stored again. *)
Definition dead (o : Objects) (id : Z) : Prop :=
  next_id (registry o) <= U64_MAX /\ id < next_id (registry o) /\ store o !! id = None.

Lemma create_dead o kind mk i o' id :
  ObjectRegistry.create o kind mk = (i, o') -> dead o id -> dead o' id.
Proof.
  intros Hc (Hm & Hlt & Hn). destruct (create_spec o kind mk) as (o2 & Hc2 & Hst & Hn2 & _).
  rewrite Hc in Hc2. injection Hc2 as -> <-. unfold saturating_add, dead in *.
  rewrite Hst, lookup_insert_ne by lia. split_and!; [lia|lia|done].
Qed.

Lemma update_dead o i (r r' : KernelObjectRecord) id :
  store o !! i = Some r -> dead o id -> dead (mkObjects (registry o) (<[i := r']> (store o))) id.
Proof.
  intros Hr (Hm & Hlt & Hn). split_and!; [done|done|]. cbn.
  rewrite lookup_insert_ne; [done|congruence].
Qed.

Lemma step_dead o o' id : registry_step o o' -> dead o id -> dead o' id.
Proof.
  intros Hstep Hd. destruct Hstep as [kind mk _|owner d i o' Hc|f s o' Hc|i r b Hr Hb|i|].
  - destruct (ObjectRegistry.create o kind mk) eqn:Hc. by eapply create_dead.
  - apply create_thread_inv in Hc as (o1 & r & t & mk & Hc & _ & Hr & _ & ->).
    eapply update_dead; [done|]. by eapply create_dead.
  - apply create_channel_pair_inv in Hc
      as (o1 & o2 & r1 & e1 & r2 & e2 & Hc1 & Hc2 & Hr1 & _ & Hr2 & _ & ->).
    eapply (update_dead (mkObjects (registry o2) _)); [exact Hr2|].
    eapply (update_dead o2); [done|]. eapply create_dead; [done|]. by eapply create_dead.
  - by eapply update_dead.
  - destruct Hd as (Hm & Hlt & Hn). split_and!; [done|done|]. cbn.
    apply lookup_delete_None. by right.
  - exact Hd.
Qed.

End registry.

(** ** Examples *)

Module RegistryExamples.

Definition empty : Objects := mkObjects ObjectRegistry.new ∅.

Lemma empty_wf : objects_wf empty.
Proof. constructor; cbn; [lia|set_solver|set_solver]. Qed.

(** An event is created, its last reference dropped, then a pipe is created. *)
Definition with_event : Objects := (ObjectRegistry.create_event empty false).2.
Definition without_event : Objects := mkObjects (registry with_event) (delete 1 (store with_event)).
Definition with_pipe : Objects := (ObjectRegistry.create_pipe without_event).2.

Lemma empty_to_with_event : rtc registry_step empty with_event.
Proof. apply rtc_once. by apply (step_create empty KEvent). Qed.

Lemma with_event_to_with_pipe : rtc registry_step without_event with_pipe.
Proof. apply rtc_once. by apply (step_create without_event KPipe). Qed.

Definition kernel_thread : ThreadDescriptor :=
  mkThreadDescriptor KernelMode round_robin_default None None.

End RegistryExamples.

(** ** Properties *)

(** Over any sequence of creations, updates, drops and collections, looking
    an id up in the registry finds exactly the object alive under that id, with
    that id and its kind in the header, until the id space is exhausted; a
    collection changes no lookup and leaves exactly the live objects tracked. *)
Theorem registry_lookup_exact o :
  rtc registry_step (mkObjects ObjectRegistry.new ∅) o -> next_id (registry o) < U64_MAX ->
  (forall id, ObjectRegistry.lookup o id = store o !! id) /\
  (forall id r, store o !! id = Some r -> header r = mkObjectHeader id (kind_of (body r))) /\
  (forall id, ObjectRegistry.lookup (ObjectRegistry.collect_garbage o) id =
              ObjectRegistry.lookup o id) /\
  live (registry (ObjectRegistry.collect_garbage o)) = dom (store o).
Proof.
  intros Hrun Hmax.
  destruct (registry_reach_wf _ _ Hrun RegistryExamples.empty_wf Hmax ltac:(done)) as [Hwf _].
  assert (objects_wf (ObjectRegistry.collect_garbage o)) as Hwf'.
  { apply (registry_step_wf o); [done|lia|done|constructor]. }
  split_and!.
  - intros id. by apply lookup_exact.
  - intros id r Hr. by apply (wf_store _ Hwf).
  - intros id. by rewrite !lookup_exact.
  - cbn. apply set_eq. intros id. rewrite elem_of_intersection, elem_of_dom.
    split; [by intros [_ ?]|]. intros [r Hr]. split; [|eauto]. by apply (wf_store _ Hwf) in Hr as [_ ?].
Qed.

Lemma registry_lookup_exact_witness :
  ObjectRegistry.lookup RegistryExamples.with_event 1 = store RegistryExamples.with_event !! 1.
Proof.
  exact (proj1 (registry_lookup_exact RegistryExamples.with_event
    RegistryExamples.empty_to_with_event ltac:(vm_compute; reflexivity)) 1).
Defined.

(** An id whose object died is never given to another object: a stale weak
    reference can only fail to upgrade, whatever is created afterwards. *)
Theorem dead_id_never_reused o o' id :
  rtc registry_step o o' -> next_id (registry o) <= U64_MAX ->
  id < next_id (registry o) -> store o !! id = None ->
  store o' !! id = None /\ ObjectRegistry.lookup o' id = None.
Proof.
  intros Hrun Hm Hlt Hn. assert (dead o' id) as (_ & _ & Hd).
  { assert (dead o id) as Hdead by done. clear Hm Hlt Hn.
    induction Hrun as [|o o1 o2 Hs _ IH]; [done|]. apply IH. by eapply step_dead. }
  split; [done|]. unfold ObjectRegistry.lookup. by case_bool_decide.
Qed.

Lemma dead_id_never_reused_witness :
  store RegistryExamples.with_pipe !! 1 = None.
Proof.
  exact (proj1 (dead_id_never_reused RegistryExamples.without_event RegistryExamples.with_pipe 1
    RegistryExamples.with_event_to_with_pipe ltac:(vm_compute; discriminate)
    ltac:(vm_compute; reflexivity) eq_refl)).
Defined.

(** Creating a channel never fails and yields two fresh endpoints, each the
    other's peer, with empty queues, leaving every other object as it was. *)
Theorem channel_pair_is_connected o :
  objects_wf o -> next_id (registry o) + 1 < U64_MAX ->
  exists first second o', ObjectRegistry.create_channel_pair o = Some (first, second, o') /\
    first <> second /\ store o !! first = None /\ store o !! second = None /\
    store o' !! first = Some (mkKernelObjectRecord (mkObjectHeader first KChannelEndpoint)
      (OChannelEndpoint (mkChannelEndpointState (Some second) MessageQueue.new))) /\
    store o' !! second = Some (mkKernelObjectRecord (mkObjectHeader second KChannelEndpoint)
      (OChannelEndpoint (mkChannelEndpointState (Some first) MessageQueue.new))) /\
    (forall id, id <> first -> id <> second -> store o' !! id = store o !! id).
Proof.
  intros Hwf Hmax. set (mk := fun _ : Z => OChannelEndpoint ChannelEndpointObject.new).
  destruct (create_spec o KChannelEndpoint mk) as (o1 & Hc1 & Hst1 & Hn1 & _).
  destruct (create_spec o1 KChannelEndpoint mk) as (o2 & Hc2 & Hst2 & Hn2 & _).
  assert (objects_wf o1) as Hwf1 by (eapply create_wf; [..|exact Hc1]; [done|lia|done]).
  unfold saturating_add in *. set (f := next_id (registry o)) in *.
  set (s := next_id (registry o1)) in *. assert (s = f + 1) as Hs by lia.
  pose proof (wf_fresh _ Hwf) as Hf0. pose proof (wf_fresh _ Hwf1) as Hs0. fold f in Hf0. fold s in Hs0.
  exists f, s. unfold ObjectRegistry.create_channel_pair. fold mk. rewrite Hc1, Hc2, Hst2, Hst1.
  rewrite lookup_insert_ne, lookup_insert_eq by lia. cbn [mbind option_bind KernelObjectRecord.channel_endpoint body mk].
  rewrite lookup_insert_ne, lookup_insert_eq by lia. cbn [mbind option_bind KernelObjectRecord.channel_endpoint body].
  eexists. split; [done|]. cbn [store]. split_and!.
  - lia.
  - done.
  - rewrite Hst1, lookup_insert_ne in Hs0 by lia. done.
  - rewrite lookup_insert_ne, lookup_insert_eq by lia. done.
  - by rewrite lookup_insert_eq.
  - intros id Hi1 Hi2. by rewrite !lookup_insert_ne by done.
Qed.

Lemma channel_pair_is_connected_witness :
  exists first second o',
    ObjectRegistry.create_channel_pair RegistryExamples.empty = Some (first, second, o').
Proof.
  destruct (channel_pair_is_connected RegistryExamples.empty RegistryExamples.empty_wf
    ltac:(vm_compute; reflexivity)) as (f & s & o' & Hc & _).
  exists f, s, o'. exact Hc.
Defined.
