(* ===== verification/SchedTypes.v ===== *)
(** * Scheduler state

    The state of [kernel/core/src/task/scheduler.rs] and the monad its
    operations are written in.  [Sys] is what they touch: the scheduler's own
    state, the kernel objects (threads live in them and are shared with the
    rest of the kernel), the time manager and the wakeup latches of the input
    sources.  Each operation runs under the scheduler's lock and is one atomic
    function; [None] is a panic. *)

From S2P Require Import Prelude Time Task Objects.
From stdpp Require Import base list gmap.
From Stdlib Require Import ZArith Lia.

#[local] Open Scope Z_scope.

Inductive ScheduleTrigger :=
| TBootstrap | TYield | TBlocked | TTimeWake | TIpcWake | TNetworkWake | TInputWake | TObjectWake
| TExplicit.

Record ScheduleDecision := mkScheduleDecision {
  trigger : ScheduleTrigger;
  previous : option Z;
  next : option Z;
  runnable_threads : nat;
  blocked_threads : nat;
}.

Inductive SchedulerError :=
| InvalidThread | ThreadAlreadyRegistered | TimeUnavailable | WakeTokenExhausted
| TimerFailed (error : TimerError).

Record SchedulerSnapshot := mkSchedulerSnapshot {
  ss_current : option Z;
  ss_tracked_threads : nat;
  ss_runnable_threads : nat;
  ss_blocked_threads : nat;
  ss_timer_waits : nat;
  ss_channel_receive_waits : nat;
  ss_packet_receive_waits : nat;
  ss_input_receive_waits : nat;
  ss_object_waits : nat;
  ss_context_switches : Z;
  ss_preemption_pending : bool;
  ss_stolen_threads_total : Z;
  ss_rebalance_moves_total : Z;
}.

Definition RUNNABLE_QUEUE_CPUS : nat := 8.
Definition STEAL_BATCH_MAX : nat := 2.
Definition STEAL_MIN_IDLE_TICKS : Z := 3.
Definition BALANCE_PERIOD_TICKS : Z := 64.
Definition BALANCE_OVERCOMMIT_RATIO : nat := 2.
Definition STEAL_STATS_PERIOD_TICKS : Z := 512.

Record StealStatsLine := mkStealStatsLine {
  sl_tick : Z;
  sl_steal_attempts : Z;
  sl_stolen_threads_total : Z;
  sl_stolen_per_cpu : list Z;
  sl_rebalance_moves : Z;
  sl_queue_depths : list nat;
}.

(** A [ThreadRecord] is the reference to the thread's object. *)
Record SchedulerState := mkSchedulerState {
  current : option Z;
  runnable_queues : list (list Z);
  queued_idle_ticks : gmap Z Z;
  stolen_per_cpu : list Z;
  steal_attempts : Z;
  rebalance_moves : Z;
  tick_counter : Z;
  steal_scan_cursor : list nat;
  threads : gmap Z Z;
  waiting_timers : gmap Z Z;
  waiting_receivers : gmap Z (list Z);
  waiting_packets : gmap Z (list Z);
  waiting_inputs : gmap Z (list Z);
  waiting_objects : gmap Z (list Z);
  next_wake_token : Z;
  context_switches : Z;
  ticks_remaining : Z;
  preemption_pending : bool;
}.

Definition set_current (s : SchedulerState) (x : option Z) : SchedulerState :=
  mkSchedulerState x (runnable_queues s) (queued_idle_ticks s) (stolen_per_cpu s)
    (steal_attempts s) (rebalance_moves s) (tick_counter s) (steal_scan_cursor s) (threads s)
    (waiting_timers s) (waiting_receivers s) (waiting_packets s) (waiting_inputs s)
    (waiting_objects s) (next_wake_token s) (context_switches s) (ticks_remaining s)
    (preemption_pending s).
Definition set_runnable_queues (s : SchedulerState) (x : list (list Z)) : SchedulerState :=
  mkSchedulerState (current s) x (queued_idle_ticks s) (stolen_per_cpu s) (steal_attempts s)
    (rebalance_moves s) (tick_counter s) (steal_scan_cursor s) (threads s) (waiting_timers s)
    (waiting_receivers s) (waiting_packets s) (waiting_inputs s) (waiting_objects s)
    (next_wake_token s) (context_switches s) (ticks_remaining s) (preemption_pending s).
Definition set_queued_idle_ticks (s : SchedulerState) (x : gmap Z Z) : SchedulerState :=
  mkSchedulerState (current s) (runnable_queues s) x (stolen_per_cpu s) (steal_attempts s)
    (rebalance_moves s) (tick_counter s) (steal_scan_cursor s) (threads s) (waiting_timers s)
    (waiting_receivers s) (waiting_packets s) (waiting_inputs s) (waiting_objects s)
    (next_wake_token s) (context_switches s) (ticks_remaining s) (preemption_pending s).
Definition set_stolen_per_cpu (s : SchedulerState) (x : list Z) : SchedulerState :=
  mkSchedulerState (current s) (runnable_queues s) (queued_idle_ticks s) x (steal_attempts
    s) (rebalance_moves s) (tick_counter s) (steal_scan_cursor s) (threads s) (waiting_timers
    s) (waiting_receivers s) (waiting_packets s) (waiting_inputs s) (waiting_objects s)
    (next_wake_token s) (context_switches s) (ticks_remaining s) (preemption_pending s).
Definition set_steal_attempts (s : SchedulerState) (x : Z) : SchedulerState :=
  mkSchedulerState (current s) (runnable_queues s) (queued_idle_ticks s) (stolen_per_cpu s)
    x (rebalance_moves s) (tick_counter s) (steal_scan_cursor s) (threads s) (waiting_timers
    s) (waiting_receivers s) (waiting_packets s) (waiting_inputs s) (waiting_objects s)
    (next_wake_token s) (context_switches s) (ticks_remaining s) (preemption_pending s).
Definition set_rebalance_moves (s : SchedulerState) (x : Z) : SchedulerState :=
  mkSchedulerState (current s) (runnable_queues s) (queued_idle_ticks s) (stolen_per_cpu s)
    (steal_attempts s) x (tick_counter s) (steal_scan_cursor s) (threads s) (waiting_timers s)
    (waiting_receivers s) (waiting_packets s) (waiting_inputs s) (waiting_objects s)
    (next_wake_token s) (context_switches s) (ticks_remaining s) (preemption_pending s).
Definition set_tick_counter (s : SchedulerState) (x : Z) : SchedulerState :=
  mkSchedulerState (current s) (runnable_queues s) (queued_idle_ticks s) (stolen_per_cpu s)
    (steal_attempts s) (rebalance_moves s) x (steal_scan_cursor s) (threads s) (waiting_timers
    s) (waiting_receivers s) (waiting_packets s) (waiting_inputs s) (waiting_objects s)
    (next_wake_token s) (context_switches s) (ticks_remaining s) (preemption_pending s).
Definition set_steal_scan_cursor (s : SchedulerState) (x : list nat) : SchedulerState :=
  mkSchedulerState (current s) (runnable_queues s) (queued_idle_ticks s) (stolen_per_cpu s)
    (steal_attempts s) (rebalance_moves s) (tick_counter s) x (threads s) (waiting_timers s)
    (waiting_receivers s) (waiting_packets s) (waiting_inputs s) (waiting_objects s)
    (next_wake_token s) (context_switches s) (ticks_remaining s) (preemption_pending s).
Definition set_threads (s : SchedulerState) (x : gmap Z Z) : SchedulerState :=
  mkSchedulerState (current s) (runnable_queues s) (queued_idle_ticks s) (stolen_per_cpu s)
    (steal_attempts s) (rebalance_moves s) (tick_counter s) (steal_scan_cursor s) x
    (waiting_timers s) (waiting_receivers s) (waiting_packets s) (waiting_inputs s)
    (waiting_objects s) (next_wake_token s) (context_switches s) (ticks_remaining s)
    (preemption_pending s).
Definition set_waiting_timers (s : SchedulerState) (x : gmap Z Z) : SchedulerState :=
  mkSchedulerState (current s) (runnable_queues s) (queued_idle_ticks s) (stolen_per_cpu s)
    (steal_attempts s) (rebalance_moves s) (tick_counter s) (steal_scan_cursor s) (threads s)
    x (waiting_receivers s) (waiting_packets s) (waiting_inputs s) (waiting_objects s)
    (next_wake_token s) (context_switches s) (ticks_remaining s) (preemption_pending s).
Definition set_waiting_receivers (s : SchedulerState) (x : gmap Z (list Z)) : SchedulerState :=
  mkSchedulerState (current s) (runnable_queues s) (queued_idle_ticks s) (stolen_per_cpu s)
    (steal_attempts s) (rebalance_moves s) (tick_counter s) (steal_scan_cursor s) (threads s)
    (waiting_timers s) x (waiting_packets s) (waiting_inputs s) (waiting_objects s)
    (next_wake_token s) (context_switches s) (ticks_remaining s) (preemption_pending s).
Definition set_waiting_packets (s : SchedulerState) (x : gmap Z (list Z)) : SchedulerState :=
  mkSchedulerState (current s) (runnable_queues s) (queued_idle_ticks s) (stolen_per_cpu s)
    (steal_attempts s) (rebalance_moves s) (tick_counter s) (steal_scan_cursor s) (threads s)
    (waiting_timers s) (waiting_receivers s) x (waiting_inputs s) (waiting_objects s)
    (next_wake_token s) (context_switches s) (ticks_remaining s) (preemption_pending s).
Definition set_waiting_inputs (s : SchedulerState) (x : gmap Z (list Z)) : SchedulerState :=
  mkSchedulerState (current s) (runnable_queues s) (queued_idle_ticks s) (stolen_per_cpu s)
    (steal_attempts s) (rebalance_moves s) (tick_counter s) (steal_scan_cursor s) (threads s)
    (waiting_timers s) (waiting_receivers s) (waiting_packets s) x (waiting_objects s)
    (next_wake_token s) (context_switches s) (ticks_remaining s) (preemption_pending s).
Definition set_waiting_objects (s : SchedulerState) (x : gmap Z (list Z)) : SchedulerState :=
  mkSchedulerState (current s) (runnable_queues s) (queued_idle_ticks s) (stolen_per_cpu s)
    (steal_attempts s) (rebalance_moves s) (tick_counter s) (steal_scan_cursor s) (threads s)
    (waiting_timers s) (waiting_receivers s) (waiting_packets s) (waiting_inputs s) x
    (next_wake_token s) (context_switches s) (ticks_remaining s) (preemption_pending s).
Definition set_next_wake_token (s : SchedulerState) (x : Z) : SchedulerState :=
  mkSchedulerState (current s) (runnable_queues s) (queued_idle_ticks s) (stolen_per_cpu s)
    (steal_attempts s) (rebalance_moves s) (tick_counter s) (steal_scan_cursor s) (threads s)
    (waiting_timers s) (waiting_receivers s) (waiting_packets s) (waiting_inputs s)
    (waiting_objects s) x (context_switches s) (ticks_remaining s) (preemption_pending s).
Definition set_context_switches (s : SchedulerState) (x : Z) : SchedulerState :=
  mkSchedulerState (current s) (runnable_queues s) (queued_idle_ticks s) (stolen_per_cpu s)
    (steal_attempts s) (rebalance_moves s) (tick_counter s) (steal_scan_cursor s) (threads s)
    (waiting_timers s) (waiting_receivers s) (waiting_packets s) (waiting_inputs s)
    (waiting_objects s) (next_wake_token s) x (ticks_remaining s) (preemption_pending s).
Definition set_ticks_remaining (s : SchedulerState) (x : Z) : SchedulerState :=
  mkSchedulerState (current s) (runnable_queues s) (queued_idle_ticks s) (stolen_per_cpu s)
    (steal_attempts s) (rebalance_moves s) (tick_counter s) (steal_scan_cursor s) (threads s)
    (waiting_timers s) (waiting_receivers s) (waiting_packets s) (waiting_inputs s)
    (waiting_objects s) (next_wake_token s) (context_switches s) x (preemption_pending s).
Definition set_preemption_pending (s : SchedulerState) (x : bool) : SchedulerState :=
  mkSchedulerState (current s) (runnable_queues s) (queued_idle_ticks s) (stolen_per_cpu s)
    (steal_attempts s) (rebalance_moves s) (tick_counter s) (steal_scan_cursor s) (threads s)
    (waiting_timers s) (waiting_receivers s) (waiting_packets s) (waiting_inputs s)
    (waiting_objects s) (next_wake_token s) (context_switches s) (ticks_remaining s) x.

(** The four maps of waiting threads. *)
Inductive WaitQueue := Receivers | Packets | Inputs | ObjectWaiters.

#[export] Instance WaitQueue_eq_dec : EqDecision WaitQueue.
Proof. solve_decision. Defined.

Definition wait_map (q : WaitQueue) (s : SchedulerState) : gmap Z (list Z) :=
  match q with
  | Receivers => waiting_receivers s
  | Packets => waiting_packets s
  | Inputs => waiting_inputs s
  | ObjectWaiters => waiting_objects s
  end.

Definition set_wait_map (q : WaitQueue) (s : SchedulerState) (m : gmap Z (list Z)) :
    SchedulerState :=
  match q with
  | Receivers => set_waiting_receivers s m
  | Packets => set_waiting_packets s m
  | Inputs => set_waiting_inputs s m
  | ObjectWaiters => set_waiting_objects s m
  end.

(** ** What the scheduler runs against *)

Record Sys := mkSys {
  sched : SchedulerState;
  objs : ObjectStore;
  clock : option TimeState;
  latches : gmap Z bool;
}.

(** The hooks the platform registers: the calling CPU, the number of CPUs
    taking part in balancing, and whether a statistics sink is present. *)
Record Hooks := mkHooks {
  current_cpu_hook : option nat;
  balancing_cpu_count : nat;
  steal_stats_emitter : bool;
}.

Definition register_balancing_cpu_count (h : Hooks) (count : nat) : Hooks :=
  mkHooks (current_cpu_hook h) (Nat.min (Nat.max count 1) RUNNABLE_QUEUE_CPUS)
    (steal_stats_emitter h).

Definition register_steal_stats_emitter (h : Hooks) : Hooks :=
  mkHooks (current_cpu_hook h) (balancing_cpu_count h) true.

Definition register_current_cpu_hook (h : Hooks) (cpu : nat) : Hooks :=
  mkHooks (Some cpu) (balancing_cpu_count h) (steal_stats_emitter h).

Definition current_cpu_index (h : Hooks) : nat :=
  match current_cpu_hook h with
  | None => 0
  | Some cpu => cpu mod RUNNABLE_QUEUE_CPUS
  end.

(** ** The monad *)

Definition K (A : Type) : Type := Sys -> option (A * Sys).

#[export] Instance K_ret : MRet K := fun A a w => Some (a, w).
#[export] Instance K_bind : MBind K := fun A B f m w =>
  match m w with Some (a, w') => f a w' | None => None end.

Definition get : K SchedulerState := fun w => Some (sched w, w).
Definition modify (f : SchedulerState -> SchedulerState) : K unit :=
  fun w => Some (tt, mkSys (f (sched w)) (objs w) (clock w) (latches w)).
Definition panic {A : Type} : K A := fun _ => None.

(** The question-mark operator: an error is the result of the whole function. *)
Definition try_bind {A B E : Type} (m : K (result A E)) (f : A -> K (result B E)) :
    K (result B E) :=
  r ← m; match r with Ok a => f a | Err e => mret (Err e) end.

Declare Scope sched_scope.
Delimit Scope sched_scope with sched.
Notation "x ←? m ; k" := (try_bind m (fun x => k))
  (at level 20, m at level 100, k at level 200, right associativity) : sched_scope.

(** Total correctness: the operation does not panic and its result and final
    state satisfy [Q]. *)
Definition wp {A : Type} (m : K A) (Q : A -> Sys -> Prop) (w : Sys) : Prop :=
  match m w with Some (a, w') => Q a w' | None => False end.

Lemma wp_bind {A B : Type} (m : K A) (f : A -> K B) Q w :
  wp (m ≫= f) Q w <-> wp m (fun a => wp (f a) Q) w.
Proof. unfold wp, mbind, K_bind. by destruct (m w) as [[a w']|]. Qed.

Lemma wp_try {A B E : Type} (m : K (result A E)) (f : A -> K (result B E)) Q w :
  wp (try_bind m f) Q w <->
  wp m (fun r w' => match r with Ok a => wp (f a) Q w' | Err e => Q (Err e) w' end) w.
Proof.
  unfold try_bind. rewrite wp_bind. unfold wp. destruct (m w) as [[[a|e] w']|]; done.
Qed.

Lemma wp_ret {A : Type} (a : A) Q w : wp (mret a) Q w <-> Q a w.
Proof. done. Qed.

Lemma wp_get Q w : wp get Q w <-> Q (sched w) w.
Proof. done. Qed.

Lemma wp_modify f Q w :
  wp (modify f) Q w <-> Q tt (mkSys (f (sched w)) (objs w) (clock w) (latches w)).
Proof. done. Qed.

Lemma wp_mono {A : Type} (m : K A) (Q Q' : A -> Sys -> Prop) w :
  wp m Q w -> (forall a w', Q a w' -> Q' a w') -> wp m Q' w.
Proof. unfold wp. intros Hm HQ. destruct (m w) as [[a w']|]; [by apply HQ|done]. Qed.

Lemma wp_run {A : Type} (m : K A) Q w :
  wp m Q w <-> exists a w', m w = Some (a, w') /\ Q a w'.
Proof.
  unfold wp. destruct (m w) as [[a w']|]; split; [eauto|by intros (? & ? & [= <- <-] & ?)|done|].
  by intros (? & ? & ? & _).
Qed.

Create Rewrite HintDb wp.
#[export] Hint Rewrite @wp_bind @wp_try @wp_ret wp_get wp_modify : wp.

Ltac wp_steps := autorewrite with wp.
