(* ===== verification/Scheduler.v ===== *)
(** * The scheduler

    Models [Scheduler] of [kernel/core/src/task/scheduler.rs]: per-CPU run
    queues with stealing and balancing, the wait queues, and every operation
    that moves a thread between them.  [SchedTypes] has the state and the
    monad. *)

From S2P Require Import Prelude Arrays Time Task Objects SchedTypes.
From stdpp Require Import base list gmap sorting.
From Stdlib Require Import ZArith Lia.

#[local] Open Scope Z_scope.
#[local] Open Scope sched_scope.

(** ** Queues *)

Definition waiter_count (m : gmap Z (list Z)) : nat :=
  list_sum ((fun p => length p.2) <$> map_to_list m).

Definition blocked_thread_count (s : SchedulerState) : nat :=
  size (waiting_timers s) + waiter_count (waiting_receivers s) +
  waiter_count (waiting_packets s) + waiter_count (waiting_inputs s) +
  waiter_count (waiting_objects s).

Module SchedulerState.

Definition runnable_len (s : SchedulerState) : nat :=
  list_sum (length <$> runnable_queues s).

(** [queue.push_back(thread_id)] on queue [cpu] *)
Definition push_queue (s : SchedulerState) (cpu : nat) (id : Z) : SchedulerState :=
  set_runnable_queues s (alter (fun q => q ++ [id]) cpu (runnable_queues s)).

Definition push_runnable_on_current_cpu (h : Hooks) (id : Z) (s : SchedulerState) :
    SchedulerState :=
  let s1 := push_queue s (current_cpu_index h) id in
  set_queued_idle_ticks s1 (<[id := 0]> (queued_idle_ticks s1)).

Definition runnable_contains (s : SchedulerState) (id : Z) : bool :=
  existsb (fun q => bool_decide (id ∈ q)) (runnable_queues s).

Definition push_runnable_if_absent (h : Hooks) (id : Z) (s : SchedulerState) : SchedulerState :=
  if runnable_contains s id then s else push_runnable_on_current_cpu h id s.

(** [iter_mut().find_map(VecDeque::pop_front)] *)
Fixpoint pop_first (qs : list (list Z)) : option (Z * list (list Z)) :=
  match qs with
  | [] => None
  | (id :: q) :: qs => Some (id, q :: qs)
  | [] :: qs =>
      match pop_first qs with
      | Some (id, qs') => Some (id, [] :: qs')
      | None => None
      end
  end.

Definition pop_runnable_next (h : Hooks) (s : SchedulerState) : option Z * SchedulerState :=
  let cpu := current_cpu_index h in
  match runnable_queues s !! cpu with
  | Some (id :: q) =>
      let s1 := set_runnable_queues s (<[cpu := q]> (runnable_queues s)) in
      (Some id, set_queued_idle_ticks s1 (delete id (queued_idle_ticks s1)))
  | _ =>
      match pop_first (runnable_queues s) with
      | Some (id, qs) =>
          let s1 := set_runnable_queues s qs in
          let s2 := set_queued_idle_ticks s1 (delete id (queued_idle_ticks s1)) in
          (Some id, set_stolen_per_cpu s2
                      (alter (fun n => saturating_add U64_MAX n 1) cpu (stolen_per_cpu s2)))
      | None => (None, s)
      end
  end.

Definition runnable_front (h : Hooks) (s : SchedulerState) : option Z :=
  match runnable_queues s !! current_cpu_index h with
  | Some (id :: _) => Some id
  | _ => fst <$> pop_first (runnable_queues s)
  end.

Definition remove_runnable (id : Z) (s : SchedulerState) : SchedulerState :=
  let s1 := set_runnable_queues s (filter (fun x => x <> id) <$> runnable_queues s) in
  set_queued_idle_ticks s1 (delete id (queued_idle_ticks s1)).

End SchedulerState.
Import SchedulerState.

(** ** Stealing and balancing *)

Definition thread_stealable (id : Z) : bool := true.

(** Stealable threads of one victim's queue, with the batch limit. *)
Fixpoint scan_victim (s : SchedulerState) (victim : nat) (q : list Z)
    (candidates : list (nat * Z)) : list (nat * Z) :=
  match q with
  | [] => candidates
  | id :: q =>
      if bool_decide (STEAL_BATCH_MAX <= length candidates)%nat then candidates
      else if (STEAL_MIN_IDLE_TICKS <=? default 0 (queued_idle_ticks s !! id)) &&
              thread_stealable id
      then scan_victim s victim q (candidates ++ [(victim, id)])
      else scan_victim s victim q candidates
  end.

(** The scan over [offset in 1..=RUNNABLE_QUEUE_CPUS]. *)
Fixpoint scan_victims (s : SchedulerState) (cpu start : nat) (offsets : list nat)
    (candidates : list (nat * Z)) : list (nat * Z) :=
  match offsets with
  | [] => candidates
  | offset :: offsets =>
      if bool_decide (STEAL_BATCH_MAX <= length candidates)%nat then candidates
      else
        let victim := ((start + offset) mod RUNNABLE_QUEUE_CPUS)%nat in
        if bool_decide (victim = cpu) then scan_victims s cpu start offsets candidates
        else scan_victims s cpu start offsets
               (scan_victim s victim (default [] (runnable_queues s !! victim)) candidates)
  end.

(** Take [id] out of queue [source], if it is there, and append it to queue
    [target] with a fresh idle clock. *)
Definition relocate (s : SchedulerState) (source target : nat) (id : Z) : option SchedulerState :=
  q ← runnable_queues s !! source;
  '(position, _) ← list_find (eq id) q;
  let s1 := set_runnable_queues s (<[source := delete position q]> (runnable_queues s)) in
  let s2 := push_queue s1 target id in
  Some (set_queued_idle_ticks s2 (<[id := 0]> (queued_idle_ticks s2))).

Fixpoint steal_all (cpu : nat) (candidates : list (nat * Z)) (s : SchedulerState)
    (stolen : nat) : nat * SchedulerState :=
  match candidates with
  | [] => (stolen, s)
  | (source, id) :: candidates =>
      match relocate s source cpu id with
      | Some s1 =>
          steal_all cpu candidates
            (set_stolen_per_cpu s1
               (alter (fun n => saturating_add U64_MAX n 1) cpu (stolen_per_cpu s1)))
            (stolen + 1)
      | None => steal_all cpu candidates s stolen
      end
  end.

Definition steal_idle_runnables_locked (cpu : nat) (s : SchedulerState) : nat * SchedulerState :=
  let s1 := set_steal_attempts s (saturating_add U64_MAX (steal_attempts s) 1) in
  let start := default 0%nat (steal_scan_cursor s1 !! cpu) in
  let candidates := scan_victims s1 cpu start (seq 1 RUNNABLE_QUEUE_CPUS) [] in
  let s2 := set_steal_scan_cursor s1
              (<[cpu := ((start + 1) mod RUNNABLE_QUEUE_CPUS)%nat]> (steal_scan_cursor s1)) in
  steal_all cpu candidates s2 0.

(** The scan of [rebalance_plan] for the busiest and the emptiest queue. *)
Fixpoint extremes (depths : list nat) (all : list nat) (slot busiest emptiest : nat) : nat * nat :=
  match depths with
  | [] => (busiest, emptiest)
  | depth :: depths =>
      let busiest' := if bool_decide (all !!! busiest < depth)%nat then slot else busiest in
      let emptiest' := if bool_decide (depth < all !!! emptiest)%nat then slot else emptiest in
      extremes depths all (S slot) busiest' emptiest'
  end.

Definition rebalance_plan (depths : list nat) : option (nat * nat * nat) :=
  let total := list_sum depths in
  if bool_decide (total < 2)%nat then None
  else
    let average := (total / RUNNABLE_QUEUE_CPUS)%nat in
    let limit := (BALANCE_OVERCOMMIT_RATIO * Nat.max average 1)%nat in
    let '(busiest, emptiest) := extremes depths depths 0 0 0 in
    if bool_decide (busiest = emptiest) || bool_decide (depths !!! busiest <= limit)%nat then None
    else
      let moves := Nat.min (depths !!! busiest - limit) (depths !!! busiest) in
      Some (busiest, emptiest, moves).

(** Longest idle first, then the older entry: [ranked] orders descending by
    idle ticks, then by [usize::MAX - position]. *)
Definition ranked_before (a b : Z * Z * Z) : Prop :=
  b.1.1 < a.1.1 \/ (a.1.1 = b.1.1 /\ b.1.2 <= a.1.2).

#[export] Instance ranked_before_dec : RelDecision ranked_before.
Proof. intros a b. unfold ranked_before. apply _. Defined.

Definition select_rebalance_candidates (q : list Z) (idle : gmap Z Z) (count : nat) : list Z :=
  let ranked := imap (fun position id =>
    (default 0 (idle !! id), USIZE_MAX - Z.of_nat position, id)) q in
  snd <$> take count (merge_sort ranked_before ranked).

Fixpoint rebalance_all (busiest emptiest : nat) (candidates : list Z) (s : SchedulerState)
    (moved : nat) : nat * SchedulerState :=
  match candidates with
  | [] => (moved, s)
  | id :: candidates =>
      match relocate s busiest emptiest id with
      | Some s1 =>
          rebalance_all busiest emptiest candidates
            (set_rebalance_moves s1 (saturating_add U64_MAX (rebalance_moves s1) 1)) (moved + 1)
      | None => rebalance_all busiest emptiest candidates s moved
      end
  end.

Definition push_balance_locked (s : SchedulerState) : nat * SchedulerState :=
  let depths := length <$> runnable_queues s in
  match rebalance_plan depths with
  | None => (0%nat, s)
  | Some (busiest, emptiest, moves) =>
      let candidates := select_rebalance_candidates (runnable_queues s !!! busiest)
                          (queued_idle_ticks s) moves in
      rebalance_all busiest emptiest candidates s 0
  end.

Definition build_stats_line (s : SchedulerState) : StealStatsLine := {|
  sl_tick := tick_counter s;
  sl_steal_attempts := steal_attempts s;
  sl_stolen_threads_total := foldr Z.add 0 (stolen_per_cpu s);
  sl_stolen_per_cpu := stolen_per_cpu s;
  sl_rebalance_moves := rebalance_moves s;
  sl_queue_depths := length <$> runnable_queues s;
|}.

(** ** Threads behind the records *)

Definition thread_of (store : ObjectStore) (r : Z) : option ThreadObject :=
  record ← store !! r; KernelObjectRecord.thread record.

(** Transition of the thread object [r] refers to. *)
Definition set_thread_state (store : ObjectStore) (r : Z) (state : ExecutionState)
    (target : option WaitTarget) (reason : option ThreadWakeReason) : ObjectStore :=
  match store !! r with
  | Some record =>
      match body record with
      | OThread t =>
          <[r := mkKernelObjectRecord (header record)
                   (OThread (ThreadObject.transition_to t state target reason))]> store
      | _ => store
      end
  | None => store
  end.

Definition transition_to (r : Z) (state : ExecutionState) (target : option WaitTarget)
    (reason : option ThreadWakeReason) : K unit :=
  fun w => Some (tt, mkSys (sched w) (set_thread_state (objs w) r state target reason)
                       (clock w) (latches w)).

(** [.thread().expect("registered thread object").transition_to(..)] *)
Definition expect_transition (r : Z) (state : ExecutionState) (target : option WaitTarget)
    (reason : option ThreadWakeReason) : K unit :=
  fun w => match thread_of (objs w) r with
           | Some _ => transition_to r state target reason w
           | None => None
           end.

(** [snapshot().execution_state == Blocked], false for other objects. *)
Definition is_waiting (r : Z) : K bool :=
  fun w => Some (match thread_of (objs w) r with
                 | Some t => bool_decide (execution_state t = Blocked)
                 | None => false
                 end, w).

(** [None] is the panic of a reference that is not a thread. *)
Definition thread_ref_id (r : Z) : K Z :=
  fun w => t ← thread_of (objs w) r; Some (thread_id t, w).

Definition lookup_thread_record (id : Z) : K (result Z SchedulerError) :=
  s ← get; mret (match threads s !! id with Some r => Ok r | None => Err InvalidThread end).

Definition lookup_thread (id : Z) : K (result Z SchedulerError) :=
  fun w => Some (match threads (sched w) !! id with
                 | Some r => match thread_of (objs w) r with
                             | Some _ => Ok r
                             | None => Err InvalidThread
                             end
                 | None => Err InvalidThread
                 end, w).

Definition decision (trigger : ScheduleTrigger) (previous next : option Z) : K ScheduleDecision :=
  s ← get;
  mret (mkScheduleDecision trigger previous next (runnable_len s) (blocked_thread_count s)).

Definition ok {A : Type} (m : K A) : K (result A SchedulerError) := a ← m; mret (Ok a).

Definition trigger_to_wake_reason (t : ScheduleTrigger) : ThreadWakeReason :=
  match t with
  | TBootstrap => WakeBootstrap
  | TYield => WakeYield
  | TBlocked => WakeExplicit
  | TTimeWake => WakeTimerExpired
  | TIpcWake => WakeChannelMessage
  | TNetworkWake => WakePacketReady
  | TInputWake => WakeInputReady
  | TObjectWake => WakeObjectReady
  | TExplicit => WakeExplicit
  end.

(** The branch of [schedule_next_locked] taken when a thread was popped. *)
Definition run_thread (trigger : ScheduleTrigger) (previous : option Z) (id : Z) :
    K (result unit SchedulerError) :=
  t ←? lookup_thread id;
  transition_to t Running None (Some (trigger_to_wake_reason trigger));;
  modify (fun s => set_current s (Some id));;
  modify (fun s => set_ticks_remaining s 1);;
  modify (fun s => set_preemption_pending s false);;
  (if bool_decide (previous = Some id) then mret tt
   else modify (fun s => set_context_switches s (saturating_add U64_MAX (context_switches s) 1)));;
  mret (Ok tt).

Definition pop_next (h : Hooks) : K (option Z) :=
  fun w => let '(id, s) := pop_runnable_next h (sched w) in
           Some (id, mkSys s (objs w) (clock w) (latches w)).

Definition schedule_next_locked (h : Hooks) (trigger : ScheduleTrigger) (previous : option Z) :
    K (result ScheduleDecision SchedulerError) :=
  next ← pop_next h;
  _ ←? match next with
       | Some id => run_thread trigger previous id
       | None => mret (Ok tt)
       end;
  ok (decision trigger previous next).

(** Make a waiter runnable; the body shared by the wake loops. *)
Definition wake (h : Hooks) (id r : Z) (reason : ThreadWakeReason) : K unit :=
  modify (push_runnable_if_absent h id);;
  expect_transition r Runnable None (Some reason).

(** The [for] loop over the waiters of an object; [false] is the early return
    on a thread that is not registered. *)
Fixpoint wake_all (h : Hooks) (waiters : list Z) : K bool :=
  match waiters with
  | [] => mret true
  | id :: waiters =>
      r ← lookup_thread_record id;
      match r with
      | Err _ => mret false
      | Ok record => wake h id record WakeObjectReady;; wake_all h waiters
      end
  end.

Definition wake_object_waiters_locked (h : Hooks) (object : Z) : K (option bool) :=
  s ← get;
  match waiting_objects s !! object with
  | None => mret (Some false)
  | Some waiters =>
      modify (fun s => set_waiting_objects s (delete object (waiting_objects s)));;
      b ← wake_all h waiters;
      mret (if b : bool then Some true else None)
  end.

(** [retain] on a map of waiters: drop the thread, then the empty queues. *)
Definition drop_waiter (id : Z) (m : gmap Z (list Z)) : gmap Z (list Z) :=
  omap (fun q => let q' := filter (fun x => x <> id) q in
                 if bool_decide (q' = []) then None else Some q') m.

Definition remove_from_wait_queues (id : Z) (s : SchedulerState) : SchedulerState :=
  let s1 := set_waiting_timers s (filter (fun p => p.2 <> id) (waiting_timers s)) in
  let s2 := set_waiting_receivers s1 (drop_waiter id (waiting_receivers s1)) in
  let s3 := set_waiting_packets s2 (drop_waiter id (waiting_packets s2)) in
  let s4 := set_waiting_inputs s3 (drop_waiter id (waiting_inputs s3)) in
  set_waiting_objects s4 (drop_waiter id (waiting_objects s4)).

(** [.entry(key).or_default().push_back(id)] *)
Definition enqueue_waiter (q : WaitQueue) (key id : Z) (s : SchedulerState) : SchedulerState :=
  set_wait_map q s (<[key := default [] (wait_map q s !! key) ++ [id]]> (wait_map q s)).

(** ** Operations *)

Definition now : K (result Z SchedulerError) :=
  fun w => Some (match clock w with Some t => Ok (Time.now t) | None => Err TimeUnavailable end, w).

(** Take the next wake token and arm a one-shot timer for it; the token is
    used up even when arming fails. *)
Definition arm_deadline (deadline : Z) : K (result Z SchedulerError) :=
  fun w =>
    let token := next_wake_token (sched w) in
    match checked_add U64_MAX token 1 with
    | None => Some (Err WakeTokenExhausted, w)
    | Some token' =>
        let s1 := set_next_wake_token (sched w) token' in
        match clock w with
        | None => Some (Err TimeUnavailable, w)
        | Some t =>
            match TimeState.arm_wakeup t token (one_shot deadline) with
            | (Ok _, t') => Some (Ok token, mkSys s1 (objs w) (Some t') (latches w))
            | (Err e, t') => Some (Err (TimerFailed e), mkSys s1 (objs w) (Some t') (latches w))
            end
        end
    end.

(** [latch.swap(false)] of the source's wakeup latch, if it has one. *)
Definition take_latch (source : Z) : K bool :=
  fun w => match latches w !! source with
           | None => Some (false, w)
           | Some b => Some (b, mkSys (sched w) (objs w) (clock w) (<[source := false]> (latches w)))
           end.

(** The branch of the blocking operations taken with a current thread. *)
Definition block_on (h : Hooks) (q : WaitQueue) (key current : Z) (target : WaitTarget) :
    K (result ScheduleDecision SchedulerError) :=
  t ←? lookup_thread current;
  transition_to t Blocked (Some target) None;;
  modify (fun s => set_current s None);;
  modify (enqueue_waiter q key current);;
  schedule_next_locked h TBlocked (Some current).

(** The decision of an operation that changed nothing, or woke a thread while
    another one runs. *)
Definition woken (h : Hooks) (trigger : ScheduleTrigger) (previous : option Z) :
    K (option ScheduleDecision) :=
  if bool_decide (previous = None) then
    r ← schedule_next_locked h trigger previous;
    mret (match r with Ok d => Some d | Err _ => None end)
  else
    s ← get;
    d ← decision trigger previous (current s);
    mret (Some d).

(** The [while let] loop of [notify_channel_ready]: wake the first waiter that
    is still blocked, and return what is left of the queue. *)
Fixpoint wake_first_blocked (h : Hooks) (queue : list Z) : K (bool * list Z) :=
  match queue with
  | [] => mret (false, [])
  | id :: queue =>
      r ← lookup_thread_record id;
      match r with
      | Err _ => wake_first_blocked h queue
      | Ok record =>
          waiting ← is_waiting record;
          if waiting : bool then
            wake h id record WakeChannelMessage;;
            mret (true, queue)
          else wake_first_blocked h queue
      end
  end.

Module Scheduler.

Definition new (store : ObjectStore) (bootstrap_thread : Z) :
    option (SchedulerState * ObjectStore) :=
  t ← thread_of store bootstrap_thread;
  Some ({| current := Some (thread_id t);
           runnable_queues := replicate RUNNABLE_QUEUE_CPUS [];
           queued_idle_ticks := ∅;
           stolen_per_cpu := replicate RUNNABLE_QUEUE_CPUS 0;
           steal_attempts := 0;
           rebalance_moves := 0;
           tick_counter := 0;
           steal_scan_cursor := replicate RUNNABLE_QUEUE_CPUS 0%nat;
           threads := {[thread_id t := bootstrap_thread]};
           waiting_timers := ∅;
           waiting_receivers := ∅;
           waiting_packets := ∅;
           waiting_inputs := ∅;
           waiting_objects := ∅;
           next_wake_token := 1;
           context_switches := 0;
           ticks_remaining := 1;
           preemption_pending := false |},
        set_thread_state store bootstrap_thread Running None (Some WakeBootstrap)).

Definition snapshot (s : SchedulerState) : SchedulerSnapshot := {|
  ss_current := current s;
  ss_tracked_threads := size (threads s);
  ss_runnable_threads := runnable_len s;
  ss_blocked_threads := blocked_thread_count s;
  ss_timer_waits := size (waiting_timers s);
  ss_channel_receive_waits := waiter_count (waiting_receivers s);
  ss_packet_receive_waits := waiter_count (waiting_packets s);
  ss_input_receive_waits := waiter_count (waiting_inputs s);
  ss_object_waits := waiter_count (waiting_objects s);
  ss_context_switches := context_switches s;
  ss_preemption_pending := preemption_pending s;
  ss_stolen_threads_total := foldr Z.add 0 (stolen_per_cpu s);
  ss_rebalance_moves_total := rebalance_moves s;
|}.

Definition steal_idle_runnables (h : Hooks) : K nat :=
  fun w => let '(n, s) := steal_idle_runnables_locked (current_cpu_index h) (sched w) in
           Some (n, mkSys s (objs w) (clock w) (latches w)).

Definition register_thread (thread : Z) : K (result Z SchedulerError) :=
  id ← thread_ref_id thread;
  s ← get;
  if bool_decide (is_Some (threads s !! id)) then mret (Err ThreadAlreadyRegistered)
  else
    transition_to thread Suspended None None;;
    modify (fun s => set_threads s (<[id := thread]> (threads s)));;
    mret (Ok id).

Definition make_runnable (h : Hooks) (id : Z) (reason : ThreadWakeReason) :
    K (result ScheduleDecision SchedulerError) :=
  s ← get;
  let previous := current s in
  thread ←? lookup_thread_record id;
  if bool_decide (previous = Some id) then
    expect_transition thread Running None (Some reason);;
    ok (decision TExplicit previous previous)
  else
    modify (remove_from_wait_queues id);;
    wake h id thread reason;;
    if bool_decide (previous = None) then schedule_next_locked h TExplicit previous
    else ok (decision TExplicit previous previous).

(** The part of [yield_current] and [preempt_current_if_needed] that requeues
    the current thread. *)
Definition requeue_current (h : Hooks) (previous : option Z) : K (result unit SchedulerError) :=
  match previous with
  | None => mret (Ok tt)
  | Some current =>
      thread ←? lookup_thread current;
      transition_to thread Runnable None (Some WakeYield);;
      modify (push_runnable_on_current_cpu h current);;
      modify (fun s => set_current s None);;
      mret (Ok tt)
  end.

Definition yield_current (h : Hooks) : K (result ScheduleDecision SchedulerError) :=
  s ← get;
  _ ←? requeue_current h (current s);
  schedule_next_locked h TYield (current s).

Definition preempt_current_if_needed (h : Hooks) : K (result ScheduleDecision SchedulerError) :=
  s ← get;
  if negb (preemption_pending s) then ok (decision TExplicit (current s) (current s))
  else
    _ ←? requeue_current h (current s);
    modify (fun s => set_preemption_pending s false);;
    schedule_next_locked h TYield (current s).

Definition block_current_on_receive (h : Hooks) (endpoint : Z) :
    K (result ScheduleDecision SchedulerError) :=
  s ← get;
  match current s with
  | None => ok (decision TBlocked None None)
  | Some current => block_on h Receivers endpoint current (ChannelReceive endpoint)
  end.

Definition block_current_on_receive_until (h : Hooks) (endpoint deadline_ticks : Z) :
    K (result ScheduleDecision SchedulerError) :=
  if deadline_ticks =? 0 then block_current_on_receive h endpoint
  else
    s ← get;
    match current s with
    | None => ok (decision TBlocked None None)
    | Some current =>
        instant ←? now;
        let deadline := saturating_add U64_MAX instant deadline_ticks in
        token ←? arm_deadline deadline;
        t ←? lookup_thread current;
        transition_to t Blocked (Some (ChannelReceive endpoint)) None;;
        modify (fun s => set_current s None);;
        modify (fun s => set_waiting_timers s (<[token := current]> (waiting_timers s)));;
        modify (enqueue_waiter Receivers endpoint current);;
        schedule_next_locked h TBlocked (Some current)
    end.

Definition block_current_on_packet_receive (h : Hooks) (interface : Z) :
    K (result ScheduleDecision SchedulerError) :=
  s ← get;
  match current s with
  | None => ok (decision TBlocked None None)
  | Some current => block_on h Packets interface current (PacketReceive interface)
  end.

Definition block_current_on_input_receive (h : Hooks) (source : Z) :
    K (result ScheduleDecision SchedulerError) :=
  raced_wakeup ← take_latch source;
  s ← get;
  match current s with
  | None => ok (decision TBlocked None None)
  | Some current =>
      thread ←? lookup_thread current;
      if raced_wakeup : bool then
        transition_to thread Runnable None (Some WakeInputReady);;
        modify (push_runnable_if_absent h current);;
        schedule_next_locked h TInputWake (Some current)
      else block_on h Inputs source current (InputReceive source)
  end.

Definition block_current_on_object (h : Hooks) (object : Z) :
    K (result ScheduleDecision SchedulerError) :=
  s ← get;
  match current s with
  | None => ok (decision TBlocked None None)
  | Some current => block_on h ObjectWaiters object current (WaitObject object)
  end.

Definition block_current_until (h : Hooks) (deadline : Z) :
    K (result (Z * ScheduleDecision) SchedulerError) :=
  _ ←? now;
  s ← get;
  match current s with
  | None => d ← decision TBlocked None None; mret (Ok (0, d))
  | Some current =>
      token ←? arm_deadline deadline;
      t ←? lookup_thread current;
      transition_to t Blocked (Some (WaitTimer token deadline)) None;;
      modify (fun s => set_current s None);;
      modify (fun s => set_waiting_timers s (<[token := current]> (waiting_timers s)));;
      d ←? schedule_next_locked h TBlocked (Some current);
      mret (Ok (token, d))
  end.

Definition terminate_current (h : Hooks) : K (result ScheduleDecision SchedulerError) :=
  s ← get;
  match current s with
  | None => ok (decision TExplicit None None)
  | Some current =>
      t ←? lookup_thread current;
      transition_to t Dying None (Some WakeExplicit);;
      modify (remove_from_wait_queues current);;
      modify (remove_runnable current);;
      modify (fun s => set_current s None);;
      modify (fun s => set_threads s (delete current (threads s)));;
      schedule_next_locked h TExplicit (Some current)
  end.

Definition handle_time_wakeup (h : Hooks) (event : WakeEvent) : K (option ScheduleDecision) :=
  s ← get;
  match waiting_timers s !! we_token event with
  | None => mret None
  | Some id =>
      modify (fun s => set_waiting_timers s (delete (we_token event) (waiting_timers s)));;
      r ← lookup_thread_record id;
      match r with
      | Err _ => mret None
      | Ok record =>
          waiting ← is_waiting record;
          if negb waiting then mret None
          else wake h id record WakeTimerExpired;; woken h TTimeWake (current s)
      end
  end.

Definition notify_channel_ready (h : Hooks) (endpoint : Z) : K (option ScheduleDecision) :=
  s ← get;
  modify (fun s => set_waiting_receivers s (delete endpoint (waiting_receivers s)));;
  '(woke_receiver, rest) ←
    wake_first_blocked h (default [] (waiting_receivers s !! endpoint));
  (if bool_decide (rest = []) then mret tt
   else modify (fun s => set_waiting_receivers s (<[endpoint := rest]> (waiting_receivers s))));;
  woke_object ← wake_object_waiters_locked h endpoint;
  match woke_object with
  | None => mret None
  | Some woke_object =>
      if negb woke_receiver && negb woke_object then mret None
      else woken h TIpcWake (current s)
  end.

(** [notify_packet_ready] and [notify_input_ready] differ in the map, the wake
    reason and the trigger. *)
Definition notify_waiter_ready (h : Hooks) (q : WaitQueue) (reason : ThreadWakeReason)
    (trigger : ScheduleTrigger) (key : Z) : K (option ScheduleDecision) :=
  s ← get;
  woke ← match wait_map q s !! key with
         | Some (id :: waiters) =>
             modify (fun s => set_wait_map q s (<[key := waiters]> (wait_map q s)));;
             r ← lookup_thread_record id;
             match r with
             | Err _ => mret None
             | Ok record =>
                 wake h id record reason;;
                 (if bool_decide (waiters = [])
                  then modify (fun s => set_wait_map q s (delete key (wait_map q s)))
                  else mret tt);;
                 mret (Some true)
             end
         | _ => mret (Some false)
         end;
  match woke with
  | None => mret None
  | Some woke =>
      woke_object ← wake_object_waiters_locked h key;
      match woke_object with
      | None => mret None
      | Some woke_object =>
          if negb woke && negb woke_object then mret None
          else woken h trigger (current s)
      end
  end.

Definition notify_packet_ready (h : Hooks) : Z -> K (option ScheduleDecision) :=
  notify_waiter_ready h Packets WakePacketReady TNetworkWake.

Definition notify_input_ready (h : Hooks) : Z -> K (option ScheduleDecision) :=
  notify_waiter_ready h Inputs WakeInputReady TInputWake.

Definition notify_object_ready (h : Hooks) (object : Z) : K (option ScheduleDecision) :=
  s ← get;
  match waiting_objects s !! object with
  | None => mret None
  | Some waiters =>
      modify (fun s => set_waiting_objects s (delete object (waiting_objects s)));;
      b ← wake_all h waiters;
      if b : bool then woken h TObjectWake (current s) else mret None
  end.

Definition handle_tick_state (h : Hooks) (s : SchedulerState) :
    option StealStatsLine * SchedulerState :=
  match current s with
  | None => (None, s)
  | Some _ =>
      let s1 := if 0 <? ticks_remaining s then set_ticks_remaining s (ticks_remaining s - 1)
                else s in
      let s2 := if (ticks_remaining s1 =? 0) && bool_decide (0 < runnable_len s1)%nat
                then set_preemption_pending s1 true else s1 in
      let s3 := set_tick_counter s2 ((tick_counter s2 + 1) mod (U32_MAX + 1)) in
      let s4 := set_queued_idle_ticks s3
                  ((fun idle => saturating_add U32_MAX idle 1) <$> queued_idle_ticks s3) in
      let tick := tick_counter s4 in
      if bool_decide (1 < balancing_cpu_count h)%nat then
        let s5 := if tick mod BALANCE_PERIOD_TICKS =? 0
                  then (push_balance_locked
                          (steal_idle_runnables_locked (current_cpu_index h) s4).2).2
                  else s4 in
        let line := if (tick mod STEAL_STATS_PERIOD_TICKS =? 0) && steal_stats_emitter h
                    then Some (build_stats_line s5) else None in
        (line, s5)
      else (None, s4)
  end.

Definition handle_tick (h : Hooks) : K (option StealStatsLine) :=
  fun w => let '(line, s) := handle_tick_state h (sched w) in
           Some (line, mkSys s (objs w) (clock w) (latches w)).

Definition consume_preemption : K bool :=
  s ← get;
  if preemption_pending s then
    modify (fun s => set_preemption_pending s false);; mret true
  else mret false.

(** Distinct owners in ascending order. *)
Definition tracked_thread_owners (s : SchedulerState) (store : ObjectStore) : list Z :=
  merge_sort Z.le (remove_dups
    (omap (fun p => owner <$> thread_of store p.2) (map_to_list (threads s)))).

Definition kernel_context_switch_info (h : Hooks) (s : SchedulerState) (store : ObjectStore) :
    option (Z * option KernelContext * option KernelContext) :=
  previous ← current s;
  next ← runnable_front h s;
  if bool_decide (previous = next) then None
  else
    let context id := r ← threads s !! id; t ← thread_of store r; kernel_context t in
    Some (previous, context previous, context next).

End Scheduler.
