(* ===== verification/SchedInv.v ===== *)
(** * Where threads are

    The invariant of the scheduler.  A thread can be in one of several places
    (running, in a run queue, waiting for a token or in a wait queue);
    [occurs s id p] counts how often the scheduler's tables name thread [id] at
    place [p].  [sched_inv true] says that every registered thread is named
    exactly once, at the place its own state announces, and other threads are
    named nowhere; [sched_inv false] only says that no table names a thread
    that is not registered.  A list of pending entries stands for the threads
    an operation has taken out of one table and not yet put into the next. *)

From S2P Require Import Prelude Arrays Time Task Objects SchedTypes Scheduler.
From stdpp Require Import base list gmap.
From Stdlib Require Import ZArith Lia.

#[local] Open Scope Z_scope.
#[local] Open Scope sched_scope.
Import SchedulerState.

Inductive Place :=
| PCurrent
| PQueue
| PTimer (token : Z)
| PWait (q : WaitQueue) (key : Z).

#[export] Instance Place_eq_dec : EqDecision Place.
Proof. solve_decision. Defined.

Definition queued (s : SchedulerState) : list Z := concat (runnable_queues s).

Definition count (id : Z) (l : list Z) : nat := count_occ Z.eq_dec l id.

#[global] Arguments count : simpl never.

Definition occurs (s : SchedulerState) (id : Z) (p : Place) : nat :=
  match p with
  | PCurrent => if bool_decide (current s = Some id) then 1 else 0
  | PQueue => count id (queued s)
  | PTimer token => if bool_decide (waiting_timers s !! token = Some id) then 1 else 0
  | PWait q key => count id (default [] (wait_map q s !! key))
  end.

(** The place a thread's state announces. *)
Definition place_of (state : ExecutionState) (target : option WaitTarget) : option Place :=
  match state with
  | Running => Some PCurrent
  | Runnable => Some PQueue
  | Blocked =>
      match target with
      | Some (WaitTimer token _) => Some (PTimer token)
      | Some (ChannelReceive endpoint) => Some (PWait Receivers endpoint)
      | Some (PacketReceive interface) => Some (PWait Packets interface)
      | Some (InputReceive source) => Some (PWait Inputs source)
      | Some (WaitObject object) => Some (PWait ObjectWaiters object)
      | _ => None
      end
  | _ => None
  end.

Definition thread_at (w : Sys) (id : Z) : option ThreadObject :=
  r ← threads (sched w) !! id; thread_of (objs w) r.

Definition place (w : Sys) (id : Z) : option Place :=
  t ← thread_at w id; place_of (execution_state t) (wait_target t).

Definition single (id : Z) (p : Place) (i : Z) (p' : Place) : nat :=
  if bool_decide (i = id) then if bool_decide (p' = p) then 1 else 0 else 0.

#[global] Arguments single : simpl never.

Fixpoint pending (L : list (Z * Place)) (i : Z) (p : Place) : nat :=
  match L with
  | [] => 0
  | (id, p') :: L => single id p' i p + pending L i p
  end.

(** Every registered thread is a thread object with that id. *)
Definition registered_ok (w : Sys) : Prop :=
  forall id r, threads (sched w) !! id = Some r ->
    exists t, thread_of (objs w) r = Some t /\ thread_id t = id.

(** The idle clocks are kept for exactly the queued threads. *)
Definition idle_ok (s : SchedulerState) : Prop :=
  forall id, is_Some (queued_idle_ticks s !! id) <-> (0 < count id (queued s))%nat.

Definition exact (L : list (Z * Place)) (w : Sys) : Prop :=
  (forall id p, (occurs (sched w) id p + pending L id p)%nat =
                if bool_decide (place w id = Some p) then 1%nat else 0%nat) /\
  idle_ok (sched w).

Record sched_inv (b : bool) (L : list (Z * Place)) (w : Sys) : Prop := {
  inv_registered : registered_ok w;
  inv_queues : length (runnable_queues (sched w)) = RUNNABLE_QUEUE_CPUS;
  inv_tokens : forall token, is_Some (waiting_timers (sched w) !! token) ->
                 token < next_wake_token (sched w);
  inv_named : forall id p, (0 < occurs (sched w) id p + pending L id p)%nat ->
                is_Some (threads (sched w) !! id);
  inv_exact : b = true -> exact L w;
}.

(** The processor is never idle while a thread is in a run queue. *)
Definition work_conserving (w : Sys) : Prop :=
  current (sched w) = None -> queued (sched w) = [].

(** ** Counting *)

Section counting.

Lemma count_app id l k : count id (l ++ k) = (count id l + count id k)%nat.
Proof. apply count_occ_app. Qed.

Lemma count_cons id x l :
  count id (x :: l) = ((if bool_decide (id = x) then 1 else 0) + count id l)%nat.
Proof.
  unfold count. cbn. destruct (Z.eq_dec x id) as [->|Hne]; case_bool_decide; (done || congruence).
Qed.

Lemma count_nil id : count id [] = 0%nat.
Proof. done. Qed.

Lemma count_pos id l : (0 < count id l)%nat <-> id ∈ l.
Proof. unfold count. rewrite list_elem_of_In. symmetry. apply count_occ_In. Qed.

Lemma count_zero id l : count id l = 0%nat <-> id ∉ l.
Proof. rewrite <- count_pos. lia. Qed.

Lemma count_filter id x l :
  count id (filter (fun y => y <> x) l) = if bool_decide (id = x) then 0%nat else count id l.
Proof.
  induction l as [|y l IH]; [by case_bool_decide|]. rewrite count_cons.
  destruct (decide (y = x)) as [->|Hne].
  - rewrite filter_cons_False by auto. rewrite IH. by repeat case_bool_decide.
  - rewrite filter_cons_True by done. rewrite count_cons, IH.
    repeat case_bool_decide; subst; done.
Qed.

Lemma count_concat_alter id (qs : list (list Z)) k x :
  (k < length qs)%nat ->
  count id (concat (alter (fun q => q ++ [x]) k qs)) =
  (count id (concat qs) + if bool_decide (id = x) then 1 else 0)%nat.
Proof.
  revert k. induction qs as [|q qs IH]; intros [|k] Hk; cbn in Hk; [lia..| |].
  - cbn. rewrite !count_app, count_cons, count_nil. lia.
  - cbn. rewrite !count_app. fold (alter (fun q => q ++ [x]) k qs). rewrite IH by lia. lia.
Qed.

Lemma count_concat_insert id (qs : list (list Z)) k q q' :
  qs !! k = Some q ->
  (count id (concat (<[k := q']> qs)) + count id q = count id (concat qs) + count id q')%nat.
Proof.
  revert k. induction qs as [|q0 qs IH]; intros [|k] Hk; simplify_eq/=; rewrite !count_app; [lia|].
  specialize (IH _ Hk). lia.
Qed.

Lemma count_concat_filter id x (qs : list (list Z)) :
  count id (concat (filter (fun y => y <> x) <$> qs)) =
  if bool_decide (id = x) then 0%nat else count id (concat qs).
Proof.
  induction qs as [|q qs IH]; [by case_bool_decide|]. cbn. rewrite !count_app, count_filter, IH.
  by case_bool_decide.
Qed.

Lemma runnable_contains_spec s id : runnable_contains s id = true <-> id ∈ queued s.
Proof.
  unfold runnable_contains, queued. rewrite existsb_exists. split.
  - intros (q & Hq & Hid%bool_decide_eq_true). apply list_elem_of_In, in_concat. exists q.
    split; [done|]. by apply list_elem_of_In.
  - intros (q & Hq & Hid)%list_elem_of_In%in_concat. exists q. split; [done|].
    apply bool_decide_eq_true. by apply list_elem_of_In.
Qed.

Lemma pop_first_spec qs :
  match pop_first qs with
  | Some (id, qs') =>
      length qs' = length qs /\
      (forall i, count i (concat qs) = ((if bool_decide (i = id) then 1 else 0) + count i (concat qs'))%nat)
  | None => concat qs = []
  end.
Proof.
  induction qs as [|[|id q] qs IH]; cbn; [done| |].
  - destruct (pop_first qs) as [[id qs']|]; [|done]. destruct IH as [Hlen Hc]. cbn. auto.
  - split; [done|]. intros i. by rewrite count_cons.
Qed.

End counting.

(** ** Thread objects and places *)

Section threads.
Implicit Types (w : Sys) (id r : Z).

Lemma thread_of_set store r st tgt reason i :
  thread_of (set_thread_state store r st tgt reason) i =
  if bool_decide (i = r)
  then (fun t => ThreadObject.transition_to t st tgt reason) <$> thread_of store i
  else thread_of store i.
Proof.
  unfold thread_of, set_thread_state, KernelObjectRecord.thread.
  destruct (store !! r) as [record|] eqn:Hr; [|case_bool_decide; subst; by rewrite ?Hr].
  destruct (body record) eqn:Hb; try (case_bool_decide; subst; by rewrite ?Hr; cbn; rewrite ?Hb).
  case_bool_decide; subst; [rewrite lookup_insert_eq, Hr; cbn; by rewrite Hb|].
  by rewrite lookup_insert_ne.
Qed.

(** The state after thread [r] changed state. *)
Definition moved_to w r st tgt reason : Sys :=
  mkSys (sched w) (set_thread_state (objs w) r st tgt reason) (clock w) (latches w).

Lemma wp_transition r st tgt reason Q w :
  wp (transition_to r st tgt reason) Q w <-> Q tt (moved_to w r st tgt reason).
Proof. done. Qed.

Lemma registered_moved w r st tgt reason :
  registered_ok w -> registered_ok (moved_to w r st tgt reason).
Proof.
  intros Hok id r' Hr. destruct (Hok id r' Hr) as (t & Ht & Hid). cbn. rewrite thread_of_set.
  case_bool_decide; [|eauto]. rewrite Ht. eexists. split; [done|]. done.
Qed.

Lemma registered_inj w id id' r :
  registered_ok w -> threads (sched w) !! id = Some r -> threads (sched w) !! id' = Some r ->
  id = id'.
Proof.
  intros Hok H1 H2. destruct (Hok _ _ H1) as (t & Ht & <-), (Hok _ _ H2) as (t' & Ht' & <-).
  congruence.
Qed.

Lemma place_moved w id r st tgt reason i :
  registered_ok w -> threads (sched w) !! id = Some r ->
  place (moved_to w r st tgt reason) i =
  if bool_decide (i = id) then place_of st tgt else place w i.
Proof.
  intros Hok Hr. unfold place, thread_at. cbn. case_bool_decide as Hi.
  - subst i. rewrite Hr. cbn. rewrite thread_of_set, bool_decide_true by done.
    destruct (Hok _ _ Hr) as (t & -> & _). done.
  - destruct (threads (sched w) !! i) as [r'|] eqn:Hr'; [|done]. cbn.
    rewrite thread_of_set, bool_decide_false; [done|]. intros ->. apply Hi.
    by eapply registered_inj.
Qed.

Lemma place_registered w id p : place w id = Some p -> is_Some (threads (sched w) !! id).
Proof. unfold place, thread_at. by destruct (threads (sched w) !! id). Qed.

Lemma registered_thread w id r :
  registered_ok w -> threads (sched w) !! id = Some r -> is_Some (thread_of (objs w) r).
Proof. intros Hok Hr. destruct (Hok _ _ Hr) as (t & -> & _). eauto. Qed.

Lemma wp_lookup_record id r Q w :
  threads (sched w) !! id = Some r -> wp (lookup_thread_record id) Q w <-> Q (Ok r) w.
Proof. intros Hr. unfold lookup_thread_record. by rewrite wp_bind, wp_get, wp_ret, Hr. Qed.

Lemma wp_lookup_thread id r Q w :
  registered_ok w -> threads (sched w) !! id = Some r ->
  wp (lookup_thread id) Q w <-> Q (Ok r) w.
Proof.
  intros Hok Hr. unfold wp, lookup_thread. rewrite Hr.
  by destruct (registered_thread _ _ _ Hok Hr) as [t ->].
Qed.

Lemma wp_expect_transition id r st tgt reason Q w :
  registered_ok w -> threads (sched w) !! id = Some r ->
  wp (expect_transition r st tgt reason) Q w <-> Q tt (moved_to w r st tgt reason).
Proof.
  intros Hok Hr. unfold wp, expect_transition.
  by destruct (registered_thread _ _ _ Hok Hr) as [t ->].
Qed.

Lemma wp_decision trigger previous next Q w :
  wp (decision trigger previous next) Q w <->
  Q (mkScheduleDecision trigger previous next (runnable_len (sched w))
       (blocked_thread_count (sched w))) w.
Proof. done. Qed.

End threads.

#[export] Hint Rewrite wp_transition wp_decision : wp.

(** ** Moving threads *)

Ltac occ_cases :=
  unfold single, queued in *; repeat (case_bool_decide; simplify_eq/=); try lia; try congruence.

Section moves.
Implicit Types (w : Sys) (s : SchedulerState) (L : list (Z * Place)).

Definition with_sched w s : Sys := mkSys s (objs w) (clock w) (latches w).

Lemma place_with_sched w s i : threads s = threads (sched w) -> place (with_sched w s) i = place w i.
Proof. intros Ht. unfold place, thread_at. cbn. by rewrite Ht. Qed.

(** The state of a run of updates, in the form [moved_to (with_sched w s)]. *)
Lemma wp_modify_with f Q w : wp (modify f) Q w <-> Q tt (with_sched w (f (sched w))).
Proof. done. Qed.

Lemma sched_with w s : sched (with_sched w s) = s.
Proof. done. Qed.

Lemma sched_moved w r st tgt reason : sched (moved_to w r st tgt reason) = sched w.
Proof. done. Qed.

Lemma with_with w s s' : with_sched (with_sched w s) s' = with_sched w s'.
Proof. done. Qed.

Lemma with_moved w s r st tgt reason :
  with_sched (moved_to w r st tgt reason) s = moved_to (with_sched w s) r st tgt reason.
Proof. done. Qed.

(** A change of the tables that only shifts entries between them and [L]. *)
Lemma inv_tables b L L' w s :
  sched_inv b L w ->
  (forall i p, (occurs s i p + pending L' i p)%nat = (occurs (sched w) i p + pending L i p)%nat) ->
  threads s = threads (sched w) ->
  length (runnable_queues s) = length (runnable_queues (sched w)) ->
  (forall token, is_Some (waiting_timers s !! token) -> token < next_wake_token s) ->
  (b = true -> idle_ok s) ->
  sched_inv b L' (with_sched w s).
Proof.
  intros [Hreg Hq Htok Hnamed Hex] Hocc Hth Hlen Htok' Hidle. constructor; cbn.
  - intros id r. cbn. rewrite Hth. apply Hreg.
  - by rewrite Hlen.
  - done.
  - intros id p. rewrite Hocc, Hth. apply Hnamed.
  - intros Hb. destruct (Hex Hb) as [He _]. split; [|by apply Hidle].
    intros id p. cbn. rewrite Hocc, He, place_with_sched by done. done.
Qed.

Lemma exact_head L w id p : exact ((id, p) :: L) w -> place w id = Some p.
Proof.
  intros [He _]. specialize (He id p). cbn in He. unfold single in He.
  rewrite (bool_decide_true (id = id)), (bool_decide_true (p = p)) in He by done.
  case_bool_decide; [done|lia].
Qed.

(** A thread taken out of its place takes on a new state with place [p']. *)
Lemma inv_moved b L w id p r st tgt reason p' :
  sched_inv b ((id, p) :: L) w -> threads (sched w) !! id = Some r -> place_of st tgt = Some p' ->
  sched_inv b ((id, p') :: L) (moved_to w r st tgt reason).
Proof.
  intros [Hreg Hq Htok Hnamed Hex] Hr Hp'. constructor; cbn.
  - by apply registered_moved.
  - done.
  - done.
  - intros i p0 Hpos. destruct (decide (i = id)) as [->|Hne]; [eauto|].
    apply (Hnamed i p0). cbn. occ_cases.
  - intros Hb. destruct (Hex Hb) as [He Hidle]. split; [|done]. intros i p0. cbn.
    rewrite (place_moved w id) by done. specialize (He i p0) as Hi. cbn in Hi.
    destruct (decide (i = id)) as [->|Hne].
    + rewrite (bool_decide_true (id = id)) by done. rewrite Hp'.
      rewrite (exact_head L w id p) in Hi by (by apply Hex). occ_cases.
    + rewrite (bool_decide_false (i = id)) by done. occ_cases.
Qed.

(** Thread [id] takes on a new state and is named exactly at its new place,
    wherever it was; the other threads stay. *)
Lemma inv_relocate b L L' w s id r st tgt reason p' :
  sched_inv b L w -> threads (sched w) !! id = Some r -> place_of st tgt = Some p' ->
  threads s = threads (sched w) ->
  length (runnable_queues s) = length (runnable_queues (sched w)) ->
  (forall token, is_Some (waiting_timers s !! token) -> token < next_wake_token s) ->
  (forall i p, i <> id ->
     (occurs s i p + pending L' i p)%nat = (occurs (sched w) i p + pending L i p)%nat) ->
  (b = true -> idle_ok s /\
     forall p, (occurs s id p + pending L' id p)%nat = if bool_decide (p = p') then 1%nat else 0%nat) ->
  sched_inv b L' (moved_to (with_sched w s) r st tgt reason).
Proof.
  intros [Hreg Hq Htok Hnamed Hex] Hr Hp' Hth Hlen Htok' Hother Hself.
  assert (registered_ok (with_sched w s)) as Hreg' by (intros j rj; cbn; rewrite Hth; apply Hreg).
  constructor; cbn.
  - by apply registered_moved.
  - by rewrite Hlen.
  - done.
  - intros i p Hpos. rewrite Hth. destruct (decide (i = id)) as [->|Hne]; [eauto|].
    apply (Hnamed i p). by rewrite <- Hother.
  - intros Hb. destruct (Hself Hb) as [Hidle Hid], (Hex Hb) as [He _]. split; [|done].
    intros i p. cbn. rewrite (place_moved _ id) by (done || (cbn; by rewrite Hth)).
    destruct (decide (i = id)) as [->|Hne].
    + rewrite (bool_decide_true (id = id)), Hid, Hp' by done. occ_cases.
    + rewrite (bool_decide_false (i = id)), Hother, He, place_with_sched by done. done.
Qed.

(** Thread [id] leaves the scheduler and is named nowhere. *)
Lemma inv_unregister b L w s id :
  sched_inv b L w -> threads s = delete id (threads (sched w)) ->
  length (runnable_queues s) = length (runnable_queues (sched w)) ->
  (forall token, is_Some (waiting_timers s !! token) -> token < next_wake_token s) ->
  (forall i p, i <> id ->
     (occurs s i p + pending L i p)%nat = (occurs (sched w) i p + pending L i p)%nat) ->
  (forall p, (occurs s id p + pending L id p)%nat = 0%nat) ->
  (b = true -> idle_ok s) ->
  sched_inv b L (with_sched w s).
Proof.
  intros [Hreg Hq Htok Hnamed Hex] Hth Hlen Htok' Hother Hself Hidle. constructor; cbn.
  - intros i r. cbn. rewrite Hth, lookup_delete_Some. intros [_ Hr]. by apply Hreg.
  - by rewrite Hlen.
  - done.
  - intros i p Hpos. rewrite Hth. destruct (decide (i = id)) as [->|Hne].
    { rewrite Hself in Hpos. lia. }
    rewrite lookup_delete_ne by done. apply (Hnamed i p). by rewrite <- Hother.
  - intros Hb. split; [|by apply Hidle]. intros i p. cbn. unfold place, thread_at. cbn. rewrite Hth.
    destruct (decide (i = id)) as [->|Hne].
    + by rewrite Hself, lookup_delete_eq.
    + rewrite lookup_delete_ne, Hother by done. by apply Hex.
Qed.

(** A thread object joins the scheduler in a state without a place. *)
Lemma inv_register b L w r t st tgt reason :
  sched_inv b L w -> thread_of (objs w) r = Some t -> threads (sched w) !! thread_id t = None ->
  place_of st tgt = None ->
  let s := set_threads (sched w) (<[thread_id t := r]> (threads (sched w))) in
  sched_inv b L (moved_to (with_sched w s) r st tgt reason).
Proof.
  intros [Hreg Hq Htok Hnamed Hex] Ht Hnone Hpl s.
  assert (registered_ok (with_sched w s)) as Hreg'.
  { intros i r' Hr'. cbn in Hr'. destruct (decide (i = thread_id t)) as [->|Hne].
    - rewrite lookup_insert_eq in Hr'. injection Hr' as <-. eauto.
    - rewrite lookup_insert_ne in Hr' by done. by apply Hreg. }
  constructor; cbn.
  - by apply registered_moved.
  - done.
  - done.
  - intros i p Hpos. destruct (decide (i = thread_id t)) as [->|Hne].
    + rewrite lookup_insert_eq. eauto.
    + rewrite lookup_insert_ne by done. by apply (Hnamed i p).
  - intros Hb. destruct (Hex Hb) as [He Hidle]. split; [|done]. intros i p. cbn.
    rewrite (place_moved _ (thread_id t)) by (done || (cbn; by rewrite lookup_insert_eq)).
    change (occurs _ i p) with (occurs (sched w) i p). rewrite He.
    unfold place, thread_at. cbn. destruct (decide (i = thread_id t)) as [->|Hne].
    + rewrite (bool_decide_true (thread_id t = _)), Hpl, Hnone by done. done.
    + rewrite (bool_decide_false (i = _)), lookup_insert_ne by done. done.
Qed.

(** Changing state within the same place. *)
Lemma inv_stay b L w id r st tgt reason :
  sched_inv b L w -> threads (sched w) !! id = Some r ->
  (b = true -> place_of st tgt = place w id) ->
  sched_inv b L (moved_to w r st tgt reason).
Proof.
  intros [Hreg Hq Htok Hnamed Hex] Hr Hp. constructor; cbn; [by apply registered_moved|done..|].
  intros Hb. destruct (Hex Hb) as [He Hidle]. split; [|done]. intros i p. cbn.
  rewrite (place_moved w id) by done. rewrite He.
  destruct (decide (i = id)) as [->|Hne].
  - by rewrite (bool_decide_true (id = id)), Hp by done.
  - by rewrite (bool_decide_false (i = id)) by done.
Qed.

End moves.

Create Rewrite HintDb wps.
#[export] Hint Rewrite @wp_bind @wp_try @wp_ret wp_get wp_transition wp_decision wp_modify_with
  sched_with sched_moved with_with with_moved : wps.

(** ** What the table updates do to the counts *)

Section updates.
Implicit Types (s : SchedulerState) (h : Hooks).

Lemma cpu_index_lt h : (current_cpu_index h < RUNNABLE_QUEUE_CPUS)%nat.
Proof.
  unfold current_cpu_index, RUNNABLE_QUEUE_CPUS. destruct (current_cpu_hook h); [|lia].
  apply Nat.mod_upper_bound. lia.
Qed.

Lemma queued_push h id s i :
  length (runnable_queues s) = RUNNABLE_QUEUE_CPUS ->
  count i (queued (push_runnable_on_current_cpu h id s)) =
  (count i (queued s) + if bool_decide (i = id) then 1 else 0)%nat.
Proof.
  intros Hlen. unfold queued. cbn. apply count_concat_alter. rewrite Hlen. apply cpu_index_lt.
Qed.

Lemma occurs_push h id s i p :
  length (runnable_queues s) = RUNNABLE_QUEUE_CPUS ->
  occurs (push_runnable_on_current_cpu h id s) i p = (occurs s i p + single id PQueue i p)%nat.
Proof.
  intros Hlen. destruct p as [| |token|q key].
  - cbn. occ_cases.
  - cbn [occurs]. rewrite queued_push by done. occ_cases.
  - cbn. occ_cases.
  - destruct q; cbn; occ_cases.
Qed.

Lemma idle_push h id s :
  length (runnable_queues s) = RUNNABLE_QUEUE_CPUS -> idle_ok s ->
  idle_ok (push_runnable_on_current_cpu h id s).
Proof.
  intros Hlen Hidle i. rewrite queued_push by done. cbn.
  case_bool_decide as Hi; [subst; rewrite lookup_insert_eq; split; [lia|eauto]|].
  rewrite lookup_insert_ne, Nat.add_0_r by done. apply Hidle.
Qed.

(** Taking the next thread, from this queue or another. *)
Lemma pop_spec_queues h s :
  match pop_runnable_next h s with
  | (Some id, s') =>
      length (runnable_queues s') = length (runnable_queues s) /\
      queued_idle_ticks s' = delete id (queued_idle_ticks s) /\
      (forall i p, occurs s i p = (occurs s' i p + single id PQueue i p)%nat) /\
      threads s' = threads s /\ waiting_timers s' = waiting_timers s /\
      next_wake_token s' = next_wake_token s /\ current s' = current s /\
      (forall q, wait_map q s' = wait_map q s)
  | (None, s') => s' = s /\ queued s = []
  end.
Proof.
  unfold pop_runnable_next. pose proof (pop_first_spec (runnable_queues s)) as Hpf.
  destruct (runnable_queues s !! current_cpu_index h) as [[|id q]|] eqn:Hq;
    [destruct (pop_first _) as [[id qs]|]; [|done]..| |destruct (pop_first _) as [[id qs]|]; [|done]].
  all: try destruct Hpf as [Hlen Hc]; cbn; rewrite ?length_insert; (split_and!; [done|done| |done..]).
  all: intros i [| |token|[] key]; cbn; try (occ_cases; done).
  all: unfold queued in *; cbn.
  1, 3: rewrite Hc; occ_cases.
  pose proof (count_concat_insert i _ _ _ q Hq) as Hins. rewrite count_cons in Hins. occ_cases.
Qed.

Lemma idle_pop h s id s' :
  pop_runnable_next h s = (Some id, s') -> (count id (queued s) <= 1)%nat -> idle_ok s -> idle_ok s'.
Proof.
  intros Hp Hone Hidle i. pose proof (pop_spec_queues h s) as Hs. rewrite Hp in Hs.
  destruct Hs as (_ & -> & Hocc & _). specialize (Hocc i PQueue) as Hi. cbn in Hi.
  unfold single in Hi. rewrite (bool_decide_true (PQueue = PQueue)) in Hi by done.
  case_bool_decide as Heq.
  - subst i. rewrite lookup_delete_eq. split; [by intros []|lia].
  - rewrite lookup_delete_ne by done. rewrite (Hidle i). lia.
Qed.

Lemma occurs_wait_map q s m i p :
  occurs (set_wait_map q s m) i p =
  match p with
  | PWait q' key => if bool_decide (q' = q) then count i (default [] (m !! key)) else occurs s i p
  | _ => occurs s i p
  end.
Proof. destruct q, p as [| |token|[] key]; try done; by case_bool_decide. Qed.

Lemma set_wait_map_frame q s m :
  threads (set_wait_map q s m) = threads s /\ runnable_queues (set_wait_map q s m) = runnable_queues s /\
  waiting_timers (set_wait_map q s m) = waiting_timers s /\
  next_wake_token (set_wait_map q s m) = next_wake_token s /\
  queued_idle_ticks (set_wait_map q s m) = queued_idle_ticks s /\
  current (set_wait_map q s m) = current s.
Proof. by destruct q. Qed.

End updates.

(** ** Steps of the operations *)

Section steps.
Implicit Types (w : Sys) (h : Hooks) (L : list (Z * Place)).

Lemma inv_take_current b L w id :
  sched_inv b L w -> current (sched w) = Some id ->
  sched_inv b ((id, PCurrent) :: L) (with_sched w (set_current (sched w) None)).
Proof.
  intros Hinv Hc. eapply inv_tables; [exact Hinv| |done|done|apply Hinv|apply Hinv].
  intros i [| |token|[] key]; cbn; rewrite ?Hc; occ_cases.
Qed.

Lemma inv_put_current b L w id :
  sched_inv b ((id, PCurrent) :: L) w -> current (sched w) = None ->
  sched_inv b L (with_sched w (set_current (sched w) (Some id))).
Proof.
  intros Hinv Hc. eapply inv_tables; [exact Hinv| |done|done|apply Hinv|apply Hinv].
  intros i [| |token|[] key]; cbn; rewrite ?Hc; occ_cases.
Qed.

Lemma inv_push b L w h id :
  sched_inv b ((id, PQueue) :: L) w ->
  sched_inv b L (with_sched w (push_runnable_on_current_cpu h id (sched w))).
Proof.
  intros Hinv. pose proof (inv_queues _ _ _ Hinv) as Hq.
  eapply inv_tables; [exact Hinv| |done| |apply Hinv|].
  - intros i p. rewrite occurs_push by done. cbn. lia.
  - cbn. by rewrite length_alter.
  - intros Hb. apply idle_push; [done|]. by apply (inv_exact _ _ _ Hinv).
Qed.

(** Replace the waiters of [key] in map [q]. *)
Lemma inv_wait_set b L L' w q key m :
  sched_inv b L w ->
  (forall k, k <> key -> m !! k = wait_map q (sched w) !! k) ->
  (forall i, (count i (default [] (m !! key)) + pending L' i (PWait q key))%nat =
             (count i (default [] (wait_map q (sched w) !! key)) + pending L i (PWait q key))%nat) ->
  (forall i p, p <> PWait q key -> pending L' i p = pending L i p) ->
  sched_inv b L' (with_sched w (set_wait_map q (sched w) m)).
Proof.
  intros Hinv Hm Hkey Hother. destruct (set_wait_map_frame q (sched w) m) as (Ht & Hr & Hwt & Hn & Hi & _).
  eapply inv_tables; [exact Hinv| |done|by rewrite Hr| |].
  - intros i p. rewrite occurs_wait_map. destruct (decide (p = PWait q key)) as [->|Hne].
    { rewrite bool_decide_true by done. by rewrite Hkey. }
    rewrite Hother by done. destruct p as [| |token|q' k]; try done.
    case_bool_decide; [subst q'|done]. cbn. rewrite Hm; [done|congruence].
  - rewrite Hwt, Hn. apply Hinv.
  - intros Hb i. unfold queued. rewrite Hi, Hr. by apply (inv_exact _ _ _ Hinv).
Qed.

Lemma inv_enqueue_waiter b L w q key id :
  sched_inv b ((id, PWait q key) :: L) w ->
  sched_inv b L (with_sched w (enqueue_waiter q key id (sched w))).
Proof.
  intros Hinv. eapply inv_wait_set; [exact Hinv|..].
  - intros k Hk. by rewrite lookup_insert_ne.
  - intros i. rewrite lookup_insert_eq. cbn. rewrite count_app, count_cons, count_nil. occ_cases.
  - intros i p Hp. cbn. occ_cases.
Qed.

(** The waiters of a key, as pending entries. *)
Definition waiters_at (q : WaitQueue) (key : Z) (l : list Z) : list (Z * Place) :=
  (fun id => (id, PWait q key)) <$> l.

Lemma pending_waiters q key l L i p :
  pending (waiters_at q key l ++ L) i p =
  ((if bool_decide (p = PWait q key) then count i l else 0) + pending L i p)%nat.
Proof.
  induction l as [|id l IH]; [by case_bool_decide|]. cbn. unfold waiters_at in IH.
  rewrite IH, count_cons. occ_cases.
Qed.

(** Take waiters [pre] out of the queue of [key], leaving [rest]. *)
Lemma inv_take_waiters b L w q key pre rest m :
  sched_inv b L w -> default [] (wait_map q (sched w) !! key) = pre ++ rest ->
  (forall k, k <> key -> m !! k = wait_map q (sched w) !! k) -> default [] (m !! key) = rest ->
  sched_inv b (waiters_at q key pre ++ L) (with_sched w (set_wait_map q (sched w) m)).
Proof.
  intros Hinv Hold Hm Hnew. eapply inv_wait_set; [exact Hinv|done|..].
  - intros i. rewrite Hold, Hnew, pending_waiters, count_app.
    rewrite bool_decide_true by done. lia.
  - intros i p Hp. rewrite pending_waiters, bool_decide_false by done. done.
Qed.

Lemma inv_timer_insert b L w token id :
  sched_inv b ((id, PTimer token) :: L) w -> waiting_timers (sched w) !! token = None ->
  token < next_wake_token (sched w) ->
  sched_inv b L (with_sched w (set_waiting_timers (sched w)
                                 (<[token := id]> (waiting_timers (sched w))))).
Proof.
  intros Hinv Hnone Hlt. eapply inv_tables; [exact Hinv| |done|done| |apply Hinv].
  - intros i [| |token'|[] key]; cbn; try (occ_cases; done).
    destruct (decide (token' = token)) as [->|Hne].
    + rewrite lookup_insert_eq, Hnone. occ_cases.
    + rewrite lookup_insert_ne by done. occ_cases.
  - intros token'. cbn. destruct (decide (token' = token)) as [->|Hne]; [done|].
    rewrite lookup_insert_ne by done. apply Hinv.
Qed.

Lemma inv_timer_take b L w token id :
  sched_inv b L w -> waiting_timers (sched w) !! token = Some id ->
  sched_inv b ((id, PTimer token) :: L)
    (with_sched w (set_waiting_timers (sched w) (delete token (waiting_timers (sched w))))).
Proof.
  intros Hinv Hid. eapply inv_tables; [exact Hinv| |done|done| |apply Hinv].
  - intros i [| |token'|[] key]; cbn; try (occ_cases; done).
    destruct (decide (token' = token)) as [->|Hne].
    + rewrite lookup_delete_eq, Hid. occ_cases.
    + rewrite lookup_delete_ne by done. occ_cases.
  - intros token' [x Hx]. cbn in Hx. apply lookup_delete_Some in Hx as [_ Hx].
    cbn. eapply Hinv. eauto.
Qed.

Lemma inv_drop_pending L w id p : sched_inv false ((id, p) :: L) w -> sched_inv false L w.
Proof.
  intros [Hreg Hq Htok Hnamed _]. constructor; [done..| |done].
  intros i p0 Hpos. apply (Hnamed i p0). cbn. lia.
Qed.

Lemma inv_add_pending L w id p :
  sched_inv false L w -> is_Some (threads (sched w) !! id) -> sched_inv false ((id, p) :: L) w.
Proof.
  intros [Hreg Hq Htok Hnamed _] Hid. constructor; [done..| |done].
  intros i p0 Hpos. cbn in Hpos. destruct (decide (i = id)) as [->|Hne]; [done|].
  apply (Hnamed i p0). occ_cases.
Qed.

(** What [push_runnable_if_absent] does: only thread [id] is affected, and it
    ends up in a run queue. *)
Record pushed (id : Z) (s s' : SchedulerState) : Prop := {
  pushed_threads : threads s' = threads s;
  pushed_current : current s' = current s;
  pushed_waits : forall q, wait_map q s' = wait_map q s;
  pushed_timers : waiting_timers s' = waiting_timers s;
  pushed_token : next_wake_token s' = next_wake_token s;
  pushed_length : length (runnable_queues s') = length (runnable_queues s);
  pushed_other : forall i p, i <> id -> occurs s' i p = occurs s i p;
  pushed_queued : (0 < count id (queued s'))%nat;
  pushed_new : count id (queued s) = 0%nat ->
    (forall p, occurs s' id p = (occurs s id p + single id PQueue id p)%nat) /\
    (idle_ok s -> idle_ok s');
  pushed_old : (0 < count id (queued s))%nat -> s' = s;
}.

Lemma push_if_absent_spec h id s :
  length (runnable_queues s) = RUNNABLE_QUEUE_CPUS ->
  pushed id s (push_runnable_if_absent h id s).
Proof.
  intros Hlen. unfold push_runnable_if_absent. destruct (runnable_contains s id) eqn:Hrc.
  - apply runnable_contains_spec, count_pos in Hrc. constructor; try done. lia.
  - assert (count id (queued s) = 0%nat) as Hz.
    { apply count_zero. intros Hin%runnable_contains_spec. congruence. }
    constructor; try done.
    + cbn. by rewrite length_alter.
    + intros i p Hne. rewrite occurs_push by done. occ_cases.
    + rewrite queued_push, bool_decide_true by done. lia.
    + intros _. split; [|by apply idle_push]. intros p. by rewrite occurs_push.
    + lia.
Qed.

Lemma pushed_stays id s s' i :
  pushed id s s' -> (0 < count i (queued s))%nat -> (0 < count i (queued s'))%nat.
Proof.
  intros Hpush Hi. destruct (decide (i = id)) as [->|Hne]; [by apply Hpush|].
  pose proof (pushed_other _ _ _ Hpush i PQueue Hne) as Ho. cbn in Ho. lia.
Qed.

Lemma wp_wake_run w h id r reason Q :
  registered_ok w -> threads (sched w) !! id = Some r ->
  length (runnable_queues (sched w)) = RUNNABLE_QUEUE_CPUS ->
  wp (wake h id r reason) Q w <->
  Q tt (moved_to (with_sched w (push_runnable_if_absent h id (sched w))) r Runnable None (Some reason)).
Proof.
  intros Hreg Hr Hlen. unfold wake. rewrite wp_bind, wp_modify.
  destruct (push_if_absent_spec h id (sched w) Hlen) as [Ht _ _ _ _ _ _ _ _ _].
  rewrite (wp_expect_transition id); [done| |by cbn; rewrite Ht].
  intros j rj. cbn. rewrite Ht. apply Hreg.
Qed.

(** A pending thread becomes runnable. *)
Lemma wp_wake b L w h id p r reason (Q : unit -> Sys -> Prop) :
  sched_inv b ((id, p) :: L) w -> threads (sched w) !! id = Some r ->
  (forall w', sched_inv b L w' -> pushed id (sched w) (sched w') -> clock w' = clock w ->
     (forall j, thread_at w' j = if bool_decide (j = id)
        then (fun t => ThreadObject.transition_to t Runnable None (Some reason)) <$> thread_at w j
        else thread_at w j) -> Q tt w') ->
  wp (wake h id r reason) Q w.
Proof.
  intros Hinv Hr HQ. pose proof (inv_queues _ _ _ Hinv) as Hlen.
  rewrite wp_wake_run by (done || apply Hinv).
  pose proof (push_if_absent_spec h id (sched w) Hlen) as Hpush.
  set (s := push_runnable_if_absent h id (sched w)) in *.
  apply HQ; [|done|done|].
  - eapply (inv_relocate b ((id, p) :: L) L w s id);
      [done|done|done|by apply Hpush|by apply Hpush| | |].
    + intros token. rewrite (pushed_timers _ _ _ Hpush), (pushed_token _ _ _ Hpush). apply Hinv.
    + intros i pl Hne. rewrite (pushed_other _ _ _ Hpush) by done. cbn. occ_cases.
    + intros Hb. destruct (inv_exact _ _ _ Hinv Hb) as [He Hidle].
      pose proof (exact_head _ _ _ _ (inv_exact _ _ _ Hinv Hb)) as Hpl.
      assert (forall pl, occurs (sched w) id pl = 0%nat /\ pending L id pl = 0%nat) as Hzero.
      { intros pl. specialize (He id pl). cbn in He. rewrite Hpl in He. occ_cases. }
      destruct (pushed_new _ _ _ Hpush) as [Hocc Hi]; [apply (Hzero PQueue)|].
      split; [by apply Hi|]. intros pl. rewrite Hocc. destruct (Hzero pl) as [Ho Hp].
      rewrite Ho, Hp. occ_cases.
  - intros j. unfold thread_at. cbn. rewrite (pushed_threads _ _ _ Hpush).
    destruct (threads (sched w) !! j) as [rj|] eqn:Hj; cbn; [|by case_bool_decide].
    rewrite thread_of_set. destruct (decide (j = id)) as [->|Hne].
    + rewrite !bool_decide_true by (done || congruence). done.
    + rewrite !bool_decide_false; [done|done|]. intros ->. apply Hne.
      eapply registered_inj; [apply Hinv|done|done].
Qed.

End steps.
