(* ===== verification/SchedOps.v ===== *)
(** * The operations keep the invariant

    One lemma per scheduler operation: from a state that satisfies the
    invariant of [SchedInv] it does not panic, does not report an unregistered
    thread, and leads to such a state again. *)

From S2P Require Import Prelude Arrays Time Task Objects SchedTypes Scheduler SchedInv.
From stdpp Require Import base list gmap.
From Stdlib Require Import ZArith Lia.

#[local] Open Scope Z_scope.
#[local] Open Scope sched_scope.
Import SchedulerState.

(** What every operation guarantees. *)
Abbreviation keeps b m w :=
  (wp m (fun r w' => r <> Err InvalidThread /\ sched_inv b [] w' /\ work_conserving w') w).

Section scheduling.
Implicit Types (w : Sys) (h : Hooks) (L : list (Z * Place)).

Lemma inv_pending_registered b L w id p :
  sched_inv b ((id, p) :: L) w -> exists r, threads (sched w) !! id = Some r.
Proof.
  intros Hinv. apply (inv_named _ _ _ Hinv id p). cbn. unfold single.
  rewrite !bool_decide_true by done. lia.
Qed.

Lemma inv_current_registered b L w id :
  sched_inv b L w -> current (sched w) = Some id -> exists r, threads (sched w) !! id = Some r.
Proof.
  intros Hinv Hc. apply (inv_named _ _ _ Hinv id PCurrent). cbn.
  rewrite bool_decide_true by done. lia.
Qed.

Lemma inv_pop b L w h id s :
  sched_inv b L w -> pop_runnable_next h (sched w) = (Some id, s) ->
  sched_inv b ((id, PQueue) :: L) (with_sched w s).
Proof.
  intros Hinv Hp. pose proof (pop_spec_queues h (sched w)) as Hs. rewrite Hp in Hs.
  destruct Hs as (Hlen & _ & Hocc & Ht & Hwt & Hn & _).
  eapply inv_tables; [exact Hinv| |done|done| |].
  - intros i p. cbn. rewrite (Hocc i p). lia.
  - rewrite Hwt, Hn. apply Hinv.
  - intros Hb. destruct (inv_exact _ _ _ Hinv Hb) as [He Hidle].
    eapply idle_pop; [done| |done]. specialize (He id PQueue). cbn in He. case_bool_decide; lia.
Qed.

(** A thread taken from a run queue becomes the current one. *)
Lemma wp_run_thread b L w trigger previous id :
  sched_inv b ((id, PQueue) :: L) w -> current (sched w) = None ->
  wp (run_thread trigger previous id)
    (fun r w' => r = Ok tt /\ sched_inv b L w' /\ current (sched w') = Some id /\
                 threads (sched w') = threads (sched w) /\ clock w' = clock w /\
                 (forall q, wait_map q (sched w') = wait_map q (sched w)) /\
                 queued (sched w') = queued (sched w)) w.
Proof.
  intros Hinv Hc. destruct (inv_pending_registered _ _ _ _ _ Hinv) as [r Hr].
  unfold run_thread. rewrite wp_try, (wp_lookup_thread id r) by (done || apply Hinv). wp_steps.
  assert (forall s, threads s = threads (sched w) -> runnable_queues s = runnable_queues (sched w) ->
    waiting_timers s = waiting_timers (sched w) -> next_wake_token s = next_wake_token (sched w) ->
    queued_idle_ticks s = queued_idle_ticks (sched w) -> current s = Some id ->
    (forall q, wait_map q s = wait_map q (sched w)) ->
    sched_inv b L (moved_to (with_sched w s) r Running None (Some (trigger_to_wake_reason trigger))))
    as Hrun.
  { intros s Ht Hq Hwt Hn Hi Hcs Hwm.
    assert (forall i p, occurs s i p = (occurs (sched w) i p + single id PCurrent i p)%nat) as Hocc.
    { intros i [| |token|q key]; cbn; unfold queued;
        rewrite ?Hcs, ?Hc, ?Hq, ?Hwt, ?Hwm; occ_cases. }
    eapply (inv_relocate b ((id, PQueue) :: L)); [done|done|done|done|by rewrite Hq| | |].
    - intros token. rewrite Hwt, Hn. apply Hinv.
    - intros i p Hne. rewrite Hocc. cbn. occ_cases.
    - intros Hb. pose proof (inv_exact _ _ _ Hinv Hb) as Hex.
      pose proof (exact_head _ _ _ _ Hex) as Hpl. destruct Hex as [He Hidle]. split.
      + intros i. unfold queued. rewrite Hi, Hq. apply Hidle.
      + intros p. rewrite Hocc. specialize (He id p). cbn in He. rewrite Hpl in He. occ_cases. }
  case_bool_decide; wp_steps; (split_and!; [done|by apply Hrun|done..]).
Qed.

Lemma wp_schedule_next b L w h trigger previous
    (Q : result ScheduleDecision SchedulerError -> Sys -> Prop) :
  sched_inv b L w -> current (sched w) = None ->
  (forall d w', sched_inv b L w' -> work_conserving w' -> threads (sched w') = threads (sched w) ->
     current (sched w') = next d -> clock w' = clock w ->
     (forall q, wait_map q (sched w') = wait_map q (sched w)) ->
     (forall i, (0 < count i (queued (sched w)))%nat ->
        (0 < count i (queued (sched w')))%nat \/ current (sched w') = Some i) -> Q (Ok d) w') ->
  wp (schedule_next_locked h trigger previous) Q w.
Proof.
  intros Hinv Hc HQ. unfold schedule_next_locked. rewrite wp_bind. unfold wp at 1, pop_next.
  pose proof (pop_spec_queues h (sched w)) as Hs.
  destruct (pop_runnable_next h (sched w)) as [[id|] s] eqn:Hp.
  - destruct Hs as (_ & _ & Hocc & Ht & _ & _ & Hcs & Hws). rewrite wp_try.
    eapply wp_mono; [apply (wp_run_thread b L); [by eapply inv_pop|cbn; congruence]|].
    intros [[]|e] w' (He & Hinv' & Hcur & Ht' & Hck & Hwm & Hqs); [|done]. unfold ok. wp_steps.
    apply HQ; [done| |by rewrite Ht'|done|done| |].
    + intros Hnone. congruence.
    + intros q. by rewrite Hwm, <- Hws.
    + intros i Hi. rewrite Hqs. specialize (Hocc i PQueue). cbn in Hocc. cbn.
      destruct (decide (i = id)) as [->|Hne]; [by right|]. left. occ_cases.
  - destruct Hs as [-> Hq]. rewrite wp_try, wp_ret. unfold ok. wp_steps.
    apply HQ; [by destruct w|by intros _|done|done|done|done|by auto].
Qed.

Lemma keeps_schedule b w h trigger previous :
  sched_inv b [] w -> current (sched w) = None ->
  keeps b (schedule_next_locked h trigger previous) w.
Proof. intros Hinv Hc. apply (wp_schedule_next b []); [done|done|]. intros. split_and!; done. Qed.

Lemma keeps_decision b w trigger previous next :
  sched_inv b [] w -> work_conserving w -> keeps b (ok (decision trigger previous next)) w.
Proof. intros. unfold ok. wp_steps. done. Qed.

(** Taking the current thread off the processor into state [st]. *)
Lemma inv_leave_current b w id r st tgt reason p :
  sched_inv b [] w -> current (sched w) = Some id -> threads (sched w) !! id = Some r ->
  place_of st tgt = Some p ->
  sched_inv b [(id, p)] (moved_to (with_sched w (set_current (sched w) None)) r st tgt reason).
Proof.
  intros Hinv Hc Hr Hp. apply (inv_take_current _ _ _ _ Hinv) in Hc. by apply (inv_moved b [] _ id PCurrent).
Qed.

Lemma keeps_block_on b w h q key id target :
  sched_inv b [] w -> current (sched w) = Some id ->
  place_of Blocked (Some target) = Some (PWait q key) ->
  keeps b (block_on h q key id target) w.
Proof.
  intros Hinv Hc Hp. destruct (inv_current_registered _ _ _ _ Hinv Hc) as [r Hr].
  unfold block_on. rewrite wp_try, (wp_lookup_thread id r) by (done || apply Hinv). wp_steps.
  pose proof (inv_leave_current b w id r Blocked (Some target) None _ Hinv Hc Hr Hp) as Hinv1.
  apply inv_enqueue_waiter in Hinv1. apply keeps_schedule; [exact Hinv1|].
  by destruct (set_wait_map_frame q (set_current (sched w) None)
    (<[key := default [] (wait_map q (set_current (sched w) None) !! key) ++ [id]]>
       (wait_map q (set_current (sched w) None)))) as (_ & _ & _ & _ & _ & ?).
Qed.

Lemma wp_requeue b w h id (Q : result unit SchedulerError -> Sys -> Prop) :
  sched_inv b [] w -> current (sched w) = Some id ->
  (forall w', sched_inv b [] w' -> current (sched w') = None -> Q (Ok tt) w') ->
  wp (Scheduler.requeue_current h (Some id)) Q w.
Proof.
  intros Hinv Hc HQ. destruct (inv_current_registered _ _ _ _ Hinv Hc) as [r Hr].
  unfold Scheduler.requeue_current.
  rewrite wp_try, (wp_lookup_thread id r) by (done || apply Hinv). wp_steps.
  pose proof (inv_leave_current b w id r Runnable None (Some WakeYield) _ Hinv Hc Hr eq_refl) as Hinv1.
  apply (inv_push _ _ _ h) in Hinv1. by apply HQ.
Qed.

Lemma inv_preemption b L w x :
  sched_inv b L w -> sched_inv b L (with_sched w (set_preemption_pending (sched w) x)).
Proof. intros Hinv. by eapply inv_tables; [exact Hinv|done|done|done|apply Hinv|apply Hinv]. Qed.

Lemma keeps_yield b w h :
  sched_inv b [] w -> work_conserving w -> keeps b (Scheduler.yield_current h) w.
Proof.
  intros Hinv Hwc. unfold Scheduler.yield_current. rewrite wp_bind, wp_get.
  destruct (current (sched w)) as [id|] eqn:Hc; rewrite wp_try.
  - apply (wp_requeue b); [done|done|]. intros w' Hinv' Hc'. by apply keeps_schedule.
  - unfold Scheduler.requeue_current. rewrite wp_ret. by apply keeps_schedule.
Qed.

Lemma keeps_preempt b w h :
  sched_inv b [] w -> work_conserving w -> keeps b (Scheduler.preempt_current_if_needed h) w.
Proof.
  intros Hinv Hwc. unfold Scheduler.preempt_current_if_needed. rewrite wp_bind, wp_get.
  destruct (preemption_pending (sched w)); cbn [negb]; [|by apply keeps_decision].
  destruct (current (sched w)) as [id|] eqn:Hc; rewrite wp_try.
  - apply (wp_requeue b); [done|done|]. intros w' Hinv' Hc'. rewrite wp_bind, wp_modify.
    apply keeps_schedule; [by apply inv_preemption|done].
  - unfold Scheduler.requeue_current. rewrite wp_ret, wp_bind, wp_modify.
    apply keeps_schedule; [by apply inv_preemption|done].
Qed.

(** The operations that block the current thread in a wait queue. *)
Lemma keeps_block b w h q key target :
  sched_inv b [] w -> work_conserving w ->
  place_of Blocked (Some target) = Some (PWait q key) ->
  keeps b (s ← get;
           match current s with
           | None => ok (decision TBlocked None None)
           | Some current => block_on h q key current target
           end) w.
Proof.
  intros Hinv Hwc Hp. rewrite wp_bind, wp_get.
  destruct (current (sched w)) as [id|] eqn:Hc; [by apply keeps_block_on|by apply keeps_decision].
Qed.

End scheduling.

(** ** A wakeup that raced the block *)

Section raced.
Implicit Types (w : Sys) (h : Hooks).

Lemma pop_current_irrelevant h s c :
  pop_runnable_next h (set_current s c) =
  ((pop_runnable_next h s).1, set_current (pop_runnable_next h s).2 c).
Proof.
  unfold pop_runnable_next. cbn.
  destruct (runnable_queues s !! current_cpu_index h) as [[|id q]|]; [|done|];
    by destruct (pop_first (runnable_queues s)) as [[id' qs]|].
Qed.

(** With a thread to run, [schedule_next_locked] overwrites the current one. *)
Lemma schedule_overwrites h trigger previous w c :
  registered_ok w -> (forall id, id ∈ queued (sched w) -> is_Some (threads (sched w) !! id)) ->
  queued (sched w) <> [] ->
  schedule_next_locked h trigger previous (with_sched w (set_current (sched w) c)) =
  schedule_next_locked h trigger previous (with_sched w (set_current (sched w) None)).
Proof.
  intros Hreg Hall Hne. pose proof (pop_spec_queues h (sched w)) as Hs.
  unfold schedule_next_locked, mbind, K_bind, pop_next. cbn [sched with_sched].
  rewrite !pop_current_irrelevant. destruct (pop_runnable_next h (sched w)) as [[id|] s] eqn:Hp;
    [|by destruct Hs]. cbn [fst snd].
  destruct Hs as (_ & _ & Hocc & Ht & _).
  destruct (Hall id) as [r Hr].
  { apply count_pos. specialize (Hocc id PQueue). cbn in Hocc. unfold single in Hocc.
    rewrite !bool_decide_true in Hocc by done. lia. }
  destruct (registered_thread w id r Hreg Hr) as [t Htr].
  unfold try_bind, run_thread, mbind, K_bind, lookup_thread, try_bind, mbind, K_bind.
  cbn [sched objs threads set_current with_sched]. rewrite Ht, Hr, Htr. cbn.
  by case_bool_decide.
Qed.

Lemma occurs_set_current s c i p :
  occurs (set_current s c) i p =
  match p with PCurrent => if bool_decide (c = Some i) then 1%nat else 0%nat | _ => occurs s i p end.
Proof. by destruct p as [| | |[]]. Qed.

Lemma keeps_schedule_stale b w h trigger previous :
  sched_inv b [] (with_sched w (set_current (sched w) None)) -> queued (sched w) <> [] ->
  keeps b (schedule_next_locked h trigger previous) w.
Proof.
  intros Hinv Hne. pose proof (keeps_schedule b _ h trigger previous Hinv eq_refl) as Hk.
  assert (schedule_next_locked h trigger previous w =
          schedule_next_locked h trigger previous (with_sched w (set_current (sched w) None))) as Heq.
  { transitivity (schedule_next_locked h trigger previous
      (with_sched w (set_current (sched w) (current (sched w))))); [by destruct w as [[] ? ? ?]|].
    apply schedule_overwrites; [| |done].
    - intros id r Hr. by apply (inv_registered _ _ _ Hinv).
    - intros id Hin. apply (inv_named _ _ _ Hinv id PQueue). cbn. apply count_pos in Hin.
      unfold queued in *. cbn. lia. }
  unfold wp in *. by rewrite Heq.
Qed.

Lemma keeps_input b w h source :
  sched_inv b [] w -> work_conserving w ->
  keeps b (Scheduler.block_current_on_input_receive h source) w.
Proof.
  intros Hinv Hwc. unfold Scheduler.block_current_on_input_receive. rewrite wp_bind.
  assert (forall l, sched_inv b [] (mkSys (sched w) (objs w) (clock w) l)) as Hl.
  { intros l. destruct Hinv. by constructor. }
  assert (forall raced l, keeps b (s ← get;
      match current s with
      | None => ok (decision TBlocked None None)
      | Some current =>
          thread ←? lookup_thread current;
          if raced : bool then
            transition_to thread Runnable None (Some WakeInputReady);;
            modify (push_runnable_if_absent h current);;
            schedule_next_locked h TInputWake (Some current)
          else block_on h Inputs source current (InputReceive source)
      end) (mkSys (sched w) (objs w) (clock w) l)) as Hmain.
  { intros raced l. specialize (Hl l). rewrite wp_bind, wp_get. cbn [sched].
    destruct (current (sched w)) as [id|] eqn:Hc; [|by apply keeps_decision].
    destruct (inv_current_registered _ _ _ _ Hl Hc) as [r Hr]. cbn in Hr.
    rewrite wp_try, (wp_lookup_thread id r) by (done || apply Hl).
    destruct raced; [|by apply keeps_block_on].
    rewrite wp_bind, wp_transition, wp_bind, wp_modify. cbn [sched objs clock latches moved_to].
    pose proof (push_if_absent_spec h id (sched w) (inv_queues _ _ _ Hinv)) as Hpush.
    set (s := push_runnable_if_absent h id (sched w)) in *.
    apply keeps_schedule_stale.
    - eapply (inv_relocate b [] [] (mkSys (sched w) (objs w) (clock w) l) (set_current s None) id);
        [done|done|done|by apply Hpush|by apply Hpush| | |].
      + intros token. cbn. rewrite (pushed_timers _ _ _ Hpush), (pushed_token _ _ _ Hpush). apply Hinv.
      + intros i p Hne. rewrite occurs_set_current. destruct p; cbn [occurs sched];
          rewrite ?(bool_decide_false (current (sched w) = Some i)) by congruence;
          [done|apply (f_equal (fun n => n + 0)%nat), (pushed_other _ _ _ Hpush i PQueue Hne)
          |apply (f_equal (fun n => n + 0)%nat), (pushed_other _ _ _ Hpush i (PTimer _) Hne)
          |apply (f_equal (fun n => n + 0)%nat), (pushed_other _ _ _ Hpush i (PWait _ _) Hne)].
      + intros Hb. destruct (inv_exact _ _ _ Hinv Hb) as [He Hidle].
        assert (place w id = Some PCurrent) as Hpl.
        { specialize (He id PCurrent). cbn in He. rewrite bool_decide_true in He by done.
          case_bool_decide; [done|lia]. }
        assert (forall p, p <> PCurrent -> occurs (sched w) id p = 0%nat) as Hzero.
        { intros p Hp. specialize (He id p). cbn in He. rewrite Hpl in He. occ_cases. }
        destruct (pushed_new _ _ _ Hpush) as [Hocc Hi]; [by apply (Hzero PQueue)|].
        split; [by apply (Hi Hidle)|]. intros p. rewrite occurs_set_current. cbn [pending].
        destruct p; rewrite ?Hocc, ?Hzero by done; occ_cases.
    - cbn. intros Hnil. pose proof (pushed_queued _ _ _ Hpush) as Hq. rewrite Hnil in Hq.
      rewrite count_nil in Hq. lia. }
  unfold Scheduler.block_current_on_input_receive, take_latch. unfold wp at 1.
  destruct (latches w !! source) as [raced|]; [apply Hmain|].
  specialize (Hmain false (latches w)). by destruct w.
Qed.

End raced.

(** ** Explicit wakeups, registration and termination *)

Section lifecycle.
Implicit Types (w : Sys) (h : Hooks) (s : SchedulerState).

Lemma drop_waiter_lookup id m key :
  default [] (drop_waiter id m !! key) = filter (fun x => x <> id) (default [] (m !! key)).
Proof.
  unfold drop_waiter. rewrite lookup_omap. destruct (m !! key) as [q|]; [|done]. cbn.
  by case_bool_decide.
Qed.

Lemma occurs_remove_waits s id i p :
  occurs (remove_from_wait_queues id s) i p =
  match p with
  | PCurrent | PQueue => occurs s i p
  | _ => if bool_decide (i = id) then 0%nat else occurs s i p
  end.
Proof.
  destruct p as [| |token|[] key]; [done|done| |exact (eq_trans (f_equal (count i)
    (drop_waiter_lookup id _ key)) (count_filter i id _))..].
  cbn. destruct (filter _ (waiting_timers s) !! token) as [x|] eqn:Hf.
  - apply map_lookup_filter_Some in Hf as [-> Hx]. cbn in Hx. occ_cases.
  - apply map_lookup_filter_None in Hf as [->|Hx];
      [rewrite !(bool_decide_false (None = Some i)) by done; by case_bool_decide|].
    rewrite (bool_decide_false (None = Some i)) by done. case_bool_decide as Hi; [done|].
    rewrite bool_decide_false; [done|]. intros Ht. by apply (Hx _ Ht).
Qed.

Lemma remove_waits_tokens s id token :
  is_Some (waiting_timers (remove_from_wait_queues id s) !! token) ->
  is_Some (waiting_timers s !! token).
Proof. cbn. intros [x [Hx _]%map_lookup_filter_Some]. eauto. Qed.

Lemma keeps_make_runnable b w h id reason :
  sched_inv b [] w -> work_conserving w ->
  (is_Some (threads (sched w) !! id) -> keeps b (Scheduler.make_runnable h id reason) w) /\
  (threads (sched w) !! id = None ->
     Scheduler.make_runnable h id reason w = Some (Err InvalidThread, w)).
Proof.
  intros Hinv Hwc. split; [intros [r Hr]|intros Hn].
  2:{ unfold Scheduler.make_runnable, mbind, K_bind, get, try_bind, lookup_thread_record, mbind, K_bind, get.
      cbn [sched]. rewrite Hn. by destruct w. }
  unfold Scheduler.make_runnable. rewrite wp_bind, wp_get, wp_try, (wp_lookup_record id r) by done.
  case_bool_decide as Hcur.
  - rewrite wp_bind, (wp_expect_transition id) by (done || apply Hinv).
    apply keeps_decision; [|intros Hnone; cbn in Hnone; congruence].
    apply (inv_stay b [] w id); [done|done|]. intros Hb.
    destruct (inv_exact _ _ _ Hinv Hb) as [He _]. specialize (He id PCurrent). cbn in He.
    rewrite bool_decide_true in He by done. case_bool_decide as Hp; [by rewrite Hp|lia].
  - rewrite wp_bind, wp_modify, wp_bind, wp_wake_run by (done || apply Hinv). cbn [sched objs clock latches].
    set (s0 := remove_from_wait_queues id (sched w)).
    pose proof (push_if_absent_spec h id s0 (inv_queues _ _ _ Hinv)) as Hpush.
    set (s := push_runnable_if_absent h id s0) in *.
    assert (sched_inv b [] (moved_to (with_sched w s) r Runnable None (Some reason))) as Hinv'.
    { eapply (inv_relocate b [] [] w s id); [done|done|done|by apply Hpush|by apply Hpush| | |].
      - intros token. rewrite (pushed_timers _ _ _ Hpush), (pushed_token _ _ _ Hpush).
        intros Ht%remove_waits_tokens. by apply Hinv.
      - intros i p Hne. rewrite (pushed_other _ _ _ Hpush) by done. unfold s0.
        rewrite occurs_remove_waits. destruct p; try done; by rewrite bool_decide_false.
      - intros Hb. destruct (inv_exact _ _ _ Hinv Hb) as [He Hidle].
        assert (occurs (sched w) id PCurrent = 0%nat) as Hc0 by (cbn; by rewrite bool_decide_false).
        pose proof (He id PQueue) as Hq. cbn in Hq.
        destruct (decide (count id (queued (sched w)) = 0%nat)) as [Hz|Hnz].
        + destruct (pushed_new _ _ _ Hpush Hz) as [Hocc Hi]. split; [by apply Hi|].
          intros p. rewrite Hocc. unfold s0. rewrite occurs_remove_waits.
          destruct p; rewrite ?Hc0, ?bool_decide_true by done; cbn [occurs]; rewrite ?Hz; occ_cases.
        + rewrite (pushed_old _ _ _ Hpush) by (unfold s0, queued in *; cbn; lia).
          split; [done|]. intros p. unfold s0. rewrite occurs_remove_waits.
          destruct p; rewrite ?Hc0, ?(bool_decide_true (id = id)) by done; (occ_cases; done). }
    case_bool_decide as Hnone.
    + apply keeps_schedule; [done|]. exact (eq_trans (pushed_current _ _ _ Hpush) Hnone).
    + apply keeps_decision; [done|]. intros Hc. exfalso. apply Hnone.
      exact (eq_trans (eq_sym (pushed_current _ _ _ Hpush)) Hc).
Qed.

Lemma keeps_register b w r t :
  sched_inv b [] w -> work_conserving w -> thread_of (objs w) r = Some t ->
  keeps b (Scheduler.register_thread r) w.
Proof.
  intros Hinv Hwc Ht. unfold Scheduler.register_thread. rewrite wp_bind.
  unfold wp at 1, thread_ref_id. rewrite Ht. cbn [mbind option_bind].
  rewrite wp_bind, wp_get. case_bool_decide as Hreg; wp_steps; [done|].
  split_and!; [done| |done]. apply eq_None_not_Some in Hreg.
  exact (inv_register b [] w r t Suspended None None Hinv Ht Hreg eq_refl).
Qed.

Lemma inv_foreign b L w r st tgt reason :
  sched_inv b L w -> (forall id, threads (sched w) !! id <> Some r) ->
  sched_inv b L (moved_to w r st tgt reason).
Proof.
  intros [Hreg Hq Htok Hnamed Hex] Hf. constructor; [by apply registered_moved|done..|].
  intros Hb. destruct (Hex Hb) as [He Hidle]. split; [|done]. intros i p.
  assert (place (moved_to w r st tgt reason) i = place w i) as ->; [|apply He].
  unfold place, thread_at. cbn. destruct (threads (sched w) !! i) as [r'|] eqn:Hr'; [|done]. cbn.
  rewrite thread_of_set, bool_decide_false; [done|]. intros ->. by apply (Hf i).
Qed.

Lemma occurs_remove_runnable s id i p :
  occurs (remove_runnable id s) i p =
  match p with
  | PQueue => if bool_decide (i = id) then 0%nat else occurs s i p
  | _ => occurs s i p
  end.
Proof. destruct p as [| | |[]]; try done. cbn. apply count_concat_filter. Qed.

Lemma idle_remove_runnable s id : idle_ok s -> idle_ok (remove_runnable id s).
Proof.
  intros Hidle i. unfold queued. cbn. rewrite count_concat_filter. case_bool_decide as Hi.
  - subst. rewrite lookup_delete_eq. split; [by intros []|lia].
  - rewrite lookup_delete_ne by done. apply Hidle.
Qed.

Lemma occurs_set_threads s m i p : occurs (set_threads s m) i p = occurs s i p.
Proof. by destruct p as [| | |[]]. Qed.

Lemma idle_ok_ext s s' :
  queued_idle_ticks s' = queued_idle_ticks s -> runnable_queues s' = runnable_queues s ->
  idle_ok s -> idle_ok s'.
Proof. intros Hi Hq Hidle i. unfold queued. rewrite Hi, Hq. apply Hidle. Qed.

(** The tables after [terminate_current] dropped thread [id]. *)
Definition without_thread s id : SchedulerState :=
  let s1 := set_current (remove_runnable id (remove_from_wait_queues id s)) None in
  set_threads s1 (delete id (threads s1)).

Lemma without_thread_frame s id :
  threads (without_thread s id) = delete id (threads s) /\
  length (runnable_queues (without_thread s id)) = length (runnable_queues s) /\
  next_wake_token (without_thread s id) = next_wake_token s /\
  waiting_timers (without_thread s id) = filter (fun p => p.2 <> id) (waiting_timers s) /\
  current (without_thread s id) = None.
Proof. split_and!; try done. cbn. by rewrite length_fmap. Qed.

Lemma without_thread_occurs s id i p :
  current s = Some id ->
  occurs (without_thread s id) i p = if bool_decide (i = id) then 0%nat else occurs s i p.
Proof.
  intros Hc. unfold without_thread.
  rewrite occurs_set_threads, occurs_set_current, occurs_remove_runnable, occurs_remove_waits.
  destruct p; try done; cbn [occurs]; rewrite ?Hc; occ_cases.
Qed.

Lemma without_thread_idle s id : idle_ok s -> idle_ok (without_thread s id).
Proof.
  intros Hidle. apply (idle_ok_ext (remove_runnable id (remove_from_wait_queues id s))); [done|done|].
  apply idle_remove_runnable. by apply (idle_ok_ext s).
Qed.

Lemma inv_terminate b w id r st tgt reason :
  sched_inv b [] w -> current (sched w) = Some id -> threads (sched w) !! id = Some r ->
  sched_inv b [] (moved_to (with_sched w (without_thread (sched w) id)) r st tgt reason).
Proof.
  intros Hinv Hc Hr. destruct (without_thread_frame (sched w) id) as (Ht & Hl & Hn & Hwt & _).
  pose proof (without_thread_occurs (sched w) id) as Hocc.
  pose proof (without_thread_idle (sched w) id) as Hidle.
  set (s := without_thread (sched w) id) in *. clearbody s. apply inv_foreign.
  - apply (inv_unregister b [] w s id); [done|done|done| | | |].
    + intros token. rewrite Hwt, Hn. intros [x [Hx _]%map_lookup_filter_Some]. apply Hinv. eauto.
    + intros i p Hne. by rewrite Hocc, bool_decide_false.
    + intros p. by rewrite Hocc, bool_decide_true.
    + intros Hb. by apply Hidle, (inv_exact _ _ _ Hinv).
  - intros i Hi. cbn in Hi. rewrite Ht in Hi. apply lookup_delete_Some in Hi as [Hne Hi]. apply Hne.
    eapply registered_inj; [apply Hinv|exact Hr|exact Hi].
Qed.

Lemma keeps_terminate b w h :
  sched_inv b [] w -> work_conserving w -> keeps b (Scheduler.terminate_current h) w.
Proof.
  intros Hinv Hwc. unfold Scheduler.terminate_current. rewrite wp_bind, wp_get.
  destruct (current (sched w)) as [id|] eqn:Hc; [|by apply keeps_decision].
  destruct (inv_current_registered _ _ _ _ Hinv Hc) as [r Hr].
  rewrite wp_try, (wp_lookup_thread id r) by (done || apply Hinv).
  autorewrite with wps. apply keeps_schedule; [|done].
  exact (inv_terminate b w id r Dying None (Some WakeExplicit) Hinv Hc Hr).
Qed.

End lifecycle.

(** ** Deadlines *)

Section deadlines.
Implicit Types (w : Sys) (h : Hooks).

Definition with_clock w s (c : option TimeState) : Sys := mkSys s (objs w) c (latches w).

Lemma inv_with_clock b L w c : sched_inv b L w -> sched_inv b L (with_clock w (sched w) c).
Proof. intros []. by constructor. Qed.

Lemma inv_next_token b L w n c :
  sched_inv b L w -> next_wake_token (sched w) <= n ->
  sched_inv b L (with_clock w (set_next_wake_token (sched w) n) c).
Proof.
  intros Hinv Hn. apply (inv_with_clock b L (with_sched w (set_next_wake_token (sched w) n))).
  eapply inv_tables; [exact Hinv| |done|done| |apply Hinv].
  - by intros i [| | |[]].
  - intros token Ht. cbn in *. apply Hinv in Ht. lia.
Qed.

Lemma wp_arm_deadline w deadline (Q : result Z SchedulerError -> Sys -> Prop) :
  (forall token n c, token = next_wake_token (sched w) -> token < n ->
     Q (Ok token) (with_clock w (set_next_wake_token (sched w) n) c)) ->
  (forall e n c, e <> InvalidThread -> next_wake_token (sched w) <= n ->
     Q (Err e) (with_clock w (set_next_wake_token (sched w) n) c)) ->
  wp (arm_deadline deadline) Q w.
Proof.
  intros Hok Herr. unfold wp, arm_deadline.
  assert (w = with_clock w (set_next_wake_token (sched w) (next_wake_token (sched w))) (clock w)) as Hw
    by (by destruct w as [[] ? ? ?]).
  destruct (checked_add U64_MAX (next_wake_token (sched w)) 1) as [n|] eqn:Hn;
    [|rewrite Hw; by apply Herr].
  apply checked_add_Some in Hn as [Hn _].
  destruct (clock w) as [t|] eqn:Hc; [|rewrite Hw; by apply Herr].
  destruct (TimeState.arm_wakeup t _ _) as [[id|e] t'].
  - apply Hok; [done|lia].
  - apply Herr; [done|lia].
Qed.

Lemma wp_now w (Q : result Z SchedulerError -> Sys -> Prop) :
  (forall t, clock w = Some t -> Q (Ok (Time.now t)) w) ->
  (clock w = None -> Q (Err TimeUnavailable) w) -> wp now Q w.
Proof. intros H1 H2. unfold wp, now. destruct (clock w); auto. Qed.

(** The current thread blocks for a deadline under a fresh token. *)
Lemma inv_sleep b w id r tgt token n c p :
  sched_inv b [] w -> current (sched w) = Some id -> threads (sched w) !! id = Some r ->
  token = next_wake_token (sched w) -> token < n ->
  place_of Blocked (Some tgt) = Some p ->
  let w1 := with_clock w (set_next_wake_token (sched w) n) c in
  sched_inv b [(id, p)] (moved_to (with_sched w1 (set_current (sched w1) None)) r Blocked (Some tgt) None)
  /\ waiting_timers (sched w1) !! token = None.
Proof.
  intros Hinv Hc Hr -> Hlt Hp w1. split.
  - apply inv_leave_current; [apply inv_next_token; [done|lia]|done|done|done].
  - destruct (waiting_timers (sched w) !! next_wake_token (sched w)) as [x|] eqn:Hx; [|done].
    assert (next_wake_token (sched w) < next_wake_token (sched w)) as Hlt'; [|lia].
    apply (inv_tokens _ _ _ Hinv). eauto.
Qed.

Lemma keeps_block_until b w h deadline :
  sched_inv b [] w -> work_conserving w -> keeps b (Scheduler.block_current_until h deadline) w.
Proof.
  intros Hinv Hwc. unfold Scheduler.block_current_until. rewrite wp_try.
  apply wp_now; [intros t0 _|intros _; split_and!; done].
  rewrite wp_bind, wp_get. destruct (current (sched w)) as [id|] eqn:Hc; [|wp_steps; split_and!; done].
  rewrite wp_try. apply wp_arm_deadline.
  2:{ intros e n c He Hn. split_and!; [congruence|by apply inv_next_token|by intros ?; cbn in *; congruence]. }
  intros token n c Htok Hlt. destruct (inv_current_registered _ _ _ _ Hinv Hc) as [r Hr].
  destruct (inv_sleep b w id r (WaitTimer token deadline) token n c _ Hinv Hc Hr Htok Hlt eq_refl)
    as [Hinv1 Hfresh].
  set (w1 := with_clock _ _ _) in *.
  assert (sched_inv b [] w1) as Hw1 by (apply inv_next_token; [done|lia]).
  rewrite wp_try, (wp_lookup_thread id r) by (done || apply Hw1).
  autorewrite with wps. apply (inv_timer_insert b [] _ token id) in Hinv1; [|done|done].
  autorewrite with wps in Hinv1. eapply wp_mono; [by apply (keeps_schedule b _ h TBlocked (Some id) Hinv1)|].
  intros [d|e] w' (He & Hinv' & Hwc'); autorewrite with wps; (split_and!; [congruence|done..]).
Qed.

(** The timed receive names the blocked thread in two tables. *)
Lemma keeps_receive_until w h endpoint ticks :
  sched_inv false [] w -> work_conserving w ->
  keeps false (Scheduler.block_current_on_receive_until h endpoint ticks) w.
Proof.
  intros Hinv Hwc. unfold Scheduler.block_current_on_receive_until.
  destruct (ticks =? 0); [unfold Scheduler.block_current_on_receive; by apply keeps_block|].
  rewrite wp_bind, wp_get. destruct (current (sched w)) as [id|] eqn:Hc; [|by apply keeps_decision].
  rewrite wp_try. apply wp_now; [intros t0 _|intros _; split_and!; done].
  rewrite wp_try. apply wp_arm_deadline.
  2:{ intros e n c He Hn. split_and!; [congruence|by apply inv_next_token|by intros ?; cbn in *; congruence]. }
  intros token n c Htok Hlt. destruct (inv_current_registered _ _ _ _ Hinv Hc) as [r Hr].
  destruct (inv_sleep false w id r (ChannelReceive endpoint) token n c _ Hinv Hc Hr Htok Hlt eq_refl)
    as [Hinv1 Hfresh].
  set (w1 := with_clock _ _ _) in *.
  assert (sched_inv false [] w1) as Hw1 by (apply inv_next_token; [done|lia]).
  rewrite wp_try, (wp_lookup_thread id r) by (done || apply Hw1).
  autorewrite with wps.
  apply (inv_add_pending _ _ id (PTimer token)) in Hinv1; [|by rewrite sched_moved, sched_with; eauto].
  apply (inv_timer_insert false _ _ token id) in Hinv1; [|done|done].
  apply inv_enqueue_waiter in Hinv1. autorewrite with wps in Hinv1.
  by apply keeps_schedule.
Qed.

End deadlines.
