(* ===== verification/SchedWake.v ===== *)
(** * Wakeups, ticks and balancing keep the invariant

    The second half of the preservation lemmas of [SchedOps]: expired
    deadlines, the notifications of ready channels, devices and objects, the
    timer tick with stealing and balancing. *)

From S2P Require Import Prelude Arrays Time Task Objects SchedTypes Scheduler SchedInv SchedOps.
From stdpp Require Import base list gmap.
From Stdlib Require Import ZArith Lia.

#[local] Open Scope Z_scope.
#[local] Open Scope sched_scope.
Import SchedulerState.

Abbreviation keeps_any b m w :=
  (wp m (fun _ w' => sched_inv b [] w' /\ work_conserving w') w).

Section wakeups.
Implicit Types (w : Sys) (h : Hooks) (L : list (Z * Place)).

Lemma keeps_woken b w h trigger previous :
  sched_inv b [] w -> current (sched w) = previous ->
  keeps_any b (woken h trigger previous) w.
Proof.
  intros Hinv Hc. unfold woken. case_bool_decide as Hp; autorewrite with wps.
  - eapply wp_mono; [by apply (keeps_schedule b _ h trigger previous Hinv); congruence|].
    intros r w' (_ & Hinv' & Hwc). autorewrite with wps. done.
  - split; [done|]. intros Hn. congruence.
Qed.

Lemma wp_is_waiting r Q w :
  wp (is_waiting r) Q w <->
  Q (match thread_of (objs w) r with
     | Some t => bool_decide (execution_state t = Blocked)
     | None => false
     end) w.
Proof. done. Qed.

(** In the exact regime a pending waiter is blocked. *)
Lemma pending_waiting L w id p r :
  sched_inv true ((id, p) :: L) w -> threads (sched w) !! id = Some r ->
  p <> PCurrent -> p <> PQueue ->
  match thread_of (objs w) r with
  | Some t => bool_decide (execution_state t = Blocked)
  | None => false
  end = true.
Proof.
  intros Hinv Hr Hp1 Hp2. pose proof (exact_head _ _ _ _ (inv_exact _ _ _ Hinv eq_refl)) as Hpl.
  unfold place, thread_at in Hpl. rewrite Hr in Hpl. cbn in Hpl.
  destruct (thread_of (objs w) r) as [t|]; [|done]. cbn in Hpl. apply bool_decide_eq_true.
  destruct (execution_state t); cbn in Hpl; congruence.
Qed.

Lemma inv_drop_stale b L w id p :
  b = false -> sched_inv b ((id, p) :: L) w -> sched_inv b L w.
Proof. intros ->. apply inv_drop_pending. Qed.

Lemma keeps_time_wakeup b w h event :
  sched_inv b [] w -> work_conserving w -> keeps_any b (Scheduler.handle_time_wakeup h event) w.
Proof.
  intros Hinv Hwc. unfold Scheduler.handle_time_wakeup. rewrite wp_bind, wp_get.
  destruct (waiting_timers (sched w) !! we_token event) as [id|] eqn:Ht; [|by rewrite wp_ret].
  apply (inv_timer_take _ _ _ _ _ Hinv) in Ht as Hinv1. rewrite wp_bind, wp_modify_with.
  destruct (inv_pending_registered _ _ _ _ _ Hinv1) as [r Hr].
  set (w1 := with_sched w _) in *.
  rewrite wp_bind, (wp_lookup_record id r) by done. rewrite wp_bind, wp_is_waiting.
  destruct (match thread_of _ _ with Some _ => _ | None => _ end) eqn:Hwait; cbn [negb].
  - rewrite wp_bind. eapply wp_wake; [exact Hinv1|done|]. intros w2 Hinv2 Hpush _ _.
    apply keeps_woken; [done|]. by rewrite (pushed_current _ _ _ Hpush).
  - rewrite wp_ret. split; [|done]. eapply inv_drop_stale; [|exact Hinv1].
    destruct b; [|done]. by rewrite (pending_waiting _ _ _ _ _ Hinv1 Hr) in Hwait.
Qed.

Lemma wp_wake_all b L w h q key l (Q : bool -> Sys -> Prop) :
  sched_inv b (waiters_at q key l ++ L) w ->
  (forall w', sched_inv b L w' -> current (sched w') = current (sched w) ->
     (l = [] -> w' = w) -> (forall k, wait_map k (sched w') = wait_map k (sched w)) ->
     (forall i, (0 < count i (queued (sched w)))%nat -> (0 < count i (queued (sched w')))%nat) ->
     Q true w') ->
  wp (wake_all h l) Q w.
Proof.
  revert w Q. induction l as [|id l IH]; intros w Q Hinv HQ; cbn [wake_all].
  { rewrite wp_ret. by apply HQ. }
  destruct (inv_pending_registered _ _ _ _ _ Hinv) as [r Hr].
  rewrite wp_bind, (wp_lookup_record id r) by done. rewrite wp_bind.
  eapply wp_wake; [exact Hinv|done|]. intros w1 Hinv1 Hpush _ _.
  apply IH; [done|]. intros w2 Hinv2 Hc _ Hwm Hq. apply HQ; [done| |done| |].
  - by rewrite Hc, (pushed_current _ _ _ Hpush).
  - intros k. by rewrite Hwm, (pushed_waits _ _ _ Hpush).
  - intros i Hi. apply Hq. by eapply pushed_stays.
Qed.

Lemma inv_take_all_waiters b w q key l :
  sched_inv b [] w -> wait_map q (sched w) !! key = Some l ->
  sched_inv b (waiters_at q key l ++ [])
    (with_sched w (set_wait_map q (sched w) (delete key (wait_map q (sched w))))).
Proof.
  intros Hinv Hl. apply (inv_take_waiters b [] w q key l []); [done| | |].
  - by rewrite Hl, app_nil_r.
  - intros k Hk. by rewrite lookup_delete_ne.
  - by rewrite lookup_delete_eq.
Qed.

Lemma keeps_notify_object b w h object :
  sched_inv b [] w -> work_conserving w -> keeps_any b (Scheduler.notify_object_ready h object) w.
Proof.
  intros Hinv Hwc. unfold Scheduler.notify_object_ready. rewrite wp_bind, wp_get.
  destruct (waiting_objects (sched w) !! object) as [l|] eqn:Hl; [|by rewrite wp_ret].
  apply (inv_take_all_waiters b w ObjectWaiters object l) in Hinv as Hinv1; [|done].
  rewrite wp_bind, wp_modify_with, wp_bind. eapply wp_wake_all; [exact Hinv1|].
  intros w2 Hinv2 Hc2 _ _ _. by apply keeps_woken.
Qed.

(** The object waiters woken by another notification. *)
Lemma wp_wake_object_waiters b w h object (Q : option bool -> Sys -> Prop) :
  sched_inv b [] w ->
  (forall woke w', sched_inv b [] w' -> current (sched w') = current (sched w) ->
     (woke = false -> w' = w) ->
     (forall k, k <> ObjectWaiters -> wait_map k (sched w') = wait_map k (sched w)) ->
     (forall i, (0 < count i (queued (sched w)))%nat -> (0 < count i (queued (sched w')))%nat) ->
     Q (Some woke) w') ->
  wp (wake_object_waiters_locked h object) Q w.
Proof.
  intros Hinv HQ. unfold wake_object_waiters_locked. rewrite wp_bind, wp_get.
  destruct (waiting_objects (sched w) !! object) as [l|] eqn:Hl; [|rewrite wp_ret; by apply HQ].
  apply (inv_take_all_waiters b w ObjectWaiters object l) in Hinv as Hinv1; [|done].
  rewrite wp_bind, wp_modify_with, wp_bind. eapply wp_wake_all; [exact Hinv1|].
  intros w2 Hinv2 Hc2 _ Hwm Hq. rewrite wp_ret. apply HQ; [done|done|done| |done].
  intros k Hk. rewrite Hwm. by destruct k.
Qed.

(** The end of the notifications that also wake object waiters. *)
Lemma keeps_notify_rest b w0 w h trigger key woke :
  sched_inv b [] w -> current (sched w) = current (sched w0) -> (woke = false -> work_conserving w) ->
  keeps_any b (woke_object ← wake_object_waiters_locked h key;
               match woke_object with
               | None => mret None
               | Some woke_object =>
                   if negb woke && negb woke_object then mret None
                   else woken h trigger (current (sched w0))
               end) w.
Proof.
  intros Hinv Hc Hwoke. rewrite wp_bind. eapply wp_wake_object_waiters; [exact Hinv|].
  intros woke' w' Hinv' Hc' Hsame _ _. destruct (negb woke && negb woke') eqn:Hneg.
  - apply andb_prop in Hneg as [Hn1%negb_true_iff Hn2%negb_true_iff]. rewrite wp_ret.
    rewrite (Hsame Hn2) in *. auto.
  - apply keeps_woken; [done|congruence].
Qed.

Lemma keeps_notify_waiter b w h q reason trigger key :
  sched_inv b [] w -> work_conserving w ->
  keeps_any b (Scheduler.notify_waiter_ready h q reason trigger key) w.
Proof.
  intros Hinv Hwc. unfold Scheduler.notify_waiter_ready. rewrite wp_bind, wp_get, wp_bind.
  destruct (wait_map q (sched w) !! key) as [[|id l]|] eqn:Hl;
    [rewrite wp_ret; by apply keeps_notify_rest| |rewrite wp_ret; by apply keeps_notify_rest].
  assert (sched_inv b [(id, PWait q key)]
    (with_sched w (set_wait_map q (sched w) (<[key := l]> (wait_map q (sched w)))))) as Hinv1.
  { apply (inv_take_waiters b [] w q key [id] l); [done|by rewrite Hl| |].
    - intros k Hk. by rewrite lookup_insert_ne.
    - by rewrite lookup_insert_eq. }
  rewrite wp_bind, wp_modify_with.
  destruct (inv_pending_registered _ _ _ _ _ Hinv1) as [r Hr].
  rewrite wp_bind, (wp_lookup_record id r) by done. rewrite wp_bind.
  eapply wp_wake; [exact Hinv1|done|]. intros w2 Hinv2 Hpush _ _.
  assert (current (sched w2) = current (sched w)) as Hc2.
  { rewrite (pushed_current _ _ _ Hpush), sched_with. by destruct q. }
  case_bool_decide as Hnil; rewrite wp_bind; [|rewrite !wp_ret; by apply keeps_notify_rest].
  rewrite wp_modify_with, wp_ret. apply keeps_notify_rest; [|rewrite sched_with; by destruct q|done].
  apply (inv_take_waiters b [] w2 q key [] l); [done| | |].
  - rewrite (pushed_waits _ _ _ Hpush), sched_with.
    destruct q; cbn [wait_map set_wait_map]; cbn; by rewrite lookup_insert_eq.
  - intros k Hk. by rewrite lookup_delete_ne.
  - by rewrite lookup_delete_eq, Hnil.
Qed.

(** The receivers of a channel: the first one still blocked is woken, stale
    entries before it are dropped. *)
Lemma wp_wake_first_blocked b L w h key l (Q : bool * list Z -> Sys -> Prop) :
  sched_inv b (waiters_at Receivers key l ++ L) w ->
  (forall woke rest w', sched_inv b (waiters_at Receivers key rest ++ L) w' ->
     current (sched w') = current (sched w) ->
     wait_map Receivers (sched w') = wait_map Receivers (sched w) ->
     (woke = false -> w' = w /\ rest = []) -> Q (woke, rest) w') ->
  wp (wake_first_blocked h l) Q w.
Proof.
  revert w Q. induction l as [|id l IH]; intros w Q Hinv HQ; cbn [wake_first_blocked].
  { rewrite wp_ret. by apply HQ. }
  destruct (inv_pending_registered _ _ _ _ _ Hinv) as [r Hr].
  rewrite wp_bind, (wp_lookup_record id r) by done. rewrite wp_bind, wp_is_waiting.
  destruct (match thread_of _ _ with Some _ => _ | None => _ end) eqn:Hwait.
  - rewrite wp_bind. eapply wp_wake; [exact Hinv|done|]. intros w2 Hinv2 Hpush _ _. rewrite wp_ret.
    apply HQ; [done|by apply Hpush|by apply (pushed_waits _ _ _ Hpush)|done].
  - apply IH; [|done]. eapply inv_drop_stale; [|exact Hinv].
    destruct b; [|done]. by rewrite (pending_waiting _ _ _ _ _ Hinv Hr) in Hwait.
Qed.

Lemma keeps_notify_channel b w h endpoint :
  sched_inv b [] w -> work_conserving w -> keeps_any b (Scheduler.notify_channel_ready h endpoint) w.
Proof.
  intros Hinv Hwc. unfold Scheduler.notify_channel_ready.
  rewrite wp_bind, wp_get, wp_bind, wp_modify_with, wp_bind.
  set (l := default [] (waiting_receivers (sched w) !! endpoint)).
  assert (sched_inv b (waiters_at Receivers endpoint l ++ [])
    (with_sched w (set_wait_map Receivers (sched w)
       (delete endpoint (wait_map Receivers (sched w)))))) as Hinv1.
  { apply (inv_take_waiters b [] w Receivers endpoint l []); [done| | |].
    - by rewrite app_nil_r.
    - intros k Hk. by rewrite lookup_delete_ne.
    - by rewrite lookup_delete_eq. }
  eapply wp_wake_first_blocked; [exact Hinv1|]. intros woke rest w2 Hinv2 Hc2 Hw2 Hsame.
  assert (forall w3, sched_inv b [] w3 -> current (sched w3) = current (sched w) ->
    queued (sched w3) = queued (sched w2) ->
    keeps_any b (woke_object ← wake_object_waiters_locked h endpoint;
      match woke_object with
      | None => mret None
      | Some woke_object =>
          if negb woke && negb woke_object then mret None
          else woken h TIpcWake (current (sched w))
      end) w3) as Hrest.
  { intros w3 Hinv3 Hc3 Hq3. apply keeps_notify_rest; [done|done|]. intros Hf.
    destruct (Hsame Hf) as [-> _]. intros Hn. rewrite Hq3. apply Hwc. congruence. }
  rewrite wp_bind. case_bool_decide as Hnil.
  - rewrite wp_ret. apply Hrest; [by rewrite Hnil in Hinv2|done|done].
  - rewrite wp_modify_with. apply Hrest; [|done|done].
    eapply (inv_wait_set b _ [] w2 Receivers endpoint); [exact Hinv2|..].
    + intros k Hk. by rewrite lookup_insert_ne.
    + intros i. rewrite lookup_insert_eq, Hw2, pending_waiters, bool_decide_true by done.
      rewrite sched_with. cbn [wait_map set_wait_map]. cbn. rewrite lookup_delete_eq. cbn.
      rewrite count_nil. lia.
    + intros i p Hp. by rewrite pending_waiters, bool_decide_false.
Qed.

End wakeups.

(** ** Ticks, stealing and balancing *)

Section balancing.
Implicit Types (w : Sys) (h : Hooks) (s : SchedulerState).

(** Only the distribution over the run queues changes. *)
Record rebalanced s s' : Prop := {
  reb_length : length (runnable_queues s') = length (runnable_queues s);
  reb_occurs : forall i p, occurs s' i p = occurs s i p;
  reb_threads : threads s' = threads s;
  reb_timers : waiting_timers s' = waiting_timers s;
  reb_token : next_wake_token s' = next_wake_token s;
  reb_current : current s' = current s;
  reb_idle : idle_ok s -> idle_ok s';
}.

#[global] Instance rebalanced_preorder : PreOrder rebalanced.
Proof.
  split; [by constructor|]. intros s1 s2 s3 [] []. constructor; try congruence; auto.
Qed.

Lemma inv_rebalanced b L w s :
  sched_inv b L w -> rebalanced (sched w) s -> sched_inv b L (with_sched w s).
Proof.
  intros Hinv Hs. eapply inv_tables; [exact Hinv| |by apply Hs|by apply Hs| |].
  - intros i p. by rewrite (reb_occurs _ _ Hs).
  - intros token. rewrite (reb_timers _ _ Hs), (reb_token _ _ Hs). apply Hinv.
  - intros Hb. by apply (reb_idle _ _ Hs), (inv_exact _ _ _ Hinv).
Qed.

Lemma delete_count q pos (x i : Z) :
  q !! pos = Some x ->
  count i q = ((if bool_decide (i = x) then 1 else 0) + count i (delete pos q))%nat.
Proof.
  intros Hx. rewrite <- (take_drop_middle q pos x Hx) at 1. rewrite delete_take_drop.
  rewrite !count_app, count_cons. lia.
Qed.

Lemma relocate_spec s source target id s' :
  (target < length (runnable_queues s))%nat -> relocate s source target id = Some s' ->
  rebalanced s s'.
Proof.
  intros Ht. unfold relocate. intros (q & Hq & ([pos x] & Hf & [= <-])%bind_Some)%bind_Some.
  apply list_find_Some in Hf as (Hx & <- & _).
  assert (forall i, count i (concat (alter (fun q => q ++ [id]) target
    (<[source := delete pos q]> (runnable_queues s)))) = count i (queued s)) as Hcount.
  { intros i. rewrite count_concat_alter by (by rewrite length_insert).
    pose proof (count_concat_insert i _ _ _ (delete pos q) Hq) as Hins.
    rewrite (delete_count q pos id i Hx) in Hins. unfold queued. lia. }
  assert (0 < count id (queued s))%nat as Hin.
  { rewrite <- Hcount. apply count_pos, list_elem_of_In, in_concat.
    exists ((<[source := delete pos q]> (runnable_queues s)) !!! target ++ [id]). split.
    - apply list_elem_of_In, list_elem_of_lookup. exists target. rewrite list_lookup_alter_eq.
      apply fmap_Some. eexists. split; [|done]. apply list_lookup_lookup_total_lt.
      by rewrite length_insert.
    - apply in_or_app. right. by left. }
  constructor; try done.
  - cbn. by rewrite length_alter, length_insert.
  - intros i [| |token|[] key]; try done. cbn. apply Hcount.
  - intros Hidle i. unfold queued. cbn. rewrite Hcount.
    destruct (decide (i = id)) as [->|Hne].
    + rewrite lookup_insert_eq. split; eauto.
    + rewrite lookup_insert_ne by done. apply Hidle.
Qed.

(** Counters and cursors do not matter. *)
Lemma reb_stolen s x : rebalanced s (set_stolen_per_cpu s x).
Proof. constructor; (done || by intros i [| | |[]]). Qed.

Lemma reb_attempts s x : rebalanced s (set_steal_attempts s x).
Proof. constructor; (done || by intros i [| | |[]]). Qed.

Lemma reb_moves s x : rebalanced s (set_rebalance_moves s x).
Proof. constructor; (done || by intros i [| | |[]]). Qed.

Lemma reb_cursor s x : rebalanced s (set_steal_scan_cursor s x).
Proof. constructor; (done || by intros i [| | |[]]). Qed.

Lemma steal_all_spec cpu candidates s n :
  (cpu < length (runnable_queues s))%nat -> rebalanced s (steal_all cpu candidates s n).2.
Proof.
  revert s n. induction candidates as [|[source id] candidates IH]; intros s n Hcpu; cbn [steal_all];
    [done|]. destruct (relocate s source cpu id) as [s1|] eqn:Hr; [|by apply IH].
  apply relocate_spec in Hr as Hreb; [|done].
  set (s2 := set_stolen_per_cpu _ _).
  assert (rebalanced s s2) as Hreb2.
  { etransitivity; [exact Hreb|]. apply reb_stolen. }
  etransitivity; [exact Hreb2|]. apply IH. by rewrite (reb_length _ _ Hreb2).
Qed.

Lemma steal_spec cpu s :
  (cpu < length (runnable_queues s))%nat -> rebalanced s (steal_idle_runnables_locked cpu s).2.
Proof.
  intros Hcpu. unfold steal_idle_runnables_locked. set (s2 := set_steal_scan_cursor _ _).
  assert (rebalanced s s2) as Hreb.
  { etransitivity; [apply reb_attempts|apply reb_cursor]. }
  etransitivity; [exact Hreb|]. apply steal_all_spec. by rewrite (reb_length _ _ Hreb).
Qed.

Lemma rebalance_all_spec busiest emptiest candidates s n :
  (emptiest < length (runnable_queues s))%nat ->
  rebalanced s (rebalance_all busiest emptiest candidates s n).2.
Proof.
  revert s n. induction candidates as [|id candidates IH]; intros s n Hlt; cbn [rebalance_all];
    [done|]. destruct (relocate s busiest emptiest id) as [s1|] eqn:Hr; [|by apply IH].
  apply relocate_spec in Hr as Hreb; [|done].
  set (s2 := set_rebalance_moves _ _).
  assert (rebalanced s s2) as Hreb2.
  { etransitivity; [exact Hreb|]. apply reb_moves. }
  etransitivity; [exact Hreb2|]. apply IH. by rewrite (reb_length _ _ Hreb2).
Qed.

Lemma extremes_lt depths all slot b e :
  (b < slot + length depths)%nat -> (e < slot + length depths)%nat ->
  ((extremes depths all slot b e).1 < slot + length depths)%nat /\
  ((extremes depths all slot b e).2 < slot + length depths)%nat.
Proof.
  revert slot b e. induction depths as [|d depths IH]; intros slot b e Hb He; [done|].
  cbn [extremes length] in *. replace (slot + S (length depths))%nat with (S slot + length depths)%nat by lia.
  apply IH; case_bool_decide; lia.
Qed.

Lemma push_balance_spec s :
  length (runnable_queues s) = RUNNABLE_QUEUE_CPUS -> rebalanced s (push_balance_locked s).2.
Proof.
  intros Hlen. unfold push_balance_locked, rebalance_plan.
  case_bool_decide; [done|].
  pose proof (extremes_lt (length <$> runnable_queues s) (length <$> runnable_queues s) 0 0 0) as Hex.
  rewrite length_fmap, Hlen in Hex. destruct Hex as [_ He]; [unfold RUNNABLE_QUEUE_CPUS; lia..|].
  destruct (extremes _ _ _ _ _) as [busiest emptiest]. destruct (_ || _); [done|].
  apply rebalance_all_spec. rewrite Hlen. apply He.
Qed.

Lemma fmap_idle s f :
  rebalanced s (set_queued_idle_ticks s (f <$> queued_idle_ticks s)).
Proof.
  constructor; try done. intros Hidle i. cbn. rewrite lookup_fmap.
  rewrite fmap_is_Some. apply Hidle.
Qed.

Lemma tick_spec h s :
  length (runnable_queues s) = RUNNABLE_QUEUE_CPUS -> rebalanced s (Scheduler.handle_tick_state h s).2.
Proof.
  intros Hlen. unfold Scheduler.handle_tick_state. destruct (current s) as [id|]; [|done].
  set (s1 := if 0 <? ticks_remaining s then _ else _).
  assert (rebalanced s s1) as H1 by (unfold s1; destruct (0 <? _); constructor; (done || by intros i [| | |[]])).
  set (s2 := if (ticks_remaining s1 =? 0) && _ then _ else _).
  assert (rebalanced s1 s2) as H2 by (unfold s2; destruct (_ && _); constructor; (done || by intros i [| | |[]])).
  set (s3 := set_tick_counter _ _).
  assert (rebalanced s2 s3) as H3 by (constructor; (done || by intros i [| | |[]])).
  set (s4 := set_queued_idle_ticks _ _).
  assert (rebalanced s s4) as H4 by (etransitivity; [exact H1|]; etransitivity; [exact H2|];
    etransitivity; [exact H3|]; apply fmap_idle).
  clearbody s4. case_bool_decide; [|done]. cbn [snd].
  destruct (tick_counter s4 mod BALANCE_PERIOD_TICKS =? 0); [|done].
  assert (length (runnable_queues s4) = RUNNABLE_QUEUE_CPUS) as Hlen4 by (by rewrite (reb_length _ _ H4)).
  assert (rebalanced s4 (steal_idle_runnables_locked (current_cpu_index h) s4).2) as H5.
  { apply steal_spec. rewrite Hlen4. apply cpu_index_lt. }
  etransitivity; [exact H4|]. etransitivity; [exact H5|]. apply push_balance_spec.
  by rewrite (reb_length _ _ H5).
Qed.

Lemma queued_nil s : queued s = [] <-> forall i, count i (queued s) = 0%nat.
Proof.
  split; [intros ->; done|]. intros Hz. destruct (queued s) as [|x l]; [done|].
  specialize (Hz x). rewrite count_cons, bool_decide_true in Hz by done. lia.
Qed.

Lemma rebalanced_conserving w s :
  rebalanced (sched w) s -> work_conserving w -> work_conserving (with_sched w s).
Proof.
  intros Hs Hwc Hn. cbn in Hn. rewrite (reb_current _ _ Hs) in Hn. apply queued_nil. intros i.
  pose proof (reb_occurs _ _ Hs i PQueue) as Hq. cbn in Hq. cbn. rewrite Hq.
  by rewrite (Hwc Hn).
Qed.

Lemma keeps_tick b w h :
  sched_inv b [] w -> work_conserving w -> keeps_any b (Scheduler.handle_tick h) w.
Proof.
  intros Hinv Hwc. unfold wp, Scheduler.handle_tick.
  pose proof (tick_spec h (sched w) (inv_queues _ _ _ Hinv)) as Hs.
  destruct (Scheduler.handle_tick_state h (sched w)) as [line s].
  split; [by apply inv_rebalanced|by apply rebalanced_conserving].
Qed.

Lemma keeps_steal b w h :
  sched_inv b [] w -> work_conserving w -> keeps_any b (Scheduler.steal_idle_runnables h) w.
Proof.
  intros Hinv Hwc. unfold wp, Scheduler.steal_idle_runnables.
  assert (rebalanced (sched w) (steal_idle_runnables_locked (current_cpu_index h) (sched w)).2) as Hs.
  { apply steal_spec. rewrite (inv_queues _ _ _ Hinv). apply cpu_index_lt. }
  destruct (steal_idle_runnables_locked _ _) as [n s].
  split; [by apply inv_rebalanced|by apply rebalanced_conserving].
Qed.

Lemma keeps_consume b w :
  sched_inv b [] w -> work_conserving w -> keeps_any b Scheduler.consume_preemption w.
Proof.
  intros Hinv Hwc. unfold Scheduler.consume_preemption. rewrite wp_bind, wp_get.
  destruct (preemption_pending (sched w)); autorewrite with wps; [|done].
  split; [by apply inv_preemption|done].
Qed.

End balancing.
