(* ===== verification/SchedProps.v ===== *)
(** * Scheduler properties

    Runs of the scheduler: any sequence of its operations, interleaved with
    changes the rest of the kernel makes to the clock, the input latches and
    the objects the scheduler does not own.  The theorems say where threads are
    along such runs, that the scheduler neither panics nor loses track of a
    thread, in which order threads run and wake, and what goes wrong around
    timed receives. *)

From S2P Require Import Prelude Arrays Time Task Objects SchedTypes Scheduler SchedInv SchedOps SchedWake.
From stdpp Require Import base list gmap.
From stdpp Require Import relations.
From Stdlib Require Import ZArith Lia.

#[local] Open Scope Z_scope.
#[local] Open Scope sched_scope.
Import SchedulerState.

Inductive SchedOp :=
| OpRegister (thread : Z)
| OpMakeRunnable (id : Z) (reason : ThreadWakeReason)
| OpYield
| OpPreempt
| OpBlockReceive (endpoint : Z)
| OpBlockReceiveUntil (endpoint ticks : Z)
| OpBlockPacket (interface : Z)
| OpBlockInput (source : Z)
| OpBlockObject (object : Z)
| OpBlockUntil (deadline : Z)
| OpTerminate
| OpTimeWakeup (event : WakeEvent)
| OpNotifyChannel (endpoint : Z)
| OpNotifyPacket (interface : Z)
| OpNotifyInput (source : Z)
| OpNotifyObject (object : Z)
| OpTick
| OpConsumePreemption
| OpSteal.

(** Whether an operation reported an unregistered thread. *)
Definition found {A : Type} (r : result A SchedulerError) : bool :=
  match r with Err InvalidThread => false | _ => true end.

Definition checked {A : Type} (m : K (result A SchedulerError)) : K bool :=
  r ← m; mret (found r).

Definition ran {A : Type} (m : K A) : K bool := _ ← m; mret true.

Definition exec (h : Hooks) (op : SchedOp) : K bool :=
  match op with
  | OpRegister r => checked (Scheduler.register_thread r)
  | OpMakeRunnable id reason => checked (Scheduler.make_runnable h id reason)
  | OpYield => checked (Scheduler.yield_current h)
  | OpPreempt => checked (Scheduler.preempt_current_if_needed h)
  | OpBlockReceive endpoint => checked (Scheduler.block_current_on_receive h endpoint)
  | OpBlockReceiveUntil endpoint ticks =>
      checked (Scheduler.block_current_on_receive_until h endpoint ticks)
  | OpBlockPacket interface => checked (Scheduler.block_current_on_packet_receive h interface)
  | OpBlockInput source => checked (Scheduler.block_current_on_input_receive h source)
  | OpBlockObject object => checked (Scheduler.block_current_on_object h object)
  | OpBlockUntil deadline => checked (Scheduler.block_current_until h deadline)
  | OpTerminate => checked (Scheduler.terminate_current h)
  | OpTimeWakeup event => ran (Scheduler.handle_time_wakeup h event)
  | OpNotifyChannel endpoint => ran (Scheduler.notify_channel_ready h endpoint)
  | OpNotifyPacket interface => ran (Scheduler.notify_packet_ready h interface)
  | OpNotifyInput source => ran (Scheduler.notify_input_ready h source)
  | OpNotifyObject object => ran (Scheduler.notify_object_ready h object)
  | OpTick => ran (Scheduler.handle_tick h)
  | OpConsumePreemption => ran Scheduler.consume_preemption
  | OpSteal => ran (Scheduler.steal_idle_runnables h)
  end.

(** Callers register thread objects and name registered threads. *)
Definition op_ok (w : Sys) (op : SchedOp) : Prop :=
  match op with
  | OpRegister r => is_Some (thread_of (objs w) r)
  | OpMakeRunnable id _ => is_Some (threads (sched w) !! id)
  | _ => True
  end.

(** A receive with a deadline. *)
Definition timed (op : SchedOp) : bool :=
  match op with OpBlockReceiveUntil _ ticks => negb (ticks =? 0) | _ => false end.

Inductive sched_step (allow_timed : bool) (w : Sys) : Sys -> Prop :=
| step_op h op b w' :
    op_ok w op -> (timed op = true -> allow_timed = true) -> exec h op w = Some (b, w') ->
    sched_step allow_timed w w'
| step_env objs' clock' latches' :
    (forall id r, threads (sched w) !! id = Some r -> thread_of objs' r = thread_of (objs w) r) ->
    sched_step allow_timed w (mkSys (sched w) objs' clock' latches').

(** A scheduler as [Scheduler::new] leaves it. *)
Definition booted (w : Sys) : Prop :=
  exists store r, Scheduler.new store r = Some (sched w, objs w).

Section runs.
Implicit Types (w : Sys) (h : Hooks).

Lemma booted_inv b w : booted w -> sched_inv b [] w /\ work_conserving w.
Proof.
  intros (store & r & Hn). unfold Scheduler.new in Hn.
  apply bind_Some in Hn as (t & Ht & [= Hs Ho]). split; [|by intros _; rewrite <- Hs].
  assert (registered_ok w) as Hreg.
  { intros id r' Hr'. rewrite <- Hs in Hr'. cbn in Hr'.
    apply lookup_singleton_Some in Hr' as [<- <-]. rewrite <- Ho, thread_of_set, bool_decide_true by done.
    rewrite Ht. cbn. eauto. }
  assert (place w (thread_id t) = Some PCurrent) as Hpl.
  { unfold place, thread_at. rewrite <- Hs, <- Ho. cbn. rewrite lookup_singleton_eq. cbn.
    by rewrite thread_of_set, bool_decide_true, Ht by done. }
  assert (forall i p, occurs (sched w) i p = single (thread_id t) PCurrent i p) as Hocc.
  { intros i p. rewrite <- Hs. destruct p as [| |token|[] key]; cbn; rewrite ?lookup_empty, ?count_nil; (occ_cases; done). }
  constructor; [done|by rewrite <- Hs|by rewrite <- Hs; intros ? []| |].
  - intros id p. rewrite Hocc, <- Hs. cbn. intros Hpos. destruct (decide (id = thread_id t)) as [->|Hne];
      [rewrite lookup_singleton_eq; eauto|occ_cases].
  - intros _. split; [|rewrite <- Hs; intros i; cbn; rewrite lookup_empty; split; [by intros []|];
      unfold queued; cbn; rewrite count_nil; lia].
    intros i p. rewrite Hocc. cbn. destruct (decide (i = thread_id t)) as [->|Hne].
    + rewrite Hpl. occ_cases.
    + assert (place w i = None) as ->; [|occ_cases].
      unfold place, thread_at. rewrite <- Hs. cbn. by rewrite lookup_singleton_ne.
Qed.

Lemma wp_checked {A : Type} b (m : K (result A SchedulerError)) w :
  keeps b m w -> wp (checked m) (fun r w' => r = true /\ sched_inv b [] w' /\ work_conserving w') w.
Proof.
  intros Hm. unfold checked. rewrite wp_bind. eapply wp_mono; [exact Hm|].
  intros r w' (Hr & Hinv & Hwc). rewrite wp_ret. split_and!; [|done..]. by destruct r as [?|[]].
Qed.

Lemma wp_ran {A : Type} b (m : K A) w :
  keeps_any b m w -> wp (ran m) (fun r w' => r = true /\ sched_inv b [] w' /\ work_conserving w') w.
Proof.
  intros Hm. unfold ran. rewrite wp_bind. eapply wp_mono; [exact Hm|].
  intros r w' [Hinv Hwc]. by rewrite wp_ret.
Qed.

Lemma exec_keeps b h op w :
  sched_inv b [] w -> work_conserving w -> op_ok w op -> (timed op = true -> b = false) ->
  wp (exec h op) (fun r w' => r = true /\ sched_inv b [] w' /\ work_conserving w') w.
Proof.
  intros Hinv Hwc Hok Ht. destruct op; cbn [exec op_ok timed] in *;
    try (apply wp_checked); try (apply wp_ran).
  - destruct Hok as [t Hok]. by eapply keeps_register.
  - by apply keeps_make_runnable.
  - by apply keeps_yield.
  - by apply keeps_preempt.
  - unfold Scheduler.block_current_on_receive. by apply keeps_block.
  - destruct b; [|by apply keeps_receive_until].
    destruct (ticks =? 0) eqn:Hz; [|by specialize (Ht eq_refl)].
    unfold Scheduler.block_current_on_receive_until. rewrite Hz. unfold Scheduler.block_current_on_receive. by apply keeps_block.
  - unfold Scheduler.block_current_on_packet_receive. by apply keeps_block.
  - by apply keeps_input.
  - unfold Scheduler.block_current_on_object. by apply keeps_block.
  - by apply keeps_block_until.
  - by apply keeps_terminate.
  - by apply keeps_time_wakeup.
  - by apply keeps_notify_channel.
  - unfold Scheduler.notify_packet_ready. by apply keeps_notify_waiter.
  - unfold Scheduler.notify_input_ready. by apply keeps_notify_waiter.
  - by apply keeps_notify_object.
  - by apply keeps_tick.
  - by apply keeps_consume.
  - by apply keeps_steal.
Qed.

Lemma env_keeps b w objs' clock' latches' :
  sched_inv b [] w ->
  (forall id r, threads (sched w) !! id = Some r -> thread_of objs' r = thread_of (objs w) r) ->
  sched_inv b [] (mkSys (sched w) objs' clock' latches').
Proof.
  intros [Hreg Hq Htok Hnamed Hex] Hsame. constructor; [|done..|].
  - intros id r Hr. cbn. rewrite (Hsame id r Hr). by apply Hreg.
  - intros Hb. destruct (Hex Hb) as [He Hidle]. split; [|done]. intros id p. cbn. rewrite He.
    unfold place, thread_at. cbn. destruct (threads (sched w) !! id) as [r|] eqn:Hr; [|done]. cbn.
    by rewrite (Hsame id r Hr).
Qed.

Lemma run_inv at_ w w' :
  rtc (sched_step at_) w w' -> sched_inv (negb at_) [] w -> work_conserving w ->
  sched_inv (negb at_) [] w' /\ work_conserving w'.
Proof.
  induction 1 as [|w w1 w2 Hstep _ IH]; intros Hinv Hwc; [done|].
  assert (sched_inv (negb at_) [] w1 /\ work_conserving w1) as [Hinv1 Hwc1]; [|by apply IH].
  destruct Hstep as [h op b w1 Hok Ht Hrun|objs' clock' latches' Hsame].
  - pose proof (exec_keeps (negb at_) h op w Hinv Hwc Hok) as Hk. unfold wp in Hk. rewrite Hrun in Hk.
    apply Hk. intros Htm. by rewrite (Ht Htm).
  - split; [by apply env_keeps|done].
Qed.

End runs.

(** ** Waking and yielding *)

Section order.
Implicit Types (w : Sys) (h : Hooks).

Lemma exact_queued w i :
  exact [] w -> (0 < count i (queued (sched w)))%nat -> place w i = Some PQueue.
Proof. intros [He _] Hi. specialize (He i PQueue). cbn in He. case_bool_decide; [done|lia]. Qed.

Lemma exact_current w i : exact [] w -> current (sched w) = Some i -> place w i = Some PCurrent.
Proof.
  intros [He _] Hi. specialize (He i PCurrent). cbn in He. rewrite bool_decide_true in He by done.
  case_bool_decide; [done|lia].
Qed.

Lemma wp_woken_ready b w h trigger previous i (Q : option ScheduleDecision -> Sys -> Prop) :
  sched_inv b [] w -> current (sched w) = previous -> (0 < count i (queued (sched w)))%nat ->
  (forall d w', sched_inv b [] w' -> (forall q, wait_map q (sched w') = wait_map q (sched w)) ->
     (0 < count i (queued (sched w')))%nat \/ current (sched w') = Some i -> Q (Some d) w') ->
  wp (woken h trigger previous) Q w.
Proof.
  intros Hinv Hc Hi HQ. unfold woken. case_bool_decide as Hp.
  - rewrite wp_bind. apply (wp_schedule_next b []); [done|congruence|].
    intros d w' Hinv' _ _ _ _ Hwm Hin. rewrite wp_ret. by apply HQ; [| |apply Hin].
  - autorewrite with wps. apply HQ; [done|done|by left].
Qed.

(** With exact tables, the first receiver in line is the one that wakes. *)
Lemma wp_wake_first L w h key id l (Q : bool * list Z -> Sys -> Prop) :
  sched_inv true (waiters_at Receivers key (id :: l) ++ L) w ->
  (forall w', sched_inv true (waiters_at Receivers key l ++ L) w' -> pushed id (sched w) (sched w') ->
     Q (true, l) w') ->
  wp (wake_first_blocked h (id :: l)) Q w.
Proof.
  intros Hinv HQ. cbn [wake_first_blocked].
  destruct (inv_pending_registered _ _ _ _ _ Hinv) as [r Hr].
  rewrite wp_bind, (wp_lookup_record id r) by done. rewrite wp_bind, wp_is_waiting.
  rewrite (pending_waiting _ _ _ _ _ Hinv Hr) by done. rewrite wp_bind.
  eapply wp_wake; [exact Hinv|done|]. intros w' Hinv' Hpush _ _. rewrite wp_ret. by apply HQ.
Qed.

(** The queue left by [notify_channel_ready]. *)
Definition remaining (rest : list Z) : option (list Z) :=
  if bool_decide (rest = []) then None else Some rest.

Lemma wp_notify_first w h key id rest (Q : option ScheduleDecision -> Sys -> Prop) :
  sched_inv true [] w -> waiting_receivers (sched w) !! key = Some (id :: rest) ->
  (forall d w', sched_inv true [] w' ->
     waiting_receivers (sched w') !! key = remaining rest ->
     (forall k, k <> key -> waiting_receivers (sched w') !! k = waiting_receivers (sched w) !! k) ->
     (0 < count id (queued (sched w')))%nat \/ current (sched w') = Some id -> Q (Some d) w') ->
  wp (Scheduler.notify_channel_ready h key) Q w.
Proof.
  intros Hinv Hl HQ. unfold Scheduler.notify_channel_ready.
  rewrite wp_bind, wp_get, wp_bind, wp_modify_with, wp_bind, Hl. cbn [default].
  apply (inv_take_all_waiters true w Receivers key (id :: rest)) in Hl as Hinv1; [|done].
  apply (wp_wake_first [] _ h key id rest); [exact Hinv1|]. intros w2 Hinv2 Hpush.
  assert (wait_map Receivers (sched w2) = delete key (waiting_receivers (sched w))) as Hr2
    by (by rewrite (pushed_waits _ _ _ Hpush)).
  assert (forall w3, sched_inv true [] w3 -> current (sched w3) = current (sched w) ->
    queued (sched w3) = queued (sched w2) ->
    waiting_receivers (sched w3) !! key = remaining rest ->
    (forall k, k <> key -> waiting_receivers (sched w3) !! k = waiting_receivers (sched w) !! k) ->
    wp (woke_object ← wake_object_waiters_locked h key;
        match woke_object with
        | None => mret None
        | Some woke_object =>
            if negb true && negb woke_object then mret None
            else woken h TIpcWake (current (sched w))
        end) Q w3) as Hrest.
  { intros w3 Hinv3 Hc3 Hq3 Hk3 Ho3. rewrite wp_bind.
    eapply wp_wake_object_waiters; [exact Hinv3|]. intros woke w4 Hinv4 Hc4 _ Hwm4 Hq4. cbn [negb andb].
    eapply (wp_woken_ready true w4 h TIpcWake _ id); [done|congruence| |].
    - apply Hq4. rewrite Hq3. apply Hpush.
    - intros d w5 Hinv5 Hwm5 Hin.
      assert (waiting_receivers (sched w5) = waiting_receivers (sched w3)) as Hr5.
      { transitivity (wait_map Receivers (sched w4)); [apply (Hwm5 Receivers)|by apply (Hwm4 Receivers)]. }
      apply HQ; rewrite ?Hr5; done. }
  rewrite wp_bind. unfold remaining in *. case_bool_decide as Hnil.
  - rewrite wp_ret. change (wait_map Receivers (sched w2)) with (waiting_receivers (sched w2)) in Hr2.
    apply Hrest; [by rewrite Hnil in Hinv2|by apply Hpush|done|by rewrite Hr2, lookup_delete_eq|].
    intros k Hk. by rewrite Hr2, lookup_delete_ne.
  - rewrite wp_modify_with. apply Hrest; [|by apply Hpush|done|by cbn; rewrite lookup_insert_eq|].
    + eapply (inv_wait_set true _ [] w2 Receivers key); [exact Hinv2|..].
      * intros k Hk. by rewrite lookup_insert_ne.
      * intros i. rewrite lookup_insert_eq, Hr2, pending_waiters, bool_decide_true by done.
        rewrite lookup_delete_eq. cbn. rewrite count_nil. lia.
      * intros i p Hp. by rewrite pending_waiters, bool_decide_false.
    + intros k Hk. cbn. rewrite lookup_insert_ne by done.
      change (waiting_receivers (sched w2)) with (wait_map Receivers (sched w2)).
      by rewrite Hr2, lookup_delete_ne.
Qed.

End order.

(** ** Examples *)

Module SchedExamples.

Definition thread_record (id : Z) : KernelObjectRecord :=
  mkKernelObjectRecord (mkObjectHeader id KThread)
    (OThread (ThreadObject.new id 1 RegistryExamples.kernel_thread)).

Definition store0 : ObjectStore :=
  <[2 := thread_record 2]> (<[3 := thread_record 3]> (<[4 := thread_record 4]> ∅)).

(** One processor, no balancing. *)
Definition hooks : Hooks := mkHooks None 1 false.

Definition start : Sys :=
  match Scheduler.new store0 2 with
  | Some (s, store) => mkSys s store (Some (TimeState.new 100)) ∅
  | None => mkSys (mkSchedulerState None [] ∅ [] 0 0 0 [] ∅ ∅ ∅ ∅ ∅ ∅ 0 0 0 false) ∅ None ∅
  end.

Lemma start_booted : booted start.
Proof. exists store0, 2. reflexivity. Qed.

(** Run a list of operations, checking the callers' side of each. *)
Definition op_okb (w : Sys) (op : SchedOp) : bool :=
  match op with
  | OpRegister r => bool_decide (is_Some (thread_of (objs w) r))
  | OpMakeRunnable id _ => bool_decide (is_Some (threads (sched w) !! id))
  | _ => true
  end.

Fixpoint run (allow_timed : bool) (ops : list SchedOp) (w : Sys) : option Sys :=
  match ops with
  | [] => Some w
  | op :: ops =>
      if op_okb w op && implb (timed op) allow_timed then
        match exec hooks op w with
        | Some (_, w') => run allow_timed ops w'
        | None => None
        end
      else None
  end.

Lemma run_steps allow_timed ops w w' :
  run allow_timed ops w = Some w' -> rtc (sched_step allow_timed) w w'.
Proof.
  revert w. induction ops as [|op ops IH]; intros w; cbn [run]; [intros [= ->]; constructor|].
  destruct (op_okb w op && _) eqn:Hok; [|done]. apply andb_prop in Hok as [Hok Ht].
  destruct (exec hooks op w) as [[b w1]|] eqn:Hex; [|done]. intros Hrun.
  eapply rtc_l; [|by apply IH]. eapply step_op; [| |exact Hex].
  - destruct op; try done; cbn in *; by apply bool_decide_eq_true in Hok.
  - intros Htm. rewrite Htm in Ht. by destruct allow_timed.
Qed.

Definition after (allow_timed : bool) (ops : list SchedOp) : Sys :=
  default start (run allow_timed ops start).

Definition runs (allow_timed : bool) (ops : list SchedOp) : bool :=
  match run allow_timed ops start with Some _ => true | None => false end.

Lemma after_steps allow_timed ops :
  runs allow_timed ops = true -> rtc (sched_step allow_timed) start (after allow_timed ops).
Proof.
  unfold runs, after. destruct (run allow_timed ops start) as [w|] eqn:Hr; [|done].
  intros _. by apply run_steps in Hr.
Qed.

(** Threads 3 and 4 are registered and runnable behind the boot thread. *)
Definition two_workers : list SchedOp :=
  [OpRegister 3; OpRegister 4; OpMakeRunnable 3 WakeExplicit; OpMakeRunnable 4 WakeExplicit].

(** Both wait for messages on endpoint 10. *)
Definition two_receivers : list SchedOp :=
  two_workers ++ [OpYield; OpBlockReceive 10; OpBlockReceive 10].

(** Thread 3 receives on endpoint 10 with a deadline, thread 4 without; the
    deadline passes, and thread 3 goes on to wait for object 20. *)
Definition stale_receiver : list SchedOp :=
  two_workers ++
  [OpYield; OpBlockReceiveUntil 10 5; OpBlockReceive 10;
   OpTimeWakeup (mkWakeEvent 1 DeadlineExpired); OpYield; OpBlockObject 20].

Definition state_of (w : Sys) (id : Z) : option (ExecutionState * option WaitTarget) :=
  t ← thread_at w id; Some (execution_state t, wait_target t).

End SchedExamples.

(** ** Properties *)

(** C1: In every run without timed receives, each registered thread is named by
    the scheduler's tables exactly once, at the place its own state announces
    (running, runnable, or blocked on precisely that wait), and threads in no
    such state are named nowhere; idle clocks exist for exactly the queued
    threads; and the processor is never idle while a thread is runnable. *)
Theorem scheduler_places_exact w0 w :
  booted w0 -> rtc (sched_step false) w0 w ->
  (forall id p, occurs (sched w) id p = if bool_decide (place w id = Some p) then 1%nat else 0%nat) /\
  (forall id, is_Some (queued_idle_ticks (sched w) !! id) <-> place w id = Some PQueue) /\
  (current (sched w) = None -> forall id, place w id <> Some PQueue).
Proof.
  intros Hboot Hrun. destruct (booted_inv true w0 Hboot) as [Hinv0 Hwc0].
  destruct (run_inv false w0 w Hrun Hinv0 Hwc0) as [Hinv Hwc].
  destruct (inv_exact _ _ _ Hinv eq_refl) as [He Hidle].
  assert (forall id p, occurs (sched w) id p =
    if bool_decide (place w id = Some p) then 1%nat else 0%nat) as Hocc.
  { intros id p. rewrite <- He. cbn. lia. }
  split_and!; [done| |].
  - intros id. rewrite (Hidle id). change (count id (queued (sched w))) with (occurs (sched w) id PQueue).
    rewrite Hocc. case_bool_decide; split; (done || lia).
  - intros Hn id Hp. specialize (Hocc id PQueue). cbn in Hocc. rewrite (Hwc Hn) in Hocc.
    rewrite count_nil, bool_decide_true in Hocc by done. lia.
Qed.

Lemma scheduler_places_exact_witness :
  place (SchedExamples.after false SchedExamples.two_receivers) 3 = Some (PWait Receivers 10) /\
  occurs (sched (SchedExamples.after false SchedExamples.two_receivers)) 3 (PWait Receivers 10) = 1%nat.
Proof.
  split; [vm_compute; reflexivity|].
  rewrite (proj1 (scheduler_places_exact SchedExamples.start
    (SchedExamples.after false SchedExamples.two_receivers) SchedExamples.start_booted
    (SchedExamples.after_steps false SchedExamples.two_receivers ltac:(vm_compute; reflexivity)))
    3 (PWait Receivers 10)).
  vm_compute. reflexivity.
Defined.



(** A timed receive that ends by its deadline leaves its thread in the
    channel's wait queue.  When that thread has since blocked on an object, a
    message for the channel wakes it although its object is not ready, and the
    thread that is really waiting for the message stays blocked. *)
Theorem timed_receive_misdirects_wakeup :
  exists w w' d,
    rtc (sched_step true) SchedExamples.start w /\
    SchedExamples.state_of w 3 = Some (Blocked, Some (WaitObject 20)) /\
    SchedExamples.state_of w 4 = Some (Blocked, Some (ChannelReceive 10)) /\
    Scheduler.notify_channel_ready SchedExamples.hooks 10 w = Some (d, w') /\
    SchedExamples.state_of w' 3 = Some (Runnable, None) /\
    SchedExamples.state_of w' 4 = Some (Blocked, Some (ChannelReceive 10)).
Proof.
  exists (SchedExamples.after true SchedExamples.stale_receiver).
  eexists _, _. split_and!.
  - apply SchedExamples.after_steps. vm_compute. reflexivity.
  - vm_compute. reflexivity.
  - vm_compute. reflexivity.
  - vm_compute. reflexivity.
  - vm_compute. reflexivity.
  - vm_compute. reflexivity.
Qed.

(** Continuing such a run, the same thread is put into the run queue while
    it is running, and then a second time when it yields. *)
Theorem timed_receive_queues_thread_twice :
  exists w, rtc (sched_step true) SchedExamples.start w /\ count 3 (queued (sched w)) = 1%nat /\
    current (sched w) = Some 3 /\
    exists w', exec SchedExamples.hooks OpYield w = Some (true, w') /\
               (1 < count 3 (queued (sched w')) + occurs (sched w') 3 PCurrent)%nat.
Proof.
  exists (SchedExamples.after true
    (SchedExamples.stale_receiver ++ [OpNotifyChannel 10; OpYield; OpNotifyObject 20])).
  split_and!.
  - apply SchedExamples.after_steps. vm_compute. reflexivity.
  - vm_compute. reflexivity.
  - vm_compute. reflexivity.
  - eexists. split; [vm_compute; reflexivity|]. vm_compute. lia.
Qed.

(** Without timed receives, a message wakes receivers in the order they
    blocked: notifying a channel makes the longest-waiting receiver runnable or
    running and leaves the others queued in order, those of other channels
    untouched. *)
Theorem notify_wakes_oldest_receiver w0 w h endpoint id rest :
  booted w0 -> rtc (sched_step false) w0 w ->
  waiting_receivers (sched w) !! endpoint = Some (id :: rest) ->
  exists d w', Scheduler.notify_channel_ready h endpoint w = Some (Some d, w') /\
    (place w' id = Some PQueue \/ place w' id = Some PCurrent) /\
    default [] (waiting_receivers (sched w') !! endpoint) = rest /\
    (forall k, k <> endpoint -> waiting_receivers (sched w') !! k = waiting_receivers (sched w) !! k).
Proof.
  intros Hboot Hrun Hl. destruct (booted_inv true w0 Hboot) as [Hinv0 Hwc0].
  destruct (run_inv false w0 w Hrun Hinv0 Hwc0) as [Hinv Hwc].
  pose proof (wp_notify_first w h endpoint id rest (fun r w' => exists d, r = Some d /\
    (place w' id = Some PQueue \/ place w' id = Some PCurrent) /\
    default [] (waiting_receivers (sched w') !! endpoint) = rest /\
    (forall k, k <> endpoint -> waiting_receivers (sched w') !! k = waiting_receivers (sched w) !! k))
    Hinv Hl) as Hwp.
  apply wp_run in Hwp as (r & w' & Hrun' & d & -> & Hrest); [eauto|].
  intros d w1 Hinv1 Hk Ho Hin. pose proof (inv_exact _ _ _ Hinv1 eq_refl) as Hex. exists d.
  split_and!; [done| | |done].
  - destruct Hin as [Hq|Hc]; [left; by apply exact_queued|right; by apply exact_current].
  - rewrite Hk. unfold remaining. by case_bool_decide.
Qed.

Lemma notify_wakes_oldest_receiver_witness :
  exists d w', Scheduler.notify_channel_ready SchedExamples.hooks 10
      (SchedExamples.after false SchedExamples.two_receivers) = Some (Some d, w') /\
    default [] (waiting_receivers (sched w') !! 10) = [4].
Proof.
  destruct (notify_wakes_oldest_receiver SchedExamples.start
    (SchedExamples.after false SchedExamples.two_receivers) SchedExamples.hooks 10 3 [4]
    SchedExamples.start_booted
    (SchedExamples.after_steps false SchedExamples.two_receivers ltac:(vm_compute; reflexivity))
    ltac:(vm_compute; reflexivity)) as (d & w' & Hrun & _ & Hrest & _).
  exists d, w'. split; [exact Hrun|exact Hrest].
Defined.
