(* ===== verification/SchedTime.v ===== *)
(** * Turns and deadlines

    Two more properties of the scheduler: yielding threads take turns in the
    order of their queue, and a thread that sleeps is never forgotten by the
    time manager, whatever else happens. *)

From S2P Require Import Prelude Arrays Time Task Objects SchedTypes Scheduler SchedInv SchedOps SchedWake SchedProps.
From stdpp Require Import base list gmap.
From stdpp Require Import relations.
From Stdlib Require Import ZArith Lia.

#[local] Open Scope Z_scope.
#[local] Open Scope sched_scope.
Import SchedulerState.

(** ** Taking turns *)

Section turns.
Implicit Types (w : Sys) (h : Hooks).

Lemma wp_and {A : Type} (m : K A) Q1 Q2 w :
  wp m Q1 w -> wp m Q2 w -> wp m (fun a w' => Q1 a w' /\ Q2 a w') w.
Proof. unfold wp. destruct (m w) as [[a w']|]; done. Qed.

Lemma inv_queue_registered b L w k q id :
  sched_inv b L w -> runnable_queues (sched w) !! k = Some q -> id ∈ q ->
  exists r, threads (sched w) !! id = Some r.
Proof.
  intros Hinv Hq Hid. apply (inv_named _ _ _ Hinv id PQueue). cbn.
  assert (0 < count id (queued (sched w)))%nat; [|lia].
  apply count_pos, list_elem_of_In, in_concat. exists q. split; [|by apply list_elem_of_In].
  apply list_elem_of_In. by eapply list_elem_of_lookup_2.
Qed.

(** The thread a CPU runs and the threads waiting in its queue. *)
Definition lined_up h w c q : Prop :=
  current (sched w) = Some c /\ runnable_queues (sched w) !! current_cpu_index h = Some q.

Lemma wp_yield_turn b w h c x q :
  sched_inv b [] w -> lined_up h w c (x :: q) ->
  wp (Scheduler.yield_current h) (fun r w' => lined_up h w' x (q ++ [c])) w.
Proof.
  intros Hinv [Hc Hq]. destruct (inv_current_registered _ _ _ _ Hinv Hc) as [r Hr].
  destruct (inv_queue_registered _ _ _ _ _ x Hinv Hq ltac:(by left)) as [rx Hrx].
  unfold Scheduler.yield_current. rewrite wp_bind, wp_get, Hc, wp_try.
  unfold Scheduler.requeue_current. rewrite wp_try, (wp_lookup_thread c r) by (done || apply Hinv).
  autorewrite with wps. unfold schedule_next_locked. rewrite wp_bind. unfold wp at 1, pop_next.
  rewrite sched_moved, sched_with. unfold pop_runnable_next.
  assert (runnable_queues (set_current (push_runnable_on_current_cpu h c (sched w)) None)
    !! current_cpu_index h = Some (x :: q ++ [c])) as Hpush.
  { cbn. by rewrite list_lookup_alter_eq, Hq. }
  rewrite Hpush. rewrite wp_try. unfold run_thread. rewrite wp_try, (wp_lookup_thread x rx).
  - autorewrite with wps. assert (forall w', current (sched w') = Some x ->
      runnable_queues (sched w') = <[current_cpu_index h := q ++ [c]]>
        (runnable_queues (set_current (push_runnable_on_current_cpu h c (sched w)) None)) ->
      wp (ok (decision TYield (Some c) (Some x))) (fun _ w' => lined_up h w' x (q ++ [c])) w') as Hfin.
    { intros w' Hc' Hq'. unfold ok. autorewrite with wps. split; [done|]. rewrite Hq'.
      apply list_lookup_insert_eq. by eapply lookup_lt_Some. }
    case_bool_decide; autorewrite with wps; by apply Hfin.
  - intros i ri Hri. cbn in Hri. cbn. rewrite thread_of_set.
    destruct (inv_registered _ _ _ Hinv i ri Hri) as (t & Ht & Hid). case_bool_decide; [|eauto].
    rewrite Ht. cbn. eauto.
  - done.
Qed.

(** Yield [n] times. *)
Fixpoint yields (n : nat) h : K unit :=
  match n with
  | O => mret tt
  | S n => Scheduler.yield_current h;; yields n h
  end.

Lemma wp_yields b w h c q n :
  sched_inv b [] w -> work_conserving w -> lined_up h w c q -> (n <= length q)%nat ->
  wp (yields n h) (fun _ w' => sched_inv b [] w' /\ work_conserving w' /\
    exists c', (c :: q) !! n = Some c' /\
      lined_up h w' c' (drop (S n) (c :: q) ++ take n (c :: q))) w.
Proof.
  revert w c q. induction n as [|n IH]; intros w c q Hinv Hwc Hl Hn; cbn [yields].
  { rewrite wp_ret. split_and!; [done|done|]. exists c. cbn. rewrite drop_0, app_nil_r. done. }
  destruct q as [|x q]; [cbn in Hn; lia|]. rewrite wp_bind.
  eapply wp_mono; [apply wp_and; [by apply (keeps_yield b w h Hinv Hwc)|by apply (wp_yield_turn b w h c x q)]|].
  intros r w' [(_ & Hinv' & Hwc') Hl']. eapply wp_mono.
  { apply (IH w' x (q ++ [c])); [done|done|done|]. rewrite length_app. cbn in *. lia. }
  intros [] w'' (Hinv'' & Hwc'' & c' & Hc' & Hl''). split_and!; [done|done|]. exists c'.
  cbn in Hn. change (x :: q ++ [c]) with ((x :: q) ++ [c]) in *.
  split.
  - cbn. rewrite lookup_app_l in Hc' by (cbn; lia). done.
  - change (drop (S (S n)) (c :: x :: q)) with (drop (S n) (x :: q)).
    change (take (S n) (c :: x :: q)) with (c :: take n (x :: q)).
    rewrite drop_app_le, take_app_le in Hl'' by (cbn; lia).
    by rewrite <- app_assoc in Hl''.
Qed.

End turns.

(** Yielding is round-robin: with [q] in the CPU's queue, after [n] yields
    the [n]-th thread of the queue runs and the threads that ran before it are
    queued behind the rest in the order they ran; so every queued thread runs
    within as many yields as its position. *)
Theorem yield_is_round_robin w0 w h c q n :
  booted w0 -> rtc (sched_step true) w0 w -> lined_up h w c q -> (n <= length q)%nat ->
  exists w' c', yields n h w = Some (tt, w') /\ (c :: q) !! n = Some c' /\
    lined_up h w' c' (drop (S n) (c :: q) ++ take n (c :: q)).
Proof.
  intros Hboot Hrun Hl Hn. destruct (booted_inv false w0 Hboot) as [Hinv0 Hwc0].
  destruct (run_inv true w0 w Hrun Hinv0 Hwc0) as [Hinv Hwc].
  pose proof (wp_yields false w h c q n Hinv Hwc Hl Hn) as Hy.
  apply wp_run in Hy as ([] & w' & Hrun' & _ & _ & c' & Hc' & Hl'). eauto.
Qed.

Lemma yield_is_round_robin_witness :
  exists w' c', yields 2 SchedExamples.hooks (SchedExamples.after true SchedExamples.two_workers) =
    Some (tt, w') /\ [2; 3; 4] !! 2%nat = Some c'.
Proof.
  destruct (yield_is_round_robin SchedExamples.start
    (SchedExamples.after true SchedExamples.two_workers) SchedExamples.hooks 2 [3; 4] 2
    SchedExamples.start_booted
    (SchedExamples.after_steps true SchedExamples.two_workers ltac:(vm_compute; reflexivity)))
    as (w' & c' & Hrun & Hc & _).
  - split; vm_compute; reflexivity.
  - cbn. lia.
  - exists w', c'. split; [exact Hrun|exact Hc].
Defined.

(** ** Sleeping threads and the time manager *)

(** The tokens the time manager will still deliver. *)
Definition tokens (t : TimeState) : list Z := (at_token <$> armed t) ++ wakeups t.

(** The scheduler operations of a machine, its timer interrupts, the delivery
    of expired wakeups, and changes to objects the scheduler does not own. *)
Inductive machine_step (allow_timed : bool) (w : Sys) : Sys -> Prop :=
| machine_op h op b w' :
    op_ok w op -> (timed op = true -> allow_timed = true) ->
    (forall event, op <> OpTimeWakeup event) -> exec h op w = Some (b, w') ->
    machine_step allow_timed w w'
| machine_tick t :
    clock w = Some t ->
    machine_step allow_timed w
      (mkSys (sched w) (objs w) (Some (TimeState.handle_tick t).2) (latches w))
| machine_deliver h t event t' d w' :
    clock w = Some t -> TimeState.take_wakeup t = (Some event, t') ->
    Scheduler.handle_time_wakeup h event (mkSys (sched w) (objs w) (Some t') (latches w)) =
      Some (d, w') ->
    machine_step allow_timed w w'
| machine_env objs' latches' :
    (forall id r, threads (sched w) !! id = Some r -> thread_of objs' r = thread_of (objs w) r) ->
    machine_step allow_timed w (mkSys (sched w) objs' (clock w) latches').

(** Every waiting token is known to the time manager. *)
Definition sleepers_known (w : Sys) : Prop :=
  forall token, is_Some (waiting_timers (sched w) !! token) ->
    exists t, clock w = Some t /\ token ∈ tokens t.

(** An operation that adds no waiting token and leaves the clock alone. *)
Definition timer_frame {A : Type} (m : K A) : Prop :=
  forall w a w', m w = Some (a, w') ->
    waiting_timers (sched w') ⊆ waiting_timers (sched w) /\ clock w' = clock w.

Section frames.

Lemma frame_bind {A B : Type} (m : K A) (f : A -> K B) :
  timer_frame m -> (forall a, timer_frame (f a)) -> timer_frame (m ≫= f).
Proof.
  intros Hm Hf w b w'. unfold mbind, K_bind. destruct (m w) as [[a w1]|] eqn:Hr; [|done].
  intros Hb. destruct (Hm _ _ _ Hr) as [Ht Hc], (Hf _ _ _ _ Hb) as [Ht' Hc'].
  split; [by etransitivity|congruence].
Qed.

Lemma frame_try {A B E : Type} (m : K (result A E)) (f : A -> K (result B E)) :
  timer_frame m -> (forall a, timer_frame (f a)) -> timer_frame (try_bind m f).
Proof.
  intros Hm Hf. apply frame_bind; [done|]. intros [a|e]; [apply Hf|]. by intros w r w' [= <- <-].
Qed.

Lemma frame_ret {A : Type} (a : A) : timer_frame (mret a).
Proof. by intros w r w' [= <- <-]. Qed.

Lemma frame_get : timer_frame get.
Proof. by intros w r w' [= <- <-]. Qed.

Lemma frame_modify f :
  (forall s, waiting_timers (f s) ⊆ waiting_timers s) -> timer_frame (modify f).
Proof. intros Hf w r w' [= <- <-]. split; [apply Hf|done]. Qed.

Lemma frame_transition r st tgt reason : timer_frame (transition_to r st tgt reason).
Proof. by intros w x w' [= <- <-]. Qed.

Lemma frame_expect r st tgt reason : timer_frame (expect_transition r st tgt reason).
Proof. intros w x w'. unfold expect_transition. by destruct (thread_of _ _); [intros [= <- <-]|]. Qed.

Lemma frame_lookup_record id : timer_frame (lookup_thread_record id).
Proof. apply frame_bind; [apply frame_get|]. intros s. apply frame_ret. Qed.

Lemma frame_lookup id : timer_frame (lookup_thread id).
Proof. by intros w x w' [= <- <-]. Qed.

Lemma frame_decision tr p n : timer_frame (decision tr p n).
Proof. by intros w x w' [= <- <-]. Qed.

Lemma frame_waiting r : timer_frame (is_waiting r).
Proof. by intros w x w' [= <- <-]. Qed.

Lemma frame_ref r : timer_frame (thread_ref_id r).
Proof. intros w x w' (t & _ & [= <- <-])%bind_Some. done. Qed.

Lemma frame_latch source : timer_frame (take_latch source).
Proof. intros w x w'. unfold take_latch. by destruct (latches w !! source); intros [= <- <-]. Qed.

Lemma frame_pop h : timer_frame (pop_next h).
Proof.
  intros w x w'. unfold pop_next. pose proof (pop_spec_queues h (sched w)) as Hs.
  destruct (pop_runnable_next h (sched w)) as [[id|] s]; intros [= <- <-].
  - destruct Hs as (_ & _ & _ & _ & Ht & _). split; [cbn; by rewrite Ht|done].
  - by destruct Hs as [-> _].
Qed.

Lemma push_absent_timers h id s : waiting_timers (push_runnable_if_absent h id s) = waiting_timers s.
Proof. unfold push_runnable_if_absent. by destruct (runnable_contains s id). Qed.

End frames.

Create HintDb frames.
#[global] Hint Resolve frame_ret frame_get frame_transition frame_expect frame_lookup_record
  frame_lookup frame_decision frame_waiting frame_ref frame_latch frame_pop : frames.

(** Follow the structure of an operation. *)
Ltac solve_frame :=
  repeat first
    [ progress intros
    | solve [eauto with frames]
    | apply frame_bind
    | apply frame_try
    | apply frame_modify
    | case_match
    | progress unfold ok, woken, wake ];
  try (rewrite ?push_absent_timers; done).

Section operation_frames.
Implicit Types h : Hooks.

Lemma frame_schedule h tr p : timer_frame (schedule_next_locked h tr p).
Proof. unfold schedule_next_locked, run_thread. solve_frame. Qed.
#[local] Hint Resolve frame_schedule : frames.

Lemma frame_wake_all h l : timer_frame (wake_all h l).
Proof. induction l; cbn [wake_all]; solve_frame. Qed.
#[local] Hint Resolve frame_wake_all : frames.

Lemma frame_wake_first h l : timer_frame (wake_first_blocked h l).
Proof. induction l; cbn [wake_first_blocked]; solve_frame. Qed.
#[local] Hint Resolve frame_wake_first : frames.

Lemma frame_wake_objects h o : timer_frame (wake_object_waiters_locked h o).
Proof. unfold wake_object_waiters_locked. solve_frame. Qed.
#[local] Hint Resolve frame_wake_objects : frames.

Lemma frame_block_on h q key c target : timer_frame (block_on h q key c target).
Proof. unfold block_on. solve_frame. by destruct q. Qed.
#[local] Hint Resolve frame_block_on : frames.

Lemma frame_requeue h p : timer_frame (Scheduler.requeue_current h p).
Proof. unfold Scheduler.requeue_current. solve_frame. Qed.
#[local] Hint Resolve frame_requeue : frames.

Lemma remove_waits_timers id s :
  waiting_timers (remove_from_wait_queues id s) ⊆ waiting_timers s.
Proof. cbn. apply map_filter_subseteq. Qed.

Lemma frame_tables {A : Type} (f : SchedulerState -> A * SchedulerState) :
  (forall w, length (runnable_queues (sched w)) = RUNNABLE_QUEUE_CPUS ->
     rebalanced (sched w) (f (sched w)).2) ->
  forall w a w', length (runnable_queues (sched w)) = RUNNABLE_QUEUE_CPUS ->
    (let '(a, s) := f (sched w) in Some (a, mkSys s (objs w) (clock w) (latches w))) = Some (a, w') ->
    waiting_timers (sched w') ⊆ waiting_timers (sched w) /\ clock w' = clock w.
Proof.
  intros Hf w a w' Hlen. specialize (Hf w Hlen). destruct (f (sched w)) as [x s].
  intros [= <- <-]. cbn in *. by rewrite (reb_timers _ _ Hf).
Qed.

(** The operations that arm no timer. *)
Lemma exec_frame h op w b w' :
  length (runnable_queues (sched w)) = RUNNABLE_QUEUE_CPUS ->
  (forall event, op <> OpTimeWakeup event) -> (forall d, op <> OpBlockUntil d) ->
  timed op = false -> exec h op w = Some (b, w') ->
  waiting_timers (sched w') ⊆ waiting_timers (sched w) /\ clock w' = clock w.
Proof.
  intros Hlen H1 H2 H3 Hrun.
  assert (op = OpTick \/ op = OpSteal \/ timer_frame (exec h op)) as [->|[->|Hf]]; [| | |by eapply Hf].
  - destruct op; try congruence; auto; right; right; cbn [exec]; unfold checked, ran.
    + unfold Scheduler.register_thread. solve_frame.
    + unfold Scheduler.make_runnable. solve_frame. apply remove_waits_timers.
    + unfold Scheduler.yield_current. solve_frame.
    + unfold Scheduler.preempt_current_if_needed. solve_frame.
    + unfold Scheduler.block_current_on_receive. solve_frame.
    + unfold Scheduler.block_current_on_receive_until, Scheduler.block_current_on_receive.
      cbn in H3. apply negb_false_iff in H3. rewrite H3. solve_frame.
    + unfold Scheduler.block_current_on_packet_receive. solve_frame.
    + unfold Scheduler.block_current_on_input_receive. solve_frame.
    + unfold Scheduler.block_current_on_object. solve_frame.
    + unfold Scheduler.terminate_current. solve_frame. apply remove_waits_timers.
    + unfold Scheduler.notify_channel_ready. solve_frame.
    + unfold Scheduler.notify_packet_ready, Scheduler.notify_waiter_ready. solve_frame.
    + unfold Scheduler.notify_input_ready, Scheduler.notify_waiter_ready. solve_frame.
    + unfold Scheduler.notify_object_ready. solve_frame.
    + unfold Scheduler.consume_preemption. solve_frame.
  - cbn in Hrun. unfold ran, mbind, K_bind in Hrun.
    destruct (Scheduler.handle_tick h w) as [[x w1]|] eqn:Hx; [|done]. injection Hrun as <- <-.
    eapply frame_tables; [|done|exact Hx]. intros w2. apply tick_spec.
  - cbn in Hrun. unfold ran, mbind, K_bind in Hrun.
    destruct (Scheduler.steal_idle_runnables h w) as [[x w1]|] eqn:Hx; [|done]. injection Hrun as <- <-.
    eapply frame_tables; [|done|exact Hx]. intros w2 Hl2. apply steal_spec. rewrite Hl2. apply cpu_index_lt.
Qed.

End operation_frames.

Section sleepers.
Implicit Types (w : Sys) (h : Hooks) (t : TimeState).

Definition known w token : Prop := exists t, clock w = Some t /\ token ∈ tokens t.

Lemma tokens_mk hz n clk table ring :
  tokens (mkTimeState hz n clk table ring) =
  (at_token <$> occupied table) ++ (we_token <$> occupied ring).
Proof. done. Qed.

Lemma arm_tokens t token d r t' :
  TimeState.arm_wakeup t token (one_shot d) = (r, t') ->
  (forall x, x ∈ tokens t -> x ∈ tokens t') /\ (is_ok r = true -> token ∈ tokens t').
Proof.
  unfold TimeState.arm_wakeup. cbn [req_deadline one_shot]. destruct (d <=? Time.now t).
  - pose proof (push_spec (ready t) (mkWakeEvent token DeadlineExpired)) as Hp.
    destruct (ReadyWakeupRing.push _ _) as [[] ring']; intros [= <- <-]; [|by destruct Hp as [-> _]].
    destruct Hp as [Hp _]. rewrite tokens_mk. split.
    + intros x. rewrite Hp, fmap_cons. unfold tokens. rewrite !elem_of_app, elem_of_cons. tauto.
    + intros _. rewrite Hp, fmap_cons, elem_of_app, elem_of_cons. auto.
  - pose proof (fill_slot_spec (timers t) (mkArmedTimer (next_timer_id t) token (one_shot d))) as Hf.
    destruct (fill_slot _ _) as [table|]; intros [= <- <-]; [|done].
    destruct Hf as [Hf _]. rewrite tokens_mk. split.
    + intros x. rewrite Hf, fmap_cons. unfold tokens. rewrite !elem_of_app, elem_of_cons. tauto.
    + intros _. rewrite Hf, fmap_cons, elem_of_app, elem_of_cons. auto.
Qed.

Lemma arm_deadline_run w d r w' :
  arm_deadline d w = Some (r, w') ->
  waiting_timers (sched w') = waiting_timers (sched w) /\ current (sched w') = current (sched w) /\
  (forall x, known w x -> known w' x) /\ (forall token, r = Ok token -> known w' token).
Proof.
  unfold arm_deadline. destruct (checked_add _ _ _) as [n|]; [|by intros [= <- <-]].
  destruct (clock w) as [t|] eqn:Hc; [|by intros [= <- <-]].
  destruct (TimeState.arm_wakeup t _ _) as [r' t'] eqn:Ha. pose proof (arm_tokens _ _ _ _ _ Ha) as [Hk Hn].
  destruct r' as [id|e]; intros [= <- <-]; (split_and!; [done|done| |]); unfold known; cbn.
  - intros x (t0 & Ht0 & Hx). simplify_eq. eauto.
  - intros token [= <-]. exists t'. split; [done|]. by apply Hn.
  - intros x (t0 & Ht0 & Hx). simplify_eq. eauto.
  - done.
Qed.

Lemma sleepers_frame w w' :
  sleepers_known w -> waiting_timers (sched w') ⊆ waiting_timers (sched w) ->
  (forall x, known w x -> known w' x) -> sleepers_known w'.
Proof.
  intros Hs Hsub Hk token [id Hid]. apply Hk, Hs. exists id. by eapply lookup_weaken.
Qed.

Lemma known_clock w w' x : clock w' = clock w -> known w x -> known w' x.
Proof. unfold known. by intros ->. Qed.

Lemma bind_run {A B : Type} (m : K A) (f : A -> K B) w b w' :
  (m ≫= f) w = Some (b, w') -> exists a w1, m w = Some (a, w1) /\ f a w1 = Some (b, w').
Proof. unfold mbind, K_bind. destruct (m w) as [[a w1]|]; [eauto|done]. Qed.

Lemma try_run {A B E : Type} (m : K (result A E)) (f : A -> K (result B E)) w b w' :
  try_bind m f w = Some (b, w') ->
  exists r w1, m w = Some (r, w1) /\
    match r with Ok a => f a w1 = Some (b, w') | Err e => w' = w1 end.
Proof.
  intros (r & w1 & Hm & Hf)%bind_run. exists r, w1. split; [done|].
  destruct r; [done|]. by injection Hf as _ ->.
Qed.

(** From an armed token to the end of the operation: the thread is recorded
    under the token, then operations that arm nothing run. *)
Lemma sleepers_insert {A B : Type} (m1 : K A) (m2 : K B) w token id b w' :
  sleepers_known w -> known w token -> timer_frame m1 -> timer_frame m2 ->
  (m1;; modify (fun s => set_waiting_timers s (<[token := id]> (waiting_timers s)));; m2) w =
    Some (b, w') ->
  sleepers_known w'.
Proof.
  intros Hs Hk H1 H2 (a & w1 & Hm1 & Hrest)%bind_run. destruct (H1 _ _ _ Hm1) as [Ht1 Hc1].
  apply bind_run in Hrest as ([] & w2 & [= <-] & Hm2). destruct (H2 _ _ _ Hm2) as [Ht2 Hc2].
  intros x [y Hy]. apply (lookup_weaken _ _ _ _ Hy) in Ht2. cbn in Ht2, Hc2.
  apply (known_clock w); [congruence|].
  destruct (decide (x = token)) as [->|Hne]; [done|]. rewrite lookup_insert_ne in Ht2 by done.
  apply Hs. exists y. exact (lookup_weaken _ _ _ _ Ht2 Ht1).
Qed.

Lemma block_until_known h d w b w' :
  sleepers_known w -> checked (Scheduler.block_current_until h d) w = Some (b, w') ->
  sleepers_known w'.
Proof.
  intros Hs (r & w1 & Hb & Hret)%bind_run. injection Hret as _ ->.
  apply try_run in Hb as (ri & w2 & Hn & Hb).
  assert (w2 = w) as -> by (unfold now in Hn; congruence).
  destruct ri as [inst|e]; [|by subst]. apply bind_run in Hb as (s & w3 & [= <- <-] & Hb).
  destruct (current (sched w)) as [id|] eqn:Hc; [|by injection Hb as _ <-].
  apply try_run in Hb as (rt & w4 & Ha & Hb). apply arm_deadline_run in Ha as (Ht & _ & Hk & Hnew).
  assert (sleepers_known w4) as Hs4 by (apply (sleepers_frame w); [done|by rewrite Ht|done]).
  destruct rt as [token|e]; [|by subst].
  apply try_run in Hb as (rl & w5 & Hl & Hb).
  assert (w5 = w4) as -> by (unfold lookup_thread in Hl; congruence).
  destruct rl as [r0|e]; [|by subst].
  eapply (sleepers_insert (transition_to r0 Blocked (Some (WaitTimer token d)) None;;
    modify (fun s => set_current s None)) _ w4 token id); [done|by apply Hnew| | |].
  - solve_frame.
  - apply (frame_try (schedule_next_locked h TBlocked (Some id)) (fun d0 => mret (Ok (token, d0))));
      [apply frame_schedule|solve_frame].
  - exact Hb.
Qed.

Lemma receive_until_known h e d w b w' :
  (d =? 0) = false ->
  sleepers_known w -> checked (Scheduler.block_current_on_receive_until h e d) w = Some (b, w') ->
  sleepers_known w'.
Proof.
  intros Hd Hs (r & w1 & Hb & Hret)%bind_run. injection Hret as _ ->.
  unfold Scheduler.block_current_on_receive_until in Hb. rewrite Hd in Hb.
  apply bind_run in Hb as (s & w3 & [= <- <-] & Hb).
  destruct (current (sched w)) as [id|] eqn:Hc; [|by injection Hb as _ <-].
  apply try_run in Hb as (ri & w2 & Hn & Hb).
  assert (w2 = w) as -> by (unfold now in Hn; congruence).
  destruct ri as [inst|e']; [|by subst].
  apply try_run in Hb as (rt & w4 & Ha & Hb). apply arm_deadline_run in Ha as (Ht & _ & Hk & Hnew).
  assert (sleepers_known w4) as Hs4 by (apply (sleepers_frame w); [done|by rewrite Ht|done]).
  destruct rt as [token|e']; [|by subst].
  apply try_run in Hb as (rl & w5 & Hl & Hb).
  assert (w5 = w4) as -> by (unfold lookup_thread in Hl; congruence).
  destruct rl as [r0|e']; [|by subst].
  eapply (sleepers_insert (transition_to r0 Blocked (Some (ChannelReceive e)) None;;
    modify (fun s => set_current s None)) (modify (enqueue_waiter Receivers e id);;
    schedule_next_locked h TBlocked (Some id)) w4 token id); [done|by apply Hnew| | |exact Hb].
  - solve_frame.
  - apply frame_bind; [solve_frame|intros _; apply frame_schedule].
Qed.

Lemma tick_known t x : x ∈ tokens t -> x ∈ tokens (TimeState.handle_tick t).2.
Proof.
  unfold TimeState.handle_tick.
  destruct (TimeState.tick_slots _ _ _) as [[table ring] fired] eqn:Hts. cbn [snd].
  apply tick_slots_spec in Hts as (exp & kept & Ho & Ho' & Hr & _). rewrite tokens_mk.
  unfold tokens, armed, wakeups. rewrite !elem_of_app. intros [Hx|Hx].
  - rewrite Ho, fmap_app, elem_of_app in Hx. destruct Hx as [Hx|Hx].
    + right. rewrite Hr, elem_of_app. by left.
    + left. rewrite Ho', fmap_app, elem_of_app. by right.
  - right. rewrite Hr, elem_of_app. by right.
Qed.

(** Delivering a wakeup removes its token from both sides. *)
Lemma deliver_known h t event t' w d w' :
  clock w = Some t -> TimeState.take_wakeup t = (Some event, t') -> sleepers_known w ->
  Scheduler.handle_time_wakeup h event (mkSys (sched w) (objs w) (Some t') (latches w)) = Some (d, w') ->
  sleepers_known w'.
Proof.
  intros Hc Htw Hs Hrun.
  assert (forall x, x <> we_token event -> x ∈ tokens t -> x ∈ tokens t') as Hkeep.
  { unfold TimeState.take_wakeup in Htw. pose proof (pop_spec (ready t)) as Hp.
    destruct (ReadyWakeupRing.pop (ready t)) as [ev ring]. injection Htw as -> <-.
    destruct Hp as [Hp _]. intros x Hne. unfold tokens, armed, wakeups. cbn [ready timers]. rewrite Hp.
    rewrite fmap_cons, !elem_of_app, elem_of_cons. tauto. }
  assert (waiting_timers (sched w') ⊆ delete (we_token event) (waiting_timers (sched w)) /\
          clock w' = Some t') as [Hsub Hck].
  { unfold Scheduler.handle_time_wakeup in Hrun. apply bind_run in Hrun as (s & w1 & [= <- <-] & Hrun).
    cbn [sched] in Hrun. destruct (waiting_timers (sched w) !! we_token event) as [id|] eqn:Hid.
    - apply bind_run in Hrun as ([] & w2 & [= <-] & Hrun).
      assert (timer_frame (r ← lookup_thread_record id;
        match r with
        | Err _ => mret None
        | Ok record =>
            waiting ← is_waiting record;
            if negb waiting then mret None
            else wake h id record WakeTimerExpired;; woken h TTimeWake (current (sched w))
        end)) as Hf by (pose proof frame_schedule; solve_frame; apply frame_schedule).
      by apply Hf in Hrun.
    - injection Hrun as _ <-. cbn. by rewrite delete_id. }
  intros x [y Hy]. apply (lookup_weaken _ _ _ _ Hy), lookup_delete_Some in Hsub as [Hne Hy'].
  destruct (Hs x) as (t0 & Ht0 & Hx); [eauto|]. simplify_eq. exists t'. split; [done|].
  apply Hkeep; [congruence|done].
Qed.

End sleepers.

Section machine.
Implicit Types (w : Sys).

Lemma machine_sched at_ w w' : machine_step at_ w w' -> rtc (sched_step at_) w w'.
Proof.
  intros [h op b w1 Hok Ht _ Hrun|t Hc|h t event t' d w1 Hc Htw Hrun|objs' latches' Hsame].
  - apply rtc_once. by eapply step_op.
  - apply rtc_once. by apply step_env.
  - eapply rtc_l; [by apply (step_env at_ w (objs w) (Some t') (latches w))|]. apply rtc_once.
    eapply (step_op at_ _ h (OpTimeWakeup event)); [done|done|]. cbn. unfold ran, mbind, K_bind.
    by rewrite Hrun.
  - apply rtc_once. by apply step_env.
Qed.

Lemma machine_known at_ w w' :
  machine_step at_ w w' -> length (runnable_queues (sched w)) = RUNNABLE_QUEUE_CPUS ->
  sleepers_known w -> sleepers_known w'.
Proof.
  intros Hstep Hlen Hs.
  destruct Hstep as [h op b w1 Hok Ht Hne Hrun|t Hc|h t event t' d w1 Hc Htw Hrun|objs' latches' Hsame].
  - destruct (timed op) eqn:Htm.
    + destruct op; try done. cbn in Htm. apply negb_true_iff in Htm.
      by eapply receive_until_known.
    + assert ((exists d, op = OpBlockUntil d) \/ forall d, op <> OpBlockUntil d) as [[d ->]|Hnb]
        by (destruct op; first [left; eauto; fail | right; done]).
      * by eapply block_until_known.
      * destruct (exec_frame h op w b w1 Hlen Hne Hnb Htm Hrun) as [Hsub Hck].
        apply (sleepers_frame w); [done|done|]. intros x. by apply known_clock.
  - intros x Hx. destruct (Hs x Hx) as (t0 & Ht0 & Hin). simplify_eq. cbn.
    eexists. split; [done|]. by apply tick_known.
  - by eapply deliver_known.
  - exact Hs.
Qed.

Lemma machine_run at_ w w' :
  rtc (machine_step at_) w w' -> sched_inv (negb at_) [] w -> work_conserving w -> sleepers_known w ->
  sched_inv (negb at_) [] w' /\ sleepers_known w'.
Proof.
  induction 1 as [|w w1 w2 Hstep _ IH]; intros Hinv Hwc Hs; [done|].
  destruct (run_inv at_ w w1 (machine_sched _ _ _ Hstep) Hinv Hwc) as [Hinv1 Hwc1].
  apply IH; [done|done|]. eapply machine_known; [exact Hstep|apply Hinv|done].
Qed.

Lemma booted_known w : booted w -> sleepers_known w.
Proof.
  intros (store & r & Hn). unfold Scheduler.new in Hn. apply bind_Some in Hn as (t & _ & [= Hs _]).
  intros x. rewrite <- Hs. cbn. rewrite lookup_empty. by intros [].
Qed.

End machine.

(** Thread 3 sleeps until tick 5. *)
Definition sleeping : Sys :=
  SchedExamples.after false (SchedExamples.two_workers ++ [OpYield; OpBlockUntil 5]).

Definition is_wakeup (op : SchedOp) : bool :=
  match op with OpTimeWakeup _ => true | _ => false end.

Lemma run_machine ops w w' :
  SchedExamples.run false ops w = Some w' -> forallb (fun op => negb (is_wakeup op)) ops = true ->
  rtc (machine_step false) w w'.
Proof.
  revert w. induction ops as [|op ops IH]; intros w; cbn [SchedExamples.run forallb];
    [intros [= ->] _; constructor|].
  destruct (SchedExamples.op_okb w op && _) eqn:Hok; [|done]. apply andb_prop in Hok as [Hok Ht].
  destruct (exec SchedExamples.hooks op w) as [[b w1]|] eqn:Hex; [|done].
  intros Hrun [Hn Hall]%andb_prop. eapply rtc_l; [|by apply IH].
  eapply machine_op; [| | |exact Hex].
  - destruct op; try done; cbn in *; by apply bool_decide_eq_true in Hok.
  - intros Htm. by rewrite Htm in Ht.
  - intros event ->. done.
Qed.


