(* ===== verification/Words.v ===== *)
(** * Machine words and byte strings

    What the cryptographic code uses of the integer types and of the
    conversions to and from byte arrays.  A byte is a [Z] in [0, 256), a
    [w]-bit word a [Z] in [0, 2^w).

    The plain operators [+], [-] and [*] of the source panic on overflow in
    builds with overflow checks and wrap in the others.  The models write them
    with [chk], which is [None] when the exact result does not fit: a theorem
    that a function returns [Some] then shows that no build overflows, and
    that both kinds of build compute the same value. *)

From S2P Require Import Prelude.
From stdpp Require Import base list option.
From Stdlib Require Import ZArith Lia Zdiv.

#[local] Open Scope Z_scope.

Definition chk (w z : Z) : option Z :=
  if (0 <=? z) && (z <? 2 ^ w) then Some z else None.

Definition wrap (w z : Z) : Z := z mod 2 ^ w.

(** [x << n] on a [w]-bit word: the bits shifted out are lost. *)
Definition shl (w x n : Z) : Z := wrap w (Z.shiftl x n).
Definition wrapping_add (w a b : Z) : Z := wrap w (a + b).
Definition wrapping_sub (w a b : Z) : Z := wrap w (a - b).
Definition wrapping_neg (w a : Z) : Z := wrap w (- a).
(** [overflowing_add] and [overflowing_sub]: the wrapped result and whether it wrapped. *)
Definition overflowing_add (w a b : Z) : Z * bool := (wrapping_add w a b, 2 ^ w <=? a + b).
Definition overflowing_sub (w a b : Z) : Z * bool := (wrapping_sub w a b, a <? b).
(** [!x] *)
Definition lnot (w x : Z) : Z := Z.lxor x (Z.ones w).
Definition rotate_left (w x n : Z) : Z := Z.lor (shl w x n) (Z.shiftr x (w - n)).
Definition rotate_right (w x n : Z) : Z := Z.lor (Z.shiftr x n) (shl w x (w - n)).

Definition is_word (w z : Z) : Prop := 0 <= z < 2 ^ w.
Definition is_bytes (l : list Z) : Prop := Forall (is_word 8) l.

(** ** [from_le_bytes], [to_le_bytes] and the big-endian versions *)

Fixpoint from_le_bytes (l : list Z) : Z :=
  match l with
  | [] => 0
  | b :: l => b + 256 * from_le_bytes l
  end.

Fixpoint to_le_bytes (n : nat) (z : Z) : list Z :=
  match n with
  | O => []
  | S n => z mod 256 :: to_le_bytes n (z / 256)
  end.

Definition from_be_bytes (l : list Z) : Z := from_le_bytes (reverse l).
Definition to_be_bytes (n : nat) (z : Z) : list Z := reverse (to_le_bytes n z).

(** [((k[t >> 3] >> (t & 7)) & 1) as u64]: bit [t] of a byte string. *)
Definition bit_at (k : list Z) (t : nat) : Z :=
  Z.land (Z.shiftr (k !!! (t / 8)%nat) (Z.of_nat (t mod 8))) 1.

(** [slice.chunks(n)] *)
Fixpoint chunks_fuel (fuel n : nat) (l : list Z) : list (list Z) :=
  match fuel, l with
  | S fuel, _ :: _ => take n l :: chunks_fuel fuel n (drop n l)
  | _, _ => []
  end.
Definition chunks (n : nat) (l : list Z) : list (list Z) := chunks_fuel (length l) n l.

(** [zip] two byte strings with [^]. *)
Definition xor_bytes (a b : list Z) : list Z := zip_with Z.lxor a b.

(** An array of five words: the limbs of the field arithmetic. *)
Record Limbs : Type := mkLimbs {
  limb0 : Z; limb1 : Z; limb2 : Z; limb3 : Z; limb4 : Z
}.

(** The number that limbs of [w] bits stand for. *)
Definition eval_limbs (w : Z) (a : Limbs) : Z :=
  limb0 a + 2 ^ w * limb1 a + 2 ^ (2 * w) * limb2 a + 2 ^ (3 * w) * limb3 a +
  2 ^ (4 * w) * limb4 a.

(** The sum of the five products of one column of a limb product, in a type
    of [w] bits that holds each product.  The terms are not negative, so a
    partial sum overflows only if the whole sum does. *)
Definition column (w a0 b0 a1 b1 a2 b2 a3 b3 a4 b4 : Z) : option Z :=
  chk w (a0 * b0 + a1 * b1 + a2 * b2 + a3 * b3 + a4 * b4).

(** ** Checked arithmetic *)

Lemma chk_ok w z : 0 <= z < 2 ^ w -> chk w z = Some z.
Proof.
  intros [? ?]. unfold chk. rewrite (proj2 (Z.leb_le 0 z)), (proj2 (Z.ltb_lt z _)) by lia. done.
Qed.

Lemma chk_overflow w z : 2 ^ w <= z -> chk w z = None.
Proof.
  intros ?. unfold chk. rewrite (proj2 (Z.ltb_ge z _)) by lia. by rewrite andb_false_r.
Qed.

Lemma wrap_small w z : 0 <= z < 2 ^ w -> wrap w z = z.
Proof. apply Z.mod_small. Qed.

Lemma wrap_word w z : 0 <= w -> is_word w (wrap w z).
Proof. intros ?. apply Z.mod_pos_bound. lia. Qed.

(** Bounds of products of non-negative factors, for [chk] side conditions. *)
Lemma mul_bound a b A B : 0 <= a <= A -> 0 <= b <= B -> 0 <= a * b <= A * B.
Proof. nia. Qed.

Lemma column_ok w A a0 b0 a1 b1 a2 b2 a3 b3 a4 b4 B0 B1 B2 B3 B4 :
  0 <= a0 <= A -> 0 <= a1 <= A -> 0 <= a2 <= A -> 0 <= a3 <= A -> 0 <= a4 <= A ->
  0 <= b0 <= B0 -> 0 <= b1 <= B1 -> 0 <= b2 <= B2 -> 0 <= b3 <= B3 -> 0 <= b4 <= B4 ->
  A * (B0 + B1 + B2 + B3 + B4) < 2 ^ w ->
  exists d, column w a0 b0 a1 b1 a2 b2 a3 b3 a4 b4 = Some d /\
    d = a0 * b0 + a1 * b1 + a2 * b2 + a3 * b3 + a4 * b4 /\
    0 <= d <= A * (B0 + B1 + B2 + B3 + B4).
Proof.
  intros A0 A1 A2 A3 A4 H0 H1 H2 H3 H4 HB.
  pose proof (mul_bound _ _ _ _ A0 H0) as M0. pose proof (mul_bound _ _ _ _ A1 H1) as M1.
  pose proof (mul_bound _ _ _ _ A2 H2) as M2. pose proof (mul_bound _ _ _ _ A3 H3) as M3.
  pose proof (mul_bound _ _ _ _ A4 H4) as M4. clear A0 A1 A2 A3 A4 H0 H1 H2 H3 H4.
  rewrite !Z.mul_add_distr_l in *. unfold column. rewrite chk_ok by lia. eexists. split; [done|]. lia.
Qed.

(** ** Bit fields as quotients and remainders *)

Lemma land_mask x n : 0 <= n -> Z.land x (2 ^ n - 1) = x mod 2 ^ n.
Proof. intros. rewrite <- Z.land_ones by lia. by rewrite Z.ones_equiv, Z.sub_1_r. Qed.

Lemma shiftr_div x n : 0 <= n -> Z.shiftr x n = x / 2 ^ n.
Proof. intros. by apply Z.shiftr_div_pow2. Qed.

Lemma shl_mul w x n : 0 <= n -> shl w x n = (x * 2 ^ n) mod 2 ^ w.
Proof. intros. unfold shl, wrap. by rewrite Z.shiftl_mul_pow2. Qed.

Lemma split_bits w d :
  0 <= w -> 0 <= d ->
  exists q m, d = 2 ^ w * q + m /\ 0 <= m < 2 ^ w /\ 0 <= q /\
    Z.shiftr d w = q /\ Z.land d (2 ^ w - 1) = m.
Proof.
  intros Hw Hd. exists (d / 2 ^ w), (d mod 2 ^ w).
  rewrite shiftr_div, land_mask by lia.
  pose proof (Z.div_mod d (2 ^ w) ltac:(lia)). pose proof (Z.mod_pos_bound d (2 ^ w) ltac:(lia)).
  pose proof (Z.div_pos d (2 ^ w) Hd ltac:(lia)). lia.
Qed.

(** Step through a [d >> w], [d & mask] pair. *)
Ltac split_bits w mask d :=
  let q := fresh "q" in let m := fresh "m" in
  let Hd := fresh "Hd" in let Hm := fresh "Hm" in let Hq := fresh "Hq" in
  let E1 := fresh in let E2 := fresh in
  destruct (split_bits w d ltac:(lia) ltac:(lia)) as (q & m & Hd & Hm & Hq & E1 & E2);
  change (2 ^ w - 1) with mask in E2; rewrite ?E1, ?E2; clear E1 E2.

(** Joining a low field with a high one. *)
Lemma lor_low a b k : 0 <= k -> 0 <= a < 2 ^ k -> Z.lor a (b * 2 ^ k) = a + b * 2 ^ k.
Proof.
  intros Hk Ha. symmetry. rewrite <- (Z.shiftl_mul_pow2 b k Hk).
  rewrite Z.add_nocarry_lxor.
  - symmetry. apply Z.bits_inj'. intros i Hi. rewrite Z.lor_spec, Z.lxor_spec.
    destruct (Z.lt_ge_cases i k) as [Hik|Hik].
    + rewrite (Z.shiftl_spec_low b k i) by lia. by destruct (Z.testbit a i).
    + rewrite <- (Z.mod_small a (2 ^ k)) by lia. by rewrite Z.mod_pow2_bits_high by lia.
  - apply Z.bits_inj'. intros i Hi. rewrite Z.land_spec, Z.bits_0.
    destruct (Z.lt_ge_cases i k) as [Hik|Hik].
    + rewrite (Z.shiftl_spec_low b k i) by lia. by rewrite andb_false_r.
    + rewrite <- (Z.mod_small a (2 ^ k)) by lia. by rewrite Z.mod_pow2_bits_high by lia.
Qed.

(** Replace the quotient and the remainder of [x] by [2 ^ n] by variables
    with their defining equation. *)
Ltac divmod x n :=
  let q := fresh "q" in let m := fresh "m" in let E := fresh "E" in let B := fresh "B" in
  pose proof (Z.div_mod x (2 ^ n) ltac:(lia)) as E;
  pose proof (Z.mod_pos_bound x (2 ^ n) ltac:(lia)) as B;
  generalize dependent (x / 2 ^ n); generalize dependent (x mod 2 ^ n); intros m B q E.

(** ** Byte strings *)

Lemma length_to_le_bytes n z : length (to_le_bytes n z) = n.
Proof. revert z. induction n; intros z; cbn; auto. Qed.

Lemma is_bytes_to_le n z : is_bytes (to_le_bytes n z).
Proof.
  revert z. induction n as [|n IH]; intros z; cbn [to_le_bytes]; constructor; [|apply IH].
  apply (Z.mod_pos_bound z 256). lia.
Qed.

Lemma length_to_be_bytes n z : length (to_be_bytes n z) = n.
Proof. unfold to_be_bytes. rewrite length_reverse. apply length_to_le_bytes. Qed.

Lemma is_bytes_to_be n z : is_bytes (to_be_bytes n z).
Proof. apply Forall_reverse, is_bytes_to_le. Qed.

Lemma is_bytes_app a b : is_bytes (a ++ b) <-> is_bytes a /\ is_bytes b.
Proof. apply Forall_app. Qed.

Lemma pow2_bytes n : 2 ^ (8 * Z.of_nat (S n)) = 256 * 2 ^ (8 * Z.of_nat n).
Proof. rewrite Nat2Z.inj_succ, Z.mul_succ_r, Z.pow_add_r by lia. change (2 ^ 8) with 256. lia. Qed.

Lemma from_le_bound l : is_bytes l -> 0 <= from_le_bytes l < 2 ^ (8 * Z.of_nat (length l)).
Proof.
  induction 1 as [|b l Hb _ IH]; [cbn; lia|]. cbn [from_le_bytes length].
  rewrite pow2_bytes. unfold is_word in Hb. change (2 ^ 8) with 256 in Hb. lia.
Qed.

Lemma from_le_app a b :
  from_le_bytes (a ++ b) = from_le_bytes a + 2 ^ (8 * Z.of_nat (length a)) * from_le_bytes b.
Proof.
  induction a as [|x a IH].
  - cbn [app from_le_bytes length]. change (2 ^ (8 * Z.of_nat 0)) with 1. lia.
  - cbn [app from_le_bytes length]. rewrite pow2_bytes, IH. lia.
Qed.

Lemma from_to_le n z : from_le_bytes (to_le_bytes n z) = z mod 2 ^ (8 * Z.of_nat n).
Proof.
  revert z. induction n as [|n IH]; intros z.
  - change (2 ^ (8 * Z.of_nat 0)) with 1. by rewrite Z.mod_1_r.
  - cbn [to_le_bytes from_le_bytes]. rewrite IH, pow2_bytes, Z.rem_mul_r by lia. lia.
Qed.

Lemma to_from_le l : is_bytes l -> to_le_bytes (length l) (from_le_bytes l) = l.
Proof.
  induction 1 as [|b l Hb _ IH]; [done|]. cbn [from_le_bytes length to_le_bytes].
  unfold is_word in Hb. change (2 ^ 8) with 256 in Hb.
  rewrite (Z.mul_comm 256), Z.mod_add, Z.div_add, Z.mod_small, Z.div_small, Z.add_0_l, IH by lia.
  done.
Qed.

Lemma to_from_be l : is_bytes l -> to_be_bytes (length l) (from_be_bytes l) = l.
Proof.
  intros H. unfold to_be_bytes, from_be_bytes. rewrite <- (length_reverse l), to_from_le.
  - apply reverse_involutive.
  - by apply Forall_reverse.
Qed.

Lemma to_le_mod n z : to_le_bytes n (z mod 2 ^ (8 * Z.of_nat n)) = to_le_bytes n z.
Proof.
  rewrite <- from_to_le, <- (length_to_le_bytes n z) at 1.
  apply to_from_le, is_bytes_to_le.
Qed.

(** Equal strings of one length are equal numbers. *)
Lemma from_le_inj a b :
  is_bytes a -> is_bytes b -> length a = length b -> from_le_bytes a = from_le_bytes b -> a = b.
Proof. intros Ha Hb Hl He. by rewrite <- (to_from_le a Ha), Hl, He, to_from_le. Qed.

Lemma from_le_zeros n : from_le_bytes (replicate n 0) = 0.
Proof. induction n as [|n IH]; cbn; [done|]. lia. Qed.

Lemma to_le_app n m z :
  to_le_bytes (n + m) z = to_le_bytes n z ++ to_le_bytes m (z / 2 ^ (8 * Z.of_nat n)).
Proof.
  revert z. induction n as [|n IH]; intros z.
  - cbn [Nat.add app to_le_bytes]. change (2 ^ (8 * Z.of_nat 0)) with 1. by rewrite Z.div_1_r.
  - cbn [Nat.add app to_le_bytes]. rewrite IH, pow2_bytes, <- Z.div_div by lia. done.
Qed.

(** A window of a byte string is a bit field of its number. *)
Lemma from_le_window l i n :
  is_bytes l -> (i + n <= length l)%nat ->
  from_le_bytes (take n (drop i l)) =
    from_le_bytes l / 2 ^ (8 * Z.of_nat i) mod 2 ^ (8 * Z.of_nat n).
Proof.
  intros Hl Hn.
  assert (Hsplit : l = take i l ++ take n (drop i l) ++ drop n (drop i l))
    by (rewrite (take_drop n), take_drop; done).
  assert (length (take i l) = i) as Hi by (rewrite length_take; lia).
  assert (length (take n (drop i l)) = n) as Hn' by (rewrite length_take, length_drop; lia).
  rewrite Hsplit in Hl. apply is_bytes_app in Hl as [H1 [H2 H3]%is_bytes_app].
  pose proof (from_le_bound _ H1) as B1. pose proof (from_le_bound _ H2) as B2.
  rewrite Hi in B1. rewrite Hn' in B2.
  rewrite Hsplit at 2. rewrite !from_le_app, Hi, Hn'.
  rewrite (Z.mul_comm (2 ^ (8 * Z.of_nat i))), Z.div_add, Z.div_small, Z.add_0_l by lia.
  by rewrite (Z.mul_comm (2 ^ _)), Z.mod_add, Z.mod_small by lia.
Qed.

Lemma xor_bytes_involutive a k : (length a <= length k)%nat -> xor_bytes (xor_bytes a k) k = a.
Proof.
  unfold xor_bytes. revert k. induction a as [|x a IH]; intros [|y k] Hl; cbn in *; try done; [lia|].
  rewrite IH by lia. f_equal. by rewrite Z.lxor_assoc, Z.lxor_nilpotent, Z.lxor_0_r.
Qed.

Lemma length_xor_bytes a k : length (xor_bytes a k) = Nat.min (length a) (length k).
Proof. apply length_zip_with. Qed.

(** ** Chunks *)

Lemma chunks_fuel_enough n k l :
  (0 < n)%nat -> (length l <= k)%nat -> chunks_fuel k n l = chunks n l.
Proof.
  intros Hn. unfold chunks.
  assert (H : forall m k l, (length l <= m)%nat -> (length l <= k)%nat ->
            chunks_fuel k n l = chunks_fuel m n l).
  { induction m as [|m IH]; intros [|k'] [|x l'] H1 H2; cbn in H1, H2; try done; try lia.
    cbn [chunks_fuel]. f_equal. destruct n as [|n]; [lia|]. cbn [drop].
    apply IH; rewrite length_drop; lia. }
  intros Hk. apply H; lia.
Qed.

Lemma chunks_cons n l :
  (0 < n)%nat -> l <> [] -> chunks n l = take n l :: chunks n (drop n l).
Proof.
  intros Hn Hl. destruct l as [|x l]; [done|]. unfold chunks at 1. cbn [length chunks_fuel].
  f_equal. apply chunks_fuel_enough; [done|]. rewrite length_drop. cbn. lia.
Qed.

Lemma chunks_nil n : chunks n [] = [].
Proof. done. Qed.

Lemma chunks_short n l : (0 < n)%nat -> l <> [] -> (length l <= n)%nat -> chunks n l = [l].
Proof. intros Hn Hl Hle. rewrite chunks_cons, take_ge, drop_ge by done. done. Qed.

(** Cutting at a multiple of the chunk size. *)
Lemma chunks_app n k a b :
  (0 < n)%nat -> length a = (n * k)%nat -> chunks n (a ++ b) = chunks n a ++ chunks n b.
Proof.
  intros Hn. revert a. induction k as [|k IH]; intros a Ha.
  - rewrite (nil_length_inv a) by lia. done.
  - assert (a <> []) by (intros ->; cbn in Ha; lia).
    rewrite (chunks_cons n (a ++ b)), (chunks_cons n a) by (try done; by destruct a).
    rewrite take_app_le, drop_app_le by lia. rewrite IH by (rewrite length_drop; lia). done.
Qed.

(** ** Fields that straddle two words

    The low [s] bits of the field are the top of [lo], the others the bottom
    of [hi]; [w] is the width of the words and [n] that of the field. *)
Lemma straddle w n s lo hi :
  0 <= s <= n -> n <= w -> 0 <= lo < 2 ^ w ->
  Z.land (Z.lor (Z.shiftr lo (w - s)) (shl w hi s)) (2 ^ n - 1) =
    lo / 2 ^ (w - s) + 2 ^ s * (hi mod 2 ^ (n - s)).
Proof.
  intros Hs Hn Hlo. rewrite shiftr_div, shl_mul by lia.
  assert (Hw : 2 ^ w = 2 ^ (w - s) * 2 ^ s) by (rewrite <- Z.pow_add_r by lia; f_equal; lia).
  assert (0 <= lo / 2 ^ (w - s) < 2 ^ s).
  { split; [apply Z.div_pos; lia|]. apply Z.div_lt_upper_bound; lia. }
  rewrite Hw, Z.mul_mod_distr_r, lor_low, land_mask by lia.
  replace (2 ^ n) with (2 ^ s * 2 ^ (n - s)) by (rewrite <- Z.pow_add_r by lia; f_equal; lia).
  rewrite Z.rem_mul_r by lia.
  rewrite Z.mod_add, (Z.mod_small (lo / _)), Z.div_add, (Z.div_small (lo / _)), Z.add_0_l by lia.
  rewrite Z.mod_mod_divide; [done|].
  exists (2 ^ (w - n)). rewrite <- Z.pow_add_r by lia. f_equal. lia.
Qed.

(** A low part [lo] joined with the bits of [hi] that stay in the word. *)
Lemma join_words w s lo hi :
  0 <= s <= w -> 0 <= lo < 2 ^ s -> Z.lor lo (shl w hi s) = lo + 2 ^ s * (hi mod 2 ^ (w - s)).
Proof.
  intros Hs Hlo. rewrite shl_mul by lia.
  replace (2 ^ w) with (2 ^ (w - s) * 2 ^ s) by (rewrite <- Z.pow_add_r by lia; f_equal; lia).
  rewrite Z.mul_mod_distr_r, lor_low by lia. lia.
Qed.

(** The four 32-bit words of a 16-byte string. *)
Lemma from_le_words b :
  is_bytes b -> length b = 16%nat ->
  is_word 32 (from_le_bytes (slice b 0 4)) /\ is_word 32 (from_le_bytes (slice b 4 8)) /\
  is_word 32 (from_le_bytes (slice b 8 12)) /\ is_word 32 (from_le_bytes (slice b 12 16)) /\
  from_le_bytes b =
    from_le_bytes (slice b 0 4) + 2 ^ 32 * from_le_bytes (slice b 4 8) +
    2 ^ 64 * from_le_bytes (slice b 8 12) + 2 ^ 96 * from_le_bytes (slice b 12 16).
Proof.
  intros Hb Hl. unfold slice, is_word.
  pose proof (from_le_bound b Hb) as HB. rewrite Hl in HB.
  rewrite !from_le_window by (try done; rewrite Hl; cbn; lia).
  change (2 ^ (8 * Z.of_nat 16)) with (2 ^ 128) in HB.
  change (2 ^ (8 * Z.of_nat (Z.to_nat (4 - 0)))) with (2 ^ 32).
  change (2 ^ (8 * Z.of_nat (Z.to_nat (8 - 4)))) with (2 ^ 32).
  change (2 ^ (8 * Z.of_nat (Z.to_nat (12 - 8)))) with (2 ^ 32).
  change (2 ^ (8 * Z.of_nat (Z.to_nat (16 - 12)))) with (2 ^ 32).
  change (2 ^ (8 * Z.of_nat (Z.to_nat 0))) with 1. change (2 ^ (8 * Z.of_nat (Z.to_nat 4))) with (2 ^ 32).
  change (2 ^ (8 * Z.of_nat (Z.to_nat 8))) with (2 ^ 64).
  change (2 ^ (8 * Z.of_nat (Z.to_nat 12))) with (2 ^ 96).
  generalize dependent (from_le_bytes b). intros z HB.
  split_and!; try (apply Z.mod_pos_bound; lia). Z.to_euclidean_division_equations. lia.
Qed.

(** ** Masks cut into fields *)

Lemma land_split n a c :
  0 <= n -> Z.land a c = Z.land a (c mod 2 ^ n) + 2 ^ n * Z.land (a / 2 ^ n) (c / 2 ^ n).
Proof.
  intros Hn. rewrite (Z.div_mod (Z.land a c) (2 ^ n)) at 1 by lia.
  rewrite <- !shiftr_div, Z.shiftr_land by done. rewrite <- !Z.land_ones, Z.land_assoc by done. lia.
Qed.

(** Only the bits under the mask matter. *)
Lemma land_mod_l a m n : 0 <= n -> 0 <= m < 2 ^ n -> Z.land (a mod 2 ^ n) m = Z.land a m.
Proof.
  intros Hn Hm. rewrite <- (Z.land_ones a n) by done.
  by rewrite <- Z.land_assoc, (Z.land_comm (Z.ones n)), Z.land_ones, Z.mod_small by lia.
Qed.

Lemma land_window a k s m w :
  0 <= k -> 0 <= s <= w -> 0 <= m < 2 ^ (w - s) ->
  Z.land (Z.shiftr (a / 2 ^ k mod 2 ^ w) s) m = Z.land (a / 2 ^ (k + s)) m.
Proof.
  intros Hk Hs Hm. rewrite shiftr_div by lia.
  replace (2 ^ w) with (2 ^ s * 2 ^ (w - s)) by (rewrite <- Z.pow_add_r by lia; f_equal; lia).
  rewrite Z.rem_mul_r, (Z.mul_comm (2 ^ s)), Z.div_add, Z.div_small, Z.add_0_l
    by (try apply Z.mod_pos_bound; lia).
  rewrite land_mod_l, Z.div_div, <- Z.pow_add_r by lia. done.
Qed.

Lemma land_bound a m : 0 <= m -> 0 <= Z.land a m <= m.
Proof.
  intros Hm. split; [apply Z.land_nonneg; lia|].
  assert (H : m - Z.land a m = Z.ldiff m (Z.land a m)).
  { apply Z.sub_nocarry_ldiff, Z.bits_inj'. intros i _.
    rewrite Z.ldiff_spec, Z.land_spec, Z.bits_0. by destruct (Z.testbit a i), (Z.testbit m i). }
  assert (0 <= Z.ldiff m (Z.land a m)) by (apply Z.ldiff_nonneg; lia). lia.
Qed.

Lemma to_le_16 z :
  to_le_bytes 16 z =
    to_le_bytes 4 (wrap 32 z) ++ to_le_bytes 4 (wrap 32 (z / 2 ^ 32)) ++
    to_le_bytes 4 (wrap 32 (z / 2 ^ 64)) ++ to_le_bytes 4 (wrap 32 (z / 2 ^ 96)).
Proof.
  unfold wrap. change (2 ^ 32) with (2 ^ (8 * Z.of_nat 4)). rewrite !to_le_mod.
  change 16%nat with (4 + (4 + (4 + 4)))%nat. rewrite !to_le_app.
  by rewrite !Z.div_div by lia.
Qed.

(** The words of a number written as a sum of words. *)
Lemma to_le_16_sum f0 f1 f2 f3 f4 :
  is_word 32 f0 -> is_word 32 f1 -> is_word 32 f2 ->
  to_le_bytes 16 (f0 + 2 ^ 32 * f1 + 2 ^ 64 * f2 + 2 ^ 96 * f3 + 2 ^ 128 * f4) =
    to_le_bytes 4 f0 ++ to_le_bytes 4 f1 ++ to_le_bytes 4 f2 ++ to_le_bytes 4 (wrap 32 f3).
Proof.
  unfold is_word. intros F0 F1 F2. rewrite to_le_16.
  replace (f0 + 2 ^ 32 * f1 + 2 ^ 64 * f2 + 2 ^ 96 * f3 + 2 ^ 128 * f4)
    with (f0 + (f1 + (f2 + (f3 + f4 * 2 ^ 32) * 2 ^ 32) * 2 ^ 32) * 2 ^ 32) by lia.
  change (2 ^ 64) with (2 ^ 32 * 2 ^ 32). change (2 ^ 96) with (2 ^ 32 * 2 ^ 32 * 2 ^ 32).
  rewrite <- !Z.div_div by lia. unfold wrap.
  rewrite !Z.div_add, (Z.div_small f0), !Z.add_0_l by lia.
  rewrite !Z.div_add, (Z.div_small f1), !Z.add_0_l by lia.
  rewrite !Z.div_add, (Z.div_small f2), !Z.add_0_l by lia.
  by rewrite !Z.mod_add, (Z.mod_small f0), (Z.mod_small f1), (Z.mod_small f2) by lia.
Qed.

(** ** Exclusive or with a stream *)

Lemma xor_bytes_app a b k1 k2 :
  length a = length k1 -> xor_bytes (a ++ b) (k1 ++ k2) = xor_bytes a k1 ++ xor_bytes b k2.
Proof. intros H. unfold xor_bytes. by apply zip_with_app. Qed.

Lemma xor_bytes_short a k1 k2 :
  (length a <= length k1)%nat -> xor_bytes a (k1 ++ k2) = xor_bytes a k1.
Proof.
  revert k1. unfold xor_bytes. induction a as [|x a IH]; intros [|y k1] H; cbn in *; try done; [lia|].
  f_equal. apply IH. lia.
Qed.

Lemma copy_into_all {A} (out src : list A) : length src = length out -> copy_into out 0 src = src.
Proof.
  intros H. unfold copy_into. change (Z.to_nat 0) with 0%nat. cbn [take Nat.add app].
  rewrite drop_ge by lia. by rewrite app_nil_r.
Qed.

Lemma word_high w z i : is_word w z -> w <= i -> Z.testbit z i = false.
Proof.
  intros Hz Hi. destruct (Z.lt_ge_cases w 0) as [Hw|Hw].
  { unfold is_word in Hz. rewrite Z.pow_neg_r in Hz by lia. lia. }
  rewrite <- (Z.mod_small z (2 ^ w)) by apply Hz. by apply Z.mod_pow2_bits_high.
Qed.

Lemma is_word_lxor w a b : 0 <= w -> is_word w a -> is_word w b -> is_word w (Z.lxor a b).
Proof.
  intros Hw Ha Hb. replace (Z.lxor a b) with (Z.lxor a b mod 2 ^ w); [apply Z.mod_pos_bound; lia|].
  apply Z.bits_inj'. intros i Hi. destruct (Z.lt_ge_cases i w) as [Hlt|Hge].
  - by rewrite Z.mod_pow2_bits_low.
  - rewrite Z.mod_pow2_bits_high, Z.lxor_spec by lia. by rewrite (word_high w a), (word_high w b).
Qed.

Lemma is_bytes_xor a k : is_bytes a -> is_bytes k -> is_bytes (xor_bytes a k).
Proof.
  intros Ha. revert k. induction Ha as [|x a Hx _ IH]; intros [|y k] Hk; try by constructor.
  inversion Hk; subst. constructor; [by apply is_word_lxor|by apply IH].
Qed.

Lemma chunks_count n l : (0 < n)%nat -> (length l <= n * length (chunks n l))%nat.
Proof.
  intros Hn. remember (length l) as k eqn:Hk. revert l Hk.
  induction k as [k IH] using lt_wf_ind. intros l ->. destruct l as [|x l]; [cbn; lia|].
  set (d := x :: l) in *. rewrite chunks_cons by done. cbn [length].
  assert (length (drop n d) < length d)%nat by (rewrite length_drop; subst d; cbn; lia).
  pose proof (IH _ H _ eq_refl). rewrite length_drop in H0. lia.
Qed.

(** Differences folded into one word. *)
Lemma fold_lor_zero (f : nat -> Z) l acc :
  foldl (fun diff index => Z.lor diff (f index)) acc l = 0 <->
  acc = 0 /\ Forall (fun i => f i = 0) l.
Proof.
  revert acc. induction l as [|i l IH]; intros acc; cbn [foldl].
  - split; [intros ->; by split|by intros [-> _]].
  - rewrite IH, Z.lor_eq_0_iff, Forall_cons_iff. tauto.
Qed.

Lemma fold_xor_eq (a b : list Z) :
  length a = length b ->
  foldl (fun diff i => Z.lor diff (Z.lxor (a !!! i) (b !!! i))) 0 (seq 0 (length a)) = 0 <-> a = b.
Proof.
  intros Hl. rewrite (fold_lor_zero (fun i => Z.lxor (a !!! i) (b !!! i))), Forall_forall. split.
  - intros [_ H]. apply list_eq_same_length with (length a); [done|done|].
    intros i x y Hi Hx Hy. specialize (H i). rewrite in_seq in H.
    rewrite (list_lookup_total_correct _ _ _ Hx), (list_lookup_total_correct _ _ _ Hy) in H.
    apply Z.lxor_eq. apply H. lia.
  - intros ->. split; [done|]. intros i _. apply Z.lxor_nilpotent.
Qed.

(** The 64-bit words of a 32-byte string. *)
Lemma to_le_32_sum q0 q1 q2 q3 :
  is_word 64 q0 -> is_word 64 q1 -> is_word 64 q2 ->
  to_le_bytes 32 (q0 + 2 ^ 64 * q1 + 2 ^ 128 * q2 + 2 ^ 192 * q3) =
    to_le_bytes 8 q0 ++ to_le_bytes 8 q1 ++ to_le_bytes 8 q2 ++ to_le_bytes 8 q3.
Proof.
  unfold is_word. intros Q0 Q1 Q2. change 32%nat with (8 + (8 + (8 + 8)))%nat. rewrite !to_le_app.
  change (2 ^ (8 * Z.of_nat 8)) with (2 ^ 64).
  replace (q0 + 2 ^ 64 * q1 + 2 ^ 128 * q2 + 2 ^ 192 * q3)
    with (q0 + (q1 + (q2 + q3 * 2 ^ 64) * 2 ^ 64) * 2 ^ 64) by lia.
  rewrite !Z.div_add, (Z.div_small q0), !Z.add_0_l by lia.
  rewrite !Z.div_add, (Z.div_small q1), !Z.add_0_l by lia.
  rewrite !Z.div_add, (Z.div_small q2), !Z.add_0_l by lia.
  rewrite <- (to_le_mod 8 (q0 + _)), <- (to_le_mod 8 (q1 + _)), <- (to_le_mod 8 (q2 + _)).
  change (2 ^ (8 * Z.of_nat 8)) with (2 ^ 64). rewrite !Z.mod_add by lia.
  by rewrite (Z.mod_small q0), (Z.mod_small q1), (Z.mod_small q2) by lia.
Qed.

(** Masked selection: an all-ones mask picks [d], a zero mask keeps [x]. *)
Lemma pick_ones w x d : 0 <= w -> is_word w x -> is_word w d ->
  Z.lxor x (Z.land (2 ^ w - 1) (Z.lxor x d)) = d.
Proof.
  intros Hw Hx Hd. rewrite Z.land_comm, land_mask, Z.mod_small by (try apply is_word_lxor; lia || done).
  by rewrite <- Z.lxor_assoc, Z.lxor_nilpotent, Z.lxor_0_l.
Qed.

Lemma pick_zeros x d : Z.lxor x (Z.land 0 (Z.lxor x d)) = x.
Proof. by rewrite Z.land_0_l, Z.lxor_0_r. Qed.

(** ** Bits of a byte string *)

Lemma from_le_testbit l t :
  is_bytes l -> (t < 8 * length l)%nat ->
  Z.testbit (from_le_bytes l) (Z.of_nat t) =
    Z.testbit (l !!! (t / 8)%nat) (Z.of_nat (t mod 8)).
Proof.
  intros Hl. revert t. induction Hl as [|b l Hb _ IH]; intros t Ht; cbn [length] in Ht; [lia|].
  cbn [from_le_bytes]. unfold is_word in Hb. change 256 with (2 ^ 8).
  rewrite (Z.mul_comm (2 ^ 8)), <- lor_low, Z.lor_spec, <- Z.shiftl_mul_pow2 by lia.
  destruct (Nat.lt_ge_cases t 8) as [Hlt|Hge].
  - rewrite Nat.div_small, Nat.mod_small by lia. rewrite Z.shiftl_spec_low by lia.
    by rewrite orb_false_r.
  - rewrite (word_high 8 b), Z.shiftl_spec, orb_false_l by (done || lia).
    replace (Z.of_nat t - 8) with (Z.of_nat (t - 8)) by lia. rewrite IH by lia.
    replace t with ((t - 8) + 1 * 8)%nat at 3 4 by lia.
    rewrite Nat.div_add, Nat.Div0.mod_add by lia. by rewrite Nat.add_1_r.
Qed.

Lemma bit_at_ok k t :
  is_bytes k -> (t < 8 * length k)%nat ->
  bit_at k t = Z.b2z (Z.testbit (from_le_bytes k) (Z.of_nat t)).
Proof.
  intros Hk Ht. rewrite from_le_testbit by done. unfold bit_at.
  change 1 with (Z.ones 1). rewrite Z.land_ones by lia. change (2 ^ 1) with 2.
  rewrite <- Z.bit0_mod, Z.shiftr_spec by lia. f_equal.
Qed.
