(* ===== verification/Poly1305.v ===== *)
(** * The Poly1305 authenticator (shared/crypto/src/poly1305.rs)

    Five 26-bit limbs with 64-bit products.  The theorems compare the code
    with the definition of RFC 8439: the message, cut into 16-byte blocks each
    extended by a one byte, is evaluated as a polynomial at the clamped key
    modulo 2^130 - 5.  The code computes exactly this for every message
    however it is cut into calls of [update], and no sum or product of it
    overflows. *)

From S2P Require Import Prelude Words.
From stdpp Require Import base list option.
From Stdlib Require Import ZArith Lia Zdiv.

#[local] Open Scope Z_scope.

Definition MASK26 : Z := Z.shiftl 1 26 - 1.

Record Poly1305 : Type := mkPoly {
  r : Limbs;
  h : Limbs;
  pad : list Z;
  buf : list Z;
  buf_len : nat
}.

Module Poly1305.

Definition le32 (b : list Z) : Z := from_le_bytes b.

Definition new (key : list Z) : Poly1305 :=
  {| r := mkLimbs
       (Z.land (le32 (slice key 0 4)) 0x3ffffff)
       (Z.land (Z.shiftr (le32 (slice key 3 7)) 2) 0x3ffff03)
       (Z.land (Z.shiftr (le32 (slice key 6 10)) 4) 0x3ffc0ff)
       (Z.land (Z.shiftr (le32 (slice key 9 13)) 6) 0x3f03fff)
       (Z.land (Z.shiftr (le32 (slice key 12 16)) 8) 0x00fffff);
     h := mkLimbs 0 0 0 0 0;
     pad := [le32 (slice key 16 20); le32 (slice key 20 24);
             le32 (slice key 24 28); le32 (slice key 28 32)];
     buf := replicate 16 0;
     buf_len := 0 |}.

(** The carry chain of [multiply]; the carry out of the top limb is folded
    back in, 2^130 being 5 modulo the prime. *)
Definition carry_columns (d0 d1 d2 d3 d4 : Z) : option Limbs :=
  let c := wrap 32 (Z.shiftr d0 26) in
  let d0 := Z.land d0 MASK26 in
  d1 ← chk 64 (d1 + c);
  let c := wrap 32 (Z.shiftr d1 26) in
  let d1 := Z.land d1 MASK26 in
  d2 ← chk 64 (d2 + c);
  let c := wrap 32 (Z.shiftr d2 26) in
  let d2 := Z.land d2 MASK26 in
  d3 ← chk 64 (d3 + c);
  let c := wrap 32 (Z.shiftr d3 26) in
  let d3 := Z.land d3 MASK26 in
  d4 ← chk 64 (d4 + c);
  let c := wrap 32 (Z.shiftr d4 26) in
  let d4 := Z.land d4 MASK26 in
  c5 ← chk 32 (c * 5);
  h0 ← chk 32 (wrap 32 d0 + c5);
  let c := Z.shiftr h0 26 in
  h1 ← chk 32 (wrap 32 d1 + c);
  Some (mkLimbs (Z.land h0 MASK26) h1 (wrap 32 d2) (wrap 32 d3) (wrap 32 d4)).

Definition multiply (h r : Limbs) : option Limbs :=
  s1 ← chk 32 (limb1 r * 5);
  s2 ← chk 32 (limb2 r * 5);
  s3 ← chk 32 (limb3 r * 5);
  s4 ← chk 32 (limb4 r * 5);
  d0 ← column 64 (limb0 h) (limb0 r) (limb1 h) s4 (limb2 h) s3 (limb3 h) s2 (limb4 h) s1;
  d1 ← column 64 (limb0 h) (limb1 r) (limb1 h) (limb0 r) (limb2 h) s4 (limb3 h) s3 (limb4 h) s2;
  d2 ← column 64 (limb0 h) (limb2 r) (limb1 h) (limb1 r) (limb2 h) (limb0 r) (limb3 h) s4 (limb4 h) s3;
  d3 ← column 64 (limb0 h) (limb3 r) (limb1 h) (limb2 r) (limb2 h) (limb1 r) (limb3 h) (limb0 r)
         (limb4 h) s4;
  d4 ← column 64 (limb0 h) (limb4 r) (limb1 h) (limb3 r) (limb2 h) (limb2 r) (limb3 h) (limb1 r)
         (limb4 h) (limb0 r);
  carry_columns d0 d1 d2 d3 d4.

(** The limbs after the block is added, before the multiplication. *)
Definition add_block (h : Limbs) (block : list Z) (full : bool) : option Limbs :=
  let t0 := le32 (slice block 0 4) in
  let t1 := le32 (slice block 4 8) in
  let t2 := le32 (slice block 8 12) in
  let t3 := le32 (slice block 12 16) in
  let hibit := if full then Z.shiftl 1 24 else 0 in
  h0 ← chk 32 (limb0 h + Z.land t0 MASK26);
  h1 ← chk 32 (limb1 h + Z.land (Z.lor (Z.shiftr t0 26) (shl 32 t1 6)) MASK26);
  h2 ← chk 32 (limb2 h + Z.land (Z.lor (Z.shiftr t1 20) (shl 32 t2 12)) MASK26);
  h3 ← chk 32 (limb3 h + Z.land (Z.lor (Z.shiftr t2 14) (shl 32 t3 18)) MASK26);
  h4 ← chk 32 (limb4 h + Z.lor (Z.shiftr t3 8) hibit);
  Some (mkLimbs h0 h1 h2 h3 h4).

Definition process_block (s : Poly1305) (block : list Z) (full : bool) : option Poly1305 :=
  h1 ← add_block (h s) block full;
  h2 ← multiply h1 (r s);
  Some {| r := r s; h := h2; pad := pad s; buf := buf s; buf_len := buf_len s |}.

Definition with_buf (s : Poly1305) (b : list Z) (n : nat) : Poly1305 :=
  {| r := r s; h := h s; pad := pad s; buf := b; buf_len := n |}.

(** [while data.len() >= 16 { ... }]: the state and what is left of the data.
    Each round takes 16 bytes, so the length of the data is enough fuel. *)
Fixpoint update_blocks (fuel : nat) (s : Poly1305) (data : list Z) :
    option (Poly1305 * list Z) :=
  match fuel with
  | O => Some (s, data)
  | S fuel =>
      if (16 <=? length data)%nat then
        s' ← process_block s (take 16 data) true;
        update_blocks fuel s' (drop 16 data)
      else Some (s, data)
  end.

(** The first part of [update]: complete a buffered block. *)
Definition update_buffered (s : Poly1305) (data : list Z) : option (Poly1305 * list Z) :=
  if (0 <? buf_len s)%nat then
    let n := Nat.min (16 - buf_len s) (length data) in
    let b := copy_into (buf s) (Z.of_nat (buf_len s)) (take n data) in
    let s1 := with_buf s b (buf_len s + n) in
    if (buf_len s1 =? 16)%nat then
      s2 ← process_block s1 (buf s1) true;
      Some (with_buf s2 (buf s2) 0, drop n data)
    else Some (s1, drop n data)
  else Some (s, data).

Definition update (s : Poly1305) (data : list Z) : option Poly1305 :=
  '(s1, data1) ← update_buffered s data;
  '(s2, data2) ← update_blocks (length data1) s1 data1;
  Some (match data2 with
        | [] => s2
        | _ => with_buf s2 (copy_into (replicate 16 0) 0 data2) (length data2)
        end).

Definition pad16 (s : Poly1305) : option Poly1305 :=
  let rem := Z.to_nat (Z.land (Z.of_nat (buf_len s)) 15) in
  if (rem =? 0)%nat then Some s else update s (take (16 - rem) (replicate 16 0)).

Definition update_le64 (s : Poly1305) (value : Z) : option Poly1305 :=
  update s (to_le_bytes 8 value).

(** The carry chain of [finalize] that makes the limbs canonical. *)
Definition carry_limbs (h : Limbs) : option Limbs :=
  let carry := Z.shiftr (limb1 h) 26 in
  let h1 := Z.land (limb1 h) MASK26 in
  h2 ← chk 32 (limb2 h + carry);
  let carry := Z.shiftr h2 26 in
  let h2 := Z.land h2 MASK26 in
  h3 ← chk 32 (limb3 h + carry);
  let carry := Z.shiftr h3 26 in
  let h3 := Z.land h3 MASK26 in
  h4 ← chk 32 (limb4 h + carry);
  let carry := Z.shiftr h4 26 in
  let h4 := Z.land h4 MASK26 in
  c5 ← chk 32 (carry * 5);
  h0 ← chk 32 (limb0 h + c5);
  let carry := Z.shiftr h0 26 in
  let h0 := Z.land h0 MASK26 in
  h1 ← chk 32 (h1 + carry);
  Some (mkLimbs h0 h1 h2 h3 h4).

(** [h + 5 - p] and the masked choice between it and [h]. *)
Definition select_reduced (h : Limbs) : Limbs :=
  let g0 := wrapping_add 32 (limb0 h) 5 in
  let c := Z.shiftr g0 26 in
  let g0 := Z.land g0 MASK26 in
  let g1 := wrapping_add 32 (limb1 h) c in
  let c := Z.shiftr g1 26 in
  let g1 := Z.land g1 MASK26 in
  let g2 := wrapping_add 32 (limb2 h) c in
  let c := Z.shiftr g2 26 in
  let g2 := Z.land g2 MASK26 in
  let g3 := wrapping_add 32 (limb3 h) c in
  let c := Z.shiftr g3 26 in
  let g3 := Z.land g3 MASK26 in
  let g4 := wrapping_sub 32 (wrapping_add 32 (limb4 h) c) (Z.shiftl 1 26) in
  let mask := wrapping_sub 32 (Z.shiftr g4 31) 1 in
  let pick a b := Z.lor (Z.land a (lnot 32 mask)) (Z.land b mask) in
  mkLimbs (pick (limb0 h) g0) (pick (limb1 h) g1) (pick (limb2 h) g2) (pick (limb3 h) g3)
    (pick (limb4 h) g4).

(** Repack the limbs into 32-bit words and add the pad. *)
Definition repack (h : Limbs) (pad : list Z) : option (list Z) :=
  let h0 := Z.land (Z.lor (limb0 h) (shl 32 (limb1 h) 26)) 0xffffffff in
  let h1 := Z.land (Z.lor (Z.shiftr (limb1 h) 6) (shl 32 (limb2 h) 20)) 0xffffffff in
  let h2 := Z.land (Z.lor (Z.shiftr (limb2 h) 12) (shl 32 (limb3 h) 14)) 0xffffffff in
  let h3 := Z.land (Z.lor (Z.shiftr (limb3 h) 18) (shl 32 (limb4 h) 8)) 0xffffffff in
  f0 ← chk 64 (h0 + pad !!! 0%nat);
  f1 ← chk 64 (h1 + pad !!! 1%nat + Z.shiftr f0 32);
  f2 ← chk 64 (h2 + pad !!! 2%nat + Z.shiftr f1 32);
  f3 ← chk 64 (h3 + pad !!! 3%nat + Z.shiftr f2 32);
  Some (to_le_bytes 4 (wrap 32 f0) ++ to_le_bytes 4 (wrap 32 f1) ++
        to_le_bytes 4 (wrap 32 f2) ++ to_le_bytes 4 (wrap 32 f3)).

Definition finalize (s : Poly1305) : option (list Z) :=
  s1 ← (if (0 <? buf_len s)%nat then
          process_block (with_buf s (buf s) 0) (<[buf_len s := 1]> (buf s)) false
        else Some s);
  h1 ← carry_limbs (h s1);
  repack (select_reduced h1) (pad s1).

End Poly1305.
Import Poly1305.

Definition poly1305 (message key : list Z) : option (list Z) :=
  mac ← update (new key) message;
  finalize mac.

(** ** The reference definition (RFC 8439, section 2.5) *)

Definition P1305 : Z := 2 ^ 130 - 5.

Definition clamp (k : Z) : Z := Z.land k 0x0ffffffc0ffffffc0ffffffc0fffffff.

Definition poly_step (k acc : Z) (block : list Z) : Z :=
  ((acc + from_le_bytes (block ++ [1])) * k) mod P1305.

Definition poly_acc (k : Z) (message : list Z) : Z :=
  foldl (poly_step k) 0 (chunks 16 message).

Definition poly1305_spec (message key : list Z) : list Z :=
  to_le_bytes 16
    (poly_acc (clamp (from_le_bytes (take 16 key))) message + from_le_bytes (drop 16 key)).

(** ** One multiplication *)

Abbreviation eval26 := (eval_limbs 26).

(** The limbs between two blocks. *)
Definition limbs_ok (a : Limbs) : Prop :=
  0 <= limb0 a < 2 ^ 26 /\ 0 <= limb1 a < 2 ^ 26 + 63 /\ 0 <= limb2 a < 2 ^ 26 /\
  0 <= limb3 a < 2 ^ 26 /\ 0 <= limb4 a < 2 ^ 26.

(** The limbs after a block is added. *)
Definition limbs_loose (a : Limbs) : Prop :=
  0 <= limb0 a <= 2 ^ 27 + 63 /\ 0 <= limb1 a <= 2 ^ 27 + 63 /\ 0 <= limb2 a <= 2 ^ 27 + 63 /\
  0 <= limb3 a <= 2 ^ 27 + 63 /\ 0 <= limb4 a <= 2 ^ 27 + 63.

(** The limbs of a clamped key. *)
Definition key_ok (a : Limbs) : Prop :=
  0 <= limb0 a <= 0x3ffffff /\ 0 <= limb1 a <= 0x3ffff03 /\ 0 <= limb2 a <= 0x3ffc0ff /\
  0 <= limb3 a <= 0x3f03fff /\ 0 <= limb4 a <= 0x00fffff.

(** Step through one [d >> 26], [d & MASK26] pair. *)
Ltac split26 d := split_bits 26 MASK26 d.

Lemma carry_columns_spec d0 d1 d2 d3 d4 :
  0 <= d0 < 2 ^ 58 - 2 ^ 32 -> 0 <= d1 < 2 ^ 58 - 2 ^ 32 -> 0 <= d2 < 2 ^ 58 - 2 ^ 32 ->
  0 <= d3 < 2 ^ 58 - 2 ^ 32 -> 0 <= d4 < 2 ^ 55 + 2 ^ 53 ->
  exists a c, carry_columns d0 d1 d2 d3 d4 = Some a /\ limbs_ok a /\
    d0 + 2 ^ 26 * d1 + 2 ^ 52 * d2 + 2 ^ 78 * d3 + 2 ^ 104 * d4 = eval26 a + P1305 * c.
Proof.
  intros H0 H1 H2 H3 H4. unfold carry_columns.
  split26 d0. rewrite (wrap_small 32 q), chk_ok by lia. cbn [mbind option_bind].
  split26 (d1 + q). rewrite (wrap_small 32 q0), chk_ok by lia. cbn [mbind option_bind].
  split26 (d2 + q0). rewrite (wrap_small 32 q1), chk_ok by lia. cbn [mbind option_bind].
  split26 (d3 + q1). rewrite (wrap_small 32 q2), chk_ok by lia. cbn [mbind option_bind].
  split26 (d4 + q2). rewrite (wrap_small 32 q3), chk_ok by lia. cbn [mbind option_bind].
  rewrite !wrap_small by lia.
  rewrite chk_ok by lia. cbn [mbind option_bind].
  split26 (m + q3 * 5). rewrite chk_ok by lia. cbn [mbind option_bind].
  eexists _, q3. split; [done|]. unfold limbs_ok, eval_limbs, P1305.
  cbn [limb0 limb1 limb2 limb3 limb4]. lia.
Qed.

(** Columns of the limb product, the terms above the fifth limb folded in. *)
Lemma product_columns a0 a1 a2 a3 a4 k0 k1 k2 k3 k4 :
  eval26 (mkLimbs a0 a1 a2 a3 a4) * eval26 (mkLimbs k0 k1 k2 k3 k4) =
  (a0 * k0 + a1 * (k4 * 5) + a2 * (k3 * 5) + a3 * (k2 * 5) + a4 * (k1 * 5)) +
  2 ^ 26 * (a0 * k1 + a1 * k0 + a2 * (k4 * 5) + a3 * (k3 * 5) + a4 * (k2 * 5)) +
  2 ^ 52 * (a0 * k2 + a1 * k1 + a2 * k0 + a3 * (k4 * 5) + a4 * (k3 * 5)) +
  2 ^ 78 * (a0 * k3 + a1 * k2 + a2 * k1 + a3 * k0 + a4 * (k4 * 5)) +
  2 ^ 104 * (a0 * k4 + a1 * k3 + a2 * k2 + a3 * k1 + a4 * k0) +
  P1305 * ((a1 * k4 + a2 * k3 + a3 * k2 + a4 * k1) + 2 ^ 26 * (a2 * k4 + a3 * k3 + a4 * k2) +
           2 ^ 52 * (a3 * k4 + a4 * k3) + 2 ^ 78 * (a4 * k4)).
Proof.
  unfold eval_limbs, P1305. cbn [limb0 limb1 limb2 limb3 limb4].
  change (2 ^ (2 * 26)) with (2 ^ 52). change (2 ^ (3 * 26)) with (2 ^ 78).
  change (2 ^ (4 * 26)) with (2 ^ 104).
  change (2 ^ 130) with (2 ^ 26 * 2 ^ 26 * 2 ^ 26 * 2 ^ 26 * 2 ^ 26).
  change (2 ^ 104) with (2 ^ 26 * 2 ^ 26 * 2 ^ 26 * 2 ^ 26).
  change (2 ^ 78) with (2 ^ 26 * 2 ^ 26 * 2 ^ 26). change (2 ^ 52) with (2 ^ 26 * 2 ^ 26).
  generalize (2 ^ 26). intros x. ring.
Qed.

Lemma multiply_spec a k :
  limbs_loose a -> key_ok k ->
  exists b, multiply a k = Some b /\ limbs_ok b /\
    eval26 b mod P1305 = (eval26 a * eval26 k) mod P1305.
Proof.
  destruct a as [a0 a1 a2 a3 a4], k as [k0 k1 k2 k3 k4]. unfold limbs_loose, key_ok.
  cbn [limb0 limb1 limb2 limb3 limb4]. intros (A0 & A1 & A2 & A3 & A4) (K0 & K1 & K2 & K3 & K4).
  unfold multiply. cbn [limb0 limb1 limb2 limb3 limb4].
  rewrite !(chk_ok 32) by lia. cbn [mbind option_bind].
  assert (L1 : 0 <= k1 * 5 <= 5 * 0x3ffff03) by lia. assert (L2 : 0 <= k2 * 5 <= 5 * 0x3ffc0ff) by lia.
  assert (L3 : 0 <= k3 * 5 <= 5 * 0x3f03fff) by lia. assert (L4 : 0 <= k4 * 5 <= 5 * 0x00fffff) by lia.
  pose proof (product_columns a0 a1 a2 a3 a4 k0 k1 k2 k3 k4) as Heq.
  destruct (column_ok 64 _ _ _ _ _ _ _ _ _ _ _ _ _ _ _ _ A0 A1 A2 A3 A4 K0 L4 L3 L2 L1 ltac:(lia))
    as (d0 & -> & E0 & D0).
  destruct (column_ok 64 _ _ _ _ _ _ _ _ _ _ _ _ _ _ _ _ A0 A1 A2 A3 A4 K1 K0 L4 L3 L2 ltac:(lia))
    as (d1 & -> & E1 & D1).
  destruct (column_ok 64 _ _ _ _ _ _ _ _ _ _ _ _ _ _ _ _ A0 A1 A2 A3 A4 K2 K1 K0 L4 L3 ltac:(lia))
    as (d2 & -> & E2 & D2).
  destruct (column_ok 64 _ _ _ _ _ _ _ _ _ _ _ _ _ _ _ _ A0 A1 A2 A3 A4 K3 K2 K1 K0 L4 ltac:(lia))
    as (d3 & -> & E3 & D3).
  destruct (column_ok 64 _ _ _ _ _ _ _ _ _ _ _ _ _ _ _ _ A0 A1 A2 A3 A4 K4 K3 K2 K1 K0 ltac:(lia))
    as (d4 & -> & E4 & D4).
  cbn [mbind option_bind]. rewrite <- E0, <- E1, <- E2, <- E3, <- E4 in Heq.
  clear - D0 D1 D2 D3 D4 Heq.
  destruct (carry_columns_spec d0 d1 d2 d3 d4) as (b & c & -> & Hb & He); [lia..|].
  exists b. split; [done|]. split; [done|]. rewrite Heq, He, <- Z.add_assoc, <- Z.mul_add_distr_l.
  by rewrite Z.mul_comm, Z.mod_add by (unfold P1305; lia).
Qed.

Lemma add_block_spec a block full :
  limbs_ok a -> is_bytes block -> length block = 16%nat ->
  exists b, add_block a block full = Some b /\ limbs_loose b /\
    eval26 b = eval26 a + from_le_bytes block + (if full then 2 ^ 128 else 0).
Proof.
  intros Ha Hb Hl. destruct (from_le_words block Hb Hl) as (T0 & T1 & T2 & T3 & ->).
  unfold add_block, le32.
  generalize dependent (from_le_bytes (slice block 0 4)). intros t0 T0.
  generalize dependent (from_le_bytes (slice block 4 8)). intros t1 T1.
  generalize dependent (from_le_bytes (slice block 8 12)). intros t2 T2.
  generalize dependent (from_le_bytes (slice block 12 16)). intros t3 T3.
  change MASK26 with (2 ^ 26 - 1). unfold is_word, limbs_ok in *.
  pose proof (straddle 32 26 6 t0 t1 ltac:(lia) ltac:(lia) T0) as S1.
  pose proof (straddle 32 26 12 t1 t2 ltac:(lia) ltac:(lia) T1) as S2.
  pose proof (straddle 32 26 18 t2 t3 ltac:(lia) ltac:(lia) T2) as S3.
  change (32 - 6) with 26 in S1. change (32 - 12) with 20 in S2. change (32 - 18) with 14 in S3.
  change (26 - 6) with 20 in S1. change (26 - 12) with 14 in S2. change (26 - 18) with 8 in S3.
  rewrite S1, S2, S3, land_mask, shiftr_div by lia.
  replace (Z.lor (t3 / 2 ^ 8) (if full then Z.shiftl 1 24 else 0))
    with (t3 / 2 ^ 8 + (if full then 2 ^ 24 else 0)).
  2: { destruct full; [|by rewrite Z.lor_0_r, Z.add_0_r].
       rewrite <- (lor_low _ 1 24); [done|lia|]. Z.to_euclidean_division_equations. lia. }
  assert (E4 : 0 <= (if full then 2 ^ 24 else 0) <= 2 ^ 24) by (destruct full; lia).
  assert (E5 : (if full then 2 ^ 128 else 0) = 2 ^ 104 * (if full then 2 ^ 24 else 0)) by (by destruct full).
  rewrite E5. clear S1 S2 S3 Hb Hl E5. generalize dependent (if full then 2 ^ 24 else 0). intros hb E4.
  divmod t0 26. divmod t1 20. divmod t2 14. divmod t3 8.
  rewrite !chk_ok by lia. cbn [mbind option_bind]. eexists. split; [done|].
  unfold limbs_loose, eval_limbs. cbn [limb0 limb1 limb2 limb3 limb4]. lia.
Qed.

Lemma process_block_spec s block full :
  limbs_ok (h s) -> key_ok (r s) -> is_bytes block -> length block = 16%nat ->
  exists b, process_block s block full =
      Some {| r := r s; h := b; pad := pad s; buf := buf s; buf_len := buf_len s |} /\
    limbs_ok b /\
    eval26 b mod P1305 =
      ((eval26 (h s) + from_le_bytes block + (if full then 2 ^ 128 else 0)) * eval26 (r s)) mod P1305.
Proof.
  intros Hh Hr Hb Hl. unfold process_block.
  destruct (add_block_spec (h s) block full Hh Hb Hl) as (a & -> & Ha & Ea). cbn [mbind option_bind].
  destruct (multiply_spec a (r s) Ha Hr) as (b & -> & Hb' & Eb). cbn [mbind option_bind].
  exists b. by rewrite Eb, Ea.
Qed.

Lemma key_words key i j :
  is_bytes key -> length key = 32%nat -> 0 <= i -> j = i + 4 -> j <= 16 ->
  from_le_bytes (slice key i j) = from_le_bytes (take 16 key) / 2 ^ (8 * i) mod 2 ^ 32.
Proof.
  intros Hk Hl Hi -> Hj. unfold slice. replace (i + 4 - i) with 4 by lia.
  replace (take (Z.to_nat 4) (drop (Z.to_nat i) key))
    with (take 4 (drop (Z.to_nat i) (take 16 key))).
  2: { rewrite skipn_firstn_comm, take_take. f_equal. change (Z.to_nat 4) with 4%nat. lia. }
  rewrite from_le_window.
  - by replace (8 * Z.of_nat (Z.to_nat i)) with (8 * i) by lia.
  - rewrite <- (take_drop 16 key) in Hk. by apply is_bytes_app in Hk as [? _].
  - rewrite length_take, Hl. lia.
Qed.

(** The clamping mask, cut into the masks of the limbs. *)
Lemma clamp_limbs a :
  clamp a = Z.land a 0x3ffffff + 2 ^ 26 * Z.land (a / 2 ^ 26) 0x3ffff03 +
    2 ^ 52 * Z.land (a / 2 ^ 52) 0x3ffc0ff + 2 ^ 78 * Z.land (a / 2 ^ 78) 0x3f03fff +
    2 ^ 104 * Z.land (a / 2 ^ 104) 0xfffff.
Proof.
  unfold clamp.
  rewrite (land_split 26 a 0x0ffffffc0ffffffc0ffffffc0fffffff) by lia.
  change (0x0ffffffc0ffffffc0ffffffc0fffffff mod 2 ^ 26) with 0x3ffffff.
  change (0x0ffffffc0ffffffc0ffffffc0fffffff / 2 ^ 26) with 0x3ffffff03ffffff03ffffff03.
  rewrite (land_split 26 (a / 2 ^ 26) 0x3ffffff03ffffff03ffffff03), Z.div_div, <- Z.pow_add_r by lia.
  change (0x3ffffff03ffffff03ffffff03 mod 2 ^ 26) with 0x3ffff03.
  change (0x3ffffff03ffffff03ffffff03 / 2 ^ 26) with 0xffffffc0ffffffc0ff. change (26 + 26) with 52.
  rewrite (land_split 26 (a / 2 ^ 52) 0xffffffc0ffffffc0ff), Z.div_div, <- Z.pow_add_r by lia.
  change (0xffffffc0ffffffc0ff mod 2 ^ 26) with 0x3ffc0ff.
  change (0xffffffc0ffffffc0ff / 2 ^ 26) with 0x3ffffff03fff. change (52 + 26) with 78.
  rewrite (land_split 26 (a / 2 ^ 78) 0x3ffffff03fff), Z.div_div, <- Z.pow_add_r by lia.
  change (0x3ffffff03fff mod 2 ^ 26) with 0x3f03fff.
  change (0x3ffffff03fff / 2 ^ 26) with 0xfffff. change (78 + 26) with 104.
  lia.
Qed.

Lemma new_key key :
  is_bytes key -> length key = 32%nat ->
  key_ok (r (new key)) /\ eval26 (r (new key)) = clamp (from_le_bytes (take 16 key)).
Proof.
  intros Hk Hl. unfold new, le32, key_ok, eval_limbs. cbn [r limb0 limb1 limb2 limb3 limb4].
  split; [split_and!; apply land_bound; lia|].
  rewrite !key_words by (done || lia). generalize (from_le_bytes (take 16 key)). intros a.
  rewrite clamp_limbs, <- (Z.shiftr_0_r (a / 2 ^ (8 * 0) mod 2 ^ 32)).
  rewrite !land_window by lia. change (2 ^ (8 * 0 + 0)) with 1. by rewrite Z.div_1_r.
Qed.

(** ** What a state has absorbed *)

Definition key_of (key : list Z) : Z := clamp (from_le_bytes (take 16 key)).

(** [s] has multiplied in the blocks of [full]. *)
Record multiplied (key full : list Z) (s : Poly1305) : Prop := {
  mu_full : exists k, length full = (16 * k)%nat;
  mu_r : r s = r (new key);
  mu_pad : pad s = pad (new key);
  mu_h : limbs_ok (h s);
  mu_acc : eval26 (h s) mod P1305 = poly_acc (key_of key) full mod P1305
}.

(** [s] buffers [left]. *)
Record buffered (left : list Z) (s : Poly1305) : Prop := {
  bu_left : (length left < 16)%nat;
  bu_bytes : is_bytes left;
  bu_len : buf_len s = length left;
  bu_size : length (buf s) = 16%nat;
  bu_buf : left <> [] -> buf s = left ++ replicate (16 - length left) 0
}.

Definition absorbed (key full left : list Z) (s : Poly1305) : Prop :=
  multiplied key full s /\ buffered left s.

Definition absorbed_message (key m : list Z) (s : Poly1305) : Prop :=
  exists full left, m = full ++ left /\ absorbed key full left s.

Lemma poly_acc_snoc k n full block :
  length full = (16 * n)%nat -> block <> [] -> (length block <= 16)%nat ->
  poly_acc k (full ++ block) = poly_step k (poly_acc k full) block.
Proof.
  intros Hf Hb Hl. unfold poly_acc.
  rewrite (chunks_app 16 n), (chunks_short 16 block), foldl_app by (done || lia). done.
Qed.

Lemma poly_step_mod k a b block :
  a mod P1305 = b mod P1305 -> poly_step k a block = poly_step k b block.
Proof.
  intros H. unfold poly_step.
  by rewrite <- (Zmult_mod_idemp_l (a + _)), <- (Zmult_mod_idemp_l (b + _)),
    <- (Zplus_mod_idemp_l a), <- (Zplus_mod_idemp_l b), H.
Qed.

Section key.
Context (key : list Z) (Hkey : is_bytes key) (Hlen : length key = 32%nat).

Lemma multiplied_new : multiplied key [] (new key).
Proof. constructor; try done. by exists 0%nat. Qed.

Lemma buffered_nil s : buf_len s = 0%nat -> length (buf s) = 16%nat -> buffered [] s.
Proof. constructor; try done; [cbn; lia|constructor]. Qed.

Lemma multiply_block full s block :
  multiplied key full s -> is_bytes block -> length block = 16%nat ->
  exists s', process_block s block true = Some s' /\ multiplied key (full ++ block) s' /\
    buf s' = buf s /\ buf_len s' = buf_len s.
Proof.
  intros [[k Hk] Hr Hp Hh Ha] Hb Hl. destruct (new_key key Hkey Hlen) as [Kok Kev].
  destruct (process_block_spec s block true) as (b & -> & Hb' & Eb); [done|by rewrite Hr|done|done|].
  eexists. split; [done|]. split; [|done].
  constructor; cbn [r h pad buf buf_len]; try done.
  - exists (S k). rewrite length_app. lia.
  - rewrite (poly_acc_snoc _ k) by (try done; try lia; intros ->; done).
    rewrite Eb, Hr, Kev, (poly_step_mod _ _ _ _ (eq_sym Ha)). unfold poly_step.
    rewrite Z.mod_mod by (unfold P1305; lia). rewrite from_le_app, Hl.
    change (8 * Z.of_nat 16) with 128. cbn [from_le_bytes]. f_equal. f_equal. lia.
Qed.

Lemma multiply_blocks fuel full s data :
  multiplied key full s -> is_bytes data -> (length data <= fuel)%nat ->
  exists s' full' rest, update_blocks fuel s data = Some (s', rest) /\
    full ++ data = full' ++ rest /\ (length rest < 16)%nat /\ is_bytes rest /\
    multiplied key full' s' /\ buf s' = buf s /\ buf_len s' = buf_len s.
Proof.
  revert full s data. induction fuel as [|fuel IH]; intros full s data Hs Hd Hf.
  - rewrite (nil_length_inv data) by lia. exists s, full, [].
    split_and!; try done; [cbn; lia|constructor].
  - cbn [update_blocks]. destruct (Nat.leb_spec 16 (length data)) as [Hge|Hlt].
    + rewrite <- (take_drop 16 data) in Hd. apply is_bytes_app in Hd as [H1 H2].
      destruct (multiply_block full s (take 16 data)) as (s1 & -> & Hs1 & B1 & B2);
        [done|done|rewrite length_take; lia|].
      cbn [mbind option_bind]. rewrite <- B1, <- B2.
      destruct (IH _ s1 (drop 16 data) Hs1 H2) as (s' & full' & rest & -> & He & Hr);
        [rewrite length_drop; lia|].
      exists s', full', rest. split; [done|]. split; [|done].
      by rewrite <- He, <- app_assoc, take_drop.
    + by exists s, full, data.
Qed.

(** What [update_buffered] writes into the buffer. *)
Lemma buffer_more left s data n :
  buffered left s -> left <> [] -> (n <= length data)%nat -> (length left + n <= 16)%nat ->
  copy_into (buf s) (Z.of_nat (length left)) (take n data) =
    (left ++ take n data) ++ replicate (16 - (length left + n)) 0.
Proof.
  intros [Hl _ Hn Hz Hbuf] Hne Hd H16. unfold copy_into.
  rewrite Nat2Z.id, Hbuf, take_app_length, drop_app_ge by (done || lia).
  rewrite drop_replicate, <- app_assoc, length_take. do 3 f_equal. lia.
Qed.

(** Completing a buffered block, or buffering more of it. *)
Lemma absorb_buffered full left s data :
  absorbed key full left s -> is_bytes data ->
  exists s' full' left' rest, update_buffered s data = Some (s', rest) /\
    full ++ left ++ data = full' ++ left' ++ rest /\ (left' = [] \/ rest = []) /\ is_bytes rest /\
    absorbed key full' left' s'.
Proof.
  intros [Hm Hs] Hd. pose proof Hs as [Hl Hlb Hn Hz _]. unfold update_buffered.
  rewrite Hn. destruct (Nat.ltb_spec 0 (length left)) as [Hpos|Hz0].
  2: { exists s, full, left, data. destruct left; [|cbn in Hz0; lia].
       split; [done|]. split; [done|]. split; [by left|]. split; [done|by split]. }
  assert (Hne : left <> []) by (intros ->; cbn in Hpos; lia).
  set (n := Nat.min (16 - length left) (length data)).
  assert (is_bytes (left ++ take n data) /\ is_bytes (drop n data)) as [Hb1 Hb2].
  { rewrite <- (take_drop n data) in Hd. apply is_bytes_app in Hd as [? ?].
    split; [by apply is_bytes_app|done]. }
  assert (Hln : length (left ++ take n data) = (length left + n)%nat)
    by (rewrite length_app, length_take; lia).
  rewrite (buffer_more left) by (done || lia). cbn [buf buf_len with_buf].
  destruct (Nat.eqb_spec (length left + n) 16) as [E16|N16].
  - rewrite E16, Nat.sub_diag. cbn [replicate]. rewrite app_nil_r.
    destruct (multiply_block full (with_buf s (left ++ take n data) 16) (left ++ take n data))
      as (s' & -> & Hs' & Hb' & _); [|done|lia|].
    { by destruct Hm; constructor. }
    cbn [mbind option_bind].
    eexists _, (full ++ left ++ take n data), [], (drop n data). split; [done|].
    split; [by rewrite <- !app_assoc, app_nil_l, take_drop|]. split; [by left|]. split; [done|].
    split; [by destruct Hs'; constructor|]. apply buffered_nil; [done|]. cbn. rewrite Hb'. cbn. lia.
  - assert (n = length data) as Hnd by lia.
    eexists _, full, (left ++ take n data), (drop n data). split; [done|].
    rewrite <- app_assoc, take_drop. split; [done|]. split; [right; apply drop_ge; lia|].
    split; [done|]. split; [by destruct Hm; constructor|].
    constructor; cbn [r h pad buf buf_len with_buf]; try done; try lia.
    + rewrite length_app, length_replicate. lia.
    + intros _. by rewrite Hln.
Qed.

(** Absorbing more of the message, however it is cut. *)
Lemma update_absorbs m s data :
  absorbed_message key m s -> is_bytes data ->
  exists s', update s data = Some s' /\ absorbed_message key (m ++ data) s'.
Proof.
  intros (full & left & -> & Hs) Hd. unfold update.
  destruct (absorb_buffered full left s data Hs Hd)
    as (s1 & full1 & left1 & rest & -> & He & Hor & Hrest & [Hm1 Hb1]). cbn [mbind option_bind].
  destruct (multiply_blocks (length rest) full1 s1 rest Hm1 Hrest)
    as (s2 & full2 & rest2 & -> & He2 & Hl2 & Hb2 & Hm2 & B1 & B2); [done|]. cbn [mbind option_bind].
  eexists. split; [done|]. rewrite <- app_assoc, He.
  assert (Hb1' : buffered left1 s2).
  { destruct Hb1. by constructor; rewrite ?B1, ?B2. }
  destruct rest2 as [|x rest2].
  - rewrite app_nil_r in He2. destruct Hor as [->| ->].
    + exists full2, []. split; [by rewrite app_nil_r, <- He2|done].
    + rewrite app_nil_r in *. subst full2. by exists full1, left1.
  - destruct Hor as [->| ->].
    + exists full2, (x :: rest2). split; [by rewrite <- He2|]. split; [by destruct Hm2; constructor|].
      unfold copy_into. change (Z.to_nat 0) with 0%nat. rewrite take_0, Nat.add_0_l, drop_replicate.
      constructor; cbn [buf buf_len with_buf]; try done.
      rewrite !length_app, length_replicate. cbn [length] in *. lia.
    + exfalso. destruct (mu_full _ _ _ Hm1) as [k1 H1], (mu_full _ _ _ Hm2) as [k2 H2].
      apply (f_equal length) in He2. rewrite !length_app, H1, H2 in He2. cbn [length] in *. lia.
Qed.

Lemma new_absorbs : absorbed_message key [] (new key).
Proof. exists [], []. split; [done|]. split; [apply multiplied_new|]. by apply buffered_nil. Qed.

Lemma poly_acc_range k m : 0 <= poly_acc k m < P1305.
Proof.
  unfold poly_acc. destruct (chunks 16 m) as [|b bs] using rev_ind; [unfold P1305; cbn; lia|].
  rewrite foldl_app. cbn. apply Z.mod_pos_bound. unfold P1305. lia.
Qed.

(** The last, partial block of [finalize]. *)
Lemma last_block full left s :
  absorbed key full left s ->
  exists s', (if (0 <? buf_len s)%nat then
               process_block (with_buf s (buf s) 0) (<[buf_len s := 1]> (buf s)) false
             else Some s) = Some s' /\
    pad s' = pad (new key) /\ limbs_ok (h s') /\
    eval26 (h s') mod P1305 = poly_acc (key_of key) (full ++ left).
Proof.
  intros [[[k Hk] Hr Hp Hh Ha] [Hl Hlb Hn Hz Hbuf]].
  rewrite <- (Z.mod_small (poly_acc _ (full ++ left)) P1305) by apply poly_acc_range.
  destruct (Nat.ltb_spec 0 (buf_len s)) as [Hpos|Hz0].
  2: { exists s. destruct left; [|cbn in Hn; lia]. by rewrite app_nil_r. }
  assert (Hne : left <> []) by (intros ->; cbn in Hn; lia). rewrite Hbuf, Hn by done.
  replace (<[length left := 1]> (left ++ replicate (16 - length left) 0))
    with ((left ++ [1]) ++ replicate (15 - length left) 0).
  2: { replace (16 - length left)%nat with (S (15 - length left)) by lia. cbn [replicate].
       rewrite insert_app_r_alt, Nat.sub_diag by lia. by rewrite <- app_assoc. }
  destruct (new_key key Hkey Hlen) as [Kok Kev].
  edestruct (process_block_spec (with_buf s (left ++ replicate (16 - length left) 0) 0)
      ((left ++ [1]) ++ replicate (15 - length left) 0) false)
    as (b & E & Hb' & Eb); cbn [h r with_buf]; [done|by rewrite Hr| | |].
  { repeat (apply is_bytes_app; split); [done|by repeat constructor|].
    apply Forall_replicate. split; cbn; lia. }
  { rewrite !length_app, length_replicate. cbn. lia. }
  rewrite E. eexists. split; [done|]. cbn [h r pad]. split; [done|]. split; [done|].
  cbn [h r with_buf] in Eb. rewrite Eb, Hr, Kev, (poly_acc_snoc _ k) by (done || lia).
  rewrite (poly_step_mod _ _ _ _ (eq_sym Ha)). unfold poly_step.
  rewrite Z.mod_mod by (unfold P1305; lia). rewrite (from_le_app (left ++ [1])), from_le_zeros.
  f_equal. f_equal. lia.
Qed.
End key.

(** ** The final reduction *)

Definition canonical (a : Limbs) : Prop :=
  0 <= limb0 a < 2 ^ 26 /\ 0 <= limb1 a < 2 ^ 26 /\ 0 <= limb2 a < 2 ^ 26 /\
  0 <= limb3 a < 2 ^ 26 /\ 0 <= limb4 a < 2 ^ 26.

Lemma carry_limbs_spec a :
  limbs_ok a ->
  exists b, carry_limbs a = Some b /\ canonical b /\ eval26 b mod P1305 = eval26 a mod P1305.
Proof.
  destruct a as [a0 a1 a2 a3 a4]. unfold limbs_ok, carry_limbs. cbn [limb0 limb1 limb2 limb3 limb4].
  intros (A0 & A1 & A2 & A3 & A4).
  split26 a1. rewrite chk_ok by lia. cbn [mbind option_bind].
  split26 (a2 + q). rewrite chk_ok by lia. cbn [mbind option_bind].
  split26 (a3 + q0). rewrite chk_ok by lia. cbn [mbind option_bind].
  split26 (a4 + q1). rewrite chk_ok by lia. cbn [mbind option_bind].
  rewrite chk_ok by lia. cbn [mbind option_bind].
  split26 (a0 + q2 * 5). rewrite chk_ok by lia. cbn [mbind option_bind].
  eexists. split; [done|]. unfold canonical, eval_limbs. cbn [limb0 limb1 limb2 limb3 limb4].
  split; [lia|]. rewrite <- (Z.mod_add _ q2 P1305) by (unfold P1305; lia). f_equal.
  unfold P1305. lia.
Qed.

Lemma pick_all a b w : 0 <= w -> 0 <= b < 2 ^ w ->
  Z.lor (Z.land a (lnot w (2 ^ w - 1))) (Z.land b (2 ^ w - 1)) = b.
Proof.
  intros Hw Hb. unfold lnot. rewrite Z.ones_equiv, <- Z.sub_1_r, Z.lxor_nilpotent, Z.land_0_r.
  by rewrite land_mask, Z.mod_small.
Qed.

Lemma pick_none a b w : 0 <= w -> 0 <= a < 2 ^ w ->
  Z.lor (Z.land a (lnot w 0)) (Z.land b 0) = a.
Proof.
  intros Hw Ha. unfold lnot. rewrite Z.lxor_0_l, Z.land_0_r, Z.lor_0_r.
  by rewrite Z.land_ones, Z.mod_small.
Qed.

Lemma select_reduced_spec a :
  canonical a -> canonical (select_reduced a) /\ eval26 (select_reduced a) = eval26 a mod P1305.
Proof.
  destruct a as [a0 a1 a2 a3 a4]. unfold canonical, select_reduced, wrapping_add.
  cbn [limb0 limb1 limb2 limb3 limb4]. intros (A0 & A1 & A2 & A3 & A4).
  rewrite (wrap_small 32 (a0 + 5)) by lia. split26 (a0 + 5).
  rewrite (wrap_small 32 (a1 + q)) by lia. split26 (a1 + q).
  rewrite (wrap_small 32 (a2 + q0)) by lia. split26 (a2 + q0).
  rewrite (wrap_small 32 (a3 + q1)) by lia. split26 (a3 + q1).
  rewrite (wrap_small 32 (a4 + q2)) by lia. unfold wrapping_sub. change (Z.shiftl 1 26) with (2 ^ 26).
  destruct (Z.lt_ge_cases (a4 + q2) (2 ^ 26)) as [Hlt|Hge].
  - replace (wrap 32 (a4 + q2 - 2 ^ 26)) with (a4 + q2 - 2 ^ 26 + 2 ^ 32).
    2: { unfold wrap. rewrite <- (Z.mod_add _ 1) by lia. rewrite Z.mod_small; lia. }
    rewrite (shiftr_div _ 31) by lia.
    replace ((a4 + q2 - 2 ^ 26 + 2 ^ 32) / 2 ^ 31) with 1 by (Z.to_euclidean_division_equations; lia).
    change (wrap 32 (1 - 1)) with 0. rewrite !pick_none by lia. split; [lia|].
    unfold eval_limbs, P1305. cbn [limb0 limb1 limb2 limb3 limb4]. rewrite Z.mod_small; lia.
  - replace (a4 + q2 - 2 ^ 26) with 0 by lia. change (wrap 32 0) with 0. rewrite Z.shiftr_0_l.
    change (wrap 32 (0 - 1)) with (2 ^ 32 - 1). rewrite !pick_all by lia. split; [lia|].
    unfold eval_limbs, P1305. cbn [limb0 limb1 limb2 limb3 limb4].
    rewrite <- (Z.mod_add _ (-1)) by lia. rewrite Z.mod_small; lia.
Qed.

Lemma repack_spec a p0 p1 p2 p3 :
  canonical a -> is_word 32 p0 -> is_word 32 p1 -> is_word 32 p2 -> is_word 32 p3 ->
  repack a [p0; p1; p2; p3] =
    Some (to_le_bytes 16 (eval26 a + (p0 + 2 ^ 32 * p1 + 2 ^ 64 * p2 + 2 ^ 96 * p3))).
Proof.
  destruct a as [a0 a1 a2 a3 a4]. unfold canonical, repack, is_word.
  cbn [limb0 limb1 limb2 limb3 limb4]. intros (A0 & A1 & A2 & A3 & A4) P0 P1 P2 P3.
  assert (S1 : 0 <= Z.shiftr a1 6 < 2 ^ 20) by (rewrite shiftr_div by lia; Z.to_euclidean_division_equations; lia).
  assert (S2 : 0 <= Z.shiftr a2 12 < 2 ^ 14) by (rewrite shiftr_div by lia; Z.to_euclidean_division_equations; lia).
  assert (S3 : 0 <= Z.shiftr a3 18 < 2 ^ 8) by (rewrite shiftr_div by lia; Z.to_euclidean_division_equations; lia).
  rewrite !join_words by lia. change 0xffffffff with (2 ^ 32 - 1). rewrite !land_mask by lia.
  change (32 - 26) with 6. change (32 - 20) with 12. change (32 - 14) with 18. change (32 - 8) with 24.
  rewrite !shiftr_div in * by lia. clear S1 S2 S3.
  divmod a1 6. divmod a2 12. divmod a3 18. divmod a4 24.
  rewrite !(Z.mod_small _ (2 ^ 32)) by lia. cbn [lookup_total list_lookup_total].
  unfold eval_limbs, wrap. cbn [limb0 limb1 limb2 limb3 limb4].
  rewrite chk_ok by lia. cbn [mbind option_bind]. rewrite (shiftr_div _ 32) by lia.
  divmod (a0 + 2 ^ 26 * m + p0) 32.
  rewrite chk_ok by lia. cbn [mbind option_bind]. rewrite (shiftr_div _ 32) by lia.
  divmod (q + 2 ^ 20 * m0 + p1 + q3) 32.
  rewrite chk_ok by lia. cbn [mbind option_bind]. rewrite (shiftr_div _ 32) by lia.
  divmod (q0 + 2 ^ 14 * m1 + p2 + q4) 32.
  rewrite chk_ok by lia. cbn [mbind option_bind]. f_equal.
  change ((q1 + 2 ^ 8 * m2 + p3 + q5) mod 2 ^ 32) with (wrap 32 (q1 + 2 ^ 8 * m2 + p3 + q5)).
  rewrite <- (to_le_16_sum m3 m4 m5 (q1 + 2 ^ 8 * m2 + p3 + q5) q2) by done. f_equal. lia.
Qed.

(** ** Correctness *)

Lemma finalize_spec key m s :
  is_bytes key -> length key = 32%nat -> absorbed_message key m s ->
  finalize s = Some (poly1305_spec m key).
Proof.
  intros Hk Hl (full & left & -> & Hs). unfold finalize.
  destruct (last_block key Hk Hl full left s Hs) as (s1 & -> & Hp & Hh & Ha). cbn [mbind option_bind].
  destruct (carry_limbs_spec (h s1) Hh) as (b & -> & Hb & Eb). cbn [mbind option_bind].
  destruct (select_reduced_spec b Hb) as [Hc Ec]. rewrite Hp.
  assert (Hd : is_bytes (drop 16 key) /\ length (drop 16 key) = 16%nat).
  { rewrite length_drop, Hl. rewrite <- (take_drop 16 key) in Hk. by apply is_bytes_app in Hk as [_ ?]. }
  destruct (from_le_words (drop 16 key)) as (W0 & W1 & W2 & W3 & E); [apply Hd..|].
  assert (S : forall i j, 0 <= i -> slice (drop 16 key) i j = slice key (16 + i) (16 + j)).
  { intros i j Hi. unfold slice. rewrite drop_drop. do 2 f_equal; lia. }
  rewrite S in W0, W1, W2, W3 by lia. rewrite (S 0), (S 4), (S 8), (S 12) in E by lia. unfold new, le32. cbn [pad].
  etransitivity; [exact (repack_spec _ _ _ _ _ Hc W0 W1 W2 W3)|].
  unfold poly1305_spec. rewrite E, Ec, Eb, Ha. done.
Qed.

Definition update_all (s : Poly1305) (parts : list (list Z)) : option Poly1305 :=
  foldl (fun acc part => s ← acc; update s part) (Some s) parts.

Lemma update_all_absorbs key parts m s :
  is_bytes key -> length key = 32%nat -> absorbed_message key m s -> Forall is_bytes parts ->
  exists s', update_all s parts = Some s' /\ absorbed_message key (m ++ concat parts) s'.
Proof.
  intros Hk Hl Hs Hp. revert m s Hs. induction Hp as [|p parts Hp _ IH]; intros m s Hs.
  - exists s. cbn. by rewrite app_nil_r.
  - cbn [concat]. unfold update_all. cbn [foldl mbind option_bind].
    destruct (update_absorbs key Hk Hl m s p Hs Hp) as (s1 & -> & H1).
    destruct (IH _ s1 H1) as (s' & E & H'). exists s'. rewrite app_assoc. by split.
Qed.

(** C22: for every message and 32-byte key, the code computes the RFC 8439
    authenticator, in whatever pieces the message is passed to [update]: none
    of its additions and multiplications on 32-bit and 64-bit words overflows,
    the truncating casts lose nothing, and the tag is the little-endian
    encoding of the polynomial of the 16-byte blocks at the clamped key modulo
    2^130 - 5, plus the pad modulo 2^128. *)
Theorem poly1305_computes_rfc8439 (key : list Z) (parts : list (list Z)) :
  is_bytes key -> length key = 32%nat -> Forall is_bytes parts ->
  (mac ← update_all (new key) parts; finalize mac) = Some (poly1305_spec (concat parts) key).
Proof.
  intros Hk Hl Hp.
  destruct (update_all_absorbs key parts [] (new key) Hk Hl (new_absorbs key Hl) Hp) as (s & -> & Hs).
  cbn [mbind option_bind]. by apply finalize_spec.
Qed.

Lemma poly1305_computes_rfc8439_witness :
  (mac ← update_all (new (replicate 32 7)) [[1; 2; 3]; replicate 40 9]; finalize mac) =
    Some (poly1305_spec (concat [[1; 2; 3]; replicate 40 9]) (replicate 32 7)).
Proof.
  apply poly1305_computes_rfc8439.
  - apply Forall_replicate. split; cbn; lia.
  - reflexivity.
  - repeat constructor; cbn; lia.
Defined.

(** The test vector of RFC 8439, section 2.5.2. *)
Example rfc8439_2_5_2 :
  poly1305
    [0x43; 0x72; 0x79; 0x70; 0x74; 0x6f; 0x67; 0x72; 0x61; 0x70; 0x68; 0x69; 0x63; 0x20; 0x46; 0x6f;
     0x72; 0x75; 0x6d; 0x20; 0x52; 0x65; 0x73; 0x65; 0x61; 0x72; 0x63; 0x68; 0x20; 0x47; 0x72; 0x6f;
     0x75; 0x70]
    (to_be_bytes 32 0x85d6be7857556d337f4452fe42d506a80103808afb0db2fd4abff6af4149f51b) =
  Some (to_be_bytes 16 0xa8061dc1305136c6c22b8baf0c0127a9).
Proof. vm_compute. reflexivity. Qed.

(** The second limb is left above 2^26 + 1 for some blocks: the bound of
    [limbs_ok], 2^26 + 62, is the one that holds between blocks. *)
Example residual_above_one :
  (s ← process_block (new (replicate 32 255)) (to_le_bytes 16 0x80bcc7fd1cf4a871ff7bd48e647b0cdc) true;
   Some (limb1 (h s))) = Some (2 ^ 26 + 13).
Proof. vm_compute. reflexivity. Qed.
