(* ===== verification/ChaCha.v ===== *)
(** * ChaCha20 and the ChaCha20-Poly1305 construction

    shared/crypto/src/chacha20.rs and chacha20poly1305.rs, with the comparison
    [ct_eq] of pbkdf2.rs.  The theorems: encryption is the exclusive or with a
    key stream that does not depend on the data; the tag is the RFC 8439
    authenticator of the padded associated data and ciphertext; decryption
    inverts encryption, accepts exactly the right tag and writes nothing when
    it refuses. *)

From S2P Require Import Prelude Words Poly1305.
From stdpp Require Import base list option.
From Stdlib Require Import ZArith Lia.

#[local] Open Scope Z_scope.

Module chacha20.

Definition quarter_round (state : list Z) (a b c d : nat) : list Z :=
  let state := <[a := wrapping_add 32 (state !!! a) (state !!! b)]> state in
  let state := <[d := Z.lxor (state !!! d) (state !!! a)]> state in
  let state := <[d := rotate_left 32 (state !!! d) 16]> state in
  let state := <[c := wrapping_add 32 (state !!! c) (state !!! d)]> state in
  let state := <[b := Z.lxor (state !!! b) (state !!! c)]> state in
  let state := <[b := rotate_left 32 (state !!! b) 12]> state in
  let state := <[a := wrapping_add 32 (state !!! a) (state !!! b)]> state in
  let state := <[d := Z.lxor (state !!! d) (state !!! a)]> state in
  let state := <[d := rotate_left 32 (state !!! d) 8]> state in
  let state := <[c := wrapping_add 32 (state !!! c) (state !!! d)]> state in
  let state := <[b := Z.lxor (state !!! b) (state !!! c)]> state in
  <[b := rotate_left 32 (state !!! b) 7]> state.

Definition double_round (state : list Z) : list Z :=
  let state := quarter_round state 0 4 8 12 in
  let state := quarter_round state 1 5 9 13 in
  let state := quarter_round state 2 6 10 14 in
  let state := quarter_round state 3 7 11 15 in
  let state := quarter_round state 0 5 10 15 in
  let state := quarter_round state 1 6 11 12 in
  let state := quarter_round state 2 7 8 13 in
  quarter_round state 3 4 9 14.

Definition initial_state (key : list Z) (counter : Z) (nonce : list Z) : list Z :=
  [0x61707865; 0x3320646e; 0x79622d32; 0x6b206574] ++
  map from_le_bytes
    [slice key 0 4; slice key 4 8; slice key 8 12; slice key 12 16;
     slice key 16 20; slice key 20 24; slice key 24 28; slice key 28 32] ++
  [counter] ++
  map from_le_bytes [slice nonce 0 4; slice nonce 4 8; slice nonce 8 12].

Definition block (key : list Z) (counter : Z) (nonce : list Z) : list Z :=
  let state := initial_state key counter nonce in
  let working := state in
  let state := Nat.iter 10 double_round state in
  concat (map (fun i => to_le_bytes 4 (wrapping_add 32 (state !!! i) (working !!! i))) (seq 0 16)).

(** The inner loop of [xor]: [out[base + i] = chunk[i] ^ ks[i]]. *)
Fixpoint xor_chunk (out : list Z) (base : nat) (chunk ks : list Z) : option (list Z) :=
  match chunk with
  | [] => Some out
  | byte :: chunk =>
      if (base <? length out)%nat
      then xor_chunk (<[base := Z.lxor byte (ks !!! 0%nat)]> out) (base + 1) chunk (drop 1 ks)
      else None
  end.

Fixpoint xor_chunks (key : list Z) (counter : Z) (nonce : list Z) (idx : nat)
    (cs : list (list Z)) (out : list Z) : option (list Z) :=
  match cs with
  | [] => Some out
  | c :: cs =>
      let ks := block key (wrapping_add 32 counter (wrap 32 (Z.of_nat idx))) nonce in
      out' ← xor_chunk out (idx * 64) c ks;
      xor_chunks key counter nonce (idx + 1) cs out'
  end.

Definition xor (key : list Z) (counter : Z) (nonce data out : list Z) : option (list Z) :=
  xor_chunks key counter nonce 0 (chunks 64 data) out.

End chacha20.

(** [ct_eq] of pbkdf2.rs: the loop folds every difference into [diff]. *)
Definition ct_eq (a b : list Z) : bool :=
  if (length a =? length b)%nat then
    foldl (fun diff index => Z.lor diff (Z.lxor (a !!! index) (b !!! index))) 0
      (seq 0 (length a)) =? 0
  else false.

Definition KEY_LEN : nat := 32.
Definition NONCE_LEN : nat := 12.
Definition TAG_LEN : nat := 16.

Module aead.

Definition poly_key_block (key nonce : list Z) : list Z :=
  let block := chacha20.block key 0 nonce in
  take 32 block.

Definition compute_tag (key nonce aad ciphertext : list Z) : option (list Z) :=
  let mac := Poly1305.new (poly_key_block key nonce) in
  mac ← Poly1305.update mac aad;
  mac ← Poly1305.pad16 mac;
  mac ← Poly1305.update mac ciphertext;
  mac ← Poly1305.pad16 mac;
  mac ← Poly1305.update_le64 mac (Z.of_nat (length aad));
  mac ← Poly1305.update_le64 mac (Z.of_nat (length ciphertext));
  Poly1305.finalize mac.

(** The tag and what [ciphertext] holds afterwards. *)
Definition encrypt (key nonce aad plaintext ciphertext : list Z) : option (list Z * list Z) :=
  ciphertext ← chacha20.xor key 1 nonce plaintext ciphertext;
  tag ← compute_tag key nonce aad ciphertext;
  Some (tag, ciphertext).

(** The verdict and what [plaintext] holds afterwards. *)
Definition decrypt (key nonce aad ciphertext tag plaintext : list Z) : option (bool * list Z) :=
  expect ← compute_tag key nonce aad ciphertext;
  if negb (ct_eq expect tag) then Some (false, plaintext)
  else
    plaintext ← chacha20.xor key 1 nonce ciphertext plaintext;
    Some (true, plaintext).

End aead.

(** The test vector of RFC 8439, section 2.3.2. *)
Example rfc8439_2_3_2 :
  chacha20.block (map Z.of_nat (seq 0 32)) 1 (to_be_bytes 12 0x000000090000004a00000000) =
  to_be_bytes 64 0x10f1e7e4d13b5915500fdd1fa32071c4c7d1f4c733c068030422aa9ac3d46c4ed2826446079faa0914c2d705d98b02a2b5129cd1de164eb9cbd083e8a2503c4e.
Proof. vm_compute. reflexivity. Qed.

(** ** The key stream *)

Lemma length_concat_words (f : nat -> Z) n k l :
  length l = k -> length (concat (map (fun i => to_le_bytes n (f i)) l)) = (n * k)%nat.
Proof.
  intros <-. induction l as [|i l IH]; cbn [map concat length]; [lia|].
  rewrite length_app, length_to_le_bytes, IH. lia.
Qed.

Lemma length_block key counter nonce : length (chacha20.block key counter nonce) = 64%nat.
Proof. unfold chacha20.block. by rewrite (length_concat_words _ 4 16). Qed.

Lemma is_bytes_block key counter nonce : is_bytes (chacha20.block key counter nonce).
Proof.
  unfold chacha20.block. generalize (seq 0 16). intros l.
  induction l as [|i l IH]; cbn [map concat]; [constructor|].
  apply is_bytes_app. split; [apply is_bytes_to_le|done].
Qed.

#[local] Opaque chacha20.block.

(** [n] blocks of key stream, starting at block number [idx] of the message. *)
Definition keystream (key : list Z) (counter : Z) (nonce : list Z) (idx n : nat) : list Z :=
  concat (map (fun i => chacha20.block key (wrapping_add 32 counter (wrap 32 (Z.of_nat i))) nonce)
            (seq idx n)).

Lemma xor_chunk_spec chunk : forall out base ks,
  (base + length chunk <= length out)%nat -> (length chunk <= length ks)%nat ->
  chacha20.xor_chunk out base chunk ks = Some (copy_into out (Z.of_nat base) (xor_bytes chunk ks)).
Proof.
  induction chunk as [|x chunk IH]; intros out base ks Hout Hks; cbn [chacha20.xor_chunk].
  - unfold copy_into, xor_bytes. cbn. rewrite Nat2Z.id, Nat.add_0_r, take_drop. done.
  - destruct ks as [|k ks]; cbn [length] in *; [lia|].
    destruct (Nat.ltb_spec base (length out)); [|lia].
    rewrite IH by (rewrite ?length_insert, ?length_drop; cbn [length]; lia).
    f_equal. cbn [drop xor_bytes zip_with]. unfold xor_bytes. cbn [zip_with].
    rewrite drop_0. unfold copy_into. rewrite !Nat2Z.id. cbn [length].
    replace (take (base + 1) (<[base:=Z.lxor x ((k :: ks) !!! 0%nat)]> out))
      with (take base out ++ [Z.lxor x k]).
    2: { rewrite (insert_take_drop out base) by lia.
         rewrite take_app_ge by (rewrite length_take; lia). rewrite length_take.
         replace (base + 1 - base `min` length out)%nat with 1%nat by lia. done. }
    rewrite <- app_assoc. cbn [app]. f_equal. f_equal. f_equal.
    rewrite drop_insert_lt by lia. f_equal. lia.
Qed.

Lemma xor_chunks_spec key counter nonce n : forall data idx out,
  length (chunks 64 data) = n -> (idx * 64 + length data <= length out)%nat ->
  chacha20.xor_chunks key counter nonce idx (chunks 64 data) out =
    Some (copy_into out (Z.of_nat (idx * 64))
            (xor_bytes data (keystream key counter nonce idx n))).
Proof.
  induction n as [|n IH]; intros data idx out Hn Hout.
  - destruct data as [|x data]; [|by rewrite chunks_cons in Hn by (done || lia)].
    cbn. unfold copy_into, xor_bytes. cbn. rewrite Nat2Z.id, Nat.add_0_r, take_drop. done.
  - destruct data as [|x data]; [done|]. set (d := x :: data) in *.
    rewrite chunks_cons in Hn |- * by (done || lia). cbn [length] in Hn. cbn [chacha20.xor_chunks].
    rewrite xor_chunk_spec by (rewrite ?length_block, length_take; lia). cbn [mbind option_bind].
    unfold keystream. cbn [seq map concat]. fold (keystream key counter nonce (S idx) n).
    pose proof (length_block key (wrapping_add 32 counter (wrap 32 (Z.of_nat idx))) nonce) as Hb.
    set (b := chacha20.block _ _ _) in *.
    destruct (Nat.le_gt_cases (length d) 64) as [Hle|Hgt].
    + rewrite (take_ge d), (drop_ge d) by lia. cbn [chunks chunks_fuel length chacha20.xor_chunks].
      rewrite xor_bytes_short by lia. done.
    + rewrite Nat.add_1_r, IH; [|lia|].
      2: { unfold copy_into. rewrite !length_app, !length_take, !length_drop, length_xor_bytes, length_take. lia. }
      f_equal. rewrite <- (take_drop 64 d) at 3.
      rewrite xor_bytes_app by (rewrite length_take; lia). rewrite <- copy_into_app; [|lia|].
      * f_equal. unfold zlen. rewrite length_xor_bytes, length_take. lia.
      * unfold zlen. rewrite !length_xor_bytes, length_take, length_drop. lia.
Qed.

Lemma length_keystream key counter nonce idx n :
  length (keystream key counter nonce idx n) = (64 * n)%nat.
Proof.
  unfold keystream. revert idx. induction n as [|n IH]; intros idx; cbn [seq map concat]; [done|].
  rewrite length_app, length_block, IH. lia.
Qed.

Lemma is_bytes_keystream key counter nonce idx n : is_bytes (keystream key counter nonce idx n).
Proof.
  unfold keystream. revert idx. induction n as [|n IH]; intros idx; cbn [seq map concat]; [constructor|].
  apply is_bytes_app. split; [apply is_bytes_block|apply IH].
Qed.

(** The key stream for a message. *)
Definition stream_for (key : list Z) (counter : Z) (nonce data : list Z) : list Z :=
  keystream key counter nonce 0 (length (chunks 64 data)).

Lemma xor_spec key counter nonce data out :
  length out = length data ->
  chacha20.xor key counter nonce data out =
    Some (xor_bytes data (stream_for key counter nonce data)).
Proof.
  intros H. unfold chacha20.xor. rewrite (xor_chunks_spec _ _ _ _ data) by (done || lia).
  rewrite copy_into_all; [done|]. pose proof (chunks_count 64 data).
  rewrite length_xor_bytes, length_keystream. lia.
Qed.

Lemma chunks_length_eq n a b :
  (0 < n)%nat -> length a = length b -> length (chunks n a) = length (chunks n b).
Proof.
  intros Hn. remember (length a) as k eqn:Hk. revert a b Hk.
  induction k as [k IH] using lt_wf_ind. intros a b -> Hb.
  destruct a as [|x a], b as [|y b]; try done.
  rewrite (chunks_cons n (x :: a)), (chunks_cons n (y :: b)) by done. cbn [length].
  f_equal. apply (IH (length (drop n (x :: a)))); rewrite ?length_drop, ?Hb; cbn [length] in *; lia.
Qed.

(** ** Comparing tags *)

Lemma ct_eq_true a b : ct_eq a b = true <-> a = b.
Proof.
  unfold ct_eq. destruct (Nat.eqb_spec (length a) (length b)) as [Hl|Hl].
  2: { split; [done|]. intros ->. done. }
  rewrite Z.eqb_eq. by apply fold_xor_eq.
Qed.

(** ** The authenticated construction *)

(** The zeros that complete the last block of 16. *)
Definition padding (m : list Z) : list Z := replicate ((16 - length m mod 16) mod 16) 0.

Lemma pad16_absorbs key m s :
  is_bytes key -> length key = 32%nat -> absorbed_message key m s ->
  exists s', Poly1305.pad16 s = Some s' /\ absorbed_message key (m ++ padding m) s'.
Proof.
  intros Hk Hl Hs. pose proof Hs as (full & left & -> & [[[k Hf] _ _ _ _] [Hlt _ Hn _ _]]).
  assert (Hm : (length (full ++ left) mod 16 = length left)%nat).
  { rewrite length_app, Hf. rewrite (Nat.mul_comm 16), Nat.add_comm, Nat.Div0.mod_add.
    by apply Nat.mod_small. }
  unfold Poly1305.pad16, padding. rewrite Hn, Hm. change 15 with (2 ^ 4 - 1).
  rewrite land_mask, Z.mod_small, Nat2Z.id by lia.
  destruct (Nat.eqb_spec (length left) 0) as [->|Hne].
  - exists s. by rewrite app_nil_r.
  - rewrite take_replicate. replace (Nat.min (16 - length left) 16) with (16 - length left)%nat by lia.
    rewrite (Nat.mod_small (16 - _)) by lia. apply update_absorbs; try done.
    apply Forall_replicate. split; cbn; lia.
Qed.

(** What the tag authenticates (RFC 8439, section 2.8). *)
Definition aead_message (aad ciphertext : list Z) : list Z :=
  ((aad ++ padding aad) ++ ciphertext ++ padding ciphertext) ++
  to_le_bytes 8 (Z.of_nat (length aad)) ++ to_le_bytes 8 (Z.of_nat (length ciphertext)).

Definition aead_tag (key nonce aad ciphertext : list Z) : list Z :=
  poly1305_spec (aead_message aad ciphertext) (take 32 (chacha20.block key 0 nonce)).

Lemma padding_app a b : (length a mod 16 = 0)%nat -> padding (a ++ b) = padding b.
Proof.
  intros H. unfold padding. rewrite length_app, <- Nat.Div0.add_mod_idemp_l, H. done.
Qed.

Lemma padded_length m : (length (m ++ padding m) mod 16 = 0)%nat.
Proof.
  unfold padding. rewrite length_app, length_replicate.
  pose proof (Nat.mod_upper_bound (length m) 16). rewrite Nat.Div0.add_mod, Nat.Div0.mod_mod.
  destruct (Nat.eq_dec (length m mod 16) 0) as [->|Hne]; [done|].
  rewrite (Nat.mod_small (16 - _)) by lia.
  replace (length m mod 16 + (16 - length m mod 16))%nat with 16%nat by lia. done.
Qed.

Lemma compute_tag_spec key nonce aad ciphertext :
  is_bytes aad -> is_bytes ciphertext ->
  aead.compute_tag key nonce aad ciphertext = Some (aead_tag key nonce aad ciphertext).
Proof.
  intros Ha Hc. unfold aead.compute_tag, aead.poly_key_block.
  set (pk := take 32 (chacha20.block key 0 nonce)).
  assert (Hk : is_bytes pk).
  { pose proof (is_bytes_block key 0 nonce) as H. rewrite <- (take_drop 32) in H.
    by apply is_bytes_app in H as [? _]. }
  assert (Hl : length pk = 32%nat) by (subst pk; by rewrite length_take, length_block).
  pose proof (new_absorbs pk Hl) as H0.
  destruct (update_absorbs pk Hk Hl _ _ aad H0 Ha) as (s1 & -> & H1). cbn [mbind option_bind].
  destruct (pad16_absorbs pk _ _ Hk Hl H1) as (s2 & -> & H2). cbn [mbind option_bind].
  destruct (update_absorbs pk Hk Hl _ _ ciphertext H2 Hc) as (s3 & -> & H3). cbn [mbind option_bind].
  destruct (pad16_absorbs pk _ _ Hk Hl H3) as (s4 & -> & H4). cbn [mbind option_bind].
  rewrite app_nil_l, padding_app in H4 by apply padded_length. unfold Poly1305.update_le64.
  destruct (update_absorbs pk Hk Hl _ _ (to_le_bytes 8 (Z.of_nat (length aad))) H4)
    as (s5 & -> & H5); [apply is_bytes_to_le|]. cbn [mbind option_bind].
  destruct (update_absorbs pk Hk Hl _ _ (to_le_bytes 8 (Z.of_nat (length ciphertext))) H5)
    as (s6 & -> & H6); [apply is_bytes_to_le|]. cbn [mbind option_bind].
  rewrite (finalize_spec pk _ _ Hk Hl H6). unfold aead_tag, aead_message. by rewrite <- !app_assoc.
Qed.

(** C23: encrypting under a key, a nonce and associated data succeeds for every
    plaintext, gives a ciphertext of the same length and a 16-byte tag, and
    decrypting them gives back the plaintext. *)
Theorem aead_decrypt_inverts_encrypt (key nonce aad plaintext out back : list Z) :
  is_bytes aad -> is_bytes plaintext -> length out = length plaintext ->
  length back = length plaintext ->
  exists tag ciphertext,
    aead.encrypt key nonce aad plaintext out = Some (tag, ciphertext) /\
    length tag = TAG_LEN /\ length ciphertext = length plaintext /\
    aead.decrypt key nonce aad ciphertext tag back = Some (true, plaintext).
Proof.
  intros Ha Hp Ho Hb. unfold aead.encrypt. rewrite xor_spec by done. cbn [mbind option_bind].
  set (ks := stream_for key 1 nonce plaintext). set (ct := xor_bytes plaintext ks).
  assert (Hks : (length plaintext <= length ks)%nat).
  { subst ks. unfold stream_for. rewrite length_keystream. apply chunks_count. lia. }
  assert (Hct : length ct = length plaintext) by (subst ct; rewrite length_xor_bytes; lia).
  pose proof (is_bytes_xor _ _ Hp (is_bytes_keystream key 1 nonce 0 _) : is_bytes ct) as Hcb.
  rewrite compute_tag_spec by done. cbn [mbind option_bind].
  exists (aead_tag key nonce aad ct), ct. split; [done|]. split; [apply length_to_le_bytes|].
  split; [done|]. unfold aead.decrypt. rewrite compute_tag_spec by done. cbn [mbind option_bind].
  rewrite (proj2 (ct_eq_true _ _) eq_refl). cbn [negb].
  rewrite xor_spec by (by rewrite Hct). cbn [mbind option_bind]. unfold stream_for.
  rewrite (chunks_length_eq 64 ct plaintext) by (done || lia).
  fold (stream_for key 1 nonce plaintext). fold ks. unfold ct. by rewrite xor_bytes_involutive.
Qed.

(** decryption accepts a ciphertext exactly when its tag is the RFC 8439
    tag of the associated data and the ciphertext; it then writes the
    decryption, and otherwise leaves the output buffer as it was. *)
Theorem aead_decrypt_accepts_only_its_tag (key nonce aad ciphertext tag out : list Z) :
  is_bytes aad -> is_bytes ciphertext -> length out = length ciphertext ->
  aead.decrypt key nonce aad ciphertext tag out =
    Some (if decide (tag = aead_tag key nonce aad ciphertext)
          then (true, xor_bytes ciphertext (stream_for key 1 nonce ciphertext))
          else (false, out)).
Proof.
  intros Ha Hc Ho. unfold aead.decrypt. rewrite compute_tag_spec by done. cbn [mbind option_bind].
  destruct (ct_eq _ tag) eqn:E; cbn [negb].
  - apply ct_eq_true in E. rewrite decide_True by done. by rewrite xor_spec.
  - rewrite decide_False; [done|]. intros ->. by rewrite (proj2 (ct_eq_true _ _) eq_refl) in E.
Qed.

Lemma aead_decrypt_inverts_encrypt_witness :
  exists tag ciphertext,
    aead.encrypt (replicate 32 1) (replicate 12 2) [3; 4] [5; 6; 7] [0; 0; 0] = Some (tag, ciphertext) /\
    length tag = TAG_LEN /\ length ciphertext = 3%nat /\
    aead.decrypt (replicate 32 1) (replicate 12 2) [3; 4] ciphertext tag [9; 9; 9] =
      Some (true, [5; 6; 7]).
Proof.
  apply (aead_decrypt_inverts_encrypt (replicate 32 1) (replicate 12 2) [3; 4] [5; 6; 7] [0; 0; 0] [9; 9; 9]);
    try reflexivity; repeat constructor; cbn; lia.
Defined.

Lemma aead_decrypt_accepts_only_its_tag_witness :
  aead.decrypt (replicate 32 1) (replicate 12 2) [3; 4] [5; 6; 7] (replicate 16 0) [9; 9; 9] =
    Some (false, [9; 9; 9]).
Proof.
  rewrite (aead_decrypt_accepts_only_its_tag (replicate 32 1) (replicate 12 2) [3; 4] [5; 6; 7]);
    [by vm_compute|repeat constructor; cbn; lia|repeat constructor; cbn; lia|reflexivity].
Defined.
