(* ===== verification/Field25519.v ===== *)
(** * Arithmetic modulo 2^255 - 19 (shared/crypto/src/field.rs)

    Five 51-bit limbs with 128-bit products.  Sums and differences are left
    unreduced; the theorems give the bounds under which no operation overflows
    and show that the limbs stand for the right residue: multiplication,
    inversion by the fixed addition chain, and the canonical encoding. *)

From S2P Require Import Prelude Words.
From stdpp Require Import base list option.
From Stdlib Require Import ZArith Lia Zdiv.

#[local] Open Scope Z_scope.

Definition MASK51 : Z := Z.shiftl 1 51 - 1.

Definition TWO_P : Limbs :=
  mkLimbs 4503599627370458 4503599627370494 4503599627370494 4503599627370494 4503599627370494.

Definition P_LIMBS : Limbs :=
  mkLimbs 2251799813685229 2251799813685247 2251799813685247 2251799813685247 2251799813685247.

(** One limb of the borrow chain of [canonical_limbs]. *)
Definition borrow_step (l p borrow : Z) : Z * Z :=
  let '(v, b1) := overflowing_sub 64 l p in
  let '(v2, b2) := overflowing_sub 64 v borrow in
  (v2, Z.lor borrow (Z.lor (Z.b2z b1) (Z.b2z b2))).

Definition from_wide (c0 c1 c2 c3 c4 : Z) : option Limbs :=
  v ← chk 128 (c0 + 0);
  let l0 := Z.land v MASK51 in
  let carry := Z.shiftr v 51 in
  v ← chk 128 (c1 + carry);
  let l1 := Z.land v MASK51 in
  let carry := Z.shiftr v 51 in
  v ← chk 128 (c2 + carry);
  let l2 := Z.land v MASK51 in
  let carry := Z.shiftr v 51 in
  v ← chk 128 (c3 + carry);
  let l3 := Z.land v MASK51 in
  let carry := Z.shiftr v 51 in
  v ← chk 128 (c4 + carry);
  let l4 := Z.land v MASK51 in
  let carry := Z.shiftr v 51 in
  let fold := wrap 128 (carry * 19) in
  l0 ← chk 64 (l0 + wrap 64 (Z.land fold MASK51));
  l1 ← chk 64 (l1 + wrap 64 (Z.shiftr fold 51));
  l1 ← chk 64 (l1 + Z.shiftr l0 51);
  let l0 := Z.land l0 MASK51 in
  Some (mkLimbs l0 l1 l2 l3 l4).

Module Fe.

Definition ZERO : Limbs := mkLimbs 0 0 0 0 0.
Definition ONE : Limbs := mkLimbs 1 0 0 0 0.

Definition from_u64 (v : Z) : Limbs := mkLimbs (Z.land v MASK51) (Z.shiftr v 51) 0 0 0.

Definition from_bytes (b : list Z) : Limbs :=
  mkLimbs
    (Z.land (from_le_bytes (slice b 0 8)) MASK51)
    (Z.land (Z.shiftr (from_le_bytes (slice b 6 14)) 3) MASK51)
    (Z.land (Z.shiftr (from_le_bytes (slice b 12 20)) 6) MASK51)
    (Z.land (Z.shiftr (from_le_bytes (slice b 19 27)) 1) MASK51)
    (Z.land (Z.shiftr (from_le_bytes (slice b 24 32)) 12) MASK51).

Definition carry_pass (a : Limbs) : option Limbs :=
  l1 ← chk 64 (limb1 a + Z.shiftr (limb0 a) 51);
  let l0 := Z.land (limb0 a) MASK51 in
  l2 ← chk 64 (limb2 a + Z.shiftr l1 51);
  let l1 := Z.land l1 MASK51 in
  l3 ← chk 64 (limb3 a + Z.shiftr l2 51);
  let l2 := Z.land l2 MASK51 in
  l4 ← chk 64 (limb4 a + Z.shiftr l3 51);
  let l3 := Z.land l3 MASK51 in
  c ← chk 64 (Z.shiftr l4 51 * 19);
  l0 ← chk 64 (l0 + c);
  let l4 := Z.land l4 MASK51 in
  l1 ← chk 64 (l1 + Z.shiftr l0 51);
  let l0 := Z.land l0 MASK51 in
  Some (mkLimbs l0 l1 l2 l3 l4).

Definition canonical_limbs (a : Limbs) : option Limbs :=
  l ← carry_pass a;
  let '(d0, borrow) := borrow_step (limb0 l) (limb0 P_LIMBS) 0 in
  let '(d1, borrow) := borrow_step (limb1 l) (limb1 P_LIMBS) borrow in
  let '(d2, borrow) := borrow_step (limb2 l) (limb2 P_LIMBS) borrow in
  let '(d3, borrow) := borrow_step (limb3 l) (limb3 P_LIMBS) borrow in
  let '(d4, borrow) := borrow_step (limb4 l) (limb4 P_LIMBS) borrow in
  let mask := wrapping_sub 64 borrow 1 in
  let pick x d := Z.lxor x (Z.land mask (Z.lxor x d)) in
  Some (mkLimbs (pick (limb0 l) d0) (pick (limb1 l) d1) (pick (limb2 l) d2) (pick (limb3 l) d3)
          (pick (limb4 l) d4)).

Definition to_bytes (a : Limbs) : option (list Z) :=
  l ← canonical_limbs a;
  let q0 := Z.lor (limb0 l) (shl 64 (limb1 l) 51) in
  let q1 := Z.lor (Z.shiftr (limb1 l) 13) (shl 64 (limb2 l) 38) in
  let q2 := Z.lor (Z.shiftr (limb2 l) 26) (shl 64 (limb3 l) 25) in
  let q3 := Z.lor (Z.shiftr (limb3 l) 39) (shl 64 (limb4 l) 12) in
  Some (to_le_bytes 8 q0 ++ to_le_bytes 8 q1 ++ to_le_bytes 8 q2 ++ to_le_bytes 8 q3).

Definition add (a b : Limbs) : option Limbs :=
  o0 ← chk 64 (limb0 a + limb0 b);
  o1 ← chk 64 (limb1 a + limb1 b);
  o2 ← chk 64 (limb2 a + limb2 b);
  o3 ← chk 64 (limb3 a + limb3 b);
  o4 ← chk 64 (limb4 a + limb4 b);
  Some (mkLimbs o0 o1 o2 o3 o4).

(** [a + two_p - b] on one limb. *)
Definition sub_limb (a two_p b : Z) : option Z :=
  s ← chk 64 (a + two_p);
  chk 64 (s - b).

Definition sub (a b : Limbs) : option Limbs :=
  o0 ← sub_limb (limb0 a) (limb0 TWO_P) (limb0 b);
  o1 ← sub_limb (limb1 a) (limb1 TWO_P) (limb1 b);
  o2 ← sub_limb (limb2 a) (limb2 TWO_P) (limb2 b);
  o3 ← sub_limb (limb3 a) (limb3 TWO_P) (limb3 b);
  o4 ← sub_limb (limb4 a) (limb4 TWO_P) (limb4 b);
  Some (mkLimbs o0 o1 o2 o3 o4).

Definition negate (a : Limbs) : option Limbs := sub ZERO a.

Definition mul (a b : Limbs) : option Limbs :=
  let '(mkLimbs a0 a1 a2 a3 a4) := a in
  let '(mkLimbs b0 b1 b2 b3 b4) := b in
  b1_19 ← chk 64 (b1 * 19);
  b2_19 ← chk 64 (b2 * 19);
  b3_19 ← chk 64 (b3 * 19);
  b4_19 ← chk 64 (b4 * 19);
  c0 ← column 128 a0 b0 a4 b1_19 a3 b2_19 a2 b3_19 a1 b4_19;
  c1 ← column 128 a1 b0 a0 b1 a4 b2_19 a3 b3_19 a2 b4_19;
  c2 ← column 128 a2 b0 a1 b1 a0 b2 a4 b3_19 a3 b4_19;
  c3 ← column 128 a3 b0 a2 b1 a1 b2 a0 b3 a4 b4_19;
  c4 ← column 128 a4 b0 a3 b1 a2 b2 a1 b3 a0 b4;
  from_wide c0 c1 c2 c3 c4.

Definition square (a : Limbs) : option Limbs := mul a a.

Fixpoint pow2k (a : Limbs) (k : nat) : option Limbs :=
  match k with
  | O => Some a
  | S k => r ← square a; pow2k r k
  end.

Definition pow22501 (a : Limbs) : option (Limbs * Limbs) :=
  t0 ← square a;
  t1 ← square t0; t1 ← square t1;
  t2 ← mul a t1;
  t3 ← mul t0 t2;
  t4 ← square t3;
  t5 ← mul t2 t4;
  t6 ← pow2k t5 5;
  t7 ← mul t6 t5;
  t8 ← pow2k t7 10;
  t9 ← mul t8 t7;
  t10 ← pow2k t9 20;
  t11 ← mul t10 t9;
  t12 ← pow2k t11 10;
  t13 ← mul t12 t7;
  t14 ← pow2k t13 50;
  t15 ← mul t14 t13;
  t16 ← pow2k t15 100;
  t17 ← mul t16 t15;
  t18 ← pow2k t17 50;
  t19 ← mul t18 t13;
  Some (t19, t3).

Definition invert (a : Limbs) : option Limbs :=
  '(t19, t3) ← pow22501 a;
  r ← pow2k t19 5;
  mul r t3.

Definition sqrt_m1 : option Limbs :=
  let two := from_u64 2 in
  two_squared ← square two;
  two_cubed ← mul two_squared two;
  '(t19, _) ← pow22501 two;
  r ← pow2k t19 3;
  mul r two_cubed.

Definition select (a b : Limbs) (choice : Z) : Limbs :=
  let mask := wrapping_neg 64 (Z.land choice 1) in
  let pick x y := Z.lxor y (Z.land mask (Z.lxor x y)) in
  mkLimbs (pick (limb0 a) (limb0 b)) (pick (limb1 a) (limb1 b)) (pick (limb2 a) (limb2 b))
    (pick (limb3 a) (limb3 b)) (pick (limb4 a) (limb4 b)).

Definition is_negative (a : Limbs) : option bool :=
  bytes ← to_bytes a;
  Some (Z.land (bytes !!! 0%nat) 1 =? 1).

Definition is_zero (a : Limbs) : option bool :=
  bytes ← to_bytes a;
  Some (bool_decide (bytes = replicate 32 0)).

End Fe.

(** [constant_time_eq] *)
Definition constant_time_eq (a b : list Z) : bool :=
  foldl (fun acc i => Z.lor acc (Z.lxor (a !!! i) (b !!! i))) 0 (seq 0 (length a)) =? 0.

Definition Fe_ct_eq (a b : Limbs) : option bool :=
  x ← Fe.to_bytes a;
  y ← Fe.to_bytes b;
  Some (constant_time_eq x y).

(** ** Residues *)

Definition P25519 : Z := 2 ^ 255 - 19.

Abbreviation eval51 := (eval_limbs 51).

(** [a] stands for the residue [z]. *)
Definition stands_for (a : Limbs) (z : Z) : Prop := eval51 a mod P25519 = z mod P25519.

(** Every limb is at most [b]. *)
Definition below (b : Z) (a : Limbs) : Prop :=
  0 <= limb0 a <= b /\ 0 <= limb1 a <= b /\ 0 <= limb2 a <= b /\ 0 <= limb3 a <= b /\
  0 <= limb4 a <= b.

(** What multiplication returns. *)
Definition tight (a : Limbs) : Prop :=
  0 <= limb0 a < 2 ^ 51 /\ 0 <= limb1 a < 2 ^ 51 + 2 ^ 20 /\ 0 <= limb2 a < 2 ^ 51 /\
  0 <= limb3 a < 2 ^ 51 /\ 0 <= limb4 a < 2 ^ 51.

Lemma below_weaken b b' a : b <= b' -> below b a -> below b' a.
Proof. unfold below. lia. Qed.

Lemma tight_below a : tight a -> below (2 ^ 51 + 2 ^ 20) a.
Proof. unfold tight, below. lia. Qed.

Lemma P25519_pos : 0 < P25519.
Proof. unfold P25519. lia. Qed.

Lemma stands_for_mul a b c x y :
  eval51 c mod P25519 = (eval51 a * eval51 b) mod P25519 -> stands_for a x -> stands_for b y ->
  stands_for c (x * y).
Proof.
  unfold stands_for. intros -> Ha Hb. by rewrite Z.mul_mod, Ha, Hb, <- Z.mul_mod by (unfold P25519; lia).
Qed.

Ltac split51 d := split_bits 51 MASK51 d.

Lemma from_wide_spec c0 c1 c2 c3 c4 :
  0 <= c0 < 2 ^ 116 -> 0 <= c1 < 2 ^ 116 -> 0 <= c2 < 2 ^ 116 -> 0 <= c3 < 2 ^ 116 ->
  0 <= c4 < 2 ^ 116 ->
  exists a k, from_wide c0 c1 c2 c3 c4 = Some a /\ tight a /\
    c0 + 2 ^ 51 * c1 + 2 ^ 102 * c2 + 2 ^ 153 * c3 + 2 ^ 204 * c4 = eval51 a + P25519 * k.
Proof.
  intros H0 H1 H2 H3 H4. unfold from_wide.
  rewrite Z.add_0_r, chk_ok by lia. cbn [mbind option_bind]. split51 c0.
  rewrite chk_ok by lia. cbn [mbind option_bind]. split51 (c1 + q).
  rewrite chk_ok by lia. cbn [mbind option_bind]. split51 (c2 + q0).
  rewrite chk_ok by lia. cbn [mbind option_bind]. split51 (c3 + q1).
  rewrite chk_ok by lia. cbn [mbind option_bind]. split51 (c4 + q2).
  rewrite (wrap_small 128) by lia. split51 (q3 * 19).
  rewrite (wrap_small 64 m4), (wrap_small 64 q4), chk_ok by lia. cbn [mbind option_bind].
  rewrite chk_ok by lia. cbn [mbind option_bind]. split51 (m + m4).
  rewrite chk_ok by lia. cbn [mbind option_bind].
  eexists _, q3. split; [done|]. unfold tight, eval_limbs, P25519.
  cbn [limb0 limb1 limb2 limb3 limb4]. lia.
Qed.

Lemma fe_product a0 a1 a2 a3 a4 b0 b1 b2 b3 b4 :
  eval51 (mkLimbs a0 a1 a2 a3 a4) * eval51 (mkLimbs b0 b1 b2 b3 b4) =
  (a0 * b0 + a4 * (b1 * 19) + a3 * (b2 * 19) + a2 * (b3 * 19) + a1 * (b4 * 19)) +
  2 ^ 51 * (a1 * b0 + a0 * b1 + a4 * (b2 * 19) + a3 * (b3 * 19) + a2 * (b4 * 19)) +
  2 ^ 102 * (a2 * b0 + a1 * b1 + a0 * b2 + a4 * (b3 * 19) + a3 * (b4 * 19)) +
  2 ^ 153 * (a3 * b0 + a2 * b1 + a1 * b2 + a0 * b3 + a4 * (b4 * 19)) +
  2 ^ 204 * (a4 * b0 + a3 * b1 + a2 * b2 + a1 * b3 + a0 * b4) +
  P25519 * ((a4 * b1 + a3 * b2 + a2 * b3 + a1 * b4) + 2 ^ 51 * (a4 * b2 + a3 * b3 + a2 * b4) +
            2 ^ 102 * (a4 * b3 + a3 * b4) + 2 ^ 153 * (a4 * b4)).
Proof.
  unfold eval_limbs, P25519. cbn [limb0 limb1 limb2 limb3 limb4].
  change (2 ^ (2 * 51)) with (2 ^ 102). change (2 ^ (3 * 51)) with (2 ^ 153).
  change (2 ^ (4 * 51)) with (2 ^ 204).
  change (2 ^ 255) with (2 ^ 51 * 2 ^ 51 * 2 ^ 51 * 2 ^ 51 * 2 ^ 51).
  change (2 ^ 204) with (2 ^ 51 * 2 ^ 51 * 2 ^ 51 * 2 ^ 51).
  change (2 ^ 153) with (2 ^ 51 * 2 ^ 51 * 2 ^ 51). change (2 ^ 102) with (2 ^ 51 * 2 ^ 51).
  generalize (2 ^ 51). intros x. ring.
Qed.

Lemma fe_mul_spec a b :
  below (2 ^ 54) a -> below (2 ^ 54) b ->
  exists c, Fe.mul a b = Some c /\ tight c /\
    eval51 c mod P25519 = (eval51 a * eval51 b) mod P25519.
Proof.
  destruct a as [a0 a1 a2 a3 a4], b as [b0 b1 b2 b3 b4]. unfold below.
  cbn [limb0 limb1 limb2 limb3 limb4]. intros (A0 & A1 & A2 & A3 & A4) (B0 & B1 & B2 & B3 & B4).
  unfold Fe.mul. rewrite !(chk_ok 64) by lia. cbn [mbind option_bind].
  assert (L1 : 0 <= b1 * 19 <= 2 ^ 54 * 19) by lia. assert (L2 : 0 <= b2 * 19 <= 2 ^ 54 * 19) by lia.
  assert (L3 : 0 <= b3 * 19 <= 2 ^ 54 * 19) by lia. assert (L4 : 0 <= b4 * 19 <= 2 ^ 54 * 19) by lia.
  pose proof (fe_product a0 a1 a2 a3 a4 b0 b1 b2 b3 b4) as Heq.
  destruct (column_ok 128 _ _ _ _ _ _ _ _ _ _ _ _ _ _ _ _ A0 A4 A3 A2 A1 B0 L1 L2 L3 L4 ltac:(lia))
    as (d0 & -> & E0 & D0).
  destruct (column_ok 128 _ _ _ _ _ _ _ _ _ _ _ _ _ _ _ _ A1 A0 A4 A3 A2 B0 B1 L2 L3 L4 ltac:(lia))
    as (d1 & -> & E1 & D1).
  destruct (column_ok 128 _ _ _ _ _ _ _ _ _ _ _ _ _ _ _ _ A2 A1 A0 A4 A3 B0 B1 B2 L3 L4 ltac:(lia))
    as (d2 & -> & E2 & D2).
  destruct (column_ok 128 _ _ _ _ _ _ _ _ _ _ _ _ _ _ _ _ A3 A2 A1 A0 A4 B0 B1 B2 B3 L4 ltac:(lia))
    as (d3 & -> & E3 & D3).
  destruct (column_ok 128 _ _ _ _ _ _ _ _ _ _ _ _ _ _ _ _ A4 A3 A2 A1 A0 B0 B1 B2 B3 B4 ltac:(lia))
    as (d4 & -> & E4 & D4).
  cbn [mbind option_bind]. rewrite <- E0, <- E1, <- E2, <- E3, <- E4 in Heq.
  clear - D0 D1 D2 D3 D4 Heq.
  destruct (from_wide_spec d0 d1 d2 d3 d4) as (c & k & -> & Hc & He); [lia..|].
  exists c. split; [done|]. split; [done|]. rewrite Heq, He, <- Z.add_assoc, <- Z.mul_add_distr_l.
  by rewrite Z.mul_comm, Z.mod_add by (unfold P25519; lia).
Qed.

(** ** Operations on representatives *)

(** The bound of what multiplication returns. *)
Definition TIGHT : Z := 2 ^ 51 + 2 ^ 20.

Lemma fe_mul_ok a b A B x y :
  below A a -> stands_for a x -> below B b -> stands_for b y -> A <= 2 ^ 54 -> B <= 2 ^ 54 ->
  exists c, Fe.mul a b = Some c /\ tight c /\ below TIGHT c /\ stands_for c (x * y).
Proof.
  intros Ha Sa Hb Sb HA HB.
  destruct (fe_mul_spec a b) as (c & -> & Hc & E); [by apply (below_weaken A)|by apply (below_weaken B)|].
  exists c. split; [done|]. split; [done|]. split; [by apply tight_below|].
  by eapply stands_for_mul.
Qed.

Lemma fe_square_ok a A x :
  below A a -> stands_for a x -> A <= 2 ^ 54 ->
  exists c, Fe.square a = Some c /\ tight c /\ below TIGHT c /\ stands_for c (x * x).
Proof. intros. unfold Fe.square. by eapply fe_mul_ok. Qed.

Lemma fe_add_ok a b A B x y :
  below A a -> stands_for a x -> below B b -> stands_for b y -> A + B < 2 ^ 64 ->
  exists c, Fe.add a b = Some c /\ below (A + B) c /\ stands_for c (x + y).
Proof.
  destruct a as [a0 a1 a2 a3 a4], b as [b0 b1 b2 b3 b4]. unfold below, Fe.add, stands_for.
  cbn [limb0 limb1 limb2 limb3 limb4]. intros HA Sa HB Sb H.
  rewrite !chk_ok by lia. cbn [mbind option_bind]. eexists. split; [done|].
  cbn [limb0 limb1 limb2 limb3 limb4]. split; [lia|].
  rewrite (Z.add_mod x y), <- Sa, <- Sb, <- Z.add_mod by (unfold P25519; lia). f_equal.
  unfold eval_limbs. cbn [limb0 limb1 limb2 limb3 limb4]. lia.
Qed.

(** What a subtraction can take away: no limb above that of twice the prime. *)
Definition flat (a : Limbs) : Prop :=
  0 <= limb0 a <= limb0 TWO_P /\ 0 <= limb1 a <= limb1 TWO_P /\ 0 <= limb2 a <= limb2 TWO_P /\
  0 <= limb3 a <= limb3 TWO_P /\ 0 <= limb4 a <= limb4 TWO_P.

Lemma tight_flat a : tight a -> flat a.
Proof. unfold tight, flat, TWO_P. cbn [limb0 limb1 limb2 limb3 limb4]. lia. Qed.

Lemma flat_below a : flat a -> below (2 ^ 52) a.
Proof. unfold below, flat, TWO_P. cbn [limb0 limb1 limb2 limb3 limb4]. lia. Qed.

Lemma fe_sub_flat a b A x y :
  below A a -> stands_for a x -> flat b -> stands_for b y -> A + 2 ^ 52 < 2 ^ 64 ->
  exists c, Fe.sub a b = Some c /\ below (A + 2 ^ 52) c /\ stands_for c (x - y).
Proof.
  destruct a as [a0 a1 a2 a3 a4], b as [b0 b1 b2 b3 b4].
  unfold below, flat, Fe.sub, Fe.sub_limb, TWO_P, stands_for.
  cbn [limb0 limb1 limb2 limb3 limb4]. intros HA Sa HB Sb H2.
  repeat (rewrite chk_ok by lia; cbn [mbind option_bind]). eexists. split; [done|].
  cbn [limb0 limb1 limb2 limb3 limb4]. split; [lia|].
  rewrite (Zminus_mod x y), <- Sa, <- Sb, <- Zminus_mod.
  rewrite <- (Z.mod_add (eval51 _ - eval51 _) 2) by (unfold P25519; lia). f_equal.
  unfold eval_limbs, P25519. cbn [limb0 limb1 limb2 limb3 limb4]. lia.
Qed.

(** The limbs of twice the prime are at least 2^52 - 38. *)
Lemma fe_sub_ok a b A B x y :
  below A a -> stands_for a x -> below B b -> stands_for b y -> B <= 2 ^ 52 - 38 ->
  A + 2 ^ 52 < 2 ^ 64 ->
  exists c, Fe.sub a b = Some c /\ below (A + 2 ^ 52) c /\ stands_for c (x - y).
Proof.
  intros HA Sa HB Sb H1 H2. apply fe_sub_flat; try done.
  unfold below, flat, TWO_P in *. cbn [limb0 limb1 limb2 limb3 limb4]. lia.
Qed.

(** Bounds are closed terms: compare them by evaluation. *)
Ltac closed_le :=
  lazymatch goal with
  | H : ?P |- ?P => exact H
  | |- _ <= _ => apply Z.leb_le; vm_compute; reflexivity
  | |- _ < _ => apply Z.ltb_lt; vm_compute; reflexivity
  end.

(** What is known of a representative. *)
Ltac with_rep a k :=
  lazymatch goal with
  | B : below ?b a |- _ => lazymatch goal with S : stands_for a ?x |- _ => k B S end
  end.

(** Run one field operation whose operands have known bounds. *)
Ltac fe_step :=
  let c := fresh "c" in let E := fresh "E" in let T := fresh "T" in
  let B := fresh "B" in let S := fresh "S" in
  match goal with
  | |- context [Fe.mul ?a ?b] =>
      with_rep a ltac:(fun B1 S1 => with_rep b ltac:(fun B2 S2 =>
        destruct (fe_mul_ok a b _ _ _ _ B1 S1 B2 S2) as (c & E & T & B & S);
        [closed_le|closed_le|rewrite E; clear E]))
  | |- context [Fe.square ?a] =>
      with_rep a ltac:(fun B1 S1 =>
        destruct (fe_square_ok a _ _ B1 S1) as (c & E & T & B & S);
        [closed_le|rewrite E; clear E])
  | |- context [Fe.add ?a ?b] =>
      with_rep a ltac:(fun B1 S1 => with_rep b ltac:(fun B2 S2 =>
        destruct (fe_add_ok a b _ _ _ _ B1 S1 B2 S2) as (c & E & B & S);
        [closed_le|rewrite E; clear E]))
  | F : flat ?b, S2 : stands_for ?b _ |- context [Fe.sub ?a ?b] =>
      with_rep a ltac:(fun B1 S1 =>
        destruct (fe_sub_flat a b _ _ _ B1 S1 F S2) as (c & E & B & S);
        [closed_le|rewrite E; clear E])
  | |- context [Fe.sub ?a ?b] =>
      with_rep a ltac:(fun B1 S1 => with_rep b ltac:(fun B2 S2 =>
        destruct (fe_sub_ok a b _ _ _ _ B1 S1 B2 S2) as (c & E & B & S);
        [closed_le|closed_le|rewrite E; clear E]))
  end; cbn [mbind option_bind].

(** ** Powers *)

Lemma stands_for_pow a z e e' : stands_for a (z ^ e) -> e = e' -> stands_for a (z ^ e').
Proof. by intros ? <-. Qed.

(** Multiplying powers of one residue adds the exponents. *)
Lemma fe_mul_pow a b A B z i j :
  below A a -> stands_for a (z ^ i) -> below B b -> stands_for b (z ^ j) ->
  A <= 2 ^ 54 -> B <= 2 ^ 54 -> 0 <= i -> 0 <= j ->
  exists c, Fe.mul a b = Some c /\ tight c /\ below TIGHT c /\ stands_for c (z ^ (i + j)).
Proof. intros. rewrite Z.pow_add_r by done. by eapply fe_mul_ok. Qed.

Lemma fe_pow2k_pow k : forall a z i,
  tight a -> below TIGHT a -> stands_for a (z ^ i) -> 0 <= i ->
  exists c, Fe.pow2k a k = Some c /\ tight c /\ below TIGHT c /\ stands_for c (z ^ (i * 2 ^ Z.of_nat k)).
Proof.
  induction k as [|k IH]; intros a z i Ta Ha Sa Hi; cbn [Fe.pow2k].
  - exists a. change (2 ^ Z.of_nat 0) with 1. by rewrite Z.mul_1_r.
  - unfold Fe.square. destruct (fe_mul_pow a a TIGHT TIGHT z i i) as (b & -> & Tb & Hb & Sb); try done.
    cbn [mbind option_bind]. destruct (IH b z (i + i)) as (c & -> & Tc & Hc & Sc); try done; [lia|].
    exists c. split; [done|]. split; [done|]. split; [done|]. eapply stands_for_pow; [done|].
    rewrite Nat2Z.inj_succ, Z.pow_succ_r by lia. lia.
Qed.

(** One step of the addition chain. *)
Ltac chain_step :=
  let c := fresh "t" in let E := fresh "E" in let T := fresh "T" in
  let B := fresh "B" in let S := fresh "S" in
  match goal with
  | |- context [Fe.square ?a] => change (Fe.square a) with (Fe.mul a a)
  | T1 : tight ?a |- context [Fe.pow2k ?a ?k] =>
      with_rep a ltac:(fun B1 S1 =>
        destruct (fe_pow2k_pow k a _ _ T1 B1 S1) as (c & E & T & B & S); [closed_le|rewrite E; clear E])
  | |- context [Fe.mul ?a ?b] =>
      with_rep a ltac:(fun B1 S1 => with_rep b ltac:(fun B2 S2 =>
        destruct (fe_mul_pow a b _ _ _ _ _ B1 S1 B2 S2) as (c & E & T & B & S);
        [closed_le|closed_le|closed_le|closed_le|rewrite E; clear E]))
  end; cbn [mbind option_bind].

Lemma fe_pow22501_ok a A z :
  below A a -> stands_for a z -> A <= 2 ^ 54 ->
  exists t19 t3, Fe.pow22501 a = Some (t19, t3) /\
    (tight t19 /\ below TIGHT t19 /\ stands_for t19 (z ^ (2 ^ 250 - 1))) /\
    (tight t3 /\ below TIGHT t3 /\ stands_for t3 (z ^ 11)).
Proof.
  intros Ha Sa HA. rewrite <- (Z.pow_1_r z) in Sa. unfold Fe.pow22501.
  repeat chain_step.
  eexists _, _. split; [done|]. split.
  - split; [done|]. split; [done|]. eapply stands_for_pow; [eassumption|]. vm_compute. reflexivity.
  - split; [done|]. split; [done|]. eapply stands_for_pow; [eassumption|]. reflexivity.
Qed.

Lemma fe_invert_ok a A z :
  below A a -> stands_for a z -> A <= 2 ^ 54 ->
  exists c, Fe.invert a = Some c /\ tight c /\ below TIGHT c /\ stands_for c (z ^ (P25519 - 2)).
Proof.
  intros Ha Sa HA. unfold Fe.invert.
  destruct (fe_pow22501_ok a A z Ha Sa HA) as (t19 & t3 & -> & (T1 & B1 & S1) & (T3 & B3 & S3)).
  cbn [mbind option_bind]. repeat chain_step. exists t0. split; [done|]. split; [done|].
  split; [done|]. eapply stands_for_pow; [eassumption|]. vm_compute. reflexivity.
Qed.

(** ** The canonical encoding *)

(** What [to_bytes] is applied to: a product, or a product plus one. *)
Definition settled (a : Limbs) : Prop :=
  0 <= limb0 a <= 2 ^ 51 /\ 0 <= limb1 a < 2 ^ 51 + 2 ^ 20 /\ 0 <= limb2 a < 2 ^ 51 /\
  0 <= limb3 a < 2 ^ 51 /\ 0 <= limb4 a < 2 ^ 51.

Definition reduced (a : Limbs) : Prop :=
  0 <= limb0 a < 2 ^ 51 /\ 0 <= limb1 a < 2 ^ 51 /\ 0 <= limb2 a < 2 ^ 51 /\
  0 <= limb3 a < 2 ^ 51 /\ 0 <= limb4 a < 2 ^ 51.

Lemma tight_settled a : tight a -> settled a.
Proof. unfold tight, settled. lia. Qed.

Lemma carry_pass_ok a :
  settled a -> exists b, Fe.carry_pass a = Some b /\ reduced b /\
    eval51 b mod P25519 = eval51 a mod P25519.
Proof.
  destruct a as [a0 a1 a2 a3 a4]. unfold settled, Fe.carry_pass.
  cbn [limb0 limb1 limb2 limb3 limb4]. intros (A0 & A1 & A2 & A3 & A4).
  split51 a0. rewrite chk_ok by lia. cbn [mbind option_bind].
  split51 (a1 + q). rewrite chk_ok by lia. cbn [mbind option_bind].
  split51 (a2 + q0). rewrite chk_ok by lia. cbn [mbind option_bind].
  split51 (a3 + q1). rewrite chk_ok by lia. cbn [mbind option_bind].
  split51 (a4 + q2). rewrite chk_ok by lia. cbn [mbind option_bind].
  rewrite chk_ok by lia. cbn [mbind option_bind].
  split51 (m + q3 * 19). rewrite chk_ok by lia. cbn [mbind option_bind].
  eexists. split; [done|]. unfold reduced, eval_limbs. cbn [limb0 limb1 limb2 limb3 limb4].
  split; [lia|]. rewrite <- (Z.mod_add _ q3 P25519) by (unfold P25519; lia). f_equal.
  unfold P25519. lia.
Qed.

(** One limb of the borrow chain, for reduced limbs. *)
Lemma borrow_step_ok l p b :
  0 <= l < 2 ^ 51 -> 0 <= p < 2 ^ 51 -> b = 0 \/ b = 1 ->
  borrow_step l p b =
    (wrap 64 (l - p - b), if (l <? p) || (b =? 1) then 1 else 0).
Proof.
  intros Hl Hp Hb. unfold borrow_step, overflowing_sub, wrapping_sub.
  assert (E : wrap 64 (wrap 64 (l - p) - b) = wrap 64 (l - p - b)).
  { unfold wrap. by rewrite Zminus_mod_idemp_l. }
  rewrite E. f_equal. destruct Hb as [-> | ->].
  - rewrite Z.lor_0_l. change (0 =? 1) with false. rewrite orb_false_r.
    replace (wrap 64 (l - p) <? 0) with false.
    2: { symmetry. apply Z.ltb_ge. apply (wrap_word 64). lia. }
    by destruct (l <? p).
  - change (1 =? 1) with true. rewrite orb_true_r. by destruct (l <? p), (wrap 64 (l - p) <? 1).
Qed.

Lemma canonical_limbs_ok a :
  settled a -> exists b, Fe.canonical_limbs a = Some b /\ reduced b /\ eval51 b = eval51 a mod P25519.
Proof.
  intros Ha. unfold Fe.canonical_limbs.
  destruct (carry_pass_ok a Ha) as ([l0 l1 l2 l3 l4] & -> & Hl & <-). cbn [mbind option_bind].
  unfold reduced, P_LIMBS in *. cbn [limb0 limb1 limb2 limb3 limb4] in *.
  destruct Hl as (L0 & L1 & L2 & L3 & L4).
  assert (B : forall c : bool, (if c then 1 else 0) = 0 \/ (if c then 1 else 0) = 1)
    by (intros []; auto).
  rewrite borrow_step_ok, borrow_step_ok, borrow_step_ok, borrow_step_ok, borrow_step_ok
    by (try lia; try apply B; auto).
  change (0 =? 1) with false. rewrite orb_false_r.
  assert (C : forall c : bool, ((if c then 1 else 0) =? 1) = c) by (by intros []). rewrite !C.
  eexists. split; [done|]. cbn [limb0 limb1 limb2 limb3 limb4].
  unfold eval_limbs, P25519. cbn [limb0 limb1 limb2 limb3 limb4].
  destruct (Z.ltb_spec l0 2251799813685229), (Z.ltb_spec l1 2251799813685247),
    (Z.ltb_spec l2 2251799813685247), (Z.ltb_spec l3 2251799813685247),
    (Z.ltb_spec l4 2251799813685247); cbn [orb];
    try (change (wrapping_sub 64 1 1) with 0; rewrite !pick_zeros; split; [lia|];
         symmetry; apply Z.mod_small; lia).
  change (wrapping_sub 64 0 1) with (2 ^ 64 - 1). rewrite !Z.sub_0_r.
  rewrite !pick_ones by (unfold is_word; try apply wrap_word; lia).
  rewrite !wrap_small by lia. split; [lia|].
  match goal with |- _ = ?v mod _ => rewrite <- (Z.mod_add v (-1)) by lia end.
  rewrite Z.mod_small; lia.
Qed.

(** The encoding is the little-endian form of the residue in [0, p). *)
Lemma fe_to_bytes_ok a :
  settled a -> Fe.to_bytes a = Some (to_le_bytes 32 (eval51 a mod P25519)).
Proof.
  intros Ha. unfold Fe.to_bytes.
  destruct (canonical_limbs_ok a Ha) as ([l0 l1 l2 l3 l4] & -> & Hl & <-). cbn [mbind option_bind].
  unfold reduced, eval_limbs in *. cbn [limb0 limb1 limb2 limb3 limb4] in *.
  destruct Hl as (L0 & L1 & L2 & L3 & L4).
  assert (S1 : 0 <= Z.shiftr l1 13 < 2 ^ 38) by (rewrite shiftr_div by lia; Z.to_euclidean_division_equations; lia).
  assert (S2 : 0 <= Z.shiftr l2 26 < 2 ^ 25) by (rewrite shiftr_div by lia; Z.to_euclidean_division_equations; lia).
  assert (S3 : 0 <= Z.shiftr l3 39 < 2 ^ 12) by (rewrite shiftr_div by lia; Z.to_euclidean_division_equations; lia).
  rewrite !join_words by lia.
  change (64 - 51) with 13. change (64 - 38) with 26. change (64 - 25) with 39. change (64 - 12) with 52.
  rewrite !shiftr_div in * by lia. clear S1 S2 S3. rewrite (Z.mod_small l4) by lia.
  divmod l1 13. divmod l2 26. divmod l3 39. f_equal.
  rewrite <- to_le_32_sum by (unfold is_word; lia). f_equal. lia.
Qed.

Lemma fe_from_bytes_ok b :
  is_bytes b -> length b = 32%nat ->
  reduced (Fe.from_bytes b) /\ eval51 (Fe.from_bytes b) = from_le_bytes b mod 2 ^ 255.
Proof.
  intros Hb Hl. unfold Fe.from_bytes, slice, reduced, eval_limbs.
  cbn [limb0 limb1 limb2 limb3 limb4].
  rewrite !from_le_window by (try done; rewrite Hl; cbn; lia).
  pose proof (from_le_bound b Hb) as HB. rewrite Hl in HB.
  generalize dependent (from_le_bytes b). intros z HB.
  change (8 * Z.of_nat (Z.to_nat (8 - 0))) with 64. change (8 * Z.of_nat (Z.to_nat 0)) with 0.
  change (8 * Z.of_nat (Z.to_nat (14 - 6))) with 64. change (8 * Z.of_nat (Z.to_nat 6)) with 48.
  change (8 * Z.of_nat (Z.to_nat (20 - 12))) with 64. change (8 * Z.of_nat (Z.to_nat 12)) with 96.
  change (8 * Z.of_nat (Z.to_nat (27 - 19))) with 64. change (8 * Z.of_nat (Z.to_nat 19)) with 152.
  change (8 * Z.of_nat (Z.to_nat (32 - 24))) with 64. change (8 * Z.of_nat (Z.to_nat 24)) with 192.
  change MASK51 with (2 ^ 51 - 1). rewrite <- (Z.shiftr_0_r (z / 2 ^ 0 mod 2 ^ 64)).
  rewrite !land_window, !land_mask by lia.
  change (0 + 0) with 0. change (48 + 3) with 51. change (96 + 6) with 102. change (152 + 1) with 153.
  change (192 + 12) with 204.
  split; [split_and!; apply Z.mod_pos_bound; lia|].
  change (2 ^ 0) with 1. rewrite Z.div_1_r.
  change (2 ^ 255) with (2 ^ 51 * (2 ^ 51 * (2 ^ 51 * (2 ^ 51 * 2 ^ 51)))).
  change (2 ^ 204) with (2 ^ 51 * 2 ^ 51 * 2 ^ 51 * 2 ^ 51). change (2 ^ 153) with (2 ^ 51 * 2 ^ 51 * 2 ^ 51).
  change (2 ^ 102) with (2 ^ 51 * 2 ^ 51).
  rewrite <- !Z.div_div by lia. rewrite !Z.rem_mul_r by lia. lia.
Qed.

(** A sum of two reduced elements need not be settled: its carry pass can
    leave the second limb at 2^51, and the bytes of the encoding then lose a
    carry.  The multiplications the callers apply first prevent this. *)
Example unsettled_sum_misencoded :
  let a := mkLimbs (2 ^ 51 - 1) (2 ^ 51 - 1) 1 0 (2 ^ 50) in
  let b := mkLimbs 0 0 0 0 (2 ^ 50) in
  reduced a /\ reduced b /\
  (s ← Fe.add a b; Fe.to_bytes s) <> Some (to_le_bytes 32 ((eval51 a + eval51 b) mod P25519)).
Proof. split; [unfold reduced; cbn; lia|]. split; [unfold reduced; cbn; lia|]. by vm_compute. Qed.
