(* ===== verification/X25519.v ===== *)
(** * X25519 (shared/crypto/src/x25519.rs)

    The Montgomery ladder over the limb arithmetic, with the deferred
    constant-time swaps, compared with the plain ladder of RFC 7748 on
    residues modulo 2^255 - 19. *)

From S2P Require Import Prelude Words Field25519.
From stdpp Require Import base list option.
From Stdlib Require Import ZArith Lia Zdiv.

#[local] Open Scope Z_scope.

Definition BASEPOINT_U : list Z := 9 :: replicate 31 0.

Definition A24 : Z := 121665.

Definition clamp (scalar : list Z) : list Z :=
  let k := <[0%nat := Z.land (scalar !!! 0%nat) 248]> scalar in
  let k := <[31%nat := Z.land (k !!! 31%nat) 127]> k in
  <[31%nat := Z.lor (k !!! 31%nat) 64]> k.

(** One limb of [cswap]. *)
Definition cswap_limb (mask a b : Z) : Z * Z :=
  let t := Z.land mask (Z.lxor a b) in
  (Z.lxor a t, Z.lxor b t).

Definition cswap (swap : Z) (a b : Limbs) : Limbs * Limbs :=
  let mask := wrapping_neg 64 swap in
  let '(a0, b0) := cswap_limb mask (limb0 a) (limb0 b) in
  let '(a1, b1) := cswap_limb mask (limb1 a) (limb1 b) in
  let '(a2, b2) := cswap_limb mask (limb2 a) (limb2 b) in
  let '(a3, b3) := cswap_limb mask (limb3 a) (limb3 b) in
  let '(a4, b4) := cswap_limb mask (limb4 a) (limb4 b) in
  (mkLimbs a0 a1 a2 a3 a4, mkLimbs b0 b1 b2 b3 b4).

(** The local variables of the ladder loop. *)
Record Ladder : Type := mkLadder {
  x2 : Limbs; z2 : Limbs; x3 : Limbs; z3 : Limbs; swap : Z
}.

(** The arithmetic of one round, after the swaps. *)
Definition ladder_arith (x1 x2 z2 x3 z3 : Limbs) : option (Limbs * Limbs * Limbs * Limbs) :=
  a ← Fe.add x2 z2;
  aa ← Fe.square a;
  b ← Fe.sub x2 z2;
  bb ← Fe.square b;
  e ← Fe.sub aa bb;
  c ← Fe.add x3 z3;
  d ← Fe.sub x3 z3;
  da ← Fe.mul d a;
  cb ← Fe.mul c b;
  s ← Fe.add da cb;
  x3 ← Fe.square s;
  f ← Fe.sub da cb;
  ff ← Fe.square f;
  z3 ← Fe.mul x1 ff;
  x2 ← Fe.mul aa bb;
  a24_e ← Fe.mul (Fe.from_u64 A24) e;
  g ← Fe.add aa a24_e;
  z2 ← Fe.mul e g;
  Some (x2, z2, x3, z3).

Definition ladder_round (k : list Z) (x1 : Limbs) (s : Ladder) (t : nat) : option Ladder :=
  let kt := bit_at k t in
  let sw := Z.lxor (swap s) kt in
  let '(a2, a3) := cswap sw (x2 s) (x3 s) in
  let '(b2, b3) := cswap sw (z2 s) (z3 s) in
  '(a2, b2, a3, b3) ← ladder_arith x1 a2 b2 a3 b3;
  Some (mkLadder a2 b2 a3 b3 kt).

(** [for t in (0..n).rev()] *)
Fixpoint ladder_loop (k : list Z) (x1 : Limbs) (s : Ladder) (n : nat) : option Ladder :=
  match n with
  | O => Some s
  | S t => s' ← ladder_round k x1 s t; ladder_loop k x1 s' t
  end.

Definition scalar_mult (k u : list Z) : option (list Z) :=
  let u_masked := <[31%nat := Z.land (u !!! 31%nat) 127]> u in
  let x1 := Fe.from_bytes u_masked in
  s ← ladder_loop k x1 (mkLadder Fe.ONE Fe.ZERO x1 Fe.ONE 0) 255;
  let '(a2, a3) := cswap (swap s) (x2 s) (x3 s) in
  let '(b2, b3) := cswap (swap s) (z2 s) (z3 s) in
  inv ← Fe.invert b2;
  q ← Fe.mul a2 inv;
  Fe.to_bytes q.

Definition x25519_public (seed : list Z) : option (list Z) :=
  scalar_mult (clamp seed) BASEPOINT_U.

Definition x25519 (secret peer_public : list Z) : option (list Z) :=
  scalar_mult (clamp secret) peer_public.

(** ** The reference ladder (RFC 7748, section 5)

    A state is the four residues x2, z2, x3, z3. *)

Definition swap_if (b : bool) (s : Z * Z * Z * Z) : Z * Z * Z * Z :=
  let '(x2, z2, x3, z3) := s in if b then (x3, z3, x2, z2) else s.

Definition ladder_step (x1 : Z) (s : Z * Z * Z * Z) : Z * Z * Z * Z :=
  let '(x2, z2, x3, z3) := s in
  let a := x2 + z2 in
  let b := x2 - z2 in
  let aa := a * a in
  let bb := b * b in
  let e := aa - bb in
  let da := (x3 - z3) * a in
  let cb := (x3 + z3) * b in
  (aa * bb mod P25519, e * (aa + 121665 * e) mod P25519,
   (da + cb) * (da + cb) mod P25519, x1 * ((da - cb) * (da - cb)) mod P25519).

(** Process the bits [n - 1], ..., [0] of the scalar [k]. *)
Fixpoint ladder (x1 k : Z) (n : nat) (s : Z * Z * Z * Z) : Z * Z * Z * Z :=
  match n with
  | O => s
  | S n =>
      let b := Z.testbit k (Z.of_nat n) in
      ladder x1 k n (swap_if b (ladder_step x1 (swap_if b s)))
  end.

Definition x25519_spec (k u : Z) : Z :=
  let x1 := u mod 2 ^ 255 in
  let '(x2, z2, _, _) := ladder x1 k 255 (1, 0, x1, 1) in
  (x2 * z2 ^ (P25519 - 2)) mod P25519.

(** ** The constant-time swap *)

Lemma cswap_limb_ok (b : bool) x y :
  is_word 64 x -> is_word 64 y ->
  cswap_limb (wrapping_neg 64 (Z.b2z b)) x y = if b then (y, x) else (x, y).
Proof.
  intros Hx Hy. unfold cswap_limb. destruct b.
  - change (wrapping_neg 64 (Z.b2z true)) with (2 ^ 64 - 1).
    rewrite pick_ones by (done || lia). f_equal.
    rewrite (Z.lxor_comm x y). by apply pick_ones.
  - change (wrapping_neg 64 (Z.b2z false)) with 0. by rewrite !Z.land_0_l, !Z.lxor_0_r.
Qed.

Lemma cswap_ok (b : bool) x y :
  below (2 ^ 63) x -> below (2 ^ 63) y ->
  cswap (Z.b2z b) x y = if b then (y, x) else (x, y).
Proof.
  destruct x as [a0 a1 a2 a3 a4], y as [b0 b1 b2 b3 b4]. unfold below, cswap.
  cbn [limb0 limb1 limb2 limb3 limb4]. intros Hx Hy.
  rewrite !cswap_limb_ok by (unfold is_word; lia). by destruct b.
Qed.

(** ** One round *)

(** A product stands for a residue. *)
Definition rep (a : Limbs) (z : Z) : Prop := below TIGHT a /\ stands_for a z.

Lemma rep_mod a z : stands_for a z -> below TIGHT a -> rep a (z mod P25519).
Proof.
  intros Hs Hb. split; [done|]. unfold stands_for in *.
  by rewrite Z.mod_mod by (pose proof P25519_pos; lia).
Qed.

Lemma rep_const n : 0 <= n < 2 ^ 51 -> rep (mkLimbs n 0 0 0 0) n.
Proof.
  intros Hn. split; [unfold below, TIGHT; cbn [limb0 limb1 limb2 limb3 limb4]; lia|].
  unfold stands_for, eval_limbs. cbn [limb0 limb1 limb2 limb3 limb4]. f_equal. lia.
Qed.

Lemma ladder_arith_ok a1 a2 b2 a3 b3 x1 x2 z2 x3 z3 :
  rep a1 x1 -> rep a2 x2 -> rep b2 z2 -> rep a3 x3 -> rep b3 z3 ->
  exists a2' b2' a3' b3' y2 w2 y3 w3,
    ladder_arith a1 a2 b2 a3 b3 = Some (a2', b2', a3', b3') /\
    ladder_step x1 (x2, z2, x3, z3) = (y2, w2, y3, w3) /\
    rep a2' y2 /\ rep b2' w2 /\ rep a3' y3 /\ rep b3' w3.
Proof.
  intros [B1 S1] [B2 S2] [B3 S3] [B4 S4] [B5 S5]. unfold ladder_arith.
  destruct (rep_const A24) as [B6 S6]; [unfold A24; lia|]. change (mkLimbs A24 0 0 0 0) with (Fe.from_u64 A24) in *.
  repeat fe_step. eexists _, _, _, _, _, _, _, _. split; [done|]. split; [done|].
  split_and!; by apply rep_mod.
Qed.

(** The ladder of the code is the reference ladder with the last swap pending. *)
Definition ladder_rep (s : Ladder) (z : Z * Z * Z * Z) : Prop :=
  exists b x2' z2' x3' z3', swap s = Z.b2z b /\ z = swap_if b (x2', z2', x3', z3') /\
    rep (x2 s) x2' /\ rep (z2 s) z2' /\ rep (x3 s) x3' /\ rep (z3 s) z3'.

Lemma rep_below a z : rep a z -> below (2 ^ 63) a.
Proof. intros [H _]. eapply below_weaken; [|done]. unfold TIGHT. lia. Qed.
#[local] Hint Resolve rep_below : core.

Lemma ladder_round_ok k a1 x1 s z t :
  is_bytes k -> length k = 32%nat -> (t < 255)%nat -> rep a1 x1 -> ladder_rep s z ->
  let b := Z.testbit (from_le_bytes k) (Z.of_nat t) in
  exists s', ladder_round k a1 s t = Some s' /\
    ladder_rep s' (swap_if b (ladder_step x1 (swap_if b z))).
Proof.
  intros Hk Hl Ht H1 (b0 & y2 & w2 & y3 & w3 & Hsw & -> & R2 & Z2 & R3 & Z3) b.
  unfold ladder_round. rewrite bit_at_ok by (done || lia). fold b. rewrite Hsw.
  replace (Z.lxor (Z.b2z b0) (Z.b2z b)) with (Z.b2z (xorb b0 b)) by (by destruct b0, b).
  rewrite !cswap_ok by eauto.
  assert (E : swap_if b (swap_if b0 (y2, w2, y3, w3)) = swap_if (xorb b0 b) (y2, w2, y3, w3))
    by (by destruct b0, b).
  rewrite E.
  destruct (xorb b0 b); cbn [swap_if].
  - destruct (ladder_arith_ok a1 (x3 s) (z3 s) (x2 s) (z2 s) x1 y3 w3 y2 w2)
      as (a2 & b2 & a3 & b3 & u2 & v2 & u3 & v3 & -> & -> & H); try done.
    cbn [mbind option_bind]. eexists. split; [done|]. by exists b, u2, v2, u3, v3.
  - destruct (ladder_arith_ok a1 (x2 s) (z2 s) (x3 s) (z3 s) x1 y2 w2 y3 w3)
      as (a2 & b2 & a3 & b3 & u2 & v2 & u3 & v3 & -> & -> & H); try done.
    cbn [mbind option_bind]. eexists. split; [done|]. by exists b, u2, v2, u3, v3.
Qed.

Lemma ladder_loop_ok k a1 x1 n : forall s z,
  is_bytes k -> length k = 32%nat -> (n <= 255)%nat -> rep a1 x1 -> ladder_rep s z ->
  exists s', ladder_loop k a1 s n = Some s' /\ ladder_rep s' (ladder x1 (from_le_bytes k) n z).
Proof.
  induction n as [|n IH]; intros s z Hk Hl Hn H1 Hs; cbn [ladder_loop ladder].
  - by exists s.
  - destruct (ladder_round_ok k a1 x1 s z n) as (s1 & -> & Hs1); try done.
    cbn [mbind option_bind]. apply IH; try done. lia.
Qed.

(** ** The exchange *)

Lemma masked_top u :
  is_bytes u -> length u = 32%nat ->
  is_bytes (<[31%nat := Z.land (u !!! 31%nat) 127]> u) /\
  from_le_bytes (<[31%nat := Z.land (u !!! 31%nat) 127]> u) = from_le_bytes u mod 2 ^ 255.
Proof.
  intros Hu Hl. pose proof (take_drop_middle u 31 (u !!! 31%nat)) as E.
  rewrite list_lookup_lookup_total_lt in E by lia. specialize (E eq_refl).
  rewrite (drop_ge u) in E by lia. assert (Ht : length (take 31 u) = 31%nat) by (rewrite length_take; lia).
  set (top := u !!! 31%nat) in *. set (low := take 31 u) in *.
  assert (Hb : is_bytes low /\ is_word 8 top).
  { rewrite <- E in Hu. apply is_bytes_app in Hu as [? Hc]. by inversion Hc. }
  destruct Hb as [Hlow Htop]. unfold is_word in Htop.
  rewrite <- E, insert_app_r_alt, Ht by lia. change (31 - 31)%nat with 0%nat. cbn [insert list_insert].
  change 127 with (2 ^ 7 - 1). rewrite land_mask by lia. split.
  - apply is_bytes_app. split; [done|]. constructor; [|constructor].
    unfold is_word. pose proof (Z.mod_pos_bound top (2 ^ 7)). lia.
  - rewrite !from_le_app, Ht. cbn [from_le_bytes]. pose proof (from_le_bound low Hlow) as HB.
    rewrite Ht in HB. change (2 ^ (8 * Z.of_nat 31)) with (2 ^ 248) in *.
    clearbody top low. divmod top 7. symmetry. rewrite E0.
    replace (from_le_bytes low + 2 ^ 248 * (2 ^ 7 * q + m + 256 * 0))
      with (from_le_bytes low + 2 ^ 248 * (m + 256 * 0) + q * 2 ^ 255) by lia.
    rewrite Z.mod_add, Z.mod_small by lia. done.
Qed.

(** The quotient at the end. *)
Lemma divide_ok a b x z :
  rep a x -> rep b z ->
  (inv ← Fe.invert b; q ← Fe.mul a inv; Fe.to_bytes q) =
    Some (to_le_bytes 32 ((x * z ^ (P25519 - 2)) mod P25519)).
Proof.
  intros [Ba Sa] [Bb Sb].
  destruct (fe_invert_ok b TIGHT z Bb Sb ltac:(closed_le)) as (i & -> & Ti & Bi & Si).
  cbn [mbind option_bind]. fe_step. rewrite fe_to_bytes_ok by (by apply tight_settled).
  unfold stands_for in S. by rewrite S.
Qed.

Lemma scalar_mult_ok k u :
  is_bytes k -> length k = 32%nat -> is_bytes u -> length u = 32%nat ->
  scalar_mult k u = Some (to_le_bytes 32 (x25519_spec (from_le_bytes k) (from_le_bytes u))).
Proof.
  intros Hk Hl Hu Hlu. unfold scalar_mult, x25519_spec.
  destruct (masked_top u Hu Hlu) as [Hm Em]. set (um := <[31%nat := _]> u) in *.
  assert (Hlm : length um = 32%nat) by (subst um; by rewrite length_insert).
  destruct (fe_from_bytes_ok um Hm Hlm) as [Hr He]. set (a1 := Fe.from_bytes um) in *.
  set (x1 := from_le_bytes u mod 2 ^ 255).
  assert (H1 : rep a1 x1).
  { split; [unfold reduced, below, TIGHT in *; lia|]. unfold stands_for. rewrite He, Em. f_equal.
    subst x1. by apply Z.mod_small, Z.mod_pos_bound. }
  destruct (ladder_loop_ok k a1 x1 255 (mkLadder Fe.ONE Fe.ZERO a1 Fe.ONE 0) (1, 0, x1, 1))
    as (s & -> & b & y2 & w2 & y3 & w3 & Hsw & -> & R2 & Z2 & R3 & Z3); try done.
  { exists false, 1, 0, x1, 1. split_and!; try done; by apply (rep_const 1) || by apply (rep_const 0). }
  cbn [mbind option_bind]. rewrite Hsw, !cswap_ok by eauto.
  destruct b; cbn [swap_if]; by apply divide_ok.
Qed.

Lemma bytes_32 k :
  is_bytes k -> length k = 32%nat ->
  exists b0 mid top, k = b0 :: mid ++ [top] /\ length mid = 30%nat /\
    is_word 8 b0 /\ is_bytes mid /\ is_word 8 top.
Proof.
  intros Hk Hl. destruct k as [|b0 k]; [done|].
  destruct k as [|top mid _] using rev_ind; [done|].
  cbn [length] in Hl. rewrite length_app in Hl. cbn [length] in Hl.
  inversion Hk as [|? ? H0 Hr]; subst. apply is_bytes_app in Hr as [Hm Ht]. inversion Ht; subst.
  exists b0, mid, top. split; [done|]. split; [lia|done].
Qed.

Lemma land_248 b : is_word 8 b -> Z.land b 248 = 8 * (b / 8).
Proof.
  intros Hb. unfold is_word in Hb. rewrite (land_split 3) by lia.
  change (248 mod 2 ^ 3) with 0. change (248 / 2 ^ 3) with (2 ^ 5 - 1). change (2 ^ 3) with 8.
  rewrite Z.land_0_r, land_mask, Z.mod_small by (Z.to_euclidean_division_equations; lia). lia.
Qed.

Lemma set_bit_6 b : 0 <= b < 128 -> Z.lor b 64 = 64 + b mod 64.
Proof.
  intros Hb. pose proof (Z.mod_pos_bound b 64 ltac:(lia)) as Hm.
  pose proof (lor_low (b mod 64) 1 6 ltac:(lia) ltac:(lia)) as L. change (1 * 2 ^ 6) with 64 in L.
  assert (b = b mod 64 \/ b = b mod 64 + 64) as [E|E] by (Z.to_euclidean_division_equations; lia).
  - rewrite E at 1. rewrite L. lia.
  - rewrite E at 1. rewrite <- L, <- Z.lor_assoc, Z.lor_diag, L. lia.
Qed.

(** The clamped scalar: a multiple of the cofactor with its top bit at 254. *)
Lemma clamp_ok k :
  is_bytes k -> length k = 32%nat ->
  is_bytes (clamp k) /\ length (clamp k) = 32%nat /\
  from_le_bytes (clamp k) = 2 ^ 254 + 8 * (from_le_bytes k / 8 mod 2 ^ 251).
Proof.
  intros Hk Hl. destruct (bytes_32 k Hk Hl) as (b0 & mid & top & -> & Hm & H0 & HM & Ht).
  assert (E : clamp (b0 :: mid ++ [top]) = (8 * (b0 / 8)) :: mid ++ [64 + top mod 64]).
  { assert (I : forall (a : list Z) x y z, length a = 30%nat -> <[31%nat := y]> (x :: a ++ [z]) = x :: a ++ [y]).
    { intros a x y z Ha. rewrite app_comm_cons, insert_app_r_alt by (cbn; lia). cbn [length]. by rewrite Ha. }
    assert (L : forall (a : list Z) x z, length a = 30%nat -> (x :: a ++ [z]) !!! 31%nat = z).
    { intros a x z Ha. rewrite app_comm_cons, lookup_total_app_r by (cbn; lia). cbn [length]. by rewrite Ha. }
    unfold clamp. rewrite <- land_248 by done. change ((b0 :: mid ++ [top]) !!! 0%nat) with b0.
    change (<[0%nat := Z.land b0 248]> (b0 :: mid ++ [top])) with (Z.land b0 248 :: mid ++ [top]).
    rewrite L, I, L, I by done.
    change 127 with (2 ^ 7 - 1). rewrite land_mask, set_bit_6 by (try apply Z.mod_pos_bound; lia).
    change 64 with (2 ^ 6). rewrite Z.mod_mod_divide by (by exists 2). done. }
  rewrite E. unfold is_word in *. pose proof (from_le_bound mid HM) as HB. rewrite Hm in HB.
  pose proof (Z.mod_pos_bound top 64 ltac:(lia)).
  assert (0 <= b0 / 8 < 32) by (Z.to_euclidean_division_equations; lia).
  split_and!.
  - constructor; [split; lia|]. apply is_bytes_app. split; [done|]. repeat constructor; lia.
  - cbn [length]. rewrite length_app, Hm. done.
  - cbn [from_le_bytes]. rewrite !from_le_app, Hm. cbn [from_le_bytes].
    change (2 ^ (8 * Z.of_nat 30)) with (2 ^ 240) in *. generalize dependent (from_le_bytes mid).
    intros M HB. clear - HB H0 Ht. Z.to_euclidean_division_equations. nia.
Qed.

Lemma x25519_ok (secret peer : list Z) :
  is_bytes secret -> length secret = 32%nat -> is_bytes peer -> length peer = 32%nat ->
  x25519 secret peer =
    Some (to_le_bytes 32
            (x25519_spec (2 ^ 254 + 8 * (from_le_bytes secret / 8 mod 2 ^ 251)) (from_le_bytes peer))).
Proof.
  intros Hs Hls Hp Hlp. destruct (clamp_ok secret Hs Hls) as (Hc & Hlc & <-).
  by apply scalar_mult_ok.
Qed.

(** C24: for every 32-byte secret and every 32-byte public value, the exchange
    returns the X25519 function of RFC 7748: the little-endian encoding of the
    u-coordinate the ladder computes for the clamped scalar, on residues
    modulo 2^255 - 19.  None of the additions, subtractions and products of
    the limb arithmetic along the 255 rounds, the inversion and the final
    encoding overflows or goes below zero. *)
Theorem x25519_computes_rfc7748 (secret peer : list Z) :
  is_bytes secret -> length secret = 32%nat -> is_bytes peer -> length peer = 32%nat ->
  x25519 secret peer =
    Some (to_le_bytes 32
            (x25519_spec (2 ^ 254 + 8 * (from_le_bytes secret / 8 mod 2 ^ 251)) (from_le_bytes peer))).
Proof. apply x25519_ok. Qed.

Lemma x25519_computes_rfc7748_witness :
  x25519 (replicate 32 1) (9 :: replicate 31 0) =
    Some (to_le_bytes 32
            (x25519_spec (2 ^ 254 + 8 * (from_le_bytes (replicate 32 1) / 8 mod 2 ^ 251))
               (from_le_bytes (9 :: replicate 31 0)))).
Proof.
  apply (x25519_computes_rfc7748 (replicate 32 1) (9 :: replicate 31 0)); try reflexivity;
    repeat constructor; cbn; lia.
Defined.
