(* ===== verification/Scalar25519.v ===== *)
(** * Scalars modulo the Ed25519 group order (shared/crypto/src/scalar.rs)

    Reduction of a 512-bit number by shifting in one bit at a time with a
    masked subtraction, the canonical check, and multiply-and-add by schoolbook
    multiplication on 64-bit words.  The theorems: these compute the remainder
    modulo the order, the comparison with it, and the remainder of the product
    plus the addend, for all byte strings. *)

From S2P Require Import Prelude Words.
From stdpp Require Import base list option.
From Stdlib Require Import ZArith Lia Zdiv.

#[local] Open Scope Z_scope.

Definition L_LIMBS : list Z :=
  [0x5812631a5cf5d3ed; 0x14def9dea2f79cd6; 0x0000000000000000; 0x1000000000000000].

Definition le_u64x4 (bytes : list Z) : list Z :=
  [from_le_bytes (slice bytes 0 8); from_le_bytes (slice bytes 8 16);
   from_le_bytes (slice bytes 16 24); from_le_bytes (slice bytes 24 32)].

Definition le_bytes (words : list Z) : list Z := concat (map (to_le_bytes 8) words).

(** The loop of [shl1] with its carry. *)
Fixpoint shl1_loop (acc : list Z) (carry : Z) : list Z :=
  match acc with
  | [] => []
  | limb :: acc => Z.lor (shl 64 limb 1) carry :: shl1_loop acc (Z.shiftr limb 63)
  end.

Definition shl1 (acc : list Z) (bit : Z) : list Z := shl1_loop acc (Z.land bit 1).

(** The borrow chain of [csub_l]: the difference and the final borrow. *)
Fixpoint csub_loop (acc l : list Z) (borrow : Z) : list Z * Z :=
  match acc, l with
  | a :: acc, l0 :: l =>
      let '(rhs, ovf) := overflowing_add 64 l0 borrow in
      let '(v, br) := overflowing_sub 64 a rhs in
      let '(d, b) := csub_loop acc l (Z.b2z (br || ovf)) in
      (v :: d, b)
  | _, _ => ([], borrow)
  end.

Definition csub_l (acc : list Z) : list Z :=
  let '(d, borrow) := csub_loop acc L_LIMBS 0 in
  let take := Z.b2z (borrow =? 0) in
  let mask := wrapping_neg 64 take in
  zip_with (fun a d => Z.lxor a (Z.land mask (Z.lxor a d))) acc d.

Module Scalar.

(** [for bit in (0..n).rev()] of [reduce_wide] *)
Fixpoint reduce_loop (bytes acc : list Z) (n : nat) : list Z :=
  match n with
  | O => acc
  | S bit =>
      let b := bit_at bytes bit in
      reduce_loop bytes (csub_l (shl1 acc b)) bit
  end.

Definition reduce_wide (bytes : list Z) : list Z := le_bytes (reduce_loop bytes [0; 0; 0; 0] 512).

(** The loop of [is_canonical], from the most significant word down. *)
Fixpoint compare_down (s l : list Z) : bool :=
  match s, l with
  | a :: s, b :: l => if a =? b then compare_down s l else a <? b
  | _, _ => false
  end.

Definition is_canonical (bytes : list Z) : bool :=
  compare_down (reverse (le_u64x4 bytes)) (reverse L_LIMBS).

(** The inner loop of the multiplication, from position [k] of [wide]. *)
Fixpoint mul_row (wide : list Z) (k : nat) (a : Z) (bs : list Z) (carry : Z) :
    option (list Z * Z) :=
  match bs with
  | [] => Some (wide, carry)
  | b :: bs =>
      t ← chk 128 (wide !!! k + a * b + carry);
      mul_row (<[k := wrap 64 t]> wide) (k + 1) a bs (Z.shiftr t 64)
  end.

Fixpoint mul_rows (wide : list Z) (i : nat) (aw bw : list Z) : option (list Z) :=
  match aw with
  | [] => Some wide
  | a :: aw =>
      '(wide, carry) ← mul_row wide i a bw 0;
      t ← chk 128 (wide !!! (i + 4)%nat + carry);
      mul_rows (<[(i + 4)%nat := wrap 64 t]> wide) (i + 1) aw bw
  end.

(** Adding the words of [c] from position [k] on. *)
Fixpoint add_words (wide : list Z) (k : nat) (cs : list Z) (carry : Z) : option (list Z * Z) :=
  match cs with
  | [] => Some (wide, carry)
  | c :: cs =>
      t ← chk 128 (wide !!! k + c + carry);
      add_words (<[k := wrap 64 t]> wide) (k + 1) cs (Z.shiftr t 64)
  end.

(** [while carry > 0 && idx < 8] with [fuel] rounds left before [idx = 8]. *)
Fixpoint propagate (wide : list Z) (fuel idx : nat) (carry : Z) : option (list Z) :=
  match fuel with
  | O => Some wide
  | S fuel =>
      if 0 <? carry then
        t ← chk 128 (wide !!! idx + carry);
        propagate (<[idx := wrap 64 t]> wide) fuel (idx + 1) (Z.shiftr t 64)
      else Some wide
  end.

Definition mul_add (a b c : list Z) : option (list Z) :=
  let aw := le_u64x4 a in
  let bw := le_u64x4 b in
  let cw := le_u64x4 c in
  wide ← mul_rows (replicate 8 0) 0 aw bw;
  '(wide, carry) ← add_words wide 0 cw 0;
  wide ← propagate wide 4 4 carry;
  Some (reduce_wide (le_bytes wide)).

End Scalar.

(** ** Numbers as 64-bit words *)

Fixpoint eval64 (l : list Z) : Z :=
  match l with
  | [] => 0
  | x :: l => x + 2 ^ 64 * eval64 l
  end.

Definition words (l : list Z) : Prop := Forall (is_word 64) l.

Definition ORDER : Z := 2 ^ 252 + 27742317777372353535851937790883648493.

Lemma order_limbs : eval64 L_LIMBS = ORDER.
Proof. reflexivity. Qed.

Lemma eval64_bound l : words l -> 0 <= eval64 l < 2 ^ (64 * Z.of_nat (length l)).
Proof.
  induction 1 as [|x l Hx _ IH]; [cbn; lia|]. cbn [eval64 length]. unfold is_word in Hx.
  replace (64 * Z.of_nat (S (length l))) with (64 + 64 * Z.of_nat (length l)) by lia.
  rewrite Z.pow_add_r by lia. nia.
Qed.

Lemma length_le_bytes l : length (le_bytes l) = (8 * length l)%nat.
Proof.
  unfold le_bytes. induction l as [|x l IH]; [done|]. cbn [map concat].
  rewrite length_app, length_to_le_bytes, IH. cbn [length]. lia.
Qed.

Lemma from_le_bytes_words l : words l -> from_le_bytes (le_bytes l) = eval64 l.
Proof.
  unfold le_bytes. induction 1 as [|x l Hx _ IH]; [done|]. cbn [map concat eval64].
  rewrite from_le_app, length_to_le_bytes, from_to_le, IH. change (8 * Z.of_nat 8) with 64.
  rewrite Z.mod_small by apply Hx. done.
Qed.

Lemma is_bytes_le_bytes l : is_bytes (le_bytes l).
Proof.
  unfold le_bytes. induction l as [|x l IH]; cbn [map concat]; [constructor|].
  apply is_bytes_app. split; [apply is_bytes_to_le|done].
Qed.

Lemma le_u64x4_ok b :
  is_bytes b -> length b = 32%nat -> words (le_u64x4 b) /\ eval64 (le_u64x4 b) = from_le_bytes b.
Proof.
  intros Hb Hl. unfold le_u64x4, slice. rewrite !from_le_window by (try done; rewrite Hl; cbn; lia).
  pose proof (from_le_bound b Hb) as HB. rewrite Hl in HB. change (8 * Z.of_nat 32) with 256 in HB.
  change (8 * Z.of_nat (Z.to_nat (8 - 0))) with 64. change (8 * Z.of_nat (Z.to_nat (16 - 8))) with 64.
  change (8 * Z.of_nat (Z.to_nat (24 - 16))) with 64. change (8 * Z.of_nat (Z.to_nat (32 - 24))) with 64.
  change (8 * Z.of_nat (Z.to_nat 0)) with 0. change (8 * Z.of_nat (Z.to_nat 8)) with 64.
  change (8 * Z.of_nat (Z.to_nat 16)) with 128. change (8 * Z.of_nat (Z.to_nat 24)) with 192.
  generalize dependent (from_le_bytes b). intros z HB.
  split; [repeat constructor; apply Z.mod_pos_bound; lia|]. cbn [eval64].
  change (2 ^ 0) with 1. rewrite Z.div_1_r.
  change (2 ^ 192) with (2 ^ 64 * 2 ^ 64 * 2 ^ 64). change (2 ^ 128) with (2 ^ 64 * 2 ^ 64).
  rewrite <- !Z.div_div by lia. change (2 ^ 256) with (2 ^ 64 * (2 ^ 64 * (2 ^ 64 * 2 ^ 64))) in HB.
  rewrite <- (Z.mod_small z (2 ^ 64 * (2 ^ 64 * (2 ^ 64 * 2 ^ 64)))) at 5 by lia.
  rewrite !Z.rem_mul_r by lia. lia.
Qed.

(** ** Shifting and subtracting *)

Lemma shl1_loop_ok l : forall c,
  words l -> 0 <= c <= 1 ->
  words (shl1_loop l c) /\ length (shl1_loop l c) = length l /\
  exists c', 0 <= c' <= 1 /\
    eval64 (shl1_loop l c) + 2 ^ (64 * Z.of_nat (length l)) * c' = 2 * eval64 l + c.
Proof.
  induction l as [|x l IH]; intros c Hl Hc; cbn [shl1_loop].
  - split; [constructor|]. split; [done|]. exists c. split; [done|]. cbn. lia.
  - inversion Hl as [|? ? Hx Hl']; subst. unfold is_word in Hx.
    assert (Hn : 0 <= Z.shiftr x 63 <= 1) by (rewrite shiftr_div by lia; Z.to_euclidean_division_equations; lia).
    destruct (IH (Z.shiftr x 63) Hl' Hn) as (Hw & Hlen & c' & Hc' & E).
    rewrite Z.lor_comm, join_words by lia. change (64 - 1) with 63.
    rewrite shiftr_div in * by lia. cbn [eval64 length].
    set (rest := eval64 (shl1_loop l (x / 2 ^ 63))) in *.
    assert (Hm : is_word 64 (c + 2 ^ 1 * (x mod 2 ^ 63)) /\ x = 2 ^ 63 * (x / 2 ^ 63) + x mod 2 ^ 63).
    { pose proof (Z.mod_pos_bound x (2 ^ 63)). pose proof (Z.div_mod x (2 ^ 63)). unfold is_word. lia. }
    destruct Hm as [Hm Ex]. split; [by constructor|]. split; [by rewrite Hlen|]. exists c'. split; [done|].
    replace (64 * Z.of_nat (S (length l))) with (64 + 64 * Z.of_nat (length l)) by lia.
    rewrite Z.pow_add_r by lia. generalize dependent (2 ^ (64 * Z.of_nat (length l))). intros w E. lia.
Qed.

Lemma csub_loop_ok acc : forall l b,
  words acc -> words l -> length acc = length l -> b = 0 \/ b = 1 ->
  exists d b', csub_loop acc l b = (d, b') /\ words d /\ length d = length acc /\ (b' = 0 \/ b' = 1) /\
    eval64 d = eval64 acc - eval64 l - b + 2 ^ (64 * Z.of_nat (length acc)) * b'.
Proof.
  induction acc as [|a acc IH]; intros [|l0 l] b Ha Hl Hlen Hb; try done; cbn [csub_loop].
  - exists [], b. split; [done|]. split; [constructor|]. split; [done|]. split; [done|]. cbn. lia.
  - inversion Ha as [|? ? Ha0 Ha']; inversion Hl as [|? ? Hl0 Hl']; subst. unfold is_word in Ha0, Hl0.
    unfold overflowing_add, overflowing_sub.
    set (rhs := wrapping_add 64 l0 b). set (v := wrapping_sub 64 a rhs).
    set (b1 := (a <? rhs) || (2 ^ 64 <=? l0 + b)).
    assert (E : v = a - l0 - b + 2 ^ 64 * Z.b2z b1 /\ is_word 64 v).
    { subst v rhs b1. unfold wrapping_add, wrapping_sub.
      destruct (Z.leb_spec (2 ^ 64) (l0 + b)) as [Ho|Ho].
      - replace (wrap 64 (l0 + b)) with 0.
        2: { replace (l0 + b) with (1 * 2 ^ 64) by lia. unfold wrap. by rewrite Z.mod_mul by lia. }
        rewrite Z.sub_0_r, wrap_small, orb_true_r by lia. unfold is_word. cbn [Z.b2z]. lia.
      - rewrite (wrap_small 64 (l0 + b)), orb_false_r by lia.
        destruct (Z.ltb_spec a (l0 + b)) as [Hlt|Hge]; cbn [Z.b2z].
        + unfold wrap. rewrite <- (Z.mod_add _ 1), Z.mod_small by lia. unfold is_word. lia.
        + rewrite wrap_small by lia. unfold is_word. lia. }
    destruct E as [E Hv].
    destruct (IH l (Z.b2z b1) Ha' Hl') as (d & b' & -> & Hd & Hdl & Hb' & Ed);
      [by inversion Hlen|destruct b1; auto|].
    exists (v :: d), b'. split; [done|]. split; [by constructor|]. cbn [length eval64].
    split; [by rewrite Hdl|]. split; [done|].
    replace (64 * Z.of_nat (S (length acc))) with (64 + 64 * Z.of_nat (length acc)) by lia.
    rewrite Z.pow_add_r, Ed, E by lia. lia.
Qed.

Definition pick_words (mask : Z) : list Z -> list Z -> list Z :=
  zip_with (fun a d => Z.lxor a (Z.land mask (Z.lxor a d))).

Lemma pick_words_zero acc d : length acc = length d -> pick_words 0 acc d = acc.
Proof.
  unfold pick_words. revert d. induction acc as [|a acc IH]; intros [|x d] Hl; try done.
  cbn [zip_with]. rewrite pick_zeros. f_equal. apply IH. by inversion Hl.
Qed.

Lemma pick_words_ones acc d :
  words acc -> words d -> length acc = length d -> pick_words (2 ^ 64 - 1) acc d = d.
Proof.
  unfold pick_words. intros Ha. revert d.
  induction Ha as [|a acc Ha0 _ IH]; intros [|x d] Hd Hl; try done.
  inversion Hd; subst. cbn [zip_with]. rewrite (pick_ones 64) by (done || lia). f_equal.
  by apply IH; [|inversion Hl].
Qed.

Lemma csub_l_ok acc :
  words acc -> length acc = 4%nat ->
  words (csub_l acc) /\ length (csub_l acc) = 4%nat /\
  eval64 (csub_l acc) = if ORDER <=? eval64 acc then eval64 acc - ORDER else eval64 acc.
Proof.
  intros Ha Hl. unfold csub_l.
  destruct (csub_loop_ok acc L_LIMBS 0) as (d & b & -> & Hd & Hdl & Hb & E);
    [done|repeat constructor; cbn; lia|done|by left|].
  rewrite order_limbs, Hl in E. change (64 * Z.of_nat 4) with 256 in E.
  fold (pick_words (wrapping_neg 64 (Z.b2z (b =? 0)))).
  pose proof (eval64_bound d Hd) as HB. rewrite Hdl, Hl in HB. change (64 * Z.of_nat 4) with 256 in HB.
  pose proof (eval64_bound acc Ha) as HA. rewrite Hl in HA. change (64 * Z.of_nat 4) with 256 in HA.
  destruct Hb as [-> | ->].
  - change (wrapping_neg 64 (Z.b2z (0 =? 0))) with (2 ^ 64 - 1). rewrite pick_words_ones by (done || lia).
    split; [done|]. split; [lia|]. destruct (Z.leb_spec ORDER (eval64 acc)); lia.
  - change (wrapping_neg 64 (Z.b2z (1 =? 0))) with 0. rewrite pick_words_zero by lia.
    split; [done|]. split; [done|]. destruct (Z.leb_spec ORDER (eval64 acc)); [|done]. unfold ORDER in *. lia.
Qed.

Lemma shl1_ok acc b :
  words acc -> length acc = 4%nat -> eval64 acc < ORDER ->
  words (shl1 acc (Z.b2z b)) /\ length (shl1 acc (Z.b2z b)) = 4%nat /\
  eval64 (shl1 acc (Z.b2z b)) = 2 * eval64 acc + Z.b2z b.
Proof.
  intros Ha Hl Ho. unfold shl1.
  replace (Z.land (Z.b2z b) 1) with (Z.b2z b) by (by destruct b).
  destruct (shl1_loop_ok acc (Z.b2z b) Ha) as (Hw & Hlen & c & Hc & E); [destruct b; cbn; lia|].
  split; [done|]. split; [lia|]. rewrite Hl in E. change (64 * Z.of_nat 4) with 256 in E.
  pose proof (eval64_bound _ Hw) as HB. rewrite Hlen, Hl in HB.
  assert (0 <= Z.b2z b <= 1) by (destruct b; cbn; lia). unfold ORDER in Ho. lia.
Qed.

(** ** Reduction *)

Lemma reduce_loop_ok bytes n : forall acc,
  is_bytes bytes -> (n <= 8 * length bytes)%nat -> words acc -> length acc = 4%nat ->
  eval64 acc = from_le_bytes bytes / 2 ^ Z.of_nat n mod ORDER ->
  words (Scalar.reduce_loop bytes acc n) /\ length (Scalar.reduce_loop bytes acc n) = 4%nat /\
  eval64 (Scalar.reduce_loop bytes acc n) = from_le_bytes bytes mod ORDER.
Proof.
  induction n as [|n IH]; intros acc Hb Hn Ha Hl E; cbn [Scalar.reduce_loop].
  - change (2 ^ Z.of_nat 0) with 1 in E. by rewrite Z.div_1_r in E.
  - rewrite bit_at_ok by (done || lia). set (N := from_le_bytes bytes) in *.
    set (b := Z.testbit N (Z.of_nat n)).
    assert (Ho : 0 <= eval64 acc < ORDER) by (rewrite E; apply Z.mod_pos_bound; unfold ORDER; lia).
    destruct (shl1_ok acc b Ha Hl) as (Hw & Hwl & Ew); [lia|].
    destruct (csub_l_ok _ Hw Hwl) as (Hc & Hcl & Ec).
    apply IH; try done; [lia|]. rewrite Ec, Ew.
    assert (Hstep : N / 2 ^ Z.of_nat n = 2 * (N / 2 ^ Z.of_nat (S n)) + Z.b2z b).
    { rewrite Nat2Z.inj_succ, Z.pow_succ_r, (Z.mul_comm 2 (2 ^ _)), <- Z.div_div by lia. subst b.
      rewrite Z.testbit_spec' by lia. apply Z.div_mod. lia. }
    rewrite Hstep, <- Z.add_mod_idemp_l, <- Z.mul_mod_idemp_r, <- E by (unfold ORDER; lia).
    rewrite Z.add_mod_idemp_l by (unfold ORDER; lia).
    assert (0 <= Z.b2z b <= 1) by (destruct b; cbn; lia).
    destruct (Z.leb_spec ORDER (2 * eval64 acc + Z.b2z b)).
    + rewrite <- (Z.mod_add (2 * eval64 acc + Z.b2z b) (-1)) by (unfold ORDER; lia).
      rewrite Z.mod_small; lia.
    + rewrite Z.mod_small; lia.
Qed.

Lemma reduce_wide_ok bytes :
  is_bytes bytes -> length bytes = 64%nat ->
  Scalar.reduce_wide bytes = to_le_bytes 32 (from_le_bytes bytes mod ORDER).
Proof.
  intros Hb Hl. unfold Scalar.reduce_wide.
  destruct (reduce_loop_ok bytes 512 [0; 0; 0; 0]) as (Hw & Hwl & E).
  - done.
  - lia.
  - repeat constructor; cbn; lia.
  - done.
  - pose proof (from_le_bound bytes Hb) as HB. rewrite Hl in HB.
    rewrite Z.div_small; [done|]. change (Z.of_nat 512) with (8 * Z.of_nat 64). lia.
  - rewrite <- E, <- (from_le_bytes_words _ Hw).
    rewrite <- (to_from_le _ (is_bytes_le_bytes _)) at 1. by rewrite length_le_bytes, Hwl.
Qed.

(** ** The canonical check *)

Lemma eval64_app a b : eval64 (a ++ b) = eval64 a + 2 ^ (64 * Z.of_nat (length a)) * eval64 b.
Proof.
  induction a as [|x a IH]; cbn [app eval64 length].
  - change (2 ^ (64 * Z.of_nat 0)) with 1. lia.
  - rewrite IH. replace (64 * Z.of_nat (S (length a))) with (64 + 64 * Z.of_nat (length a)) by lia.
    rewrite Z.pow_add_r by lia. lia.
Qed.

Lemma compare_down_ok s : forall l,
  words s -> words l -> length s = length l ->
  Scalar.compare_down s l = (eval64 (reverse s) <? eval64 (reverse l)).
Proof.
  induction s as [|a s IH]; intros [|b l] Hs Hl Hlen; try done. cbn [Scalar.compare_down].
  inversion Hs as [|? ? Ha Hs']; inversion Hl as [|? ? Hb Hl']; subst. unfold is_word in Ha, Hb.
  inversion Hlen as [Hlen']. rewrite IH by done. rewrite !reverse_cons, !eval64_app, !length_reverse, Hlen'.
  cbn [eval64].
  pose proof (eval64_bound (reverse s)) as B1. pose proof (eval64_bound (reverse l)) as B2.
  rewrite length_reverse, Hlen' in B1. rewrite length_reverse in B2.
  specialize (B1 ltac:(by apply Forall_reverse)). specialize (B2 ltac:(by apply Forall_reverse)).
  generalize dependent (2 ^ (64 * Z.of_nat (length l))). intros w B1 B2.
  destruct (Z.eqb_spec a b) as [->|Hne].
  - destruct (Z.ltb_spec (eval64 (reverse s)) (eval64 (reverse l))); symmetry;
      [apply Z.ltb_lt|apply Z.ltb_ge]; lia.
  - destruct (Z.ltb_spec a b); symmetry; [apply Z.ltb_lt|apply Z.ltb_ge]; nia.
Qed.

Lemma is_canonical_ok bytes :
  is_bytes bytes -> length bytes = 32%nat ->
  Scalar.is_canonical bytes = (from_le_bytes bytes <? ORDER).
Proof.
  intros Hb Hl. destruct (le_u64x4_ok bytes Hb Hl) as [Hw <-]. unfold Scalar.is_canonical.
  assert (HL : words L_LIMBS) by (repeat constructor; cbn; lia).
  rewrite compare_down_ok by (done || by apply Forall_reverse).
  by rewrite !reverse_involutive, order_limbs.
Qed.

(** ** Multiplication *)

Lemma eval64_insert l : forall k x,
  (k < length l)%nat -> eval64 (<[k := x]> l) = eval64 l + 2 ^ (64 * Z.of_nat k) * (x - l !!! k).
Proof.
  induction l as [|y l IH]; intros [|k] x Hk; cbn [length] in Hk; try lia.
  - cbn. lia.
  - change (<[S k:=x]> (y :: l)) with (y :: <[k:=x]> l). change ((y :: l) !!! S k) with (l !!! k).
    cbn [eval64]. rewrite IH by lia.
    replace (64 * Z.of_nat (S k)) with (64 + 64 * Z.of_nat k) by lia. rewrite Z.pow_add_r by lia. lia.
Qed.

Lemma words_lookup l k : words l -> (k < length l)%nat -> is_word 64 (l !!! k).
Proof. intros Hl Hk. by apply Forall_lookup_total_1. Qed.

Lemma mul_row_ok a bs : forall wide k carry,
  is_word 64 a -> words bs -> words wide -> is_word 64 carry ->
  (k + length bs <= length wide)%nat ->
  exists wide' carry', Scalar.mul_row wide k a bs carry = Some (wide', carry') /\
    words wide' /\ length wide' = length wide /\ is_word 64 carry' /\
    (forall j, (k + length bs <= j)%nat -> wide' !!! j = wide !!! j) /\
    eval64 wide' + 2 ^ (64 * Z.of_nat (k + length bs)) * carry' =
      eval64 wide + 2 ^ (64 * Z.of_nat k) * (a * eval64 bs + carry).
Proof.
  intros wide k carry Ha Hbs. revert wide k carry.
  induction Hbs as [|b bs Hb Hbs IH]; intros wide k carry Hw Hc Hk; cbn [Scalar.mul_row length] in *.
  - exists wide, carry. rewrite Nat.add_0_r. split_and!; try done. cbn [eval64]. lia.
  - pose proof (words_lookup wide k Hw ltac:(lia)) as Hx. unfold is_word in *.
    assert (0 <= a * b <= (2 ^ 64 - 1) * (2 ^ 64 - 1)) by nia.
    rewrite chk_ok by lia. cbn [mbind option_bind].
    set (t := wide !!! k + a * b + carry). unfold wrap. rewrite (shiftr_div t 64) by lia.
    destruct (IH (<[k:=t mod 2 ^ 64]> wide) (k + 1)%nat (t / 2 ^ 64))
      as (w' & c' & -> & Hw' & Hlw & Hc' & Hj & E).
    + apply Forall_insert; [done|]. apply Z.mod_pos_bound. lia.
    + split; [apply Z.div_pos; lia|]. apply Z.div_lt_upper_bound; lia.
    + rewrite length_insert. lia.
    + rewrite length_insert in Hlw. exists w', c'. split; [done|]. split; [done|]. split; [done|].
      split; [done|]. split.
      * intros j Hj'. rewrite Hj by lia. apply list_lookup_total_insert_ne. lia.
      * replace (k + S (length bs))%nat with (k + 1 + length bs)%nat by lia. rewrite E.
        rewrite eval64_insert by lia. cbn [eval64].
        replace (64 * Z.of_nat (k + 1)) with (64 + 64 * Z.of_nat k) by lia. rewrite Z.pow_add_r by lia.
        pose proof (Z.div_mod t (2 ^ 64) ltac:(lia)) as Et.
        clear E Hj. generalize (2 ^ (64 * Z.of_nat k)). intros p.
        replace (wide !!! k) with (2 ^ 64 * (t / 2 ^ 64) + t mod 2 ^ 64 - a * b - carry) by lia.
        generalize (t / 2 ^ 64) (t mod 2 ^ 64). intros q m. ring.
Qed.

Lemma mul_rows_ok bw aw : forall wide i,
  words bw -> length bw = 4%nat -> words aw -> words wide -> length wide = 8%nat ->
  (i + length aw <= 4)%nat -> (forall j, (i + 4 <= j < 8)%nat -> wide !!! j = 0) ->
  exists wide', Scalar.mul_rows wide i aw bw = Some wide' /\ words wide' /\ length wide' = 8%nat /\
    eval64 wide' = eval64 wide + 2 ^ (64 * Z.of_nat i) * (eval64 aw * eval64 bw).
Proof.
  intros wide i Hb Hlb Ha. revert wide i.
  induction Ha as [|a aw Ha Haw IH]; intros wide i Hw Hlw Hi Hz; cbn [Scalar.mul_rows length] in *.
  - exists wide. split_and!; try done. cbn [eval64]. lia.
  - destruct (mul_row_ok a bw wide i 0) as (w1 & c & -> & Hw1 & Hl1 & Hc & Hj & E);
      [done|done|done|split; cbn; lia|lia|].
    cbn [mbind option_bind]. rewrite Hj, Hz, Z.add_0_l by lia. unfold is_word in Hc.
    rewrite chk_ok by lia. cbn [mbind option_bind]. rewrite wrap_small by lia.
    destruct (IH (<[(i + 4)%nat := c]> w1) (i + 1)%nat) as (w' & -> & Hw' & Hlw' & E').
    + by apply Forall_insert.
    + rewrite length_insert. lia.
    + lia.
    + intros j Hj'. rewrite list_lookup_total_insert_ne by lia. rewrite Hj by lia. apply Hz. lia.
    + exists w'. split; [done|]. split; [done|]. split; [done|]. rewrite E'.
      rewrite eval64_insert, Hj, Hz by lia. rewrite Hlb in E. cbn [eval64].
      replace (64 * Z.of_nat (i + 1)) with (64 + 64 * Z.of_nat i) by lia. rewrite Z.pow_add_r by lia.
      clear - E. generalize dependent (2 ^ (64 * Z.of_nat (i + 4))). intros p E.
      replace (eval64 w1 + p * (c - 0)) with (eval64 wide + 2 ^ (64 * Z.of_nat i) * (a * eval64 bw + 0)) by lia.
      ring.
Qed.

Lemma add_words_mul_row cs : forall wide k carry,
  Scalar.add_words wide k cs carry = Scalar.mul_row wide k 1 cs carry.
Proof.
  induction cs as [|c cs IH]; intros wide k carry; cbn [Scalar.add_words Scalar.mul_row]; [done|].
  rewrite Z.mul_1_l. destruct (chk 128 _); cbn [mbind option_bind]; [apply IH|done].
Qed.

Lemma propagate_ok fuel : forall wide idx carry,
  words wide -> (idx + fuel = length wide)%nat -> 0 <= carry < 2 ^ 64 ->
  eval64 wide + 2 ^ (64 * Z.of_nat idx) * carry < 2 ^ (64 * Z.of_nat (length wide)) ->
  exists wide', Scalar.propagate wide fuel idx carry = Some wide' /\ words wide' /\
    length wide' = length wide /\ eval64 wide' = eval64 wide + 2 ^ (64 * Z.of_nat idx) * carry.
Proof.
  induction fuel as [|fuel IH]; intros wide idx carry Hw Hf Hc HB; cbn [Scalar.propagate].
  - exists wide. pose proof (eval64_bound wide Hw). split_and!; try done.
    assert (idx = length wide) as -> by lia.
    assert (carry = 0) as -> by (generalize dependent (2 ^ (64 * Z.of_nat (length wide))); intros; nia). lia.
  - destruct (Z.ltb_spec 0 carry) as [Hpos|Hz].
    2: { exists wide. split_and!; try done. replace carry with 0 by lia. lia. }
    pose proof (words_lookup wide idx Hw ltac:(lia)) as Hx. unfold is_word in Hx.
    rewrite chk_ok by lia. cbn [mbind option_bind]. set (t := wide !!! idx + carry).
    unfold wrap. rewrite (shiftr_div t 64) by lia.
    pose proof (Z.div_mod t (2 ^ 64) ltac:(lia)) as Et.
    assert (E : eval64 (<[idx:=t mod 2 ^ 64]> wide) + 2 ^ (64 * Z.of_nat (idx + 1)) * (t / 2 ^ 64) =
                eval64 wide + 2 ^ (64 * Z.of_nat idx) * carry).
    { rewrite eval64_insert by lia. replace (64 * Z.of_nat (idx + 1)) with (64 + 64 * Z.of_nat idx) by lia.
      rewrite Z.pow_add_r by lia.
      replace (wide !!! idx) with (2 ^ 64 * (t / 2 ^ 64) + t mod 2 ^ 64 - carry) by lia.
      generalize (t / 2 ^ 64) (t mod 2 ^ 64) (2 ^ (64 * Z.of_nat idx)). intros q m p. ring. }
    destruct (IH (<[idx:=t mod 2 ^ 64]> wide) (idx + 1)%nat (t / 2 ^ 64)) as (w' & -> & Hw' & Hlw' & E').
    + apply Forall_insert; [done|]. apply Z.mod_pos_bound. lia.
    + rewrite length_insert. lia.
    + split; [apply Z.div_pos; lia|]. apply Z.div_lt_upper_bound; lia.
    + rewrite length_insert, E. done.
    + rewrite length_insert in Hlw'. exists w'. by rewrite E', E.
Qed.

(** For all 32-byte strings, multiply-and-add returns the 32-byte
    little-endian encoding of a * b + c modulo the group order; none of its
    64-bit and 128-bit operations overflows. *)
Lemma mul_add_ok (a b c : list Z) :
  is_bytes a -> length a = 32%nat -> is_bytes b -> length b = 32%nat ->
  is_bytes c -> length c = 32%nat ->
  Scalar.mul_add a b c =
    Some (to_le_bytes 32 ((from_le_bytes a * from_le_bytes b + from_le_bytes c) mod ORDER)).
Proof.
  intros Ha Hla Hb Hlb Hc Hlc. unfold Scalar.mul_add.
  destruct (le_u64x4_ok a Ha Hla) as [Wa <-]. destruct (le_u64x4_ok b Hb Hlb) as [Wb <-].
  destruct (le_u64x4_ok c Hc Hlc) as [Wc <-].
  destruct (mul_rows_ok (le_u64x4 b) (le_u64x4 a) (replicate 8 0) 0) as (w1 & -> & W1 & L1 & E1);
    try done; [repeat constructor; cbn; lia|by intros; apply lookup_total_replicate_2; lia|].
  cbn [mbind option_bind]. rewrite add_words_mul_row.
  destruct (mul_row_ok 1 (le_u64x4 c) w1 0 0) as (w2 & c2 & -> & W2 & L2 & C2 & _ & E2);
    [split; cbn; lia|done|done|split; cbn; lia|cbn; lia|]. cbn [mbind option_bind].
  change (0 + length (le_u64x4 c))%nat with 4%nat in E2.
  change (2 ^ (64 * Z.of_nat 0)) with 1 in E1, E2. change (eval64 (replicate 8 0)) with 0 in E1.
  pose proof (eval64_bound _ Wa) as BA. pose proof (eval64_bound _ Wb) as BB.
  pose proof (eval64_bound _ Wc) as BC. cbn [length le_u64x4] in BA, BB, BC.
  change (64 * Z.of_nat 4) with 256 in *.
  destruct (propagate_ok 4 w2 4 c2 W2) as (w3 & -> & W3 & L3 & E3); [lia|done| |].
  { rewrite L2, L1. change (64 * Z.of_nat 8) with 512. change (64 * Z.of_nat 4) with 256. nia. }
  cbn [mbind option_bind]. f_equal.
  rewrite reduce_wide_ok, from_le_bytes_words by
    (try done; try apply is_bytes_le_bytes; rewrite length_le_bytes; lia).
  do 2 f_equal. change (64 * Z.of_nat 4) with 256 in E3. lia.
Qed.
