(* ===== verification/Sha2.v ===== *)
(** * SHA-256 and SHA-512 (shared/crypto/src/sha256.rs, sha512.rs)

    The two files are the same program at two sizes.  The buffering and the
    padding are written once, over the block size, the size of the length
    field and the compression function, and instantiated twice.  The theorem:
    however a message is cut into calls of [update], the digest is the one of
    FIPS 180-4, the compression function folded over the blocks of the padded
    message. *)

From S2P Require Import Prelude Words.
From stdpp Require Import base list option.
From Stdlib Require Import ZArith Lia.

#[local] Open Scope Z_scope.

(** [n] words of [w] bits, most significant first. *)
Definition table (w : Z) (n : nat) (row : Z) : list Z :=
  map (fun i => wrap w (Z.shiftr row (w * (Z.of_nat n - 1 - Z.of_nat i)))) (seq 0 n).

(** The constants of one of the two functions: the word size, the number of
    rounds, the round constants, and the rotations of the message schedule and
    of the rounds. *)
Record Sizes : Type := mkSizes {
  word_bits : Z;
  word_bytes : nat;
  rounds : nat;
  round_constants : list Z;
  sched0 : Z * Z * Z;
  sched1 : Z * Z * Z;
  sum1 : Z * Z * Z;
  sum0 : Z * Z * Z
}.

Section compress.
Context (p : Sizes).

Definition rotr (x n : Z) : Z := rotate_right (word_bits p) x n.
Definition addw (a b : Z) : Z := wrapping_add (word_bits p) a b.

(** Two rotations and a shift, or three rotations. *)
Definition small_sigma (r : Z * Z * Z) (x : Z) : Z :=
  let '(a, b, c) := r in Z.lxor (Z.lxor (rotr x a) (rotr x b)) (Z.shiftr x c).
Definition big_sigma (r : Z * Z * Z) (x : Z) : Z :=
  let '(a, b, c) := r in Z.lxor (Z.lxor (rotr x a) (rotr x b)) (rotr x c).

(** The message schedule: [w[i]] for [i] from 16 on. *)
Definition schedule_step (ws : list Z) (i : nat) : list Z :=
  let s0 := small_sigma (sched0 p) (ws !!! (i - 15)%nat) in
  let s1 := small_sigma (sched1 p) (ws !!! (i - 2)%nat) in
  ws ++ [addw (addw (addw (ws !!! (i - 16)%nat) s0) (ws !!! (i - 7)%nat)) s1].

Definition schedule (block : list Z) : list Z :=
  let w0 := map (fun i => from_be_bytes (take (word_bytes p) (drop (i * word_bytes p) block)))
              (seq 0 16) in
  foldl schedule_step w0 (seq 16 (rounds p - 16)).

Definition round (ws v : list Z) (i : nat) : list Z :=
  let s1 := big_sigma (sum1 p) (v !!! 4%nat) in
  let ch := Z.lxor (Z.land (v !!! 4%nat) (v !!! 5%nat))
              (Z.land (lnot (word_bits p) (v !!! 4%nat)) (v !!! 6%nat)) in
  let t1 := addw (addw (addw (addw (v !!! 7%nat) s1) ch) (round_constants p !!! i)) (ws !!! i) in
  let s0 := big_sigma (sum0 p) (v !!! 0%nat) in
  let maj := Z.lxor (Z.lxor (Z.land (v !!! 0%nat) (v !!! 1%nat)) (Z.land (v !!! 0%nat) (v !!! 2%nat)))
               (Z.land (v !!! 1%nat) (v !!! 2%nat)) in
  let t2 := addw s0 maj in
  [addw t1 t2; v !!! 0%nat; v !!! 1%nat; v !!! 2%nat; addw (v !!! 3%nat) t1;
   v !!! 4%nat; v !!! 5%nat; v !!! 6%nat].

Definition compress (state block : list Z) : list Z :=
  let ws := schedule block in
  let v := foldl (round ws) state (seq 0 (rounds p)) in
  map (fun i => addw (state !!! i) (v !!! i)) (seq 0 8).

End compress.

(** ** Buffering and padding *)

Record Hash : Type := mkHash {
  state : list Z;
  buffer : list Z;
  buffered : nat;
  total : Z
}.

Section hash.
(** The block size, the size of the length field, the compression function,
    the initial state and the size of an output word. *)
Context (B len_bytes : nat) (f : list Z -> list Z -> list Z) (init : list Z) (out_bytes : nat).

Definition hash_new : Hash := mkHash init (replicate B 0) 0 0.

(** The width of the counter of bytes. *)
Definition length_bits : Z := 8 * Z.of_nat len_bytes.

(** [while rest.len() >= B { ... }]; each round takes [B] bytes. *)
Fixpoint update_blocks (fuel : nat) (st rest : list Z) : list Z * list Z :=
  match fuel with
  | O => (st, rest)
  | S fuel =>
      if (B <=? length rest)%nat then update_blocks fuel (f st (take B rest)) (drop B rest)
      else (st, rest)
  end.

(** Complete a buffered block. *)
Definition update_buffered (h : Hash) (rest : list Z) : Hash * list Z :=
  if (0 <? buffered h)%nat then
    let n := Nat.min (B - buffered h) (length rest) in
    let b := copy_into (buffer h) (Z.of_nat (buffered h)) (take n rest) in
    if (buffered h + n =? B)%nat then (mkHash (f (state h) b) b 0 (total h), drop n rest)
    else (mkHash (state h) b (buffered h + n) (total h), drop n rest)
  else (h, rest).

Definition hash_update (h : Hash) (data : list Z) : Hash :=
  let h := mkHash (state h) (buffer h) (buffered h)
             (wrapping_add length_bits (total h) (wrap length_bits (Z.of_nat (length data)))) in
  let '(h1, rest1) := update_buffered h data in
  let '(st, rest2) := update_blocks (length rest1) (state h1) rest1 in
  match rest2 with
  | [] => mkHash st (buffer h1) (buffered h1) (total h1)
  | _ => mkHash st (copy_into (buffer h1) 0 rest2) (length rest2) (total h1)
  end.

Definition output (st : list Z) : list Z :=
  concat (map (fun i => to_be_bytes out_bytes (st !!! i)) (seq 0 8)).

Definition hash_finalize (h : Hash) : list Z :=
  let bits := to_be_bytes len_bytes (wrap length_bits (total h * 8)) in
  let chunk := copy_into (replicate B 0) 0 (take (buffered h) (buffer h)) in
  let chunk := <[buffered h := 0x80]> chunk in
  let st :=
    if (buffered h <? B - len_bytes)%nat then
      f (state h) (copy_into chunk (Z.of_nat (B - len_bytes)) bits)
    else
      let st := f (state h) chunk in
      f st (copy_into (replicate B 0) (Z.of_nat (B - len_bytes)) bits) in
  output st.

Definition hash_digest (parts : list (list Z)) : list Z :=
  hash_finalize (foldl hash_update hash_new parts).

End hash.

Module sha256.

Definition K : list Z := concat (map (table 32 8)
  [0x428a2f9871374491b5c0fbcfe9b5dba53956c25b59f111f1923f82a4ab1c5ed5;
   0xd807aa9812835b01243185be550c7dc372be5d7480deb1fe9bdc06a7c19bf174;
   0xe49b69c1efbe47860fc19dc6240ca1cc2de92c6f4a7484aa5cb0a9dc76f988da;
   0x983e5152a831c66db00327c8bf597fc7c6e00bf3d5a7914706ca635114292967;
   0x27b70a852e1b21384d2c6dfc53380d13650a7354766a0abb81c2c92e92722c85;
   0xa2bfe8a1a81a664bc24b8b70c76c51a3d192e819d6990624f40e3585106aa070;
   0x19a4c1161e376c082748774c34b0bcb5391c0cb34ed8aa4a5b9cca4f682e6ff3;
   0x748f82ee78a5636f84c878148cc7020890befffaa4506cebbef9a3f7c67178f2]).
Definition H_INIT : list Z :=
  table 32 8 0x6a09e667bb67ae853c6ef372a54ff53a510e527f9b05688c1f83d9ab5be0cd19.
Definition sizes : Sizes := mkSizes 32 4 64 K (7, 18, 3) (17, 19, 10) (6, 11, 25) (2, 13, 22).
Definition new : Hash := hash_new 64 H_INIT.
Definition update : Hash -> list Z -> Hash := hash_update 64 8 (compress sizes).
Definition finalize : Hash -> list Z := hash_finalize 64 8 (compress sizes) 4.
Definition digest : list (list Z) -> list Z := hash_digest 64 8 (compress sizes) H_INIT 4.

End sha256.

Module sha512.

Definition K : list Z := concat (map (table 64 4)
  [0x428a2f98d728ae227137449123ef65cdb5c0fbcfec4d3b2fe9b5dba58189dbbc;
   0x3956c25bf348b53859f111f1b605d019923f82a4af194f9bab1c5ed5da6d8118;
   0xd807aa98a303024212835b0145706fbe243185be4ee4b28c550c7dc3d5ffb4e2;
   0x72be5d74f27b896f80deb1fe3b1696b19bdc06a725c71235c19bf174cf692694;
   0xe49b69c19ef14ad2efbe4786384f25e30fc19dc68b8cd5b5240ca1cc77ac9c65;
   0x2de92c6f592b02754a7484aa6ea6e4835cb0a9dcbd41fbd476f988da831153b5;
   0x983e5152ee66dfaba831c66d2db43210b00327c898fb213fbf597fc7beef0ee4;
   0xc6e00bf33da88fc2d5a79147930aa72506ca6351e003826f142929670a0e6e70;
   0x27b70a8546d22ffc2e1b21385c26c9264d2c6dfc5ac42aed53380d139d95b3df;
   0x650a73548baf63de766a0abb3c77b2a881c2c92e47edaee692722c851482353b;
   0xa2bfe8a14cf10364a81a664bbc423001c24b8b70d0f89791c76c51a30654be30;
   0xd192e819d6ef5218d69906245565a910f40e35855771202a106aa07032bbd1b8;
   0x19a4c116b8d2d0c81e376c085141ab532748774cdf8eeb9934b0bcb5e19b48a8;
   0x391c0cb3c5c95a634ed8aa4ae3418acb5b9cca4f7763e373682e6ff3d6b2b8a3;
   0x748f82ee5defb2fc78a5636f43172f6084c87814a1f0ab728cc702081a6439ec;
   0x90befffa23631e28a4506cebde82bde9bef9a3f7b2c67915c67178f2e372532b;
   0xca273eceea26619cd186b8c721c0c207eada7dd6cde0eb1ef57d4f7fee6ed178;
   0x06f067aa72176fba0a637dc5a2c898a6113f9804bef90dae1b710b35131c471b;
   0x28db77f523047d8432caab7b40c724933c9ebe0a15c9bebc431d67c49c100d4c;
   0x4cc5d4becb3e42b6597f299cfc657e2a5fcb6fab3ad6faec6c44198c4a475817]).
Definition H_INIT : list Z :=
  table 64 8 0x6a09e667f3bcc908bb67ae8584caa73b3c6ef372fe94f82ba54ff53a5f1d36f1510e527fade682d19b05688c2b3e6c1f1f83d9abfb41bd6b5be0cd19137e2179.
Definition sizes : Sizes := mkSizes 64 8 80 K (1, 8, 7) (19, 61, 6) (14, 18, 41) (28, 34, 39).
Definition new : Hash := hash_new 128 H_INIT.
Definition update : Hash -> list Z -> Hash := hash_update 128 16 (compress sizes).
Definition finalize : Hash -> list Z := hash_finalize 128 16 (compress sizes) 8.
Definition digest : list (list Z) -> list Z := hash_digest 128 16 (compress sizes) H_INIT 8.

End sha512.

(** ** FIPS 180-4, section 5.1 and 6

    The message is followed by a bit 1 and by as many zeros as make room for
    its length in bits at the end of a block. *)
Section fips.
Context (B len_bytes : nat) (f : list Z -> list Z -> list Z) (init : list Z) (out_bytes : nat).

Definition zeros_for (m : list Z) : nat :=
  ((B - (length m + 1 + len_bytes) mod B) mod B)%nat.

Definition pad (m : list Z) : list Z :=
  m ++ [0x80] ++ replicate (zeros_for m) 0 ++ to_be_bytes len_bytes (8 * Z.of_nat (length m)).

Definition hash_spec (m : list Z) : list Z := output out_bytes (foldl f init (chunks B (pad m))).

End fips.

(** ** FIPS 180-4, section 4.1 and 6: the compression function

    The message schedule is a recurrence on its index, the eight working
    variables are named, and every sum is reduced once. *)
Section fips_compress.
Context (p : Sizes).

Definition modw (z : Z) : Z := z mod 2 ^ word_bits p.
Definition Ch (x y z : Z) : Z := Z.lxor (Z.land x y) (Z.land (lnot (word_bits p) x) z).
Definition Maj (x y z : Z) : Z := Z.lxor (Z.lxor (Z.land x y) (Z.land x z)) (Z.land y z).

(** [W_t]; [fuel] above [t] is enough. *)
Fixpoint message_schedule (block : list Z) (fuel t : nat) : Z :=
  match fuel with
  | O => 0
  | S fuel =>
      let W := message_schedule block fuel in
      if (t <? 16)%nat then from_be_bytes (take (word_bytes p) (drop (t * word_bytes p) block))
      else modw (small_sigma p (sched1 p) (W (t - 2)%nat) + W (t - 7)%nat +
                 small_sigma p (sched0 p) (W (t - 15)%nat) + W (t - 16)%nat)
  end.

Definition fips_round (W : nat -> Z) (v : Z * Z * Z * Z * Z * Z * Z * Z) (t : nat) :
    Z * Z * Z * Z * Z * Z * Z * Z :=
  let '(a, b, c, d, e, f, g, h) := v in
  let T1 := h + big_sigma p (sum1 p) e + Ch e f g + round_constants p !!! t + W t in
  let T2 := big_sigma p (sum0 p) a + Maj a b c in
  (modw (T1 + T2), a, b, c, modw (d + T1), e, f, g).

Definition fips_compress (H block : list Z) : list Z :=
  let W t := message_schedule block (S t) t in
  let '(a, b, c, d, e, f, g, h) :=
    foldl (fips_round W)
      (H !!! 0%nat, H !!! 1%nat, H !!! 2%nat, H !!! 3%nat, H !!! 4%nat, H !!! 5%nat, H !!! 6%nat, H !!! 7%nat)
      (seq 0 (rounds p)) in
  map modw [H !!! 0%nat + a; H !!! 1%nat + b; H !!! 2%nat + c; H !!! 3%nat + d;
            H !!! 4%nat + e; H !!! 5%nat + f; H !!! 6%nat + g; H !!! 7%nat + h].

(** Sums reduced at each step. *)
Lemma addw_modw a b c : addw p (addw p a b) c = addw p (a + b) c.
Proof. apply Zplus_mod_idemp_l. Qed.

Lemma addw_modw_r a b c : addw p a (addw p b c) = addw p a (b + c).
Proof. apply Zplus_mod_idemp_r. Qed.

Lemma addw_four a b c d : addw p (addw p (addw p a b) c) d = modw (a + b + c + d).
Proof. by rewrite (addw_modw a b c), addw_modw. Qed.

Lemma addw_five a b c d e : addw p (addw p (addw p (addw p a b) c) d) e = modw (a + b + c + d + e).
Proof. by rewrite (addw_modw a b c), addw_four. Qed.

(** More fuel changes nothing. *)
Lemma message_schedule_fuel block n m t :
  (t < n)%nat -> (t < m)%nat -> message_schedule block n t = message_schedule block m t.
Proof.
  revert m t. induction n as [|n IH]; intros [|m] t Hn Hm; try lia. cbn [message_schedule].
  destruct (Nat.ltb_spec t 16) as [Hlt|Hge]; [done|].
  by rewrite (IH m (t - 2)%nat), (IH m (t - 7)%nat), (IH m (t - 15)%nat), (IH m (t - 16)%nat) by lia.
Qed.

(** One step of the array follows the recurrence. *)
Lemma schedule_step_holds block ws :
  (16 <= length ws)%nat ->
  (forall t, (t < length ws)%nat -> ws !!! t = message_schedule block (S t) t) ->
  forall t, (t < S (length ws))%nat ->
  schedule_step p ws (length ws) !!! t = message_schedule block (S t) t.
Proof.
  intros H16 IH t Ht. unfold schedule_step. cbv zeta.
  destruct (decide (t < length ws)%nat) as [Hlt|Hge].
  - rewrite lookup_total_app_l by lia. by apply IH.
  - replace t with (length ws) by lia. rewrite lookup_total_app_r, Nat.sub_diag by lia.
    cbn [message_schedule]. destruct (Nat.ltb_spec (length ws) 16); [lia|].
    rewrite !IH by lia. set (k := length ws) in *.
    assert (Hw : forall d, (0 < d <= k)%nat ->
      message_schedule block k (k - d) = message_schedule block (S (k - d)) (k - d))
      by (intros; apply message_schedule_fuel; lia).
    rewrite !Hw by lia. transitivity (addw p (addw p (addw p
      (message_schedule block (S (k - 16)) (k - 16))
      (small_sigma p (sched0 p) (message_schedule block (S (k - 15)) (k - 15))))
      (message_schedule block (S (k - 7)) (k - 7)))
      (small_sigma p (sched1 p) (message_schedule block (S (k - 2)) (k - 2)))); [done|].
    rewrite addw_four. f_equal. lia.
Qed.

(** The array holds the recurrence. *)
Lemma schedule_holds block w0 n :
  length w0 = 16%nat -> (forall t, (t < 16)%nat -> w0 !!! t = message_schedule block (S t) t) ->
  let ws := foldl (schedule_step p) w0 (seq 16 n) in
  length ws = (16 + n)%nat /\
  forall t, (t < 16 + n)%nat -> ws !!! t = message_schedule block (S t) t.
Proof.
  intros L0 H0. cbv zeta. induction n as [|n [Hl IH]]; [by rewrite Nat.add_0_r|].
  rewrite (seq_S n 16), foldl_app. cbn [foldl]. set (ws := foldl _ _ _) in *.
  split; [unfold schedule_step; rewrite length_app, Hl; cbn; lia|].
  rewrite <- Hl. intros t Ht. apply schedule_step_holds; rewrite ?Hl in *; [lia|done|lia].
Qed.

(** Eight working variables as the array of the code. *)
Definition as_list (v : Z * Z * Z * Z * Z * Z * Z * Z) : list Z :=
  let '(a, b, c, d, e, f, g, h) := v in [a; b; c; d; e; f; g; h].

Lemma round_is_fips ws W v t :
  ws !!! t = W t -> round p ws (as_list v) t = as_list (fips_round W v t).
Proof.
  intros Hw. destruct v as [[[[[[[a b] c] d] e] f] g] h]. unfold round. cbn. rewrite Hw.
  rewrite !(addw_five _ _ _ _ (W t)), addw_modw_r. unfold addw, wrapping_add, wrap, modw, Ch, Maj.
  rewrite Zplus_mod_idemp_l, Zplus_mod_idemp_r. done.
Qed.

Lemma rounds_are_fips ws W v ts :
  (forall t, t ∈ ts -> ws !!! t = W t) ->
  foldl (round p ws) (as_list v) ts = as_list (foldl (fips_round W) v ts).
Proof.
  revert v. induction ts as [|t ts IH]; intros v H; cbn [foldl]; [done|].
  rewrite (round_is_fips ws W) by (apply H; left). apply IH. intros. apply H. by right.
Qed.

Lemma compress_is_fips st block :
  (16 <= rounds p)%nat -> length st = 8%nat -> compress p st block = fips_compress st block.
Proof.
  intros Hr Hst. unfold compress, fips_compress. cbv zeta.
  assert (H : forall t, (t < rounds p)%nat -> schedule p block !!! t = message_schedule block (S t) t).
  { intros t Ht. unfold schedule. apply schedule_holds; [done| |lia].
    intros i Hi. by do 16 (destruct i as [|i]; [done|]); lia. }
  generalize dependent (schedule p block). intros ws H.
  destruct st as [|a [|b [|c [|d [|e [|f [|g [|h [|? ?]]]]]]]]]; try discriminate Hst.
  pose proof (rounds_are_fips ws (fun t => message_schedule block (S t) t) (a, b, c, d, e, f, g, h)
    (seq 0 (rounds p))) as E. cbn [as_list] in E.
  rewrite E by (intros t Ht; apply H; apply elem_of_seq in Ht; lia).
  cbn [lookup_total list_lookup_total].
  destruct (foldl (fips_round _) _ _) as [[[[[[[a' b'] c'] d'] e'] f'] g'] h']. reflexivity.
Qed.

Lemma blocks_are_fips st blocks :
  (16 <= rounds p)%nat -> length st = 8%nat ->
  foldl (compress p) st blocks = foldl fips_compress st blocks.
Proof.
  intros Hr. revert st. induction blocks as [|b blocks IH]; intros st Hst; cbn [foldl]; [done|].
  rewrite IH by (unfold compress; by rewrite length_map). by rewrite compress_is_fips.
Qed.

End fips_compress.

Lemma length_output n st : length (output n st) = (8 * n)%nat.
Proof.
  unfold output. cbn [seq map concat]. rewrite !length_app, !length_to_be_bytes. cbn. lia.
Qed.

Lemma is_bytes_output n st : is_bytes (output n st).
Proof.
  apply Forall_concat, Forall_map, Forall_forall. intros. apply is_bytes_to_be.
Qed.

(** ** What a state has absorbed *)

Section absorb.
Context (B len_bytes : nat) (f : list Z -> list Z -> list Z) (init : list Z) (out_bytes : nat).
Context (HB : (len_bytes < B)%nat).

(** [full] has gone through the compression function, [left] is buffered. *)
Record absorbed (full left : list Z) (h : Hash) : Prop := {
  absorbed_blocks : exists k, length full = (B * k)%nat;
  absorbed_state : state h = foldl f init (chunks B full);
  absorbed_short : (length left < B)%nat;
  absorbed_buffered : buffered h = length left;
  absorbed_buffer : length (buffer h) = B;
  absorbed_left : take (length left) (buffer h) = left
}.

Lemma absorb_block full k block :
  length full = (B * k)%nat -> length block = B ->
  f (foldl f init (chunks B full)) block = foldl f init (chunks B (full ++ block)).
Proof.
  intros Hf Hb. rewrite (chunks_app B k), (chunks_short B block), foldl_app by (try lia; intros ->; cbn in Hb; lia).
  done.
Qed.

Lemma absorb_blocks fuel full st data :
  (exists k, length full = (B * k)%nat) -> st = foldl f init (chunks B full) ->
  (length data <= fuel)%nat ->
  exists full' rest, update_blocks B f fuel st data = (foldl f init (chunks B full'), rest) /\
    full ++ data = full' ++ rest /\ (length rest < B)%nat /\ exists k, length full' = (B * k)%nat.
Proof.
  revert full st data. induction fuel as [|fuel IH]; intros full st data [k Hk] -> Hf.
  - rewrite (nil_length_inv data) by lia. exists full, []. split_and!; try done; [cbn; lia|by exists k].
  - cbn [update_blocks]. destruct (Nat.leb_spec B (length data)) as [Hge|Hlt].
    + rewrite (absorb_block full k) by (rewrite ?length_take; lia).
      destruct (IH (full ++ take B data) (foldl f init (chunks B (full ++ take B data))) (drop B data)) as (full' & rest & -> & He & Hr).
      * exists (S k). rewrite length_app, length_take. lia.
      * done.
      * rewrite length_drop. lia.
      * exists full', rest. by rewrite <- He, <- app_assoc, take_drop.
    + exists full, data. split_and!; try done. by exists k.
Qed.

(** Writing behind a prefix of the buffer. *)
Lemma buffer_prefix (buf src left : list Z) :
  take (length left) buf = left -> (length left + length src <= length buf)%nat ->
  take (length left + length src) (copy_into buf (Z.of_nat (length left)) src) = left ++ src /\
  length (copy_into buf (Z.of_nat (length left)) src) = length buf.
Proof.
  intros Hl Hb. unfold copy_into. rewrite Nat2Z.id, Hl, app_assoc. split.
  - rewrite take_app_le, take_ge by (rewrite length_app; lia). done.
  - rewrite !length_app, length_drop. lia.
Qed.

Lemma hash_absorb_buffered full left h data :
  absorbed full left h ->
  exists h' full' left' rest, update_buffered B f h data = (h', rest) /\
    full ++ left ++ data = full' ++ left' ++ rest /\ (left' = [] \/ rest = []) /\
    absorbed full' left' h' /\ total h' = total h.
Proof.
  intros Hh. pose proof Hh as [[k Hk] Hst Hs Hn Hb Hl]. unfold update_buffered. rewrite Hn.
  destruct (Nat.ltb_spec 0 (length left)) as [Hpos|Hz0].
  2: { exists h, full, left, data. destruct left; [|cbn in Hz0; lia].
       split_and!; try done. by left. }
  set (n := Nat.min (B - length left) (length data)).
  assert (Hn' : length (take n data) = n) by (rewrite length_take; lia).
  destruct (buffer_prefix (buffer h) (take n data) left) as [Ht Hlen]; [done|lia|].
  rewrite Hn' in Ht.
  destruct (Nat.eqb_spec (length left + n) B) as [E|N].
  - rewrite take_ge in Ht by lia. rewrite Ht in *.
    exists (mkHash (f (state h) (left ++ take n data)) (left ++ take n data) 0 (total h)),
      (full ++ left ++ take n data), [], (drop n data).
    split; [done|]. split; [by rewrite <- !app_assoc, app_nil_l, take_drop|]. split; [by left|].
    split; [|done]. constructor; cbn [state buffer buffered]; try done; [| |cbn; lia|lia].
    + exists (S k). rewrite length_app. lia.
    + rewrite Hst. apply (absorb_block full k); [done|lia].
  - eexists _, full, (left ++ take n data), (drop n data). split; [done|].
    rewrite <- app_assoc, take_drop. split; [done|]. split; [right; apply drop_ge; lia|].
    split; [|done]. constructor; cbn [state buffer buffered]; rewrite ?length_app, ?Hn'; try done; try lia.
    by exists k.
Qed.

(** Absorbing more of the message, however it is cut. *)
Lemma hash_update_absorbs m h data :
  (exists full left, m = full ++ left /\ absorbed full left h) ->
  total h = wrap (length_bits len_bytes) (Z.of_nat (length m)) ->
  let h' := hash_update B len_bytes f h data in
  (exists full left, m ++ data = full ++ left /\ absorbed full left h') /\
  total h' = wrap (length_bits len_bytes) (Z.of_nat (length (m ++ data))).
Proof.
  intros (full & left & -> & Hh) Ht. unfold hash_update.
  set (h0 := mkHash _ _ _ _).
  assert (Hh0 : absorbed full left h0) by (by destruct Hh; constructor).
  assert (Ht0 : total h0 = wrap (length_bits len_bytes) (Z.of_nat (length ((full ++ left) ++ data)))).
  { cbn [total h0]. rewrite Ht. unfold wrapping_add, wrap. rewrite <- Zplus_mod.
    f_equal. rewrite (length_app (full ++ left)). lia. }
  destruct (hash_absorb_buffered full left h0 data Hh0)
    as (h1 & full1 & left1 & rest & -> & He & Hor & [Hk1 Hst1 Hs1 Hn1 Hb1 Hl1] & Ht1).
  rewrite <- Ht1 in Ht0. rewrite <- app_assoc, He in Ht0 |- *. destruct Hor as [->| ->].
  - destruct (absorb_blocks (length rest) full1 (state h1) rest)
      as (full2 & rest2 & -> & He2 & Hl2 & Hk2); [done..|].
    split; [|by destruct rest2]. exists full2, rest2. split; [done|].
    destruct rest2 as [|x rest2]; [by constructor|].
    destruct (buffer_prefix (buffer h1) (x :: rest2) []) as [Hp Hlen]; [done|cbn in *; lia|].
    change (Z.of_nat (length (@nil Z))) with 0 in Hp, Hlen.
    constructor; cbn [state buffer buffered]; try done. by rewrite Hlen.
  - cbn [length update_blocks]. split; [|done]. rewrite app_nil_r.
    exists full1, left1. split; [done|by constructor].
Qed.

Lemma hash_new_absorbs : absorbed [] [] (hash_new B init).
Proof.
  constructor; try done; [by exists 0%nat; cbn; lia|cbn; lia|]. cbn. apply length_replicate.
Qed.

(** The length field of [finalize]. *)
Lemma length_field n :
  to_be_bytes len_bytes (wrap (length_bits len_bytes) (wrap (length_bits len_bytes) n * 8)) =
  to_be_bytes len_bytes (8 * n).
Proof.
  unfold to_be_bytes, wrap, length_bits. f_equal.
  rewrite Zmult_mod_idemp_l, to_le_mod. f_equal. lia.
Qed.

(** The last block of [finalize] before the length is written. *)
Lemma last_chunk left buf :
  (length left < B)%nat -> take (length left) buf = left ->
  <[length left := 0x80]> (copy_into (replicate B 0) 0 (take (length left) buf)) =
  left ++ [0x80] ++ replicate (B - length left - 1) 0.
Proof.
  intros Hl ->. unfold copy_into. change (Z.to_nat 0) with 0%nat. rewrite drop_replicate, take_0. cbn [Nat.add app].
  destruct (B - length left)%nat as [|z] eqn:E; [lia|].
  rewrite insert_app_r_alt, Nat.sub_diag by lia. cbn. by rewrite Nat.sub_0_r.
Qed.

Lemma write_tail (a bits : list Z) z :
  length bits = len_bytes -> (length a + z = B)%nat -> (len_bytes <= z)%nat ->
  copy_into (a ++ replicate z 0) (Z.of_nat (B - len_bytes)) bits =
  a ++ replicate (z - len_bytes) 0 ++ bits.
Proof.
  intros Hb Ha Hz. unfold copy_into. rewrite Nat2Z.id, Hb.
  rewrite take_app_ge, take_replicate by lia. rewrite drop_ge by (rewrite length_app, length_replicate; lia).
  rewrite app_nil_r, <- app_assoc. do 3 f_equal. lia.
Qed.

Lemma zeros_for_one k full left :
  length full = (B * k)%nat -> (length left + len_bytes < B)%nat ->
  zeros_for B len_bytes (full ++ left) = (B - length left - 1 - len_bytes)%nat.
Proof.
  intros Hk Hl. unfold zeros_for. rewrite length_app, Hk.
  replace (B * k + length left + 1 + len_bytes)%nat with (length left + 1 + len_bytes + k * B)%nat by lia.
  rewrite Nat.Div0.mod_add. destruct (decide (length left + 1 + len_bytes = B)%nat) as [E|Hne].
  - rewrite E, Nat.Div0.mod_same, Nat.sub_0_r, Nat.Div0.mod_same. lia.
  - rewrite (Nat.mod_small (_ + _)), Nat.mod_small by lia. lia.
Qed.

Lemma zeros_for_two k full left :
  length full = (B * k)%nat -> (length left < B <= length left + len_bytes)%nat ->
  zeros_for B len_bytes (full ++ left) = (B - length left - 1 + (B - len_bytes))%nat.
Proof.
  intros Hk Hl. unfold zeros_for. rewrite length_app, Hk.
  replace (B * k + length left + 1 + len_bytes)%nat
    with (length left + 1 + len_bytes - B + (S k) * B)%nat by lia.
  rewrite Nat.Div0.mod_add, (Nat.mod_small (_ + _ + _ - _)), Nat.mod_small by lia. lia.
Qed.

Lemma hash_finalize_spec full left h :
  absorbed full left h ->
  total h = wrap (length_bits len_bytes) (Z.of_nat (length (full ++ left))) ->
  hash_finalize B len_bytes f out_bytes h = hash_spec B len_bytes f init out_bytes (full ++ left).
Proof.
  intros [[k Hk] Hst Hs Hn Hb Hl] Ht. unfold hash_finalize, hash_spec, pad. f_equal.
  rewrite Ht, Hn, length_field, (last_chunk left), Hst by done. set (bits := to_be_bytes _ _).
  assert (Hbits : length bits = len_bytes) by apply length_to_be_bytes.
  rewrite <- app_assoc, (chunks_app B k), foldl_app by lia.
  destruct (Nat.ltb_spec (length left) (B - len_bytes)) as [H1|H2].
  - rewrite (zeros_for_one k), (app_assoc left [_]), write_tail by (rewrite ?length_app; cbn; lia).
    rewrite <- app_assoc, (chunks_short B (left ++ _)); [done|lia|by destruct left|].
    rewrite !length_app, length_replicate. cbn. lia.
  - rewrite (zeros_for_two k), replicate_add by lia.
    change (replicate B 0) with ([] ++ replicate B 0). rewrite (write_tail [] bits B) by (cbn; lia).
    cbn [app].
    set (c1 := left ++ 0x80 :: replicate _ 0). set (c2 := replicate _ 0 ++ bits).
    replace (left ++ _) with (c1 ++ c2)
      by (unfold c1, c2; cbn; by rewrite <- !app_assoc).
    assert (L1 : length c1 = B) by (unfold c1; rewrite length_app; cbn; rewrite length_replicate; lia).
    assert (L2 : length c2 = B) by (unfold c2; rewrite length_app, length_replicate; lia).
    rewrite (chunks_app B 1), (chunks_short B c1), (chunks_short B c2) by (try lia; intros E; rewrite E in *; cbn in *; lia). done.
Qed.

Lemma hash_digest_spec parts :
  hash_digest B len_bytes f init out_bytes parts = hash_spec B len_bytes f init out_bytes (concat parts).
Proof.
  unfold hash_digest.
  assert (H : forall m h, (exists full left, m = full ++ left /\ absorbed full left h) ->
    total h = wrap (length_bits len_bytes) (Z.of_nat (length m)) ->
    hash_finalize B len_bytes f out_bytes (foldl (hash_update B len_bytes f) h parts) =
    hash_spec B len_bytes f init out_bytes (m ++ concat parts)).
  { induction parts as [|p parts IH]; intros m h Hm Ht; cbn [foldl concat].
    - rewrite app_nil_r. destruct Hm as (full & left & -> & Hh). by apply hash_finalize_spec.
    - destruct (hash_update_absorbs m h p Hm Ht) as [Hm' Ht']. rewrite app_assoc. by apply IH. }
  rewrite (H []); [done| |done]. exists [], []. split; [done|]. apply hash_new_absorbs.
Qed.

End absorb.

(** ** The constants

    FIPS 180-4, sections 4.2 and 5.3: the round constants are the first bits
    of the fractional parts of the cube roots of the first primes, the initial
    state those of the square roots of the first eight. *)

Definition primes : list Z :=
  filter (fun n => forallb (fun d => negb (n mod d =? 0)) (map Z.of_nat (seq 2 (Z.to_nat n - 2))) = true)
    (map Z.of_nat (seq 2 408)).

(** [k] is the fraction of the root of degree [e] of [q], in [w] bits. *)
Definition root_bits (e w q k : Z) : Prop :=
  0 <= k < 2 ^ w /\
  exists i, let x := i * 2 ^ w + k in x ^ e <= q * 2 ^ (e * w) < (x + 1) ^ e.

Definition root_bits_with (e w q k i : Z) : bool :=
  let x := i * 2 ^ w + k in
  (0 <=? k) && (k <? 2 ^ w) && (x ^ e <=? q * 2 ^ (e * w)) && (q * 2 ^ (e * w) <? (x + 1) ^ e).

Lemma root_bits_check e w l :
  forallb (fun '(q, k) => existsb (root_bits_with e w q k) [1; 2; 3; 4; 5; 6; 7]) l = true ->
  Forall (fun '(q, k) => root_bits e w q k) l.
Proof.
  rewrite forallb_forall, Forall_forall. intros H [q k] Hl. specialize (H _ Hl). cbv beta iota in H.
  apply existsb_exists in H as (i & _ & H). unfold root_bits_with in H.
  rewrite !andb_true_iff, !Z.leb_le, !Z.ltb_lt in H. destruct H as [[[? ?] ?] ?].
  split; [done|]. by exists i.
Qed.

Lemma round_constants_are_roots :
  Forall (fun '(q, k) => root_bits 3 32 q k) (zip (take 64 primes) sha256.K) /\
  Forall (fun '(q, k) => root_bits 3 64 q k) (zip (take 80 primes) sha512.K) /\
  Forall (fun '(q, k) => root_bits 2 32 q k) (zip (take 8 primes) sha256.H_INIT) /\
  Forall (fun '(q, k) => root_bits 2 64 q k) (zip (take 8 primes) sha512.H_INIT).
Proof. split_and!; apply root_bits_check; vm_compute; reflexivity. Qed.

Lemma sha256_digest_spec parts :
  sha256.digest parts = hash_spec 64 8 (fips_compress sha256.sizes) sha256.H_INIT 4 (concat parts).
Proof.
  unfold sha256.digest. rewrite hash_digest_spec by lia.
  unfold hash_spec. by rewrite blocks_are_fips by (done || (cbn; lia)).
Qed.

Lemma sha512_digest_spec parts :
  sha512.digest parts = hash_spec 128 16 (fips_compress sha512.sizes) sha512.H_INIT 8 (concat parts).
Proof.
  unfold sha512.digest. rewrite hash_digest_spec by lia.
  unfold hash_spec. by rewrite blocks_are_fips by (done || (cbn; lia)).
Qed.


(** FIPS 180-4, the example of one block. *)
Example sha256_abc :
  sha256.digest [[97]; [98; 99]] =
  to_be_bytes 32 0xba7816bf8f01cfea414140de5dae2223b00361a396177a9cb410ff61f20015ad.
Proof. vm_compute. reflexivity. Qed.
