(* ===== verification/Hmac.v ===== *)
(** * HMAC, HKDF and PBKDF2 over SHA-512 (shared/crypto/src/hmac.rs, hkdf.rs, pbkdf2.rs)

    Each is refined to its RFC: HMAC (2104), HKDF (5869), PBKDF2 (8018) with
    one derived block.  The one-byte counter of [hkdf::expand] is incremented
    once more after the last block, which matters at the longest outputs. *)

From S2P Require Import Prelude Words Sha2.
From stdpp Require Import base list option.
From Stdlib Require Import ZArith Lia.

#[local] Open Scope Z_scope.

Definition BLOCK : nat := 128.

Record HmacSha512 : Type := mkHmac {
  inner : Hash;
  opad_block : list Z
}.

Module HmacSha512.

(** The key padded with zeros to a block, hashed first when it is longer. *)
Definition key_block (key : list Z) : list Z :=
  if (BLOCK <? length key)%nat then
    copy_into (replicate BLOCK 0) 0 (sha512.finalize (sha512.update sha512.new key))
  else copy_into (replicate BLOCK 0) 0 key.

Definition new (key : list Z) : HmacSha512 :=
  let key_block := key_block key in
  let ipad_block := xor_bytes (replicate BLOCK 0x36) key_block in
  let opad_block := xor_bytes (replicate BLOCK 0x5c) key_block in
  mkHmac (sha512.update sha512.new ipad_block) opad_block.

Definition update (mac : HmacSha512) (data : list Z) : HmacSha512 :=
  mkHmac (sha512.update (inner mac) data) (opad_block mac).

Definition finalize (mac : HmacSha512) : list Z :=
  let inner_digest := sha512.finalize (inner mac) in
  sha512.finalize (sha512.update (sha512.update sha512.new (opad_block mac)) inner_digest).

End HmacSha512.

Definition hmac_sha512 (key : list Z) (parts : list (list Z)) : list Z :=
  HmacSha512.finalize (foldl HmacSha512.update (HmacSha512.new key) parts).

Module hkdf.

Definition extract (salt ikm : list Z) : list Z := hmac_sha512 salt [ikm].

(** The variables of the loop of [expand]. *)
Record Expand : Type := mkExpand {
  t : list Z;
  t_len : nat;
  offset : nat;
  counter : Z;
  okm : list Z
}.

(** [counter += 1] on a [u8]: it panics when the build checks overflow and
    wraps when it does not. *)
Definition increment (overflow_checks : bool) (c : Z) : option Z :=
  if overflow_checks then chk 8 (c + 1) else Some (wrapping_add 8 c 1).

Definition expand_block (overflow_checks : bool) (prk info : list Z) (s : Expand) : option Expand :=
  let mac := HmacSha512.new prk in
  let mac := HmacSha512.update mac (take (t_len s) (t s)) in
  let mac := HmacSha512.update mac info in
  let mac := HmacSha512.update mac [counter s] in
  let t := HmacSha512.finalize mac in
  let n := Nat.min 64 (length (okm s) - offset s) in
  let okm := copy_into (okm s) (Z.of_nat (offset s)) (take n t) in
  counter ← increment overflow_checks (counter s);
  Some (mkExpand t 64 (offset s + n) counter okm).

(** [while offset < okm.len() { ... }]; the offset grows in each round. *)
Fixpoint expand_loop (fuel : nat) (overflow_checks : bool) (prk info : list Z) (s : Expand) :
    option Expand :=
  match fuel with
  | O => Some s
  | S fuel =>
      if (offset s <? length (okm s))%nat then
        s ← expand_block overflow_checks prk info s;
        expand_loop fuel overflow_checks prk info s
      else Some s
  end.

Definition expand (overflow_checks : bool) (prk info okm : list Z) : option (list Z) :=
  if (length okm <=? 255 * 64)%nat then
    s ← expand_loop (length okm) overflow_checks prk info (mkExpand (replicate 64 0) 0 0 1 okm);
    Some (hkdf.okm s)
  else None.

Definition derive (overflow_checks : bool) (ikm salt info okm : list Z) : option (list Z) :=
  expand overflow_checks (extract salt ikm) info okm.

End hkdf.

(** One turn of the loop: the next [U_i] and the sum so far. *)
Definition pbkdf2_round (password : list Z) (st : list Z * list Z) : list Z * list Z :=
  let '(u, accumulated) := st in
  let u := HmacSha512.finalize (HmacSha512.update (HmacSha512.new password) u) in
  (u, xor_bytes accumulated u).

Definition pbkdf2_hmac_sha512 (password salt : list Z) (iterations : Z) : list Z :=
  if iterations =? 0 then replicate 64 0 else
  let mac := HmacSha512.update (HmacSha512.new password) salt in
  let u := HmacSha512.finalize (HmacSha512.update mac [0; 0; 0; 1]) in
  let rounds := iterations - 1 in
  (Nat.iter (Z.to_nat rounds) (pbkdf2_round password) (u, u)).2.

(** ** The RFCs *)

(** SHA-512 of FIPS 180-4. *)
Definition SHA512 (m : list Z) : list Z :=
  hash_spec 128 16 (fips_compress sha512.sizes) sha512.H_INIT 8 m.

(** RFC 2104: the key is hashed when it is longer than a block, and padded. *)
Definition HMAC (key text : list Z) : list Z :=
  let k := if (BLOCK <? length key)%nat then SHA512 key else key in
  let k := k ++ replicate (BLOCK - length k) 0 in
  let ipad := replicate BLOCK 0x36 in
  let opad := replicate BLOCK 0x5c in
  SHA512 (xor_bytes k opad ++ SHA512 (xor_bytes k ipad ++ text)).

(** RFC 5869, section 2.3: the blocks [T(1)], [T(2)], ... *)
Fixpoint HKDF_T (prk info : list Z) (n : nat) : list Z :=
  match n with
  | O => []
  | S m => HMAC prk (HKDF_T prk info m ++ info ++ [Z.of_nat n])
  end.

Definition HKDF_Expand (prk info : list Z) (L : nat) : list Z :=
  take L (concat (map (HKDF_T prk info) (seq 1 ((L + 63) / 64)))).

(** RFC 8018, section 5.2: [U_1], [U_2], ... and their exclusive or, for the
    first block. *)
Fixpoint PBKDF2_U (password salt : list Z) (n : nat) : list Z :=
  match n with
  | O => HMAC password (salt ++ to_be_bytes 4 1)
  | S n => HMAC password (PBKDF2_U password salt n)
  end.

Definition PBKDF2_F (password salt : list Z) (c : nat) : list Z :=
  foldl xor_bytes (PBKDF2_U password salt 0) (map (PBKDF2_U password salt) (seq 1 (c - 1))).

(** ** Refinement *)

Lemma length_SHA512 m : length (SHA512 m) = 64%nat.
Proof. apply length_output. Qed.

Lemma is_bytes_SHA512 m : is_bytes (SHA512 m).
Proof. apply is_bytes_output. Qed.

Lemma sha512_parts parts :
  sha512.finalize (foldl sha512.update sha512.new parts) = SHA512 (concat parts).
Proof. apply sha512_digest_spec. Qed.

Lemma sha512_more a parts :
  sha512.finalize (foldl sha512.update (sha512.update sha512.new a) parts) = SHA512 (a ++ concat parts).
Proof. exact (sha512_parts (a :: parts)). Qed.

Lemma sha512_one a : sha512.finalize (sha512.update sha512.new a) = SHA512 a.
Proof. rewrite <- (app_nil_r a) at 2. exact (sha512_parts [a]). Qed.

Lemma sha512_two a b :
  sha512.finalize (sha512.update (sha512.update sha512.new a) b) = SHA512 (a ++ b).
Proof. rewrite <- (app_nil_r b) at 2. exact (sha512_parts [a; b]). Qed.

Lemma xor_bytes_comm a b : xor_bytes a b = xor_bytes b a.
Proof.
  revert b. induction a as [|x a IH]; intros [|y b]; try done.
  cbn. f_equal; [apply Z.lxor_comm|apply IH].
Qed.

Lemma copy_front (l : list Z) n :
  (length l <= n)%nat -> copy_into (replicate n 0) 0 l = l ++ replicate (n - length l) 0.
Proof. intros H. unfold copy_into. change (Z.to_nat 0) with 0%nat. by rewrite drop_replicate, take_0. Qed.

Lemma key_block_spec key :
  HmacSha512.key_block key =
  let k := if (BLOCK <? length key)%nat then SHA512 key else key in
  k ++ replicate (BLOCK - length k) 0.
Proof.
  unfold HmacSha512.key_block, BLOCK. rewrite sha512_one.
  destruct (Nat.ltb_spec 128 (length key)); apply copy_front; rewrite ?length_SHA512; lia.
Qed.

Lemma hmac_parts key parts : hmac_sha512 key parts = HMAC key (concat parts).
Proof.
  set (k := HmacSha512.key_block key).
  assert (Hfold : forall m, foldl HmacSha512.update m parts =
            mkHmac (foldl sha512.update (inner m) parts) (opad_block m)).
  { induction parts as [|p parts IH]; intros [h o]; cbn [foldl]; [done|]. by rewrite IH. }
  unfold hmac_sha512, HmacSha512.finalize. rewrite Hfold. cbn [inner opad_block HmacSha512.new]. fold k.
  rewrite sha512_more, sha512_two, !(xor_bytes_comm _ k). unfold k. by rewrite key_block_spec.
Qed.

Lemma length_HMAC key text : length (HMAC key text) = 64%nat.
Proof. apply length_SHA512. Qed.

Lemma hmac_three key a b c :
  HmacSha512.finalize (HmacSha512.update (HmacSha512.update (HmacSha512.update
    (HmacSha512.new key) a) b) c) = HMAC key (a ++ b ++ c).
Proof. rewrite <- (app_nil_r c) at 2. exact (hmac_parts key [a; b; c]). Qed.

Lemma hmac_two key a b :
  HmacSha512.finalize (HmacSha512.update (HmacSha512.update (HmacSha512.new key) a) b) =
  HMAC key (a ++ b).
Proof. rewrite <- (app_nil_r b) at 2. exact (hmac_parts key [a; b]). Qed.

Lemma hmac_one key a :
  HmacSha512.finalize (HmacSha512.update (HmacSha512.new key) a) = HMAC key a.
Proof. rewrite <- (app_nil_r a) at 2. exact (hmac_parts key [a]). Qed.

(** From here on HMAC is a function to 64 bytes. *)
#[local] Opaque HMAC HmacSha512.new HmacSha512.update HmacSha512.finalize.

(** ** HKDF *)

Section expand.
Context (prk info okm0 : list Z).

(** [T(1)] to [T(n)]. *)
Definition blocks (n : nat) : list Z := concat (map (HKDF_T prk info) (seq 1 n)).

Lemma blocks_S n : blocks (S n) = blocks n ++ HKDF_T prk info (S n).
Proof. unfold blocks. rewrite seq_S, map_app, concat_app. cbn. by rewrite app_nil_r. Qed.

Lemma length_T n : length (HKDF_T prk info (S n)) = 64%nat.
Proof. apply length_HMAC. Qed.

Lemma length_blocks n : length (blocks n) = (64 * n)%nat.
Proof.
  induction n as [|n IH]; [done|]. rewrite blocks_S, length_app, IH, length_T. lia.
Qed.

Lemma take_blocks L n m : (L <= 64 * n)%nat -> (n <= m)%nat -> take L (blocks m) = take L (blocks n).
Proof.
  intros HL. induction m as [|m IH]; intros Hm; [by replace n with 0%nat by lia|].
  destruct (decide (n = S m)) as [->|]; [done|].
  rewrite blocks_S, take_app_le by (rewrite length_blocks; lia). apply IH. lia.
Qed.

(** After [n] turns. *)
Record expanded (n : nat) (s : hkdf.Expand) : Prop := {
  expanded_t : take (hkdf.t_len s) (hkdf.t s) = HKDF_T prk info n;
  expanded_offset : hkdf.offset s = Nat.min (64 * n) (length okm0);
  expanded_counter : hkdf.counter s = wrap 8 (Z.of_nat n + 1);
  expanded_okm : hkdf.okm s = take (hkdf.offset s) (blocks n) ++ drop (hkdf.offset s) okm0
}.

Lemma expanded_length n s : expanded n s -> length (hkdf.okm s) = length okm0.
Proof.
  intros [_ Ho _ ->]. rewrite length_app, length_take, length_drop, length_blocks. lia.
Qed.

(** Writing the next block behind the others. *)
Lemma next_block (n : nat) :
  (64 * n < length okm0)%nat ->
  let k := Nat.min 64 (length okm0 - 64 * n) in
  copy_into (blocks n ++ drop (64 * n) okm0) (Z.of_nat (64 * n)) (take k (HKDF_T prk info (S n))) =
  take (64 * n + k) (blocks (S n)) ++ drop (64 * n + k) okm0.
Proof.
  intros Hn k. unfold copy_into. rewrite Nat2Z.id, <- (length_blocks n), take_app_length.
  rewrite blocks_S, take_app_add, <- app_assoc. do 2 f_equal. rewrite length_take, length_T.
  rewrite drop_app_add, drop_drop. f_equal. lia.
Qed.

Lemma expand_block_ok checks n s :
  expanded n s -> (64 * n < length okm0)%nat -> (n < 255)%nat ->
  (checks = true -> (n < 254)%nat) ->
  exists s', hkdf.expand_block checks prk info s = Some s' /\ expanded (S n) s'.
Proof.
  intros Hs Hn H255 Hchk. pose proof (expanded_length n s Hs) as Hlen. destruct Hs as [Ht Ho Hc Hk].
  rewrite Nat.min_l in Ho by lia.
  unfold hkdf.expand_block. rewrite Ht, Hc, Hlen, Hk, Ho, hmac_three, (wrap_small 8) by lia.
  rewrite take_ge by (rewrite length_blocks; lia).
  replace (Z.of_nat n + 1) with (Z.of_nat (S n)) by lia.
  change (HMAC prk _) with (HKDF_T prk info (S n)). rewrite next_block by done.
  assert (hkdf.increment checks (Z.of_nat (S n)) = Some (wrap 8 (Z.of_nat (S n) + 1))) as ->.
  { unfold hkdf.increment, wrapping_add. destruct checks; [|done]. specialize (Hchk eq_refl).
    by rewrite chk_ok, wrap_small by lia. }
  eexists. split; [done|]. constructor; cbn [hkdf.t hkdf.t_len hkdf.offset hkdf.counter hkdf.okm].
  - apply take_ge. rewrite length_T. lia.
  - lia.
  - done.
  - done.
Qed.

Lemma expanded_done n s :
  expanded n s -> (length okm0 <= 64 * n)%nat -> hkdf.okm s = HKDF_Expand prk info (length okm0).
Proof.
  intros [_ Ho _ ->] Hle. rewrite Nat.min_r in Ho by lia. rewrite Ho, drop_all, app_nil_r.
  unfold HKDF_Expand. fold (blocks ((length okm0 + 63) / 64)).
  pose proof (Nat.div_mod_eq (length okm0 + 63) 64). pose proof (Nat.mod_upper_bound (length okm0 + 63) 64).
  destruct (Nat.le_ge_cases n ((length okm0 + 63) / 64)).
  - symmetry. apply take_blocks; lia.
  - apply take_blocks; lia.
Qed.

(** The loop ends with the first bytes of the blocks. *)
Lemma expand_loop_ok checks fuel n s :
  (length okm0 <= 255 * 64)%nat -> (checks = true -> (length okm0 <= 254 * 64)%nat) ->
  expanded n s -> (length okm0 - 64 * n <= fuel)%nat ->
  exists s', hkdf.expand_loop fuel checks prk info s = Some s' /\
    hkdf.okm s' = HKDF_Expand prk info (length okm0).
Proof.
  intros HL Hc. revert n s. induction fuel as [|fuel IH]; intros n s Hs Hf; cbn [hkdf.expand_loop].
  - exists s. split; [done|]. apply (expanded_done n); [done|lia].
  - rewrite (expanded_length n s Hs), (expanded_offset n s Hs).
    destruct (Nat.ltb_spec (Nat.min (64 * n) (length okm0)) (length okm0)).
    + destruct (expand_block_ok checks n s Hs) as (s' & -> & Hs'); [lia|lia| |].
      { intros ->. specialize (Hc eq_refl). lia. }
      apply (IH (S n) s' Hs'). lia.
    + exists s. split; [done|]. apply (expanded_done n); [done|lia].
Qed.

(** With overflow checks the 255th block is never returned. *)
Lemma expand_loop_overflow fuel n s :
  (254 * 64 < length okm0 <= 255 * 64)%nat -> expanded n s -> (n <= 254)%nat ->
  (254 - n < fuel)%nat -> hkdf.expand_loop fuel true prk info s = None.
Proof.
  intros HL. revert n s. induction fuel as [|fuel IH]; intros n s Hs Hn Hf; [lia|].
  cbn [hkdf.expand_loop]. rewrite (expanded_length n s Hs), (expanded_offset n s Hs).
  destruct (Nat.ltb_spec (Nat.min (64 * n) (length okm0)) (length okm0)); [|lia].
  destruct (decide (n = 254%nat)) as [->|Hne].
  - unfold hkdf.expand_block. by rewrite (expanded_counter _ _ Hs).
  - destruct (expand_block_ok true n s Hs) as (s' & -> & Hs'); [lia..|]. apply (IH (S n)); [done|lia|lia].
Qed.

Lemma expanded_start : expanded 0 (hkdf.mkExpand (replicate 64 0) 0 0 1 okm0).
Proof. by constructor. Qed.

End expand.

(** [derive] is HKDF of RFC 5869, extract then expand, for every length the
    assertion admits when the build does not check overflow, and for all but
    the lengths that need the 255th block when it does. *)
Theorem hkdf_computes_rfc5869 (checks : bool) (ikm salt info okm : list Z)
    (Hlen : (length okm <= (if checks then 254 else 255) * 64)%nat) :
  hkdf.derive checks ikm salt info okm =
  Some (HKDF_Expand (HMAC salt ikm) info (length okm)).
Proof.
  unfold hkdf.derive, hkdf.expand, hkdf.extract. rewrite hmac_parts. cbn [concat]. rewrite app_nil_r.
  destruct (Nat.leb_spec (length okm) (255 * 64)); [|destruct checks; lia].
  destruct (expand_loop_ok (HMAC salt ikm) info okm checks (length okm) 0
    (hkdf.mkExpand (replicate 64 0) 0 0 1 okm)) as (s' & -> & Hs');
    [done|by intros ->|apply expanded_start|lia|]. cbn [mbind option_bind]. by rewrite Hs'.
Qed.

Lemma hkdf_computes_rfc5869_witness :
  hkdf.derive true [1] [2] [3] [0; 0] = Some (HKDF_Expand (HMAC [2] [1]) [3] 2).
Proof. apply (hkdf_computes_rfc5869 true [1] [2] [3] [0; 0]). cbn. lia. Defined.

(** An output that needs the 255th block passes the assertion and then
    overflows the counter behind that block. *)
Theorem hkdf_longest_output_panics (prk info okm : list Z)
    (Hlen : (254 * 64 < length okm <= 255 * 64)%nat) :
  hkdf.expand true prk info okm = None.
Proof.
  unfold hkdf.expand. destruct (Nat.leb_spec (length okm) (255 * 64)); [|done].
  rewrite (expand_loop_overflow prk info okm (length okm) 0); [done|lia|apply expanded_start|lia|lia].
Qed.

Lemma hkdf_longest_output_panics_witness :
  hkdf.expand true [] [] (replicate (255 * 64) 0) = None.
Proof. apply hkdf_longest_output_panics. rewrite length_replicate. lia. Defined.

(** ** PBKDF2 *)

Lemma pbkdf2_rounds password salt n :
  Nat.iter n (pbkdf2_round password)
    (PBKDF2_U password salt 0, PBKDF2_U password salt 0) =
  (PBKDF2_U password salt n, PBKDF2_F password salt (S n)).
Proof.
  unfold PBKDF2_F. rewrite Nat.sub_succ, Nat.sub_0_r. induction n as [|n IH]; [done|].
  rewrite Nat.iter_succ, IH. unfold pbkdf2_round. rewrite hmac_one.
  rewrite seq_S, map_app, foldl_app. done.
Qed.

(** The derived key is the first block of PBKDF2 with HMAC-SHA-512: the
    exclusive or of the [U_i]; no iterations give zeros. *)
Theorem pbkdf2_computes_rfc8018 password salt iterations :
  pbkdf2_hmac_sha512 password salt iterations =
  if iterations =? 0 then replicate 64 0
  else PBKDF2_F password salt (S (Z.to_nat (iterations - 1))).
Proof.
  unfold pbkdf2_hmac_sha512. destruct (Z.eqb_spec iterations 0); [done|].
  rewrite hmac_two. change (HMAC password _) with (PBKDF2_U password salt 0).
  by rewrite pbkdf2_rounds.
Qed.
