(* ===== verification/Ed25519.v ===== *)
(** * Ed25519 (shared/crypto/src/point.rs, ed25519.rs)

    Points in extended coordinates over the limb arithmetic, their encoding,
    and signatures, refined to RFC 8032 on residues modulo 2^255 - 19.  The
    limb bounds that make the unchecked additions and the lazy subtractions
    safe are part of the refinement: every function returns. *)

From S2P Require Import Prelude Words Field25519 X25519 Scalar25519 Sha2 Hmac.
From stdpp Require Import base list option.
From Stdlib Require Import ZArith Lia Zdiv.

#[local] Open Scope Z_scope.

Record Point : Type := mkPoint { x : Limbs; y : Limbs; z : Limbs; t : Limbs }.

Definition D_BYTES : list Z :=
  to_be_bytes 32 0xa3785913ca4deb75abd841414d0a700098e879777940c78c73fe6f2bee6c0352.

Definition BASE_COMPRESSED : list Z := 0x58 :: replicate 31 0x66.

(** [!=] and [==] on encodings. *)
Definition bytes_eqb (a b : list Z) : bool := bool_decide (a = b).

(** [decompress] up to the candidate root: the [y] coordinate and [w]. *)
Definition decompress_w (bytes : list Z) : option (option (Limbs * Limbs)) :=
  let y_bytes := <[31%nat := Z.land (bytes !!! 31%nat) 0x7f]> bytes in
  let y := Fe.from_bytes y_bytes in
  e ← Fe.to_bytes y;
  if negb (bytes_eqb e y_bytes) then Some None else
  yy ← Fe.square y;
  u ← Fe.sub yy Fe.ONE;
  dyy ← Fe.mul yy (Fe.from_bytes D_BYTES);
  v ← Fe.add dyy Fe.ONE;
  zero ← Fe.is_zero v;
  if (zero : bool) then Some None else
  vinv ← Fe.invert v;
  w ← Fe.mul u vinv;
  Some (Some (y, w)).

(** The candidate for the square root of [w]. *)
Definition decompress_candidate (w : Limbs) : option Limbs :=
  '(t19, _) ← Fe.pow22501 w;
  r ← Fe.pow2k t19 2;
  ww ← Fe.square w;
  Fe.mul r ww.

(** The square root of [w], when the candidate or its product with the root
    of -1 is one. *)
Definition decompress_root (w : Limbs) : option (option Limbs) :=
  root ← decompress_candidate w;
  rr ← Fe.square root;
  ok ← Fe_ct_eq rr w;
  if (ok : bool) then Some (Some root) else
  i ← Fe.sqrt_m1;
  root ← Fe.mul root i;
  rr ← Fe.square root;
  ok ← Fe_ct_eq rr w;
  Some (if (ok : bool) then Some root else None).

(** The outer [option] is a panic, the inner one the result. *)
Definition decompress (bytes : list Z) : option (option Point) :=
  let sign := Z.shiftr (bytes !!! 31%nat) 7 =? 1 in
  r ← decompress_w bytes;
  match r with
  | None => Some None
  | Some (y, w) =>
      r ← decompress_root w;
      match r with
      | None => Some None
      | Some root =>
          neg ← Fe.is_negative root;
          root ← (if Bool.eqb neg sign then Some root else Fe.negate root);
          t ← Fe.mul root y;
          Some (Some (mkPoint root y Fe.ONE t))
      end
  end.

Module Point.

Definition identity : Point := mkPoint Fe.ZERO Fe.ONE Fe.ONE Fe.ZERO.

Definition base : option Point :=
  p ← decompress BASE_COMPRESSED;
  Some (match p with Some p => p | None => identity end).

Definition add (p q : Point) : option Point :=
  d2 ← Fe.add (Fe.from_bytes D_BYTES) (Fe.from_bytes D_BYTES);
  yx1 ← Fe.sub (y p) (x p);
  yx2 ← Fe.sub (y q) (x q);
  a ← Fe.mul yx1 yx2;
  xy1 ← Fe.add (y p) (x p);
  xy2 ← Fe.add (y q) (x q);
  b ← Fe.mul xy1 xy2;
  td ← Fe.mul (t p) d2;
  c ← Fe.mul td (t q);
  d ← Fe.mul (z p) (z q);
  dd ← Fe.add d d;
  e ← Fe.sub b a;
  f ← Fe.sub dd c;
  g ← Fe.add dd c;
  h ← Fe.add b a;
  x3 ← Fe.mul e f;
  y3 ← Fe.mul g h;
  t3 ← Fe.mul e h;
  z3 ← Fe.mul f g;
  Some (mkPoint x3 y3 z3 t3).

Definition double (p : Point) : option Point :=
  a ← Fe.square (x p);
  b ← Fe.square (y p);
  c ← Fe.square (z p);
  cc ← Fe.add c c;
  h ← Fe.add a b;
  xy ← Fe.add (x p) (y p);
  sq ← Fe.square xy;
  e ← Fe.sub h sq;
  g ← Fe.sub a b;
  f ← Fe.add cc g;
  x3 ← Fe.mul e f;
  y3 ← Fe.mul g h;
  t3 ← Fe.mul e h;
  z3 ← Fe.mul f g;
  Some (mkPoint x3 y3 z3 t3).

Definition select (a b : Point) (choice : Z) : Point :=
  mkPoint (Fe.select (x a) (x b) choice) (Fe.select (y a) (y b) choice)
    (Fe.select (z a) (z b) choice) (Fe.select (t a) (t b) choice).

(** [for bit in (0..n).rev()] *)
Fixpoint mul_loop (p : Point) (bytes : list Z) (r : Point) (n : nat) : option Point :=
  match n with
  | O => Some r
  | S bit =>
      let b := bit_at bytes bit in
      r ← double r;
      sum ← add r p;
      mul_loop p bytes (select sum r b) bit
  end.

Definition mul_scalar (p : Point) (s : list Z) : option Point := mul_loop p s identity 255.

Definition eq (a b : Point) : option bool :=
  l ← Fe.mul (x a) (z b);
  r ← Fe.mul (x b) (z a);
  ex ← Fe_ct_eq l r;
  if (ex : bool) then
    l ← Fe.mul (y a) (z b);
    r ← Fe.mul (y b) (z a);
    Fe_ct_eq l r
  else Some false.

Definition compress (p : Point) : option (list Z) :=
  zinv ← Fe.invert (z p);
  x ← Fe.mul (x p) zinv;
  y ← Fe.mul (y p) zinv;
  out ← Fe.to_bytes y;
  neg ← Fe.is_negative x;
  Some (if (neg : bool) then <[31%nat := Z.lor (out !!! 31%nat) 0x80]> out else out).

End Point.

Module ed25519.

Definition clamp (h : list Z) : list Z :=
  let a := take 32 h in
  let a := <[0%nat := Z.land (a !!! 0%nat) 248]> a in
  let a := <[31%nat := Z.land (a !!! 31%nat) 127]> a in
  <[31%nat := Z.lor (a !!! 31%nat) 64]> a.

Definition public_key (seed : list Z) : option (list Z) :=
  let h := sha512.digest [seed] in
  let a := clamp h in
  base ← Point.base;
  p ← Point.mul_scalar base a;
  Point.compress p.

Definition sign (seed message : list Z) : option (list Z) :=
  let h := sha512.digest [seed] in
  let a := clamp h in
  base ← Point.base;
  p ← Point.mul_scalar base a;
  public ← Point.compress p;
  let r := Scalar.reduce_wide (sha512.digest [slice h 32 64; message]) in
  rp ← Point.mul_scalar base r;
  big_r ← Point.compress rp;
  let k := Scalar.reduce_wide (sha512.digest [big_r; public; message]) in
  s ← Scalar.mul_add k a r;
  Some (big_r ++ s).

Definition verify (public_key message signature : list Z) : option bool :=
  pa ← decompress public_key;
  match pa with
  | None => Some false
  | Some point_a =>
      let r_bytes := slice signature 0 32 in
      pr ← decompress r_bytes;
      match pr with
      | None => Some false
      | Some big_r =>
          let s_bytes := slice signature 32 64 in
          if negb (Scalar.is_canonical s_bytes) then Some false else
          let k := Scalar.reduce_wide (sha512.digest [r_bytes; public_key; message]) in
          base ← Point.base;
          lhs ← Point.mul_scalar base s_bytes;
          ka ← Point.mul_scalar point_a k;
          rhs ← Point.add big_r ka;
          Point.eq lhs rhs
      end
  end.

End ed25519.

(** ** RFC 8032, section 5.1, on residues

    A point is the residues X, Y, Z, T. *)

Definition EPoint : Type := Z * Z * Z * Z.

(** The curve constant. *)
Definition ED : Z := from_le_bytes D_BYTES.

Definition ed_identity : EPoint := (0, 1, 1, 0).

Definition ed_add (P Q : EPoint) : EPoint :=
  let '(X1, Y1, Z1, T1) := P in
  let '(X2, Y2, Z2, T2) := Q in
  let A := (Y1 - X1) * (Y2 - X2) in
  let B := (Y1 + X1) * (Y2 + X2) in
  let C := T1 * (2 * ED) * T2 in
  let D := 2 * (Z1 * Z2) in
  let E := B - A in
  let F := D - C in
  let G := D + C in
  let H := B + A in
  (E * F mod P25519, G * H mod P25519, F * G mod P25519, E * H mod P25519).

Definition ed_double (P : EPoint) : EPoint :=
  let '(X1, Y1, Z1, _) := P in
  let A := X1 * X1 in
  let B := Y1 * Y1 in
  let C := 2 * (Z1 * Z1) in
  let H := A + B in
  let E := H - (X1 + Y1) * (X1 + Y1) in
  let G := A - B in
  let F := C + G in
  (E * F mod P25519, G * H mod P25519, F * G mod P25519, E * H mod P25519).

(** [[s]P], from the bit [n - 1] of [s] down, added to [[2^n]R]. *)
Fixpoint ed_mul_from (P : EPoint) (s : Z) (R : EPoint) (n : nat) : EPoint :=
  match n with
  | O => R
  | S n =>
      let R2 := ed_double R in
      ed_mul_from P s (if Z.testbit s (Z.of_nat n) then ed_add R2 P else R2) n
  end.

Definition ed_mul (s : Z) (P : EPoint) : EPoint := ed_mul_from P s ed_identity 255.

(** Section 5.1.2: the little-endian [y] with the low bit of [x] on top. *)
Definition ed_encode (P : EPoint) : list Z :=
  let '(X, Y, Zc, _) := P in
  let zinv := Zc ^ (P25519 - 2) in
  to_le_bytes 32 ((Y * zinv) mod P25519 + 2 ^ 255 * (((X * zinv) mod P25519) mod 2)).

(** Section 5.1.3: the square root of [w = u / v] is [w^((p+3)/8)] or that
    times the square root of -1. *)
Definition ed_sqrt_m1 : Z := 2 ^ ((P25519 - 1) / 4).

Definition ed_root (w : Z) : option Z :=
  let r := w ^ ((P25519 + 3) / 8) in
  if (r * r) mod P25519 =? w mod P25519 then Some (r mod P25519) else
  let r := r * ed_sqrt_m1 in
  if (r * r) mod P25519 =? w mod P25519 then Some (r mod P25519) else None.

(** The root with the parity asked for. *)
Definition ed_with_sign (r sign : Z) : Z := if r mod 2 =? sign then r else (- r) mod P25519.

(** Decoding.  The last check of the RFC, that [x = 0] does not come with the
    sign bit, is not made by the code and is not part of this definition: see
    [negative_zero_is_accepted]. *)
Definition ed_decode (b : list Z) : option EPoint :=
  let n := from_le_bytes b in
  let Y := n mod 2 ^ 255 in
  if P25519 <=? Y then None else
  let u := Y * Y - 1 in
  let v := Y * Y * ED + 1 in
  if v mod P25519 =? 0 then None else
  match ed_root (u * v ^ (P25519 - 2)) with
  | None => None
  | Some r =>
      let X := ed_with_sign r (n / 2 ^ 255) in
      Some (X, Y, 1, (X * Y) mod P25519)
  end.

Definition ed_base : EPoint := default ed_identity (ed_decode BASE_COMPRESSED).

(** Equality of the affine points. *)
Definition ed_eqb (P Q : EPoint) : bool :=
  let '(X1, Y1, Z1, _) := P in
  let '(X2, Y2, Z2, _) := Q in
  ((X1 * Z2) mod P25519 =? (X2 * Z1) mod P25519) && ((Y1 * Z2) mod P25519 =? (Y2 * Z1) mod P25519).

(** Section 5.1.5: the secret scalar, with its three low bits cleared and the
    bit 254 set. *)
Definition ed_secret (h : list Z) : Z := 2 ^ 254 + 8 * (from_le_bytes (take 32 h) / 8 mod 2 ^ 251).

Definition ed_public (seed : list Z) : list Z := ed_encode (ed_mul (ed_secret (SHA512 seed)) ed_base).

(** Section 5.1.6 *)
Definition ed_sign (seed message : list Z) : list Z :=
  let h := SHA512 seed in
  let r := from_le_bytes (SHA512 (drop 32 h ++ message)) mod ORDER in
  let R := ed_encode (ed_mul r ed_base) in
  let k := from_le_bytes (SHA512 (R ++ ed_public seed ++ message)) mod ORDER in
  R ++ to_le_bytes 32 ((k * ed_secret h + r) mod ORDER).

(** Section 5.1.7, without the cofactor. *)
Definition ed_verify (public message signature : list Z) : bool :=
  let Rb := take 32 signature in
  let s := from_le_bytes (drop 32 signature) in
  match ed_decode public, ed_decode Rb with
  | Some A, Some R =>
      let k := from_le_bytes (SHA512 (Rb ++ public ++ message)) mod ORDER in
      (s <? ORDER) && ed_eqb (ed_mul s ed_base) (ed_add R (ed_mul k A))
  | _, _ => false
  end.

(** d = -121665/121666 *)
Lemma curve_constant : (ED * 121666) mod P25519 = (- 121665) mod P25519.
Proof. vm_compute. reflexivity. Qed.

(** ** Field elements as coordinates *)

Definition coord (a : Limbs) (n : Z) : Prop := flat a /\ stands_for a n.

Lemma coord_of a n m : tight a -> stands_for a n -> n = m -> coord a (m mod P25519).
Proof.
  intros Ht Hs ->. split; [by apply tight_flat|]. unfold stands_for in *.
  by rewrite Z.mod_mod by (pose proof P25519_pos; lia).
Qed.

Lemma coord_const n : 0 <= n < 2 ^ 51 -> coord (mkLimbs n 0 0 0 0) n.
Proof.
  intros Hn. split; [unfold flat, TWO_P; cbn [limb0 limb1 limb2 limb3 limb4]; lia|].
  unfold stands_for, eval_limbs. cbn [limb0 limb1 limb2 limb3 limb4]. f_equal. lia.
Qed.

Lemma coord_D : below TIGHT (Fe.from_bytes D_BYTES) /\ stands_for (Fe.from_bytes D_BYTES) ED.
Proof.
  destruct (fe_from_bytes_ok D_BYTES) as [Hr He]; [apply is_bytes_to_be|done|].
  split; [unfold reduced, below, TIGHT in *; lia|]. unfold stands_for. rewrite He. by vm_compute.
Qed.

Record point_rep (p : Point) (P : EPoint) : Prop := {
  rep_x : coord (x p) P.1.1.1;
  rep_y : coord (y p) P.1.1.2;
  rep_z : coord (z p) P.1.2;
  rep_t : coord (t p) P.2
}.

(** The bounds of the coordinates, for [fe_step]. *)
Ltac coords H :=
  let F1 := fresh "F" in let S1 := fresh "S" in let F2 := fresh "F" in let S2 := fresh "S" in
  let F3 := fresh "F" in let S3 := fresh "S" in let F4 := fresh "F" in let S4 := fresh "S" in
  destruct H as [[F1 S1] [F2 S2] [F3 S3] [F4 S4]]; cbn [fst snd] in S1, S2, S3, S4;
  pose proof (flat_below _ F1); pose proof (flat_below _ F2); pose proof (flat_below _ F3);
  pose proof (flat_below _ F4).

Lemma point_add_ok p q P Q :
  point_rep p P -> point_rep q Q ->
  exists r, Point.add p q = Some r /\ point_rep r (ed_add P Q).
Proof.
  destruct p as [px py pz pt], q as [qx qy qz qt], P as [[[X1 Y1] Z1] T1], Q as [[[X2 Y2] Z2] T2].
  intros Hp Hq. coords Hp. coords Hq. destruct coord_D as [BD SD]. unfold Point.add.
  cbn [x y z t] in *. repeat fe_step. eexists. split; [done|].
  constructor; cbn [x y z t ed_add fst snd].
  all: eapply coord_of; [done|eassumption|ring].
Qed.

Lemma point_double_ok p P :
  point_rep p P -> exists r, Point.double p = Some r /\ point_rep r (ed_double P).
Proof.
  destruct p as [px py pz pt], P as [[[X1 Y1] Z1] T1]. intros Hp. coords Hp. unfold Point.double.
  cbn [x y z t] in *. repeat fe_step. eexists. split; [done|].
  constructor; cbn [x y z t ed_double fst snd].
  all: eapply coord_of; [done|eassumption|ring].
Qed.

(** ** Selection and comparison *)

Lemma fe_select_ok a b (c : bool) :
  flat a -> flat b -> Fe.select a b (Z.b2z c) = if c then a else b.
Proof.
  destruct a as [a0 a1 a2 a3 a4], b as [b0 b1 b2 b3 b4]. unfold flat, TWO_P, Fe.select.
  cbn [limb0 limb1 limb2 limb3 limb4]. intros Ha Hb. destruct c.
  - change (wrapping_neg 64 (Z.land (Z.b2z true) 1)) with (2 ^ 64 - 1).
    rewrite !(Z.lxor_comm a0), !(Z.lxor_comm a1), !(Z.lxor_comm a2), !(Z.lxor_comm a3), !(Z.lxor_comm a4).
    by rewrite !pick_ones by (unfold is_word; lia).
  - change (wrapping_neg 64 (Z.land (Z.b2z false) 1)) with 0. by rewrite !Z.land_0_l, !Z.lxor_0_r.
Qed.

Lemma point_select_ok a b A B (c : bool) :
  point_rep a A -> point_rep b B -> Point.select a b (Z.b2z c) = if c then a else b.
Proof.
  destruct a, b. intros [[? _] [? _] [? _] [? _]] [[? _] [? _] [? _] [? _]].
  unfold Point.select. cbn [x y z t] in *. rewrite !fe_select_ok by done. by destruct c.
Qed.

Lemma mul_loop_ok s p P n : forall r R,
  is_bytes s -> length s = 32%nat -> (n <= 255)%nat -> point_rep p P -> point_rep r R ->
  exists r', Point.mul_loop p s r n = Some r' /\ point_rep r' (ed_mul_from P (from_le_bytes s) R n).
Proof.
  induction n as [|n IH]; intros r R Hs Hl Hn Hp Hr; cbn [Point.mul_loop ed_mul_from]; [by exists r|].
  destruct (point_double_ok r R Hr) as (r2 & -> & H2). cbn [mbind option_bind].
  destruct (point_add_ok r2 p _ _ H2 Hp) as (r3 & -> & H3). cbn [mbind option_bind].
  rewrite bit_at_ok by (done || lia). rewrite (point_select_ok _ _ _ _ _ H3 H2).
  apply IH; try done; [lia|]. by destruct (Z.testbit _ _).
Qed.

Lemma identity_ok : point_rep Point.identity ed_identity.
Proof. by constructor; apply (coord_const 0) || apply (coord_const 1). Qed.

Lemma mul_scalar_ok s p P :
  is_bytes s -> length s = 32%nat -> point_rep p P ->
  exists r, Point.mul_scalar p s = Some r /\ point_rep r (ed_mul (from_le_bytes s) P).
Proof.
  intros Hs Hl Hp. unfold Point.mul_scalar, ed_mul.
  apply (mul_loop_ok s p P 255 Point.identity ed_identity Hs Hl (le_n _) Hp identity_ok).
Qed.

Lemma residue_bound n : 0 <= n mod P25519 < 2 ^ 255.
Proof. pose proof (Z.mod_pos_bound n P25519 P25519_pos). unfold P25519 in *. lia. Qed.

Lemma fe_ct_eq_ok a b :
  settled a -> settled b -> Fe_ct_eq a b = Some (eval51 a mod P25519 =? eval51 b mod P25519).
Proof.
  intros Ha Hb. unfold Fe_ct_eq. rewrite !fe_to_bytes_ok by done. cbn [mbind option_bind]. f_equal.
  unfold constant_time_eq. apply eq_true_iff_eq. rewrite !Z.eqb_eq, fold_xor_eq; [|done].
  split; [|by intros ->]. intros E. apply (f_equal from_le_bytes) in E.
  rewrite !from_to_le in E. change (2 ^ (8 * Z.of_nat 32)) with (2 ^ 256) in E.
  pose proof (residue_bound (eval51 a)). pose proof (residue_bound (eval51 b)).
  by rewrite (Z.mod_small (eval51 a mod _)), (Z.mod_small (eval51 b mod _)) in E by lia.
Qed.

(** Comparison of two products. *)
Lemma products_eq_ok a b n m :
  tight a -> stands_for a n -> tight b -> stands_for b m ->
  Fe_ct_eq a b = Some (n mod P25519 =? m mod P25519).
Proof. intros. rewrite fe_ct_eq_ok by (by apply tight_settled). congruence. Qed.

Ltac ct_step :=
  match goal with
  | Ta : tight ?a, Sa : stands_for ?a ?n, Tb : tight ?b, Sb : stands_for ?b ?m
      |- context [Fe_ct_eq ?a ?b] => rewrite (products_eq_ok a b n m Ta Sa Tb Sb)
  end; cbn [mbind option_bind].

Lemma point_eq_ok a b A B :
  point_rep a A -> point_rep b B -> Point.eq a b = Some (ed_eqb A B).
Proof.
  destruct a as [ax ay az at_], b as [bx by_ bz bt], A as [[[X1 Y1] Z1] T1], B as [[[X2 Y2] Z2] T2].
  intros Ha Hb. coords Ha. coords Hb. unfold Point.eq. cbn [x y z t] in *.
  repeat fe_step. cbn [ed_eqb].
  repeat ct_step. by destruct (_ =? _).
Qed.

(** ** Encoding *)

Lemma sqrt_m1_is : ed_sqrt_m1 = 2 ^ ((P25519 - 1) / 4).
Proof. unfold ed_sqrt_m1. exact eq_refl. Qed.

#[local] Opaque ed_sqrt_m1.

Lemma fe_is_negative_ok a n :
  tight a -> stands_for a n -> Fe.is_negative a = Some (n mod P25519 mod 2 =? 1).
Proof.
  intros Ht Hs. unfold Fe.is_negative. rewrite fe_to_bytes_ok by (by apply tight_settled).
  unfold stands_for in Hs. rewrite Hs. cbn [mbind option_bind]. f_equal. f_equal.
  change (to_le_bytes 32 ?m !!! 0%nat) with (m mod 256). rewrite (land_mask _ 1) by lia.
  change (2 ^ 1) with 2. rewrite Z.mod_mod_divide; [done|]. by exists 128.
Qed.

(** The sign bit on top of a residue. *)
Lemma set_top_bit n :
  0 <= n < 2 ^ 255 ->
  <[31%nat := Z.lor (to_le_bytes 32 n !!! 31%nat) 0x80]> (to_le_bytes 32 n) =
  to_le_bytes 32 (n + 2 ^ 255).
Proof.
  intros Hn. assert (E : forall m, to_le_bytes 32 m = to_le_bytes 31 m ++ [m / 2 ^ 248 mod 256])
    by (intros m; exact (to_le_app 31 1 m)).
  rewrite !E, lookup_total_app_r, insert_app_r_alt by (rewrite length_to_le_bytes; lia).
  rewrite length_to_le_bytes. change (31 - 31)%nat with 0%nat. cbn [insert list_insert lookup_total list_lookup_total].
  rewrite <- (to_le_mod 31 n), <- (to_le_mod 31 (n + _)). change (8 * Z.of_nat 31) with 248.
  change (2 ^ 255) with (128 * 2 ^ 248) in *. rewrite Z.mod_add, Z.div_add by lia.
  assert (0 <= n / 2 ^ 248 < 128) by (Z.to_euclidean_division_equations; lia).
  rewrite (Z.mod_small (n / 2 ^ 248)), (Z.mod_small (_ + 128)) by lia.
  change 0x80 with (1 * 2 ^ 7). rewrite lor_low by lia. done.
Qed.

Lemma point_compress_ok p P : point_rep p P -> Point.compress p = Some (ed_encode P).
Proof.
  destruct p as [px py pz pt], P as [[[X Y] Zc] T]. intros Hp. coords Hp.
  unfold Point.compress, ed_encode. cbn [x y z t] in *.
  destruct (fe_invert_ok pz (2 ^ 52) Zc) as (i & -> & Ti & Bi & Si); [done|done|closed_le|].
  generalize dependent (Zc ^ (P25519 - 2)). intros zinv Si. cbn [mbind option_bind]. repeat fe_step.
  erewrite fe_is_negative_ok by eassumption. rewrite fe_to_bytes_ok by (by apply tight_settled).
  cbn [mbind option_bind]. f_equal.
  match goal with S : stands_for _ (Y * zinv) |- _ => unfold stands_for in S; rewrite S end.
  assert (M : (X * zinv) mod P25519 mod 2 = 0 \/ (X * zinv) mod P25519 mod 2 = 1)
    by (pose proof (Z.mod_pos_bound ((X * zinv) mod P25519) 2); lia).
  destruct M as [-> | ->]; cbn [Z.eqb].
  - f_equal. lia.
  - rewrite set_top_bit by apply residue_bound. f_equal.
Qed.

(** ** Decoding *)

Lemma fe_add_one_ok a n :
  tight a -> stands_for a n ->
  exists c, Fe.add a Fe.ONE = Some c /\ settled c /\ below (TIGHT + 1) c /\ stands_for c (n + 1).
Proof.
  destruct a as [a0 a1 a2 a3 a4]. unfold tight, settled, below, TIGHT, Fe.add, Fe.ONE, stands_for.
  cbn [limb0 limb1 limb2 limb3 limb4]. intros Ha Sa. rewrite !chk_ok by lia. cbn [mbind option_bind].
  eexists. split; [done|]. cbn [limb0 limb1 limb2 limb3 limb4]. split; [lia|]. split; [lia|].
  rewrite (Z.add_mod n 1), <- Sa, <- Z.add_mod by (unfold P25519; lia). f_equal.
  unfold eval_limbs. cbn [limb0 limb1 limb2 limb3 limb4]. lia.
Qed.

Lemma to_le_32_eqb n m :
  0 <= n < 2 ^ 256 -> 0 <= m < 2 ^ 256 -> bytes_eqb (to_le_bytes 32 n) (to_le_bytes 32 m) = (n =? m).
Proof.
  intros Hn Hm. unfold bytes_eqb. apply eq_true_iff_eq. rewrite bool_decide_eq_true, Z.eqb_eq.
  split; [|by intros ->]. intros E. apply (f_equal from_le_bytes) in E. rewrite !from_to_le in E.
  change (2 ^ (8 * Z.of_nat 32)) with (2 ^ 256) in E. by rewrite !Z.mod_small in E by lia.
Qed.

Lemma fe_is_zero_ok a n :
  settled a -> stands_for a n -> Fe.is_zero a = Some (n mod P25519 =? 0).
Proof.
  intros Ha Hs. unfold Fe.is_zero. rewrite fe_to_bytes_ok by done. unfold stands_for in Hs.
  rewrite Hs. cbn [mbind option_bind]. f_equal. pose proof (residue_bound n).
  apply (to_le_32_eqb _ 0); lia.
Qed.

(** A coordinate read from its encoding. *)
Lemma decoded_y b :
  is_bytes b -> length b = 32%nat ->
  let yb := <[31%nat := Z.land (b !!! 31%nat) 0x7f]> b in
  let Y := from_le_bytes b mod 2 ^ 255 in
  (reduced (Fe.from_bytes yb) /\ stands_for (Fe.from_bytes yb) Y) /\
  Fe.to_bytes (Fe.from_bytes yb) = Some (to_le_bytes 32 (Y mod P25519)) /\
  bytes_eqb (to_le_bytes 32 (Y mod P25519)) yb = negb (P25519 <=? Y).
Proof.
  intros Hb Hl yb Y. destruct (masked_top b Hb Hl) as [Hm Em]. fold yb Y in Hm, Em.
  assert (Hlm : length yb = 32%nat) by (unfold yb; by rewrite length_insert).
  destruct (fe_from_bytes_ok yb Hm Hlm) as [Hr He]. rewrite Em in He.
  assert (HY : 0 <= Y < 2 ^ 255) by (by apply Z.mod_pos_bound).
  rewrite (Z.mod_small Y) in He by done.
  split; [split; [done|by unfold stands_for; rewrite He]|]. split.
  - rewrite fe_to_bytes_ok by (unfold reduced, settled in *; lia). by rewrite He.
  - rewrite <- (to_from_le yb Hm), Hlm, Em, to_le_32_eqb by (pose proof (residue_bound Y); lia).
    destruct (Z.leb_spec P25519 Y).
    + apply Z.eqb_neq. pose proof (Z.mod_pos_bound Y P25519 P25519_pos). lia.
    + apply Z.eqb_eq. apply Z.mod_small. lia.
Qed.

(** The quotient [u / v] of the [y] coordinate [Y]. *)
Definition ed_w (Y : Z) : Z := (Y * Y - 1) * (Y * Y * ED + 1) ^ (P25519 - 2).

Lemma decompress_w_ok b :
  is_bytes b -> length b = 32%nat ->
  let Y := from_le_bytes b mod 2 ^ 255 in
  if (P25519 <=? Y) || ((Y * Y * ED + 1) mod P25519 =? 0) then decompress_w b = Some None
  else exists ly w, decompress_w b = Some (Some (ly, w)) /\ coord ly Y /\
         tight w /\ below TIGHT w /\ stands_for w (ed_w Y).
Proof.
  intros Hb Hl Y. destruct (decoded_y b Hb Hl) as ([Hr Hs] & Ht & Hc). fold Y in Hs, Ht, Hc.
  unfold decompress_w. rewrite Ht. cbn [mbind option_bind]. rewrite Hc, negb_involutive.
  destruct (P25519 <=? Y); [done|]. cbn [orb]. set (ly := Fe.from_bytes _) in *.
  assert (BY : below TIGHT ly) by (unfold reduced, below, TIGHT in *; lia).
  assert (FY : flat ly) by (unfold reduced, flat, TWO_P in *; cbn [limb0 limb1 limb2 limb3 limb4]; lia).
  destruct coord_D as [BD SD]. destruct (coord_const 1 ltac:(lia)) as [F1 S1].
  change (mkLimbs 1 0 0 0 0) with Fe.ONE in F1, S1. clear Ht Hc. clearbody ly Y.
  do 2 fe_step. destruct (fe_add_one_ok c0 (Y * Y * ED)) as (v & -> & Tv & Bv & Sv); [done|done|].
  cbn [mbind option_bind]. fe_step. rewrite (fe_is_zero_ok v (Y * Y * ED + 1)) by done. cbn [mbind option_bind].
  destruct (_ =? 0); [done|].
  destruct (fe_invert_ok v (TIGHT + 1) (Y * Y * ED + 1)) as (i & -> & Ti & Bi & Si);
    [done|done|closed_le|]. unfold ed_w.
  generalize dependent ((Y * Y * ED + 1) ^ (P25519 - 2)). intros vinv Si.
  cbn [mbind option_bind]. fe_step. exists ly, c2.
  exact (conj eq_refl (conj (conj FY Hs) (conj T1 (conj B2 S3)))).
Qed.

(** [Fe::sqrt_m1] with 2 left open. *)
Lemma sqrt_chain two n :
  below TIGHT two -> stands_for two n ->
  exists c, (two_squared ← Fe.square two; two_cubed ← Fe.mul two_squared two;
             '(t19, _) ← Fe.pow22501 two; r ← Fe.pow2k t19 3; Fe.mul r two_cubed) = Some c /\
    tight c /\ below TIGHT c /\ stands_for c (n ^ ((P25519 - 1) / 4)).
Proof.
  intros Bt St. destruct (fe_pow22501_ok two TIGHT n Bt St ltac:(closed_le))
    as (t19 & t3 & E & (T1 & B1 & S1) & _). rewrite <- (Z.pow_1_r n) in St.
  repeat chain_step. rewrite E. cbn [mbind option_bind]. repeat chain_step.
  eexists. split; [done|]. split; [done|]. split; [done|].
  eapply stands_for_pow; [eassumption|]. vm_compute. reflexivity.
Qed.

Lemma sqrt_m1_ok :
  exists c, Fe.sqrt_m1 = Some c /\ tight c /\ below TIGHT c /\ stands_for c ed_sqrt_m1.
Proof.
  destruct (rep_const 2 ltac:(lia)) as [B S].
  destruct (sqrt_chain (mkLimbs 2 0 0 0 0) 2 B S) as (c & E & Tc & Bc & Sc).
  exists c. split; [exact E|]. split; [exact Tc|]. split; [exact Bc|].
  rewrite sqrt_m1_is. exact Sc.
Qed.

Lemma candidate_ok w n :
  below TIGHT w -> stands_for w n ->
  exists c, decompress_candidate w = Some c /\ tight c /\ below TIGHT c /\ stands_for c (n ^ ((P25519 + 3) / 8)).
Proof.
  intros Bw Sw. unfold decompress_candidate. destruct (fe_pow22501_ok w TIGHT n Bw Sw ltac:(closed_le))
    as (t19 & t3 & -> & (T1 & B1 & S1) & _). rewrite <- (Z.pow_1_r n) in Sw.
  cbn [mbind option_bind]. repeat chain_step.
  eexists. split; [done|]. split; [done|]. split; [done|].
  eapply stands_for_pow; [eassumption|]. vm_compute. reflexivity.
Qed.

Lemma stands_for_mod a n : stands_for a n -> stands_for a (n mod P25519).
Proof. unfold stands_for. intros ->. by rewrite Z.mod_mod by (pose proof P25519_pos; lia). Qed.

Lemma decompress_root_ok w n :
  tight w -> below TIGHT w -> stands_for w n ->
  match ed_root n with
  | None => decompress_root w = Some None
  | Some r => 0 <= r < P25519 /\
      exists c, decompress_root w = Some (Some c) /\ tight c /\ below TIGHT c /\ stands_for c r
  end.
Proof.
  intros Tw Bw Sw. unfold ed_root, decompress_root.
  destruct (candidate_ok w n Bw Sw) as (c & -> & Tc & Bc & Sc). cbn [mbind option_bind].
  generalize dependent (n ^ ((P25519 + 3) / 8)). intros r Sc.
  fe_step. ct_step. destruct (Z.eqb_spec ((r * r) mod P25519) (n mod P25519)).
  { split; [apply Z.mod_pos_bound, P25519_pos|]. exists c. by apply stands_for_mod in Sc. }
  destruct sqrt_m1_ok as (i & -> & Ti & Bi & Si). cbn [mbind option_bind].
  generalize dependent ed_sqrt_m1. intros s Si.
  repeat fe_step. ct_step. destruct (_ =? n mod P25519); [|done].
  split; [apply Z.mod_pos_bound, P25519_pos|]. exists c1. split_and!; try done. by apply stands_for_mod.
Qed.

Lemma fe_negate_ok a n :
  tight a -> stands_for a n ->
  exists c, Fe.negate a = Some c /\ flat c /\ stands_for c ((- n) mod P25519).
Proof.
  intros Ta Sa. destruct (coord_const 0 ltac:(lia)) as [F0 S0].
  destruct (fe_sub_flat Fe.ZERO a (2 ^ 52) 0 n (flat_below _ F0) S0 (tight_flat _ Ta) Sa ltac:(closed_le))
    as (c & E & _ & Sc). exists c. split; [exact E|]. split; [|by apply stands_for_mod].
  revert E. destruct a as [a0 a1 a2 a3 a4]. unfold tight, flat, Fe.sub, Fe.sub_limb, Fe.ZERO, TWO_P in *.
  cbn [limb0 limb1 limb2 limb3 limb4] in *.
  repeat (rewrite chk_ok by lia; cbn [mbind option_bind]). intros [= <-].
  cbn [limb0 limb1 limb2 limb3 limb4]. lia.
Qed.

(** The sign bit. *)
Lemma sign_bit b :
  is_bytes b -> length b = 32%nat ->
  (from_le_bytes b / 2 ^ 255 = 0 \/ from_le_bytes b / 2 ^ 255 = 1) /\
  Z.shiftr (b !!! 31%nat) 7 = from_le_bytes b / 2 ^ 255.
Proof.
  intros Hb Hl. destruct (bytes_32 b Hb Hl) as (b0 & mid & top & -> & Hm & H0 & HM & Ht).
  rewrite app_comm_cons, lookup_total_app_r by (cbn [length]; lia). cbn [length]. rewrite Hm.
  change ([top] !!! (31 - 31)%nat) with top. rewrite from_le_app. cbn [length from_le_bytes].
  rewrite Hm, shiftr_div by lia. pose proof (from_le_bound mid HM) as HB. rewrite Hm in HB.
  change (2 ^ (8 * Z.of_nat 30)) with (2 ^ 240) in HB. change (2 ^ (8 * Z.of_nat 31)) with (2 ^ 248).
  unfold is_word in *. generalize dependent (from_le_bytes mid). intros M HM'.
  split; Z.to_euclidean_division_equations; lia.
Qed.

Lemma choose_sign_ok root r sign :
  tight root -> stands_for root r -> sign = 0 \/ sign = 1 ->
  exists c, (if Bool.eqb (r mod 2 =? 1) (sign =? 1) then Some root else Fe.negate root) = Some c /\
    coord c (ed_with_sign r sign).
Proof.
  intros Tr Sr Hs. destruct (fe_negate_ok root r Tr Sr) as (c & E & Fc & Sc). unfold ed_with_sign.
  assert (M : r mod 2 = 0 \/ r mod 2 = 1) by (pose proof (Z.mod_pos_bound r 2); lia).
  destruct M as [-> | ->], Hs as [-> | ->]; cbn [Z.eqb Pos.eqb Bool.eqb].
  2, 3: by exists c. all: exists root; split; [done|]; split; [by apply tight_flat|done].
Qed.

Lemma decompress_ok b :
  is_bytes b -> length b = 32%nat ->
  match ed_decode b with
  | None => decompress b = Some None
  | Some P => exists p, decompress b = Some (Some p) /\ point_rep p P
  end.
Proof.
  intros Hb Hl. pose proof (decompress_w_ok b Hb Hl) as Hw. destruct (sign_bit b Hb Hl) as [Hsign Hbit].
  unfold ed_decode, decompress. rewrite Hbit. set (Y := from_le_bytes b mod 2 ^ 255) in *.
  set (sign := from_le_bytes b / 2 ^ 255) in *. fold (ed_w Y). cbv zeta in Hw.
  destruct (P25519 <=? Y); cbn [orb] in Hw; [by rewrite Hw|].
  destruct (_ =? 0); [by rewrite Hw|].
  destruct Hw as (ly & w & -> & [FY SY] & Tw & Bw & Sw). cbn [mbind option_bind].
  pose proof (decompress_root_ok w (ed_w Y) Tw Bw Sw) as Hr.
  destruct (ed_root (ed_w Y)) as [r|]; [|by rewrite Hr].
  destruct Hr as (Rr & root & -> & Tr & Br & Sr). cbn [mbind option_bind].
  clearbody Y sign. clear Sw.
  rewrite (fe_is_negative_ok root r Tr Sr), (Z.mod_small r) by done. cbn [mbind option_bind].
  destruct (choose_sign_ok root r sign Tr Sr Hsign) as (c & -> & [Fc Sc]). cbn [mbind option_bind].
  pose proof (flat_below _ Fc). pose proof (flat_below _ FY). fe_step.
  eexists. split; [done|]. constructor; cbn [x y z t fst snd].
  - by split.
  - by split.
  - by apply (coord_const 1).
  - by apply (coord_of _ (ed_with_sign r sign * Y)).
Qed.

Lemma base_ok : exists b, Point.base = Some b /\ point_rep b ed_base.
Proof.
  assert (H : is_bytes BASE_COMPRESSED) by (repeat constructor; cbn; lia).
  pose proof (decompress_ok BASE_COMPRESSED H eq_refl) as D. unfold Point.base, ed_base.
  generalize dependent (ed_decode BASE_COMPRESSED). intros [P|] D.
  - destruct D as (b & -> & Hb). by exists b.
  - rewrite D. exists Point.identity. split; [done|exact identity_ok].
Qed.

(** The residues of the coordinates of a point. *)
Definition residues (p : Point) : EPoint :=
  (eval51 (x p) mod P25519, eval51 (y p) mod P25519, eval51 (z p) mod P25519, eval51 (t p) mod P25519).

Lemma residues_ok p P :
  point_rep p P ->
  residues p = (P.1.1.1 mod P25519, P.1.1.2 mod P25519, P.1.2 mod P25519, P.2 mod P25519).
Proof. intros [[_ Sx] [_ Sy] [_ Sz] [_ St]]. unfold residues. by rewrite Sx, Sy, Sz, St. Qed.

(** The base point of the RFC, section 5.1. *)
Definition BASE_X : Z := 15112221349535400772501151409588531511454012693041857206046113283949847762202.
Definition BASE_Y : Z := 46316835694926478169428394003475163141307993866256225615783033603165251855960.

Lemma base_residues :
  fmap residues Point.base = Some (BASE_X, BASE_Y, 1, (BASE_X * BASE_Y) mod P25519).
Proof. vm_compute. reflexivity. Qed.

Lemma some_eq {A} (a b : A) : Some a = Some b -> a = b.
Proof. congruence. Qed.

(** The base point decodes: [ed_base] is that point and not the neutral
    element, and it is on the curve. *)
Lemma base_point_is_rfc :
  (ed_base.1.1.1 mod P25519, ed_base.1.1.2 mod P25519, ed_base.1.2 mod P25519, ed_base.2 mod P25519) =
  (BASE_X, BASE_Y, 1, (BASE_X * BASE_Y) mod P25519) /\
  (- (BASE_X * BASE_X) + BASE_Y * BASE_Y) mod P25519 =
  (1 + ED * (BASE_X * BASE_X) * (BASE_Y * BASE_Y)) mod P25519.
Proof.
  split; [|vm_compute; reflexivity]. destruct base_ok as (b & E & Hb).
  rewrite <- (residues_ok b ed_base Hb). apply some_eq. rewrite <- base_residues, E. exact eq_refl.
Qed.

(** The last step of section 5.1.3 of the RFC rejects a zero [x] with the sign
    bit set.  [decompress] negates zero and returns the point: the neutral
    element has a second encoding. *)
Lemma negative_zero_is_accepted :
  exists p, decompress (1 :: replicate 30 0 ++ [0x80]) = Some (Some p) /\ point_rep p ed_identity.
Proof.
  assert (H : is_bytes (1 :: replicate 30 0 ++ [0x80])) by (repeat constructor; cbn; lia).
  pose proof (decompress_ok _ H eq_refl) as D. unfold ed_decode in D.
  change (from_le_bytes (1 :: replicate 30 0 ++ [0x80])) with (2 ^ 255 + 1) in D.
  change ((2 ^ 255 + 1) mod 2 ^ 255) with 1 in D. change ((2 ^ 255 + 1) / 2 ^ 255) with 1 in D.
  change (P25519 <=? 1) with false in D. change (1 * 1 - 1) with 0 in D.
  change ((1 * 1 * ED + 1) mod P25519 =? 0) with false in D. cbv iota in D.
  rewrite Z.mul_0_l in D. unfold ed_root in D. rewrite Z.pow_0_l in D by closed_le. exact D.
Qed.

(** ** Signatures *)

#[local] Opaque ed_decode ed_mul ed_add ed_encode ed_eqb decompress Point.base Point.mul_scalar
  Point.add Point.compress Point.eq sha512.digest SHA512 Scalar.reduce_wide Scalar.mul_add.

(** Run the first step of a computation.  Reducing the bind instead would
    make the kernel compare the first steps of two computations. *)
Lemma bind_some {A B} (m : option A) (f : A -> option B) a r :
  m = Some a -> f a = r -> (m ≫= f) = r.
Proof. by intros ->. Qed.

Ltac step_with E := eapply (bind_some _ _ _ _ E); cbv beta zeta.

Lemma digest_ok parts :
  sha512.digest parts = SHA512 (concat parts) /\ is_bytes (SHA512 (concat parts)) /\
  length (SHA512 (concat parts)) = 64%nat.
Proof.
  split; [apply sha512_digest_spec|]. split; [apply is_bytes_SHA512|apply length_SHA512].
Qed.

Lemma digest_one a : sha512.digest [a] = SHA512 a.
Proof. destruct (digest_ok [a]) as (-> & _). cbn [concat]. by rewrite app_nil_r. Qed.

(** A digest as a scalar. *)
Lemma digest_scalar_ok parts m :
  concat parts = m ->
  Scalar.reduce_wide (sha512.digest parts) = to_le_bytes 32 (from_le_bytes (SHA512 m) mod ORDER).
Proof. intros <-. destruct (digest_ok parts) as (-> & Hb & Hl). by apply reduce_wide_ok. Qed.

Lemma scalar_ok n :
  let k := n mod ORDER in
  is_bytes (to_le_bytes 32 k) /\ length (to_le_bytes 32 k) = 32%nat /\
  from_le_bytes (to_le_bytes 32 k) = k.
Proof.
  cbv zeta. split; [apply is_bytes_to_le|]. split; [apply length_to_le_bytes|].
  rewrite from_to_le. apply Z.mod_small. pose proof (Z.mod_pos_bound n ORDER ltac:(unfold ORDER; lia)).
  change (2 ^ (8 * Z.of_nat 32)) with (2 ^ 256). unfold ORDER in *. lia.
Qed.

(** [[s]B], encoded. *)
Lemma encoded_multiple_ok s :
  is_bytes s -> length s = 32%nat ->
  (base ← Point.base; p ← Point.mul_scalar base s; Point.compress p) =
  Some (ed_encode (ed_mul (from_le_bytes s) ed_base)).
Proof.
  intros Hs Hl. destruct base_ok as (b & -> & Hb). cbn [mbind option_bind].
  destruct (mul_scalar_ok s b ed_base Hs Hl Hb) as (p & -> & Hp).
  cbn [mbind option_bind]. by apply point_compress_ok.
Qed.

Lemma secret_ok seed :
  let a := ed25519.clamp (SHA512 seed) in
  is_bytes a /\ length a = 32%nat /\ from_le_bytes a = ed_secret (SHA512 seed).
Proof.
  change (ed25519.clamp (SHA512 seed)) with (clamp (take 32 (SHA512 seed))). unfold ed_secret.
  apply clamp_ok; [apply Forall_take, is_bytes_SHA512|rewrite length_take, length_SHA512; lia].
Qed.

(** Key generation is that of RFC 8032 for every seed. *)
Lemma public_key_ok seed : ed25519.public_key seed = Some (ed_public seed).
Proof.
  unfold ed25519.public_key, ed_public. rewrite digest_one.
  destruct (secret_ok seed) as (Ha & Hl & <-). by apply encoded_multiple_ok.
Qed.

Lemma slice_tail (l : list Z) : length l = 64%nat -> slice l 32 64 = drop 32 l.
Proof. intros Hl. unfold slice. apply take_ge. rewrite length_drop, Hl. done. Qed.

(** The rest of [sign], from the two encoded points on. *)
Lemma sign_rest b a (h public message : list Z) :
  point_rep b ed_base -> is_bytes a -> length a = 32%nat ->
  let r := from_le_bytes (SHA512 (h ++ message)) mod ORDER in
  (rp ← Point.mul_scalar b (to_le_bytes 32 r);
   big_r ← Point.compress rp;
   let k := Scalar.reduce_wide (sha512.digest [big_r; public; message]) in
   s ← Scalar.mul_add k a (to_le_bytes 32 r);
   Some (big_r ++ s)) =
  let R := ed_encode (ed_mul r ed_base) in
  let k := from_le_bytes (SHA512 (R ++ public ++ message)) mod ORDER in
  Some (R ++ to_le_bytes 32 ((k * from_le_bytes a + r) mod ORDER)).
Proof.
  intros Hb Ha Hl r. destruct (scalar_ok (from_le_bytes (SHA512 (h ++ message)))) as (Rb & Rl & Re).
  fold r in Rb, Rl, Re. clearbody r.
  destruct (mul_scalar_ok _ b ed_base Rb Rl Hb) as (rp & E1 & Hrp). rewrite Re in Hrp. step_with E1.
  step_with (point_compress_ok _ _ Hrp). generalize (ed_encode (ed_mul r ed_base)). intros R.
  rewrite (digest_scalar_ok [R; public; message] (R ++ public ++ message)) by (cbn [concat]; by rewrite app_nil_r).
  destruct (scalar_ok (from_le_bytes (SHA512 (R ++ public ++ message)))) as (Kb & Kl & Ke).
  step_with (mul_add_ok _ _ _ Kb Kl Ha Hl Rb Rl). by rewrite Re, Ke.
Qed.

Lemma sign_ok seed message :
  ed25519.public_key seed = Some (ed_public seed) /\
  ed25519.sign seed message = Some (ed_sign seed message).
Proof.
  split; [apply public_key_ok|]. unfold ed25519.sign, ed_sign, ed_public. rewrite digest_one.
  destruct (secret_ok seed) as (Ha & Hl & <-). destruct base_ok as (b & E1 & Hb). step_with E1.
  destruct (mul_scalar_ok _ b ed_base Ha Hl Hb) as (p & E2 & Hp). step_with E2.
  step_with (point_compress_ok _ _ Hp).
  rewrite (digest_scalar_ok [slice (SHA512 seed) 32 64; message] (drop 32 (SHA512 seed) ++ message)).
  2: { cbn [concat]. by rewrite app_nil_r, slice_tail by apply length_SHA512. }
  pose proof (sign_rest b _ (drop 32 (SHA512 seed))
    (ed_encode (ed_mul (from_le_bytes (ed25519.clamp (SHA512 seed))) ed_base)) message Hb Ha Hl) as E.
  cbv zeta in E |- *. exact E.
Qed.

(** For every seed and message, the public key and the signature are those of
    RFC 8032; no arithmetic operation on the way overflows. *)
Theorem ed25519_sign_computes_rfc8032 seed message :
  ed25519.public_key seed = Some (ed_public seed) /\
  ed25519.sign seed message = Some (ed_sign seed message).
Proof. apply sign_ok. Qed.

(** The equation of [verify]. *)
Lemma verify_equation pa pr A R k s :
  point_rep pa A -> point_rep pr R -> is_bytes s -> length s = 32%nat ->
  is_bytes k -> length k = 32%nat ->
  (base ← Point.base; lhs ← Point.mul_scalar base s; ka ← Point.mul_scalar pa k;
   rhs ← Point.add pr ka; Point.eq lhs rhs) =
  Some (ed_eqb (ed_mul (from_le_bytes s) ed_base) (ed_add R (ed_mul (from_le_bytes k) A))).
Proof.
  intros Ha Hr Sb Sl Kb Kl. destruct base_ok as (b & E1 & Hb). step_with E1.
  destruct (mul_scalar_ok _ b ed_base Sb Sl Hb) as (l & E2 & Hp). step_with E2.
  destruct (mul_scalar_ok _ pa A Kb Kl Ha) as (ka & E3 & Hka). step_with E3.
  destruct (point_add_ok pr ka R _ Hr Hka) as (r & E4 & Hadd). step_with E4.
  exact (point_eq_ok _ _ _ _ Hp Hadd).
Qed.

Lemma verify_ok public message signature
    (Hp : is_bytes public) (Hpl : length public = 32%nat)
    (Hs : is_bytes signature) (Hsl : length signature = 64%nat) :
  ed25519.verify public message signature = Some (ed_verify public message signature).
Proof.
  unfold ed25519.verify, ed_verify. rewrite (slice_tail _ Hsl).
  change (slice signature 0 32) with (take 32 signature).
  assert (Rb : is_bytes (take 32 signature)) by (by apply Forall_take).
  assert (Rl : length (take 32 signature) = 32%nat) by (rewrite length_take; lia).
  assert (Sb : is_bytes (drop 32 signature)) by (by apply Forall_drop).
  assert (Sl : length (drop 32 signature) = 32%nat) by (rewrite length_drop; lia).
  generalize dependent (take 32 signature). generalize dependent (drop 32 signature). clear Hs Hsl.
  intros s Sb Sl R Rb Rl. pose proof (decompress_ok public Hp Hpl) as DA. revert DA.
  destruct (ed_decode public) as [A|]; intros DA; [|by step_with DA].
  destruct DA as (pa & EA & HA). step_with EA. pose proof (decompress_ok R Rb Rl) as DR. revert DR.
  destruct (ed_decode R) as [PR|]; intros DR; [|by step_with DR].
  destruct DR as (pr & ER & HR). step_with ER. rewrite (is_canonical_ok s Sb Sl).
  destruct (from_le_bytes s <? ORDER); cbn [negb andb]; [|done].
  rewrite (digest_scalar_ok [R; public; message] (R ++ public ++ message)) by (cbn [concat]; by rewrite app_nil_r).
  destruct (scalar_ok (from_le_bytes (SHA512 (R ++ public ++ message)))) as (Kb & Kl & Ke).
  rewrite (verify_equation pa pr A PR _ s HA HR Sb Sl Kb Kl), Ke. reflexivity.
Qed.


