(* ===== verification/SshWire.v ===== *)
(** * SSH wire encoding (shared/ssh/src/wire.rs, negotiate.rs, version.rs)

    The reader and writer of SSH primitives over fixed buffers, name lists and
    algorithm negotiation, and the identification line.  The theorems: what the
    writer writes the reader reads back, the [mpint] encoding is the canonical
    one of RFC 4251, and negotiation picks the client's first acceptable
    name. *)

From S2P Require Import Prelude Words.
From stdpp Require Import base list option strings.
From Stdlib Require Import ZArith Lia.

#[local] Open Scope Z_scope.

Create HintDb ssh.

(** A byte string literal [b"..."]. *)
Definition bytes_of (s : string) : list Z :=
  map (fun c => Z.of_N (Ascii.N_of_ascii c)) (String.list_ascii_of_string s).

Inductive WireErr : Type := Truncated | Overflow.

#[export] Instance WireErr_eq_dec : EqDecision WireErr.
Proof. solve_decision. Defined.

(** ** The reader *)

Record Reader : Type := mkReader { r_buf : list Z; r_pos : nat }.

(** A read moves the reader forward; a failed one can have moved it too. *)
Definition Read (A : Type) : Type := Reader -> result A WireErr * Reader.

(** [let x = m?; k] *)
Definition read_bind {A B : Type} (m : Read A) (k : A -> Read B) : Read B := fun r =>
  match m r with
  | (Ok a, r') => k a r'
  | (Err e, r') => (Err e, r')
  end.
Definition read_ret {A : Type} (a : A) : Read A := fun r => (Ok a, r).
Definition read_err {A : Type} (e : WireErr) : Read A := fun r => (Err e, r).

Declare Scope ssh_scope.
Delimit Scope ssh_scope with ssh.
Notation "x <-? m ; k" := (read_bind m (fun x => k))
  (at level 20, m at level 100, k at level 200, right associativity) : ssh_scope.
#[local] Open Scope ssh_scope.

(** [.ok()?] on the last read, and [Result::ok]. *)
Definition ok {A E : Type} (r : result A E) : option A :=
  match r with Ok a => Some a | Err _ => None end.

Definition unwrap_or {A E : Type} (d : A) (r : result A E) : A :=
  match r with Ok a => a | Err _ => d end.

Module Reader.

Definition new (buf : list Z) : Reader := mkReader buf 0.

Definition remaining (r : Reader) : nat := length (r_buf r) - r_pos r.

Definition u8 : Read Z := fun r =>
  if (length (r_buf r) <=? r_pos r)%nat then (Err Truncated, r)
  else (Ok (r_buf r !!! r_pos r), mkReader (r_buf r) (r_pos r + 1)).

(** Take exactly [n] bytes. *)
Definition take (n : Z) : Read (list Z) := fun r =>
  if Z.of_nat (remaining r) <? n then (Err Truncated, r)
  else (Ok (list.take (Z.to_nat n) (drop (r_pos r) (r_buf r))),
        mkReader (r_buf r) (r_pos r + Z.to_nat n)).

Definition u32 : Read Z := fun r =>
  if (remaining r <? 4)%nat then (Err Truncated, r)
  else (Ok (from_be_bytes (list.take 4 (drop (r_pos r) (r_buf r)))),
        mkReader (r_buf r) (r_pos r + 4)).

Definition string : Read (list Z) := len <-? u32; take len.

(** What has not been read. *)
Definition rest (r : Reader) : list Z := drop (r_pos r) (r_buf r).

(** A reader does not run past its buffer. *)
Definition wf (r : Reader) : Prop := (r_pos r <= length (r_buf r))%nat.

End Reader.

(** ** The writer

    A writer appends to a caller's buffer and callers only use the prefix they
    have written, so the buffer enters by its length. *)

Record Writer : Type := mkWriter { w_cap : nat; w_out : list Z }.

Definition Write : Type := Writer -> result unit WireErr * Writer.

(** [m?; k] *)
Definition write_seq (m k : Write) : Write := fun w =>
  match m w with
  | (Ok _, w') => k w'
  | (Err e, w') => (Err e, w')
  end.
Notation "m ;? k" := (write_seq m k) (at level 25, right associativity) : ssh_scope.

Module Writer.

Definition new (cap : nat) : Writer := mkWriter cap [].

Definition room (w : Writer) (n : nat) : bool := (length (w_out w) + n <=? w_cap w)%nat.

(** Raw bytes, no prefix. *)
Definition raw (bytes : list Z) : Write := fun w =>
  if room w (length bytes) then (Ok tt, mkWriter (w_cap w) (w_out w ++ bytes))
  else (Err Overflow, w).

Definition u8 (v : Z) : Write := fun w =>
  if room w 1 then (Ok tt, mkWriter (w_cap w) (w_out w ++ [v])) else (Err Overflow, w).

Definition u32 (v : Z) : Write := fun w =>
  if room w 4 then (Ok tt, mkWriter (w_cap w) (w_out w ++ to_be_bytes 4 v)) else (Err Overflow, w).

(** [bytes.len() as u32] *)
Definition len_u32 (bytes : list Z) : Z := wrap 32 (Z.of_nat (length bytes)).

Definition string (bytes : list Z) : Write := u32 (len_u32 bytes) ;? raw bytes.

(** The magnitude without its leading zeros. *)
Fixpoint strip_zeros (magnitude : list Z) : list Z :=
  match magnitude with
  | 0 :: rest => strip_zeros rest
  | _ => magnitude
  end.

Definition mpint_be (magnitude : list Z) : Write :=
  let body := strip_zeros magnitude in
  match body with
  | [] => u32 0
  | b :: _ =>
      let lead := if Z.land b 0x80 =? 0 then 0%nat else 1%nat in
      u32 (wrap 32 (Z.of_nat (length body + lead))) ;?
      (if (lead =? 1)%nat then u8 0 else fun w => (Ok tt, w)) ;?
      raw body
  end.

(** Run the writes against a fresh buffer; the result is [buf[..into_written()]]. *)
Definition build (cap : nat) (m : Write) : result (list Z) WireErr :=
  match m (new cap) with
  | (Ok _, w) => Ok (w_out w)
  | (Err e, _) => Err e
  end.

End Writer.

(** ** Name lists *)

Definition COMMA : Z := 44.

(** [position] of a byte. *)
Fixpoint position (b : Z) (l : list Z) : option nat :=
  match l with
  | [] => None
  | x :: l => if x =? b then Some 0%nat else S <$> position b l
  end.

Module NameList.

(** [next]; each round drops at least one byte. *)
Fixpoint next_loop (fuel : nat) (rest : list Z) : option (list Z * list Z) :=
  match fuel with
  | O => None
  | S fuel =>
      match rest with
      | [] => None
      | _ =>
          let end_ := default (length rest) (position COMMA rest) in
          let name := list.take end_ rest in
          let tail := drop end_ rest in
          let rest := if (end_ <? length rest)%nat then drop 1 tail else tail in
          match name with [] => next_loop fuel rest | _ => Some (name, rest) end
      end
  end.

Definition next (rest : list Z) : option (list Z * list Z) := next_loop (length rest) rest.

(** The names the iterator yields; every call of [next] shortens the rest. *)
Fixpoint names_loop (fuel : nat) (rest : list Z) : list (list Z) :=
  match fuel with
  | O => []
  | S fuel =>
      match next rest with
      | Some (name, rest) => name :: names_loop fuel rest
      | None => []
      end
  end.

Definition names (body : list Z) : list (list Z) := names_loop (length body) body.

End NameList.

(** ** Negotiation *)

Definition KEX_ALGS : list string := ["curve25519-sha256"; "curve25519-sha256@libssh.org"]%string.
Definition HOSTKEY_ALGS : list string := ["ssh-ed25519"]%string.
Definition CIPHER_ALGS : list string := ["chacha20-poly1305@openssh.com"]%string.
Definition MAC_ALGS : list string := ["hmac-sha2-256"]%string.
Definition COMPRESSION_ALGS : list string := ["none"]%string.

Record Negotiated : Type := mkNegotiated {
  n_kex : string; n_host_key : string; n_cipher_c2s : string; n_cipher_s2c : string;
  n_mac_c2s : string; n_mac_s2c : string; n_compression_c2s : string; n_compression_s2c : string
}.

Definition find_name (name : list Z) (server : list string) : option string :=
  List.find (fun s => bool_decide (name = bytes_of s)) server.

Definition pick (client_list : list Z) (server : list string) : option string :=
  head (omap (fun name => find_name name server) (NameList.names client_list)).

(** [.ok_or(class)?] *)
Definition or_class {B : Type} (m : option string) (class : string) (k : string -> result B string) :
    result B string :=
  match m with Some s => k s | None => Err class end.

Definition negotiate (kex_client hostkey_client cipher_c2s_client cipher_s2c_client mac_c2s_client
    mac_s2c_client comp_c2s_client comp_s2c_client : list Z) : result Negotiated string :=
  or_class (pick kex_client KEX_ALGS) "no common kex algorithm" (fun kex =>
  or_class (pick hostkey_client HOSTKEY_ALGS) "no common host key algorithm" (fun host_key =>
  or_class (pick cipher_c2s_client CIPHER_ALGS) "no common client-to-server cipher" (fun cipher_c2s =>
  or_class (pick cipher_s2c_client CIPHER_ALGS) "no common server-to-client cipher" (fun cipher_s2c =>
  let mac_c2s := default "hmac-sha2-256"%string (pick mac_c2s_client MAC_ALGS) in
  let mac_s2c := default "hmac-sha2-256"%string (pick mac_s2c_client MAC_ALGS) in
  or_class (pick comp_c2s_client COMPRESSION_ALGS) "no common client-to-server compression" (fun c2s =>
  or_class (pick comp_s2c_client COMPRESSION_ALGS) "no common server-to-client compression" (fun s2c =>
  Ok (mkNegotiated kex host_key cipher_c2s cipher_s2c mac_c2s mac_s2c c2s s2c))))))).

(** ** The identification line *)

Definition IDENT_MAX : nat := 255.

Definition CR : Z := 13.
Definition LF : Z := 10.

Definition SERVER_BANNER_TEXT : list Z := bytes_of "SSH-2.0-ServiceOS_0.1.0".
Definition SERVER_BANNER : list Z := SERVER_BANNER_TEXT ++ [CR; LF].

Inductive IdentErr : Type := TooLong | BadPrefix | NotPrintable | Empty.

Definition starts_with (line prefix : list Z) : bool :=
  bool_decide (take (length prefix) line = prefix).

Definition parse_identification (line : list Z) : result (list Z) IdentErr :=
  if (length line =? 0)%nat then Err Empty
  else if (IDENT_MAX - 2 <? length line)%nat then Err TooLong
  else if negb (starts_with line (bytes_of "SSH-2.0-") || starts_with line (bytes_of "SSH-1.99-"))
  then Err BadPrefix
  else if forallb (fun b => (0x20 <=? b) && (b <? 0x7f)) line then Ok line
  else Err NotPrintable.

(** [if line.last() == Some(&b'\r')] drop it. *)
Definition strip_cr (line : list Z) : list Z :=
  if bool_decide (last line = Some CR) then take (length line - 1) line else line.

(** One round per line of [buf[scan..]]; at most [max_pre_lines] lines are skipped. *)
Fixpoint server_ident_loop (fuel : nat) (buf : list Z) (max_pre_lines pre_lines scan : nat) :
    result (option (nat * list Z)) IdentErr :=
  match fuel with
  | O => Err BadPrefix
  | S fuel =>
      match position LF (drop scan buf) with
      | None => if (IDENT_MAX <? length buf)%nat then Err TooLong else Ok None
      | Some lf =>
          let line_end := (scan + lf)%nat in
          let line := strip_cr (take lf (drop scan buf)) in
          let consumed := (line_end + 1)%nat in
          if starts_with line (bytes_of "SSH-2.0-") || starts_with line (bytes_of "SSH-1.99-") then
            match parse_identification line with
            | Ok l => Ok (Some (consumed, l))
            | Err e => Err e
            end
          else
            let pre_lines := (pre_lines + 1)%nat in
            if (max_pre_lines <? pre_lines)%nat then Err BadPrefix
            else if (length buf <=? consumed)%nat then Ok None
            else server_ident_loop fuel buf max_pre_lines pre_lines consumed
      end
  end.

Definition parse_server_identification (buf : list Z) (max_pre_lines : nat) :
    result (option (nat * list Z)) IdentErr :=
  server_ident_loop (S max_pre_lines) buf max_pre_lines 0 0.

(** * Theorems *)

(** ** What is written can be read back

    [writes m bs]: the writes [m] append exactly [bs] when there is room, and
    fail otherwise.  [reads m bs a]: from a reader standing at the bytes [bs],
    [m] returns [a] and moves past them, whatever comes before and after. *)

Definition writes (m : Write) (bs : list Z) : Prop := forall w,
  (length (w_out w) <= w_cap w)%nat ->
  if (length (w_out w) + length bs <=? w_cap w)%nat
  then m w = (Ok tt, mkWriter (w_cap w) (w_out w ++ bs))
  else exists w', m w = (Err Overflow, w').

Definition reads {A : Type} (m : Read A) (bs : list Z) (a : A) : Prop := forall pre rest,
  m (mkReader (pre ++ bs ++ rest) (length pre)) =
    (Ok a, mkReader (pre ++ bs ++ rest) (length pre + length bs)).

(** The encodings of RFC 4251. *)
Definition ssh_u32 (v : Z) : list Z := to_be_bytes 4 v.
Definition ssh_string (s : list Z) : list Z := ssh_u32 (Z.of_nat (length s)) ++ s.

Definition is_string (s : list Z) : Prop := Z.of_nat (length s) < 2 ^ 32.

Lemma from_to_be n z : 0 <= z < 2 ^ (8 * Z.of_nat n) -> from_be_bytes (to_be_bytes n z) = z.
Proof.
  intros H. unfold from_be_bytes, to_be_bytes. rewrite reverse_involutive, from_to_le. by apply Z.mod_small.
Qed.

Lemma from_be_bound l : is_bytes l -> 0 <= from_be_bytes l < 2 ^ (8 * Z.of_nat (length l)).
Proof.
  intros H. unfold from_be_bytes. rewrite <- length_reverse. by apply from_le_bound, Forall_reverse.
Qed.

Lemma length_ssh_u32 v : length (ssh_u32 v) = 4%nat.
Proof. apply length_to_be_bytes. Qed.

Lemma length_ssh_string s : length (ssh_string s) = (4 + length s)%nat.
Proof. unfold ssh_string. by rewrite length_app, length_ssh_u32. Qed.

Lemma is_bytes_ssh_u32 v : is_bytes (ssh_u32 v).
Proof. apply is_bytes_to_be. Qed.

Lemma is_bytes_ssh_string s : is_bytes s -> is_bytes (ssh_string s).
Proof. intros H. apply is_bytes_app. split; [apply is_bytes_ssh_u32|done]. Qed.

Lemma writes_raw bs : writes (Writer.raw bs) bs.
Proof.
  intros w Hw. unfold Writer.raw, Writer.room. destruct (_ <=? _)%nat; [done|by eexists].
Qed.

Lemma writes_u8 v : writes (Writer.u8 v) [v].
Proof.
  intros w Hw. unfold Writer.u8, Writer.room. cbn [length]. destruct (_ <=? _)%nat; [done|by eexists].
Qed.

Lemma writes_u32 v : writes (Writer.u32 v) (ssh_u32 v).
Proof.
  intros w Hw. unfold Writer.u32, Writer.room. rewrite length_ssh_u32.
  destruct (_ <=? _)%nat; [done|by eexists].
Qed.

Lemma writes_nothing : writes (fun w => (Ok tt, w)) [].
Proof.
  intros w Hw. cbn [length]. rewrite Nat.add_0_r, (proj2 (Nat.leb_le _ _)), app_nil_r by done. by destruct w.
Qed.

Lemma writes_seq m k bs cs : writes m bs -> writes k cs -> writes (m ;? k) (bs ++ cs).
Proof.
  intros Hm Hk w Hw. unfold write_seq. specialize (Hm w Hw). rewrite length_app.
  destruct (Nat.leb_spec (length (w_out w) + length bs) (w_cap w)) as [H|H].
  - rewrite Hm. specialize (Hk (mkWriter (w_cap w) (w_out w ++ bs))). cbn [w_out w_cap] in Hk.
    rewrite length_app in Hk. specialize (Hk H). rewrite Nat.add_assoc.
    destruct (_ <=? _)%nat; [|done]. by rewrite Hk, app_assoc.
  - destruct Hm as [w' ->]. rewrite (proj2 (Nat.leb_gt _ _)) by lia. by eexists.
Qed.

Lemma writes_string s : is_string s -> writes (Writer.string s) (ssh_string s).
Proof.
  intros H. apply writes_seq; [|apply writes_raw]. unfold Writer.len_u32.
  rewrite wrap_small by (unfold is_string in H; lia). apply writes_u32.
Qed.

Lemma build_writes cap m bs : writes m bs ->
  Writer.build cap m = if (length bs <=? cap)%nat then Ok bs else Err Overflow.
Proof.
  intros H. specialize (H (Writer.new cap)). unfold Writer.build. cbn in H.
  specialize (H ltac:(lia)). destruct (_ <=? _)%nat; [by rewrite H|]. by destruct H as [w' ->].
Qed.

Lemma reads_ret {A} (a : A) : reads (read_ret a) [] a.
Proof. intros pre rest. unfold read_ret. cbn [length]. by rewrite Nat.add_0_r. Qed.

Lemma reads_bind {A B} (m : Read A) (k : A -> Read B) bs cs a b :
  reads m bs a -> reads (k a) cs b -> reads (read_bind m k) (bs ++ cs) b.
Proof.
  intros Hm Hk pre rest. unfold read_bind. rewrite <- (app_assoc bs), (Hm pre (cs ++ rest)).
  specialize (Hk (pre ++ bs) rest). rewrite <- !app_assoc, length_app in Hk. rewrite Hk, length_app.
  by rewrite Nat.add_assoc.
Qed.

Lemma reads_u8 b : reads Reader.u8 [b] b.
Proof.
  intros pre rest. unfold Reader.u8. cbn [r_buf r_pos]. rewrite length_app. cbn [length app].
  rewrite (proj2 (Nat.leb_gt _ _)) by lia. by rewrite list_lookup_total_middle.
Qed.

Lemma reads_take bs n : n = Z.of_nat (length bs) -> reads (Reader.take n) bs bs.
Proof.
  intros -> pre rest. unfold Reader.take, Reader.remaining. cbn [r_buf r_pos]. rewrite !length_app.
  rewrite (proj2 (Z.ltb_ge _ _)) by lia. by rewrite Nat2Z.id, drop_app_length, take_app_length.
Qed.

Lemma reads_u32 v : is_word 32 v -> reads Reader.u32 (ssh_u32 v) v.
Proof.
  intros Hv pre rest. unfold Reader.u32, Reader.remaining. cbn [r_buf r_pos].
  rewrite !length_app, length_ssh_u32, (proj2 (Nat.ltb_ge _ _)) by lia.
  rewrite drop_app_length. rewrite <- (length_ssh_u32 v) at 1. rewrite take_app_length.
  unfold ssh_u32. by rewrite from_to_be.
Qed.

Lemma reads_string s : is_string s -> reads Reader.string (ssh_string s) s.
Proof.
  intros H. unfold is_string in H. eapply reads_bind; [apply reads_u32; unfold is_word; lia|by apply reads_take].
Qed.

#[export] Hint Resolve reads_ret reads_u8 reads_u32 reads_string writes_raw writes_u8 writes_u32
  writes_string writes_seq is_bytes_ssh_u32 is_bytes_ssh_string : ssh.

(** ** [mpint] *)

(** The integer a big-endian two's complement string stands for. *)
Definition twos_complement (s : list Z) : Z :=
  match s with
  | [] => 0
  | b :: _ => from_be_bytes s - (if b <? 128 then 0 else 2 ^ (8 * Z.of_nat (length s)))
  end.

(** RFC 4251, section 5: no unnecessary leading byte, and zero is the empty string. *)
Definition minimal (s : list Z) : Prop :=
  match s with
  | [] => True
  | [b] => b <> 0
  | a :: b :: _ => ~ (a = 0 /\ b < 128) /\ ~ (a = 255 /\ 128 <= b)
  end.

(** The body the code writes: the stripped magnitude, behind a zero when its
    top bit is set. *)
Definition mpint_body (magnitude : list Z) : list Z :=
  match Writer.strip_zeros magnitude with
  | [] => []
  | b :: body => (if b <? 128 then [] else [0]) ++ b :: body
  end.

Lemma strip_zeros_cons b l :
  Writer.strip_zeros (b :: l) = if b =? 0 then Writer.strip_zeros l else b :: l.
Proof. by destruct b. Qed.

Lemma strip_zeros_suffix l : exists n, l = replicate n 0 ++ Writer.strip_zeros l.
Proof.
  induction l as [|b l [n IH]]; [by exists 0%nat|]. rewrite strip_zeros_cons.
  destruct (Z.eqb_spec b 0) as [->|Hb]; [|by exists 0%nat].
  exists (S n). cbn [replicate app]. by f_equal.
Qed.

Lemma strip_zeros_head l b body : Writer.strip_zeros l = b :: body -> b <> 0.
Proof.
  induction l as [|x l IH]; [done|]. rewrite strip_zeros_cons.
  destruct (Z.eqb_spec x 0) as [->|Hx]; [done|]. by intros [= -> ->].
Qed.

Lemma from_be_cons b l : from_be_bytes (b :: l) = from_be_bytes l + 2 ^ (8 * Z.of_nat (length l)) * b.
Proof.
  unfold from_be_bytes. rewrite reverse_cons, from_le_app, length_reverse. cbn [from_le_bytes]. lia.
Qed.

Lemma from_be_zeros n l : from_be_bytes (replicate n 0 ++ l) = from_be_bytes l.
Proof. induction n as [|n IH]; [done|]. cbn [replicate app]. rewrite from_be_cons, IH. lia. Qed.

Lemma top_bit b : is_word 8 b -> (Z.land b 0x80 =? 0) = (b <? 128).
Proof.
  intros Hb. unfold is_word in Hb. change (2 ^ 8) with 256 in Hb.
  assert (T : forallb (fun n => Bool.eqb (Z.land (Z.of_nat n) 0x80 =? 0) (Z.of_nat n <? 128)) (seq 0 256) = true)
    by (vm_compute; done).
  rewrite forallb_forall in T. specialize (T (Z.to_nat b)). rewrite Z2Nat.id in T by lia.
  apply eqb_prop, T, in_seq. lia.
Qed.

Lemma is_bytes_strip l : is_bytes l -> is_bytes (Writer.strip_zeros l).
Proof. destruct (strip_zeros_suffix l) as [n E]. rewrite E at 1. intros H. by apply is_bytes_app in H as [_ H]. Qed.

Lemma length_mpint_body m : (length (mpint_body m) <= S (length m))%nat.
Proof.
  unfold mpint_body. destruct (strip_zeros_suffix m) as [n E].
  destruct (Writer.strip_zeros m) as [|b body]; cbn [length]; [lia|].
  rewrite E. rewrite !length_app. cbn [length]. destruct (b <? 128); cbn [length]; lia.
Qed.

Lemma writes_mpint m : is_bytes m -> is_string (mpint_body m) ->
  writes (Writer.mpint_be m) (ssh_string (mpint_body m)).
Proof.
  intros Hm Hs. apply is_bytes_strip in Hm. unfold Writer.mpint_be, mpint_body, is_string in *.
  destruct (Writer.strip_zeros m) as [|b body]; [apply writes_u32|].
  rewrite top_bit by (by inversion Hm). unfold ssh_string. cbv zeta.
  destruct (b <? 128); cbn [app Nat.eqb] in *; rewrite wrap_small by (cbn [length] in *; lia).
  - rewrite Nat.add_0_r. apply writes_seq; [apply writes_u32|].
    apply (writes_seq _ _ [] (b :: body)); [apply writes_nothing|apply writes_raw].
  - replace (length (b :: body) + 1)%nat with (length (0 :: b :: body)) by (cbn [length]; lia).
    apply writes_seq; [apply writes_u32|].
    apply (writes_seq _ _ [0] (b :: body)); [apply writes_u8|apply writes_raw].
Qed.

(** [mpint_be] writes the canonical RFC 4251 encoding of the number its argument
    is the big-endian magnitude of: a string whose two's complement value is that
    number and which is the shortest one, so a reader gets the same number back;
    and it fails exactly when that string does not fit. *)
Theorem mpint_is_canonical (magnitude : list Z) (cap : nat) :
  is_bytes magnitude -> Z.of_nat (length magnitude) + 1 < 2 ^ 32 ->
  exists body,
    Writer.build cap (Writer.mpint_be magnitude) =
      (if (4 + length body <=? cap)%nat then Ok (ssh_string body) else Err Overflow) /\
    twos_complement body = from_be_bytes magnitude /\ minimal body /\
    reads Reader.string (ssh_string body) body.
Proof.
  intros Hm Hl. exists (mpint_body magnitude). pose proof (length_mpint_body magnitude) as Hb.
  assert (Hs : is_string (mpint_body magnitude)) by (unfold is_string; lia).
  split; [by rewrite (build_writes _ _ _ (writes_mpint _ Hm Hs)), length_ssh_string|].
  split; [|split; [|by apply reads_string]].
  - destruct (strip_zeros_suffix magnitude) as [n E]. rewrite E at 2. rewrite from_be_zeros.
    unfold mpint_body. destruct (Writer.strip_zeros magnitude) as [|b body]; [done|].
    destruct (b <? 128) eqn:Hlt; cbn [app twos_complement]; rewrite ?Hlt; [lia|].
    cbn [Z.ltb Z.compare]. rewrite (from_be_cons 0). lia.
  - pose proof (is_bytes_strip _ Hm) as Hst. unfold mpint_body.
    destruct (Writer.strip_zeros magnitude) as [|b body] eqn:E; [done|].
    apply strip_zeros_head in E. inversion Hst as [|? ? Hw _]; subst. unfold is_word in Hw.
    destruct (Z.ltb_spec b 128); [|cbn; lia].
    destruct body as [|c body]; cbn; lia.
Qed.

Lemma mpint_is_canonical_witness :
  exists body,
    Writer.build 40 (Writer.mpint_be [0; 0x9c; 0x41]) =
      (if (4 + length body <=? 40)%nat then Ok (ssh_string body) else Err Overflow) /\
    twos_complement body = from_be_bytes [0; 0x9c; 0x41] /\ minimal body /\
    reads Reader.string (ssh_string body) body.
Proof.
  apply (mpint_is_canonical [0; 0x9c; 0x41] 40); [repeat constructor; cbn; lia|cbn; lia].
Defined.

(** ** Name lists and negotiation *)

(** The segments between separators. *)
Fixpoint split_on (sep : Z) (l : list Z) : list (list Z) :=
  match l with
  | [] => [[]]
  | x :: l =>
      if x =? sep then [] :: split_on sep l
      else match split_on sep l with
           | w :: ws => (x :: w) :: ws
           | [] => [[x]]
           end
  end.

(** The names of a name list: its non-empty segments. *)
Definition name_list (body : list Z) : list (list Z) :=
  filter (fun w => w <> []) (split_on COMMA body).

Lemma split_on_position sep l :
  split_on sep l =
    match position sep l with
    | None => [l]
    | Some i => take i l :: split_on sep (drop (S i) l)
    end.
Proof.
  induction l as [|x l IH]; [done|]. cbn [split_on position].
  destruct (x =? sep); [done|]. rewrite IH. by destruct (position sep l).
Qed.

Lemma position_lt sep l i : position sep l = Some i -> (i < length l)%nat.
Proof.
  revert i. induction l as [|x l IH]; intros i; [done|]. cbn [position length].
  destruct (x =? sep); [intros [= <-]; lia|]. destruct (position sep l) as [j|]; [|done].
  intros [= <-]. specialize (IH j eq_refl). lia.
Qed.

Lemma name_list_position l :
  name_list l =
    match position COMMA l with
    | None => if decide (l = []) then [] else [l]
    | Some i => (if decide (take i l = []) then [] else [take i l]) ++ name_list (drop (S i) l)
    end.
Proof.
  unfold name_list at 1. rewrite split_on_position. destruct (position COMMA l) as [i|].
  - rewrite filter_cons. do 2 case_decide; try done.
  - rewrite filter_cons. do 2 case_decide; done.
Qed.

(** What one call of [next] does to the list of names. *)
Lemma next_loop_spec fuel rest : (length rest <= fuel)%nat ->
  match NameList.next_loop fuel rest with
  | Some (name, rest') => name_list rest = name :: name_list rest' /\ (length rest' < length rest)%nat
  | None => name_list rest = []
  end.
Proof.
  revert rest. induction fuel as [|fuel IH]; intros [|x rest] H; cbn [length] in H; try done; [lia|].
  cbn [NameList.next_loop]. rewrite name_list_position.
  destruct (position COMMA (x :: rest)) as [i|] eqn:E; cbn [from_option]; unfold id; cbv zeta.
  - pose proof (position_lt _ _ _ E) as Hi. rewrite (proj2 (Nat.ltb_lt _ _)) by done.
    rewrite drop_drop, Nat.add_1_r. pose proof (length_drop (x :: rest) (S i)) as Hd. cbn [length] in Hd.
    destruct (take i (x :: rest)) as [|y name] eqn:Et.
    + rewrite decide_True by done. cbn [app]. specialize (IH (drop (S i) (x :: rest))).
      destruct (NameList.next_loop fuel _) as [[name rest']|]; [|apply IH; lia].
      destruct IH as [-> IH]; [lia|]. split; [done|]. cbn [length] in *. lia.
    + rewrite decide_False by done. split; [done|]. cbn [length]. lia.
  - rewrite Nat.ltb_irrefl, firstn_all, drop_all. split; [done|]. cbn; lia.
Qed.

Lemma names_spec body : NameList.names body = name_list body.
Proof.
  unfold NameList.names. assert (H : (length body <= length body)%nat) by lia.
  revert H. generalize (length body) at 2 3. intros n. revert body.
  induction n as [|n IH]; intros body H; cbn [NameList.names_loop].
  - by destruct body; [|cbn in H; lia].
  - unfold NameList.next. pose proof (next_loop_spec (length body) body) as Hn.
    destruct (NameList.next_loop _ body) as [[name rest]|]; [|by rewrite Hn].
    destruct Hn as [-> Hlt]; [done|]. by rewrite IH by lia.
Qed.

Lemma find_name_spec name server s :
  find_name name server = Some s -> s ∈ server /\ name = bytes_of s.
Proof.
  intros H. apply List.find_some in H as [Hin Hb]. split; [by apply list_elem_of_In|].
  by apply bool_decide_eq_true in Hb.
Qed.

Lemma find_name_none name server :
  find_name name server = None <-> forall s, s ∈ server -> name <> bytes_of s.
Proof.
  unfold find_name. induction server as [|x server IH]; cbn [List.find].
  - split; [|done]. intros _ s H. by apply not_elem_of_nil in H.
  - case_bool_decide as E.
    + split; [done|]. intros H. by destruct (H x (list_elem_of_here _ _)).
    + rewrite IH. split; intros H s Hs; [apply elem_of_cons in Hs as [->|Hs]; auto|].
      apply H. by apply elem_of_cons; right.
Qed.

(** Negotiation follows RFC 4253, section 7.1: the algorithm chosen is the first
    name of the client's list that the server also has, and there is none
    exactly when the two lists share no name. *)
Theorem pick_is_clients_first (client_list : list Z) (server : list string) :
  match pick client_list server with
  | Some s => exists before after,
      name_list client_list = before ++ bytes_of s :: after /\ s ∈ server /\
      forall name s', name ∈ before -> s' ∈ server -> name <> bytes_of s'
  | None => forall name s', name ∈ name_list client_list -> s' ∈ server -> name <> bytes_of s'
  end.
Proof.
  unfold pick. rewrite names_spec. generalize (name_list client_list). intros l.
  induction l as [|name l IH]; cbn [omap list_omap head].
  - intros name s' H. by apply not_elem_of_nil in H.
  - destruct (find_name name server) as [s|] eqn:E.
    + apply find_name_spec in E as [Hin ->]. exists [], l. split_and!; try done.
      intros name s' H. by apply not_elem_of_nil in H.
    + rewrite find_name_none in E. destruct (head _) as [s|].
      * destruct IH as (before & after & -> & Hin & Hno). exists (name :: before), after.
        split_and!; try done. intros n s' [->|Hn]%elem_of_cons Hs; [by apply E|by apply (Hno n)].
      * intros n s' [->|Hn]%elem_of_cons Hs; [by apply E|by apply (IH n)].
Qed.
