(* ===== verification/SshPacket.v ===== *)
(** * SSH binary packets (shared/ssh/src/packet.rs, error.rs)

    The plain framing used before the key exchange and the sealed framing of
    [chacha20-poly1305@openssh.com].  The theorems: both framings round trip
    behind any trailing bytes and ask for more on any strict prefix, and the
    sealed one accepts exactly the packets its own keys and sequence number
    seal. *)

From S2P Require Import Prelude Words Poly1305 ChaCha SshWire.
From stdpp Require Import base list option strings.
From Stdlib Require Import ZArith Lia.

#[local] Open Scope Z_scope.

(** ** Errors *)

Inductive DisconnectReason : Type :=
| HostNotPermitted | ProtocolError | KeyExchangeFailed | MacError | CompressionError
| ServiceNotAvailable | ProtocolVersionNotSupported | HostKeyNotVerifiable | ByApplication.

#[export] Instance DisconnectReason_eq_dec : EqDecision DisconnectReason.
Proof. solve_decision. Defined.

Module DisconnectReason.

Definition code (r : DisconnectReason) : Z :=
  match r with
  | HostNotPermitted => 1
  | ProtocolError => 2
  | KeyExchangeFailed => 3
  | MacError => 5
  | CompressionError => 6
  | ServiceNotAvailable => 7
  | ProtocolVersionNotSupported => 8
  | HostKeyNotVerifiable => 9
  | ByApplication => 11
  end.

Definition from_code (c : Z) : option DisconnectReason :=
  match c with
  | 1 => Some HostNotPermitted
  | 2 => Some ProtocolError
  | 3 => Some KeyExchangeFailed
  | 5 => Some MacError
  | 6 => Some CompressionError
  | 7 => Some ServiceNotAvailable
  | 8 => Some ProtocolVersionNotSupported
  | 9 => Some HostKeyNotVerifiable
  | 11 => Some ByApplication
  | _ => None
  end.

End DisconnectReason.

Inductive Fail : Type :=
| LocalDisconnect (reason : DisconnectReason) (description : string)
| PeerDisconnect (reason_code : Z)
| OutOfCapacity
| NotReady
| FailClosed.

(** ** The cipher *)

Definition chachapoly_tag (main_key nonce aad ciphertext : list Z) : option (list Z) :=
  let block := chacha20.block main_key 0 nonce in
  let pk := take 32 block in
  let mac := Poly1305.new pk in
  mac ← Poly1305.update mac aad;
  mac ← Poly1305.update mac ciphertext;
  Poly1305.finalize mac.

(** The tag and the new contents of [ciphertext]. *)
Definition chachapoly_encrypt (main_key nonce aad plaintext ciphertext : list Z) :
    option (list Z * list Z) :=
  ciphertext ← chacha20.xor main_key 1 nonce plaintext ciphertext;
  tag ← chachapoly_tag main_key nonce aad ciphertext;
  Some (tag, ciphertext).

(** The verdict and the new contents of [plaintext]. *)
Definition chachapoly_decrypt (main_key nonce aad ciphertext tag plaintext : list Z) :
    option (bool * list Z) :=
  expect ← chachapoly_tag main_key nonce aad ciphertext;
  if negb (ct_eq expect tag) then Some (false, plaintext)
  else
    plaintext ← chacha20.xor main_key 1 nonce ciphertext plaintext;
    Some (true, plaintext).

Definition BLOCK_SIZE : nat := 8.
Definition MIN_PADDING : nat := 4.
Definition MAX_PACKET_LEN : Z := 35000.
Definition MAX_PAYLOAD_LEN : Z := 32768.
Definition MAX_WIRE_LEN : Z := 4 + MAX_PACKET_LEN + 16.

Record CipherKeys : Type := mkCipherKeys { main : list Z; header : list Z }.

Definition from_material (material : list Z) : CipherKeys :=
  mkCipherKeys (take 32 material) (drop 32 material).

Definition nonce_for_seqno (seqno : Z) : list Z := replicate 4 0 ++ to_be_bytes 8 seqno.

Definition padding_len (payload_len block_size : nat) : nat :=
  let base := ((4 + 1 + payload_len) mod block_size)%nat in
  let pad := (block_size - base)%nat in
  if (pad <? MIN_PADDING)%nat then (pad + block_size)%nat else pad.

Definition padding_len_aead (payload_len block_size : nat) : nat :=
  let base := ((1 + payload_len) mod block_size)%nat in
  let pad := (block_size - base)%nat in
  if (pad <? MIN_PADDING)%nat then (pad + block_size)%nat else pad.

(** ** Encoding

    An output slice enters by its length; the result is the prefix written. *)

(** [padlen | payload | padding] *)
Definition padded (pad : nat) (payload : list Z) : list Z :=
  wrap 8 (Z.of_nat pad) :: payload ++ replicate pad 0.

Definition encode_plain (payload : list Z) (out_len : Z) : result (list Z) WireErr :=
  if MAX_PAYLOAD_LEN <? zlen payload then Err Overflow
  else
    let pad := padding_len (length payload) BLOCK_SIZE in
    let packet_length := (1 + length payload + pad)%nat in
    let total := (4 + packet_length)%nat in
    if out_len <? Z.of_nat total then Err Overflow
    else Ok (to_be_bytes 4 (wrap 32 (Z.of_nat packet_length)) ++ padded pad payload).

Definition encode_aead_msg (msg : list Z) (keys : CipherKeys) (seqno : Z) (out_len : Z) :
    option (result (list Z) WireErr) :=
  if (length msg =? 0)%nat || (MAX_PACKET_LEN <? zlen msg) then Some (Err Overflow)
  else
    let packet_length := length msg in
    let wire_len := (4 + packet_length + 16)%nat in
    if out_len <? Z.of_nat wire_len then Some (Err Overflow)
    else
      let nonce := nonce_for_seqno seqno in
      let len_be := to_be_bytes 4 (wrap 32 (Z.of_nat packet_length)) in
      head ← chacha20.xor (header keys) 0 nonce len_be (replicate 4 0);
      '(tag, body) ← chachapoly_encrypt (main keys) nonce head msg (replicate packet_length 0);
      Some (Ok (head ++ body ++ tag)).

Definition encode_aead (payload : list Z) (keys : CipherKeys) (seqno scratch_len out_len : Z) :
    option (result (list Z) WireErr) :=
  if MAX_PAYLOAD_LEN <? zlen payload then Some (Err Overflow)
  else
    let pad := padding_len_aead (length payload) BLOCK_SIZE in
    let msg_len := (1 + length payload + pad)%nat in
    if scratch_len <? Z.of_nat msg_len then Some (Err Overflow)
    else
      let packet_length := msg_len in
      let wire_len := (4 + packet_length + 16)%nat in
      if out_len <? Z.of_nat wire_len then Some (Err Overflow)
      else
        let nonce := nonce_for_seqno seqno in
        let scratch := padded pad payload in
        let len_be := to_be_bytes 4 (wrap 32 (Z.of_nat packet_length)) in
        head ← chacha20.xor (header keys) 0 nonce len_be (replicate 4 0);
        '(tag, body) ← chachapoly_encrypt (main keys) nonce head scratch (replicate msg_len 0);
        Some (Ok (head ++ body ++ tag)).

(** ** Decoding *)

Record FrameInfo : Type := mkFrameInfo {
  consumed : nat; staged : nat; payload_start : nat; payload_len : nat
}.

Definition validate_staged (staged : list Z) (packet_length : nat) (aead : bool) :
    result (nat * nat) DisconnectReason :=
  if (packet_length =? 0)%nat || (length staged <? packet_length)%nat then Err ProtocolError
  else
    let aligned :=
      if aead then (packet_length mod BLOCK_SIZE)%nat else ((4 + packet_length) mod BLOCK_SIZE)%nat in
    if negb (aligned =? 0)%nat then Err ProtocolError
    else
      let pad := Z.to_nat (staged !!! 0%nat) in
      if (pad <? MIN_PADDING)%nat || (packet_length <? 1 + pad)%nat then Err ProtocolError
      else
        let payload_len := (packet_length - 1 - pad)%nat in
        if MAX_PAYLOAD_LEN <? Z.of_nat payload_len then Err ProtocolError
        else Ok (1%nat, payload_len).

(** The decoded frame and the staging buffer; [None]: the staging buffer is too short. *)
Definition Decoded : Type := result (option FrameInfo) DisconnectReason * list Z.

Definition frame_result (consumed packet_length : nat) (v : result (nat * nat) DisconnectReason) :
    result (option FrameInfo) DisconnectReason :=
  match v with
  | Ok (start, payload_len) => Ok (Some (mkFrameInfo consumed packet_length start payload_len))
  | Err e => Err e
  end.

Definition decode_plain (buf staging : list Z) : option Decoded :=
  if (length buf <? 4)%nat then Some (Ok None, staging)
  else
    let packet_length := from_be_bytes (take 4 buf) in
    if (packet_length =? 0) || (MAX_PACKET_LEN <? packet_length) then Some (Err ProtocolError, staging)
    else
      let packet_length := Z.to_nat packet_length in
      let needed := (4 + packet_length)%nat in
      if (length buf <? needed)%nat then Some (Ok None, staging)
      else if (length staging <? packet_length)%nat then None
      else
        let staging := take packet_length (drop 4 buf) ++ drop packet_length staging in
        Some (frame_result needed packet_length
                (validate_staged (take packet_length staging) packet_length false), staging).

Definition decode_aead (buf staging : list Z) (keys : CipherKeys) (seqno : Z) : option Decoded :=
  if (length buf <? 4)%nat then Some (Ok None, staging)
  else
    let nonce := nonce_for_seqno seqno in
    len_scratch ← chacha20.xor (header keys) 0 nonce (take 4 buf) (replicate 4 0);
    let packet_length := from_be_bytes len_scratch in
    if (packet_length =? 0) || (MAX_PACKET_LEN <? packet_length) ||
       negb (packet_length mod Z.of_nat BLOCK_SIZE =? 0)
    then Some (Err ProtocolError, staging)
    else
      let packet_length := Z.to_nat packet_length in
      let needed := (4 + packet_length + 16)%nat in
      if (length buf <? needed)%nat then Some (Ok None, staging)
      else if (length staging <? packet_length)%nat then None
      else
        '(ok, plaintext) ← chachapoly_decrypt (main keys) nonce (take 4 buf)
          (take packet_length (drop 4 buf)) (take 16 (drop (4 + packet_length) buf))
          (take packet_length staging);
        let staging := plaintext ++ drop packet_length staging in
        if negb ok then Some (Err MacError, staging)
        else
          Some (frame_result needed packet_length
                  (validate_staged (take packet_length staging) packet_length true), staging).

(** * Theorems *)

(** ** The cipher *)

Definition crypt (key : list Z) (counter : Z) (nonce data : list Z) : list Z :=
  xor_bytes data (stream_for key counter nonce data).

Definition ssh_tag (main_key nonce message : list Z) : list Z :=
  poly1305_spec message (take 32 (chacha20.block main_key 0 nonce)).

Lemma length_stream_for key counter nonce data : (length data <= length (stream_for key counter nonce data))%nat.
Proof.
  unfold stream_for. rewrite length_keystream. pose proof (chunks_count 64 data). lia.
Qed.

Lemma length_crypt key counter nonce data : length (crypt key counter nonce data) = length data.
Proof.
  unfold crypt. rewrite length_xor_bytes. pose proof (length_stream_for key counter nonce data). lia.
Qed.

Lemma crypt_involutive key counter nonce data :
  crypt key counter nonce (crypt key counter nonce data) = data.
Proof.
  pose proof (length_crypt key counter nonce data) as Hl. unfold crypt at 1. unfold stream_for.
  rewrite (chunks_length_eq 64 _ data) by (done || lia). apply xor_bytes_involutive, length_stream_for.
Qed.

Lemma is_bytes_crypt key counter nonce data : is_bytes data -> is_bytes (crypt key counter nonce data).
Proof. intros H. unfold crypt, stream_for. apply is_bytes_xor; [exact H|apply is_bytes_keystream]. Qed.

Lemma length_ssh_tag key nonce m : length (ssh_tag key nonce m) = 16%nat.
Proof. apply length_to_le_bytes. Qed.

Lemma is_bytes_ssh_tag key nonce m : is_bytes (ssh_tag key nonce m).
Proof. apply is_bytes_to_le. Qed.

Lemma xor_crypt key counter nonce data out :
  length out = length data -> chacha20.xor key counter nonce data out = Some (crypt key counter nonce data).
Proof. apply xor_spec. Qed.

Lemma chachapoly_tag_spec key nonce aad ciphertext :
  is_bytes aad -> is_bytes ciphertext ->
  chachapoly_tag key nonce aad ciphertext = Some (ssh_tag key nonce (aad ++ ciphertext)).
Proof.
  intros Ha Hc. unfold chachapoly_tag, ssh_tag. cbv zeta.
  set (pk := take 32 (chacha20.block key 0 nonce)).
  assert (Hk : is_bytes pk).
  { pose proof (is_bytes_block key 0 nonce) as H. rewrite <- (take_drop 32) in H.
    by apply is_bytes_app in H as [? _]. }
  assert (Hl : length pk = 32%nat) by (subst pk; by rewrite length_take, length_block).
  pose proof (new_absorbs pk Hl) as H0.
  destruct (update_absorbs pk Hk Hl _ _ aad H0 Ha) as (s1 & -> & H1). cbn [mbind option_bind].
  destruct (update_absorbs pk Hk Hl _ _ ciphertext H1 Hc) as (s2 & -> & H2). cbn [mbind option_bind].
  by apply finalize_spec.
Qed.

Lemma chachapoly_encrypt_spec key nonce aad plaintext out :
  is_bytes aad -> is_bytes plaintext -> length out = length plaintext ->
  chachapoly_encrypt key nonce aad plaintext out =
    Some (ssh_tag key nonce (aad ++ crypt key 1 nonce plaintext), crypt key 1 nonce plaintext).
Proof.
  intros Ha Hp Ho. unfold chachapoly_encrypt. rewrite xor_crypt by done. cbn [mbind option_bind].
  rewrite chachapoly_tag_spec; [done|done|by apply is_bytes_crypt].
Qed.

Lemma chachapoly_decrypt_spec key nonce aad ciphertext tag out :
  is_bytes aad -> is_bytes ciphertext -> length out = length ciphertext ->
  chachapoly_decrypt key nonce aad ciphertext tag out =
    Some (if decide (tag = ssh_tag key nonce (aad ++ ciphertext))
          then (true, crypt key 1 nonce ciphertext) else (false, out)).
Proof.
  intros Ha Hc Ho. unfold chachapoly_decrypt. rewrite chachapoly_tag_spec by done. cbn [mbind option_bind].
  destruct (ct_eq _ tag) eqn:E; cbn [negb].
  - apply ct_eq_true in E. rewrite decide_True by done. by rewrite xor_crypt.
  - rewrite decide_False; [done|]. intros ->. by rewrite (proj2 (ct_eq_true _ _) eq_refl) in E.
Qed.

(** ** Framing *)

(** The padding fills the last block and is at least [MIN_PADDING] bytes. *)
Lemma padding_bounds m : (0 <= m < 8)%nat ->
  let pad := if (8 - m <? 4)%nat then (8 - m + 8)%nat else (8 - m)%nat in
  (4 <= pad < 12)%nat /\ ((m + pad) mod 8 = 0)%nat.
Proof. intros H. do 8 (destruct m as [|m]; [by cbv; lia|]). lia. Qed.

Lemma padding_len_spec n :
  (4 <= padding_len n BLOCK_SIZE < 12)%nat /\
  ((4 + (1 + n + padding_len n BLOCK_SIZE)) mod BLOCK_SIZE = 0)%nat.
Proof.
  unfold padding_len, BLOCK_SIZE, MIN_PADDING. cbv zeta.
  pose proof (Nat.mod_upper_bound (4 + 1 + n) 8 ltac:(lia)) as Hm.
  destruct (padding_bounds ((4 + 1 + n) mod 8)) as [Hp Ha]; [lia|]. split; [done|].
  rewrite Nat.Div0.add_mod_idemp_l in Ha. etransitivity; [|exact Ha]. f_equal.
Qed.

Lemma padding_len_aead_spec n :
  (4 <= padding_len_aead n BLOCK_SIZE < 12)%nat /\
  ((1 + n + padding_len_aead n BLOCK_SIZE) mod BLOCK_SIZE = 0)%nat.
Proof.
  unfold padding_len_aead, BLOCK_SIZE, MIN_PADDING. cbv zeta.
  pose proof (Nat.mod_upper_bound (1 + n) 8 ltac:(lia)) as Hm.
  destruct (padding_bounds ((1 + n) mod 8)) as [Hp Ha]; [lia|]. split; [done|].
  by rewrite Nat.Div0.add_mod_idemp_l in Ha.
Qed.

(** A message [padlen | payload | padding] the receiver accepts, and its payload. *)
Definition frame_ok (aead : bool) (msg : list Z) : Prop :=
  let pad := Z.to_nat (msg !!! 0%nat) in
  0 < zlen msg <= MAX_PACKET_LEN /\
  (((if aead then 0 else 4) + length msg) mod BLOCK_SIZE = 0)%nat /\
  (MIN_PADDING <= pad)%nat /\ (1 + pad <= length msg)%nat /\
  Z.of_nat (length msg - 1 - pad) <= MAX_PAYLOAD_LEN.

Definition payload_of (msg : list Z) : list Z :=
  take (length msg - 1 - Z.to_nat (msg !!! 0%nat)) (drop 1 msg).

Definition frame_of (overhead : nat) (msg : list Z) : FrameInfo :=
  mkFrameInfo (overhead + length msg) (length msg) 1 (length msg - 1 - Z.to_nat (msg !!! 0%nat)).

Lemma validate_staged_spec msg aead :
  0 < zlen msg <= MAX_PACKET_LEN ->
  validate_staged msg (length msg) aead = Ok (1%nat, (length msg - 1 - Z.to_nat (msg !!! 0%nat))%nat) /\
    frame_ok aead msg \/
  validate_staged msg (length msg) aead = Err ProtocolError /\ ~ frame_ok aead msg.
Proof.
  intros Hl. unfold validate_staged, frame_ok. unfold zlen in Hl. cbv zeta.
  rewrite (proj2 (Nat.eqb_neq _ _)), Nat.ltb_irrefl by lia. cbn [orb].
  replace (if aead then (length msg mod BLOCK_SIZE)%nat else ((4 + length msg) mod BLOCK_SIZE)%nat)
    with (((if aead then 0 else 4) + length msg) mod BLOCK_SIZE)%nat by (by destruct aead).
  destruct (Nat.eqb_spec (((if aead then 0 else 4) + length msg) mod BLOCK_SIZE) 0) as [Ha|Ha]; cbn [negb];
    [|right; naive_solver].
  destruct (Nat.ltb_spec (Z.to_nat (msg !!! 0%nat)) MIN_PADDING); cbn [orb]; [right; split; [done|lia]|].
  destruct (Nat.ltb_spec (length msg) (1 + Z.to_nat (msg !!! 0%nat))); [right; split; [done|lia]|].
  destruct (Z.ltb_spec MAX_PAYLOAD_LEN (Z.of_nat (length msg - 1 - Z.to_nat (msg !!! 0%nat))));
    [right; split; [done|lia]|]. left. unfold zlen. naive_solver.
Qed.

Lemma padded_ok (aead : bool) (pad : nat) (payload : list Z) :
  (4 <= pad < 12)%nat -> (((if aead then 0 else 4) + (1 + length payload + pad)) mod BLOCK_SIZE = 0)%nat ->
  zlen payload <= MAX_PAYLOAD_LEN ->
  frame_ok aead (padded pad payload) /\ payload_of (padded pad payload) = payload /\
  length (padded pad payload) = (1 + length payload + pad)%nat.
Proof.
  intros Hp Ha Hl. unfold zlen in Hl.
  assert (Hlen : length (padded pad payload) = (1 + length payload + pad)%nat).
  { unfold padded. cbn [length]. rewrite length_app, length_replicate. lia. }
  assert (H0 : Z.to_nat (padded pad payload !!! 0%nat) = pad).
  { unfold padded. cbn. rewrite wrap_small by lia. lia. }
  unfold frame_ok, payload_of. rewrite H0, Hlen. unfold zlen. rewrite Hlen. split_and!; try done;
    unfold MAX_PACKET_LEN, MAX_PAYLOAD_LEN, MIN_PADDING in *; try lia.
  unfold padded. cbn [drop]. rewrite drop_0. replace (1 + length payload + pad - 1 - pad)%nat with (length payload) by lia.
  apply take_app_length.
Qed.

(** The plain packet of a message, and the sealed one under a direction's keys
    and sequence number. *)
Definition plain (msg : list Z) : list Z := to_be_bytes 4 (zlen msg) ++ msg.

Definition sealed_len (keys : CipherKeys) (seqno len : Z) : list Z :=
  crypt (header keys) 0 (nonce_for_seqno seqno) (to_be_bytes 4 len).

Definition sealed (keys : CipherKeys) (seqno : Z) (msg : list Z) : list Z :=
  let nonce := nonce_for_seqno seqno in
  let head := sealed_len keys seqno (zlen msg) in
  let body := crypt (main keys) 1 nonce msg in
  head ++ body ++ ssh_tag (main keys) nonce (head ++ body).

Lemma length_plain msg : length (plain msg) = (4 + length msg)%nat.
Proof. unfold plain. by rewrite length_app, length_to_be_bytes. Qed.

Lemma length_sealed_len keys seqno len : length (sealed_len keys seqno len) = 4%nat.
Proof. unfold sealed_len. by rewrite length_crypt, length_to_be_bytes. Qed.

Lemma length_sealed keys seqno msg : length (sealed keys seqno msg) = (4 + length msg + 16)%nat.
Proof.
  unfold sealed. rewrite !length_app, length_sealed_len, length_crypt, length_ssh_tag. lia.
Qed.

Lemma encode_plain_spec payload out_len :
  zlen payload <= MAX_PAYLOAD_LEN ->
  let msg := padded (padding_len (length payload) BLOCK_SIZE) payload in
  encode_plain payload out_len =
    if out_len <? Z.of_nat (4 + length msg) then Err Overflow else Ok (plain msg).
Proof.
  intros Hl. cbv zeta. destruct (padding_len_spec (length payload)) as [Hp Ha].
  destruct (padded_ok false _ payload Hp Ha Hl) as (Hok & _ & Hlen). unfold encode_plain, plain, zlen in *.
  rewrite (proj2 (Z.ltb_ge _ _)) by done. rewrite Hlen. destruct (_ <? _); [done|].
  rewrite wrap_small; [done|]. unfold frame_ok, zlen, MAX_PACKET_LEN in Hok. lia.
Qed.

Lemma encode_aead_msg_spec msg keys seqno out_len :
  is_bytes msg -> 0 < zlen msg <= MAX_PACKET_LEN ->
  encode_aead_msg msg keys seqno out_len =
    Some (if out_len <? Z.of_nat (4 + length msg + 16) then Err Overflow else Ok (sealed keys seqno msg)).
Proof.
  intros Hb Hl. unfold encode_aead_msg, zlen in *. unfold MAX_PACKET_LEN in *.
  rewrite (proj2 (Nat.eqb_neq _ _)), (proj2 (Z.ltb_ge _ _)) by lia. cbn [orb]. destruct (_ <? _); [done|].
  cbv zeta. rewrite wrap_small by lia.
  rewrite xor_crypt by (by rewrite length_replicate, length_to_be_bytes). cbn [mbind option_bind].
  rewrite chachapoly_encrypt_spec; [done|apply is_bytes_crypt, is_bytes_to_be|done|apply length_replicate].
Qed.

Lemma encode_aead_spec payload keys seqno scratch_len out_len :
  is_bytes payload -> zlen payload <= MAX_PAYLOAD_LEN ->
  let msg := padded (padding_len_aead (length payload) BLOCK_SIZE) payload in
  encode_aead payload keys seqno scratch_len out_len =
    Some (if (scratch_len <? zlen msg) || (out_len <? Z.of_nat (4 + length msg + 16)) then Err Overflow
          else Ok (sealed keys seqno msg)).
Proof.
  intros Hb Hl. cbv zeta. destruct (padding_len_aead_spec (length payload)) as [Hp Ha].
  destruct (padded_ok true _ payload Hp Ha Hl) as (Hok & _ & Hlen).
  assert (Hm : is_bytes (padded (padding_len_aead (length payload) BLOCK_SIZE) payload)).
  { unfold padded. constructor; [by apply wrap_word|]. apply is_bytes_app. split; [done|].
    by apply Forall_replicate. }
  unfold encode_aead, sealed, zlen in *. rewrite (proj2 (Z.ltb_ge _ _)) by done. rewrite Hlen.
  destruct (scratch_len <? _); [done|]. cbn [orb]. destruct (out_len <? _); [done|].
  unfold frame_ok, zlen, MAX_PACKET_LEN in Hok. cbv zeta. rewrite wrap_small by lia.
  rewrite xor_crypt by (by rewrite length_replicate, length_to_be_bytes). cbn [mbind option_bind].
  rewrite chachapoly_encrypt_spec;
    [by rewrite <- Hlen|apply is_bytes_crypt, is_bytes_to_be|done|by rewrite length_replicate].
Qed.

(** ** Decoding *)

Lemma take_split (n : nat) (l : list Z) : (n <= length l)%nat ->
  exists a b, l = a ++ b /\ length a = n /\ take n l = a /\ drop n l = b.
Proof. intros H. exists (take n l), (drop n l). rewrite take_drop, length_take. split_and!; try done; lia. Qed.

(** The result for a complete packet whose message is [msg]. *)
Definition frame_verdict (aead : bool) (overhead : nat) (msg : list Z) :
    result (option FrameInfo) DisconnectReason :=
  frame_result (overhead + length msg) (length msg) (validate_staged msg (length msg) aead).

Lemma frame_verdict_ok aead overhead msg :
  frame_ok aead msg -> frame_verdict aead overhead msg = Ok (Some (frame_of overhead msg)).
Proof.
  intros H. destruct (validate_staged_spec msg aead) as [[E _]|[_ Hno]]; [by destruct H| |done].
  unfold frame_verdict. by rewrite E.
Qed.

Lemma frame_verdict_cases aead overhead msg :
  0 < zlen msg <= MAX_PACKET_LEN ->
  frame_verdict aead overhead msg = Ok (Some (frame_of overhead msg)) /\ frame_ok aead msg \/
  frame_verdict aead overhead msg = Err ProtocolError.
Proof.
  intros H. unfold frame_verdict.
  destruct (validate_staged_spec msg aead H) as [[-> ?]|[-> _]]; [by left|by right].
Qed.

Lemma decode_plain_complete msg rest staging :
  0 < zlen msg <= MAX_PACKET_LEN -> (length msg <= length staging)%nat ->
  decode_plain (plain msg ++ rest) staging =
    Some (frame_verdict false 4 msg, msg ++ drop (length msg) staging).
Proof.
  intros Hl Hs. pose proof Hl as Hl'. unfold zlen, MAX_PACKET_LEN in Hl'. unfold decode_plain, plain.
  rewrite !length_app, length_to_be_bytes, (proj2 (Nat.ltb_ge _ 4)) by lia.
  rewrite <- app_assoc.
  replace (take 4 (to_be_bytes 4 (zlen msg) ++ msg ++ rest)) with (to_be_bytes 4 (zlen msg))
    by (by rewrite <- (length_to_be_bytes 4 (zlen msg)) at 2; rewrite take_app_length).
  replace (drop 4 (to_be_bytes 4 (zlen msg) ++ msg ++ rest)) with (msg ++ rest)
    by (by rewrite <- (length_to_be_bytes 4 (zlen msg)) at 1; rewrite drop_app_length).
  rewrite from_to_be by (unfold zlen; lia). unfold zlen at 1 2. unfold MAX_PACKET_LEN.
  rewrite (proj2 (Z.eqb_neq _ _)), (proj2 (Z.ltb_ge _ _)) by lia. cbn [orb]. cbv zeta.
  replace (Z.to_nat (zlen msg)) with (length msg) by (unfold zlen; lia).
  rewrite !(proj2 (Nat.ltb_ge _ _)) by lia. rewrite !take_app_length. done.
Qed.

(** Every input falls in one of three cases: a complete acceptable packet is at
    the front, more bytes are needed, or the packet is refused. *)
Lemma decode_plain_cases buf staging :
  is_bytes buf -> MAX_PACKET_LEN <= zlen staging ->
  (exists msg rest, buf = plain msg ++ rest /\ frame_ok false msg /\
     decode_plain buf staging = Some (Ok (Some (frame_of 4 msg)), msg ++ drop (length msg) staging)) \/
  decode_plain buf staging = Some (Ok None, staging) \/
  (exists e staging', decode_plain buf staging = Some (Err e, staging') /\
     length staging' = length staging /\ (is_bytes staging -> is_bytes staging')).
Proof.
  intros Hb Hs. destruct (Nat.ltb_spec (length buf) 4) as [H4|H4].
  { right; left. unfold decode_plain. by rewrite (proj2 (Nat.ltb_lt _ _)). }
  destruct (take_split 4 buf H4) as (head & tail & -> & Hh & E1 & E2).
  apply is_bytes_app in Hb as [Hhb Hb]. pose proof (from_be_bound head Hhb) as Hr. rewrite Hh in Hr.
  destruct (decide (from_be_bytes head = 0 \/ MAX_PACKET_LEN < from_be_bytes head)) as [Hbad|Hgood].
  { right; right. exists ProtocolError, staging. split; [|done]. unfold decode_plain.
    rewrite (proj2 (Nat.ltb_ge _ _)), E1 by done. cbv zeta.
    replace (_ || _) with true; [done|]. symmetry. apply orb_true_iff. rewrite Z.eqb_eq, Z.ltb_lt. done. }
  destruct (Nat.ltb_spec (length tail) (Z.to_nat (from_be_bytes head))) as [Hshort|Hlong].
  { right; left. unfold decode_plain. rewrite (proj2 (Nat.ltb_ge _ 4)), E1 by done. cbv zeta.
    rewrite (proj2 (Z.eqb_neq _ _)), (proj2 (Z.ltb_ge _ _)), length_app by lia. cbn [orb].
    by rewrite (proj2 (Nat.ltb_lt _ _)) by lia. }
  destruct (take_split _ tail Hlong) as (msg & rest & -> & Hm & _ & _).
  assert (Hz : from_be_bytes head = zlen msg) by (unfold zlen; lia).
  assert (Hp : head ++ msg ++ rest = plain msg ++ rest).
  { unfold plain. rewrite <- Hz, <- Hh, to_from_be, <- app_assoc by done. done. }
  rewrite Hp, decode_plain_complete by (unfold zlen in *; lia).
  destruct (frame_verdict_cases false 4 msg) as [[-> Hok]| ->]; [unfold zlen in *; lia| |].
  - left. by exists msg, rest.
  - right; right. eexists _, _. split; [done|]. rewrite length_app, length_drop. split; [unfold zlen in *; lia|].
    intros Hst. apply is_bytes_app. split; [|by apply Forall_drop]. by apply is_bytes_app in Hb as [? _].
Qed.

(** The decrypted length field. *)
Definition opened_len (keys : CipherKeys) (seqno : Z) (head : list Z) : Z :=
  from_be_bytes (crypt (header keys) 0 (nonce_for_seqno seqno) head).

Lemma opened_sealed_len keys seqno len : 0 <= len < 2 ^ 32 -> opened_len keys seqno (sealed_len keys seqno len) = len.
Proof. intros H. unfold opened_len, sealed_len. by rewrite crypt_involutive, from_to_be. Qed.

Lemma sealed_opened_len keys seqno head :
  is_bytes head -> length head = 4%nat -> sealed_len keys seqno (opened_len keys seqno head) = head.
Proof.
  intros Hb Hl. unfold opened_len, sealed_len.
  rewrite <- Hl, <- (length_crypt (header keys) 0 (nonce_for_seqno seqno) head).
  rewrite to_from_be by (by apply is_bytes_crypt). apply crypt_involutive.
Qed.

(** What [decode_aead] does with a four-byte head and what follows it. *)
Lemma decode_aead_head keys seqno head tail staging :
  length head = 4%nat ->
  decode_aead (head ++ tail) staging keys seqno =
    let n := opened_len keys seqno head in
    if (n =? 0) || (MAX_PACKET_LEN <? n) || negb (n mod Z.of_nat BLOCK_SIZE =? 0)
    then Some (Err ProtocolError, staging)
    else
      let n := Z.to_nat n in
      if (length tail <? n + 16)%nat then Some (Ok None, staging)
      else if (length staging <? n)%nat then None
      else
        '(ok, plaintext) ← chachapoly_decrypt (main keys) (nonce_for_seqno seqno) head
          (take n tail) (take 16 (drop n tail)) (take n staging);
        let staging := plaintext ++ drop n staging in
        if negb ok then Some (Err MacError, staging)
        else Some (frame_result (20 + n) n (validate_staged (take n staging) n true), staging).
Proof.
  intros Hh. unfold decode_aead. rewrite !length_app, Hh, (proj2 (Nat.ltb_ge _ 4)) by lia. cbv zeta.
  rewrite take_app_length' by done. rewrite xor_crypt by (by rewrite length_replicate).
  cbn [mbind option_bind]. fold (opened_len keys seqno head). destruct (_ || _ || _); [done|].
  replace (4 + length tail <? 4 + Z.to_nat (opened_len keys seqno head) + 16)%nat
    with (length tail <? Z.to_nat (opened_len keys seqno head) + 16)%nat.
  2: { apply Bool.eq_iff_eq_true. rewrite !Nat.ltb_lt. lia. }
  rewrite drop_app_length' by done. rewrite <- drop_drop, drop_app_length' by done.
  replace (4 + Z.to_nat (opened_len keys seqno head) + 16)%nat
    with (20 + Z.to_nat (opened_len keys seqno head))%nat by lia. done.
Qed.

Lemma aligned_Z (n : nat) : (n mod BLOCK_SIZE = 0)%nat <-> Z.of_nat n mod Z.of_nat BLOCK_SIZE = 0.
Proof. rewrite <- Nat2Z.inj_mod. lia. Qed.

(** A complete packet: the ciphertext is decrypted if the tag is right. *)
Lemma decode_aead_packet keys seqno head body tag rest staging :
  is_bytes head -> is_bytes body -> length head = 4%nat -> length tag = 16%nat ->
  opened_len keys seqno head = zlen body -> 0 < zlen body <= MAX_PACKET_LEN ->
  (length body mod BLOCK_SIZE = 0)%nat -> (length body <= length staging)%nat ->
  decode_aead (head ++ body ++ tag ++ rest) staging keys seqno =
    let nonce := nonce_for_seqno seqno in
    let msg := crypt (main keys) 1 nonce body in
    Some (if decide (tag = ssh_tag (main keys) nonce (head ++ body))
          then (frame_verdict true 20 msg, msg ++ drop (length body) staging)
          else (Err MacError, staging)).
Proof.
  intros Hhb Hbb Hh Ht Hn Hr Ha Hs. rewrite decode_aead_head by done. cbv zeta. rewrite Hn.
  rewrite aligned_Z in Ha. pose proof Hr as Hr'. unfold zlen in *.
  rewrite (proj2 (Z.eqb_neq _ 0)), (proj2 (Z.ltb_ge _ _)), (proj2 (Z.eqb_eq _ 0)) by (done || lia).
  cbn [orb negb]. rewrite Nat2Z.id, !length_app, !(proj2 (Nat.ltb_ge _ _)) by lia.
  rewrite take_app_length, drop_app_length, take_app_length' by done.
  rewrite chachapoly_decrypt_spec by (done || rewrite length_take; lia). cbn [mbind option_bind].
  destruct (decide _); cbn [negb].
  - rewrite take_app_length' by (by rewrite length_crypt). unfold frame_verdict. by rewrite !length_crypt.
  - by rewrite take_drop.
Qed.

Lemma decode_aead_complete keys seqno msg rest staging :
  is_bytes msg -> frame_ok true msg -> (length msg <= length staging)%nat ->
  decode_aead (sealed keys seqno msg ++ rest) staging keys seqno =
    Some (Ok (Some (frame_of 20 msg)), msg ++ drop (length msg) staging).
Proof.
  intros Hb Hok Hs. pose proof Hok as (Hr & Ha & _). unfold sealed. cbv zeta. rewrite <- !app_assoc.
  rewrite decode_aead_packet; unfold zlen; rewrite ?length_crypt; try done.
  - cbv zeta. rewrite decide_True by done. by rewrite crypt_involutive, frame_verdict_ok.
  - apply is_bytes_crypt, is_bytes_to_be.
  - by apply is_bytes_crypt.
  - apply opened_sealed_len. unfold zlen, MAX_PACKET_LEN in Hr. lia.
Qed.

Lemma decode_aead_cases keys seqno buf staging :
  is_bytes buf -> MAX_PACKET_LEN <= zlen staging ->
  (exists msg rest, buf = sealed keys seqno msg ++ rest /\ is_bytes msg /\ frame_ok true msg /\
     decode_aead buf staging keys seqno =
       Some (Ok (Some (frame_of 20 msg)), msg ++ drop (length msg) staging)) \/
  decode_aead buf staging keys seqno = Some (Ok None, staging) \/
  (exists e staging', decode_aead buf staging keys seqno = Some (Err e, staging') /\
     length staging' = length staging /\ (is_bytes staging -> is_bytes staging')).
Proof.
  intros Hb Hs. destruct (Nat.ltb_spec (length buf) 4) as [H4|H4].
  { right; left. unfold decode_aead. by rewrite (proj2 (Nat.ltb_lt _ _)). }
  destruct (take_split 4 buf H4) as (head & tail & -> & Hh & _ & _).
  apply is_bytes_app in Hb as [Hhb Hb].
  pose proof (from_be_bound _ (is_bytes_crypt (header keys) 0 (nonce_for_seqno seqno) head Hhb)) as Hr.
  fold (opened_len keys seqno head) in Hr. rewrite length_crypt, Hh in Hr.
  pose proof (decode_aead_head keys seqno head tail staging Hh) as D. cbv zeta in D.
  destruct (_ || _ || _) eqn:E; [right; right; eauto|].
  apply orb_false_iff in E as [[E1 E2]%orb_false_iff E3]. apply Z.eqb_neq in E1. apply Z.ltb_ge in E2.
  apply negb_false_iff, Z.eqb_eq in E3.
  destruct (_ <? _)%nat eqn:E4 in D; [by right; left|]. apply Nat.ltb_ge in E4. clear D.
  destruct (take_split (Z.to_nat (opened_len keys seqno head)) tail) as (body & r & -> & Hl & _ & _); [lia|].
  rewrite length_app in E4. destruct (take_split 16 r) as (tag & rest & -> & Ht & _ & _); [lia|].
  apply is_bytes_app in Hb as [Hbb _].
  assert (Hz : opened_len keys seqno head = zlen body) by (unfold zlen; lia).
  rewrite (decode_aead_packet keys seqno head body tag rest staging) by
    (try done; try (apply aligned_Z; unfold zlen in *; congruence); unfold zlen in *; lia). cbv zeta.
  destruct (decide _) as [->|]; [|right; right; by eexists _, _].
  set (msg := crypt (main keys) 1 (nonce_for_seqno seqno) body).
  assert (Hlm : length msg = length body) by apply length_crypt.
  destruct (frame_verdict_cases true 20 msg) as [[-> Hok]| ->]; [unfold zlen in *; lia| |].
  - left. exists msg, rest. rewrite <- Hlm. split_and!; try done; [|by apply is_bytes_crypt].
    unfold sealed. cbv zeta. replace (zlen msg) with (opened_len keys seqno head) by (unfold zlen in *; lia).
    rewrite sealed_opened_len by done. unfold msg at 1 2. rewrite crypt_involutive. by rewrite <- !app_assoc.
  - right; right. eexists _, _. split; [done|].
    rewrite length_app, length_drop. split; [unfold zlen in *; lia|].
    intros Hst. apply is_bytes_app. split; [by apply is_bytes_crypt|by apply Forall_drop].
Qed.

(** A strict prefix of a packet asks for more bytes. *)
Lemma decode_plain_prefix msg n staging :
  0 < zlen msg <= MAX_PACKET_LEN -> (n < length (plain msg))%nat ->
  decode_plain (take n (plain msg)) staging = Some (Ok None, staging).
Proof.
  intros Hl Hn. rewrite length_plain in Hn. unfold decode_plain.
  rewrite length_take, length_plain, Nat.min_l by lia.
  destruct (Nat.ltb_spec n 4) as [H4|H4]; [done|]. rewrite take_take, Nat.min_l by done.
  unfold plain. rewrite take_app_length' by (by rewrite length_to_be_bytes).
  unfold zlen, MAX_PACKET_LEN in *. rewrite from_to_be by lia.
  rewrite (proj2 (Z.eqb_neq _ _)), (proj2 (Z.ltb_ge _ _)) by lia. cbn [orb]. cbv zeta.
  by rewrite (proj2 (Nat.ltb_lt _ _)) by lia.
Qed.

Lemma decode_aead_prefix keys seqno msg n staging :
  frame_ok true msg -> (n < length (sealed keys seqno msg))%nat ->
  decode_aead (take n (sealed keys seqno msg)) staging keys seqno = Some (Ok None, staging).
Proof.
  intros (Hl & Ha & _) Hn. pose proof Hn as Hn'. rewrite length_sealed in Hn'. cbn in Ha.
  destruct (Nat.ltb_spec n 4) as [H4|H4].
  { unfold decode_aead. rewrite (proj2 (Nat.ltb_lt _ _)); [done|]. rewrite length_take. lia. }
  unfold sealed. cbv zeta. rewrite take_app_ge by (rewrite length_sealed_len; lia).
  rewrite decode_aead_head by apply length_sealed_len. cbv zeta.
  unfold zlen, MAX_PACKET_LEN in *. rewrite opened_sealed_len by lia.
  apply aligned_Z in Ha.
  rewrite (proj2 (Z.eqb_neq _ 0)), (proj2 (Z.ltb_ge _ _)), (proj2 (Z.eqb_eq _ 0)) by (done || lia).
  cbn [orb negb]. rewrite (proj2 (Nat.ltb_lt _ _)); [done|].
  rewrite length_take, length_sealed_len. lia.
Qed.

(** The payload a frame gives out of the staging buffer. *)
Definition frame_payload (info : FrameInfo) (staging : list Z) : list Z :=
  take (payload_len info) (drop (payload_start info) staging).

Lemma frame_payload_of overhead msg rest :
  frame_payload (frame_of overhead msg) (msg ++ rest) = payload_of msg.
Proof.
  unfold frame_payload, frame_of, payload_of. cbn [payload_len payload_start].
  destruct msg as [|b msg]; [done|]. cbn [drop app length]. rewrite !drop_0, take_app_le by lia. done.
Qed.

Lemma is_bytes_padded pad payload : is_bytes payload -> is_bytes (padded pad payload).
Proof.
  intros H. constructor; [by apply wrap_word|]. apply is_bytes_app. split; [done|]. by apply Forall_replicate.
Qed.

(** A sealed packet round trips: [encode_aead] succeeds when its buffers are
    large enough, [decode_aead] under the same keys and sequence number takes
    exactly that packet off the front of whatever was received and gives the
    payload back, and it asks for more bytes as long as any of them is
    missing. *)
Theorem sealed_packet_roundtrip (payload rest staging : list Z) (keys : CipherKeys)
    (seqno scratch_len out_len : Z) :
  is_bytes payload -> zlen payload <= MAX_PAYLOAD_LEN -> MAX_PACKET_LEN <= zlen staging ->
  zlen payload + 13 <= scratch_len -> zlen payload + 33 <= out_len ->
  exists wire info staging',
    encode_aead payload keys seqno scratch_len out_len = Some (Ok wire) /\
    decode_aead (wire ++ rest) staging keys seqno = Some (Ok (Some info), staging') /\
    consumed info = length wire /\ frame_payload info staging' = payload /\
    forall n, (n < length wire)%nat ->
      decode_aead (take n wire) staging keys seqno = Some (Ok None, staging).
Proof.
  intros Hb Hl Hs Hsc Ho. destruct (padding_len_aead_spec (length payload)) as [Hp Ha].
  destruct (padded_ok true _ payload Hp Ha Hl) as (Hok & Hpay & Hlen).
  set (msg := padded (padding_len_aead (length payload) BLOCK_SIZE) payload) in *.
  assert (Hm : is_bytes msg) by (by apply is_bytes_padded).
  exists (sealed keys seqno msg), (frame_of 20 msg), (msg ++ drop (length msg) staging).
  split_and!.
  - rewrite encode_aead_spec by done. fold msg. unfold zlen in *.
    by rewrite !(proj2 (Z.ltb_ge _ _)) by lia.
  - apply decode_aead_complete; [done|done|]. unfold frame_ok, zlen in *. lia.
  - unfold frame_of. cbn [consumed]. rewrite length_sealed. lia.
  - by rewrite frame_payload_of.
  - intros n Hn. by apply decode_aead_prefix.
Qed.

Lemma sealed_packet_roundtrip_witness :
  exists wire info staging',
    encode_aead [94; 7] (mkCipherKeys (replicate 32 1) (replicate 32 2)) 3 100 100 = Some (Ok wire) /\
    decode_aead (wire ++ [5]) (replicate (Z.to_nat 35000) 0)
      (mkCipherKeys (replicate 32 1) (replicate 32 2)) 3 = Some (Ok (Some info), staging') /\
    consumed info = length wire /\ frame_payload info staging' = [94; 7] /\
    forall n, (n < length wire)%nat ->
      decode_aead (take n wire) (replicate (Z.to_nat 35000) 0)
        (mkCipherKeys (replicate 32 1) (replicate 32 2)) 3 = Some (Ok None, replicate (Z.to_nat 35000) 0).
Proof.
  apply (sealed_packet_roundtrip [94; 7] [5] (replicate (Z.to_nat 35000) 0)
    (mkCipherKeys (replicate 32 1) (replicate 32 2)) 3 100 100).
  - repeat constructor; cbn; lia.
  - unfold zlen, MAX_PAYLOAD_LEN. cbn. lia.
  - unfold zlen, MAX_PACKET_LEN. rewrite length_replicate. lia.
  - unfold zlen. cbn. lia.
  - unfold zlen. cbn. lia.
Defined.

(** C26: [decode_aead] accepts exactly the packets sealed under its keys and its
    sequence number: a frame comes out of a buffer if and only if the buffer
    starts with the encryption and the tag of a well-formed message, and the
    frame is that message. *)
Theorem decode_aead_accepts_exactly_sealed (buf staging : list Z) (keys : CipherKeys) (seqno : Z)
    (info : FrameInfo) (staging' : list Z) :
  is_bytes buf -> MAX_PACKET_LEN <= zlen staging ->
  decode_aead buf staging keys seqno = Some (Ok (Some info), staging') <->
  exists msg rest, is_bytes msg /\ frame_ok true msg /\ buf = sealed keys seqno msg ++ rest /\
    info = frame_of 20 msg /\ staging' = msg ++ drop (length msg) staging.
Proof.
  intros Hb Hs. split.
  - intros E. destruct (decode_aead_cases keys seqno buf staging Hb Hs)
      as [(msg & rest & -> & Hm & Hok & E')|[E'|(e & st & E' & _)]]; rewrite E in E'; [|done|done].
    injection E' as -> ->. by exists msg, rest.
  - intros (msg & rest & Hm & Hok & -> & -> & ->). apply decode_aead_complete; [done|done|].
    unfold frame_ok, zlen in *. lia.
Qed.

Lemma decode_aead_accepts_exactly_sealed_witness :
  decode_aead (replicate 40 0) (replicate (Z.to_nat 35000) 0)
    (mkCipherKeys (replicate 32 1) (replicate 32 2)) 3 = Some (Ok (Some (mkFrameInfo 28 8 1 3)), []) <->
  exists msg rest, is_bytes msg /\ frame_ok true msg /\
    replicate 40 0 = sealed (mkCipherKeys (replicate 32 1) (replicate 32 2)) 3 msg ++ rest /\
    mkFrameInfo 28 8 1 3 = frame_of 20 msg /\
    [] = msg ++ drop (length msg) (replicate (Z.to_nat 35000) 0).
Proof.
  apply (decode_aead_accepts_exactly_sealed (replicate 40 0) (replicate (Z.to_nat 35000) 0)
    (mkCipherKeys (replicate 32 1) (replicate 32 2)) 3 (mkFrameInfo 28 8 1 3) []).
  - by apply Forall_replicate.
  - unfold zlen, MAX_PACKET_LEN. rewrite length_replicate. lia.
Defined.
