(* ===== verification/SshKex.v ===== *)
(** * SSH key exchange (shared/ssh/src/kex.rs, hostkey.rs)

    The key exchange messages, host key and signature blobs, the exchange hash
    and the key derivation of [curve25519-sha256].  The theorems: every message
    round trips, the hash and the keys are those of RFC 8731 and RFC 4253. *)

From S2P Require Import Prelude Words ChaCha Field25519 X25519 Sha2 Hmac Ed25519 SshWire SshPacket.
From stdpp Require Import base list option strings.
From Stdlib Require Import ZArith Lia.

#[local] Open Scope Z_scope.
#[local] Open Scope ssh_scope.

Definition SSH_MSG_KEXINIT : Z := 20.
Definition SSH_MSG_NEWKEYS : Z := 21.
Definition SSH_MSG_KEX_ECDH_INIT : Z := 30.
Definition SSH_MSG_KEX_ECDH_REPLY : Z := 31.
Definition KEXINIT_MAX : Z := 8192.

(** A parser's verdict, its reader dropped. *)
Definition parse {A : Type} (m : Read A) (payload : list Z) : result A WireErr :=
  (m (Reader.new payload)).1.

(** [payload.len() - r.remaining()] *)
Definition bytes_read (payload : list Z) : Read nat := fun r =>
  (Ok (length payload - Reader.remaining r)%nat, r).

Definition remaining : Read nat := fun r => (Ok (Reader.remaining r), r).

(** ** Host key and signature blobs *)

Module hostkey.

Definition host_key_blob (public_key : list Z) (out_len : nat) : result (list Z) WireErr :=
  Writer.build out_len
    (Writer.string (bytes_of "ssh-ed25519") ;? Writer.string public_key).

Definition parse_host_key_blob (blob : list Z) : result (list Z) WireErr :=
  parse (
    alg <-? Reader.string;
    if negb (bool_decide (alg = bytes_of "ssh-ed25519")) then read_err Truncated
    else
      pk <-? Reader.string;
      left <-? remaining;
      if negb (length pk =? 32)%nat || negb (left =? 0)%nat then read_err Truncated
      else read_ret pk) blob.

Definition signature_blob (signature : list Z) (out_len : nat) : result (list Z) WireErr :=
  Writer.build out_len
    (Writer.string (bytes_of "ssh-ed25519") ;? Writer.string signature).

Definition parse_signature_blob (blob : list Z) : result (list Z) WireErr :=
  parse (
    alg <-? Reader.string;
    if negb (bool_decide (alg = bytes_of "ssh-ed25519")) then read_err Truncated
    else
      sig <-? Reader.string;
      left <-? remaining;
      if negb (length sig =? 64)%nat || negb (left =? 0)%nat then read_err Truncated
      else read_ret sig) blob.

Definition verify_exchange_signature (public_key exchange_hash sig_blob : list Z) :
    option (result bool WireErr) :=
  match parse_signature_blob sig_blob with
  | Err e => Some (Err e)
  | Ok sig =>
      v ← ed25519.verify public_key exchange_hash sig;
      Some (Ok v)
  end.

End hostkey.

(** ** Key exchange messages *)

Module kex.

Definition all_zero32 (b : list Z) : bool := ct_eq b (replicate 32 0).

(** The comma-separated names, in a buffer of 128 bytes. *)
Fixpoint list_body (i : nat) (body : list Z) (names : list string) : option (list Z) :=
  match names with
  | [] => Some body
  | n :: names =>
      let body := if (0 <? i)%nat then body ++ [COMMA] else body in
      let body := body ++ bytes_of n in
      if (length body <=? 128)%nat then list_body (S i) body names else None
  end.

Definition build_kexinit (cookie : list Z) (out_len : nat) : option (result (list Z) WireErr) :=
  kex ← list_body 0 [] KEX_ALGS;
  hostkey ← list_body 0 [] HOSTKEY_ALGS;
  cipher ← list_body 0 [] CIPHER_ALGS;
  mac ← list_body 0 [] MAC_ALGS;
  compression ← list_body 0 [] COMPRESSION_ALGS;
  Some (Writer.build out_len
    (Writer.u8 SSH_MSG_KEXINIT ;? Writer.raw cookie ;?
     Writer.string kex ;? Writer.string hostkey ;? Writer.string cipher ;? Writer.string cipher ;?
     Writer.string mac ;? Writer.string mac ;? Writer.string compression ;? Writer.string compression ;?
     Writer.u32 0 ;? Writer.u32 0 ;? Writer.u8 0 ;? Writer.u32 0)).

Record KexInitRef : Type := mkKexInitRef {
  lists : list (nat * nat); first_kex_packet_follows : bool
}.

Definition KEX : nat := 0.
Definition HOSTKEY : nat := 1.
Definition ENC_C2S : nat := 2.
Definition ENC_S2C : nat := 3.
Definition MAC_C2S : nat := 4.
Definition MAC_S2C : nat := 5.
Definition COMP_C2S : nat := 6.
Definition COMP_S2C : nat := 7.

(** [KexInitRef::list]; the range lies in the payload it was parsed from. *)
Definition list_at (k : KexInitRef) (payload : list Z) (idx : nat) : list Z :=
  let '(s, l) := lists k !!! idx in take l (drop s payload).

Fixpoint read_lists (n : nat) (payload : list Z) : Read (list (nat * nat)) :=
  match n with
  | O => read_ret []
  | S n =>
      len <-? Reader.u32;
      after <-? bytes_read payload;
      body <-? Reader.take len;
      rest <-? read_lists n payload;
      read_ret ((after, length body) :: rest)
  end.

Definition parse_kexinit (payload : list Z) : result KexInitRef WireErr :=
  if (length payload =? 0)%nat || (KEXINIT_MAX <? zlen payload) then Err Overflow
  else
    parse (
      code <-? Reader.u8;
      if negb (code =? SSH_MSG_KEXINIT) then read_err Truncated
      else
        _cookie <-? Reader.take 16;
        lists <-? read_lists 10 payload;
        follows <-? Reader.u8;
        _reserved <-? Reader.u32;
        left <-? remaining;
        if negb (left =? 0)%nat then read_err Truncated
        else read_ret (mkKexInitRef lists (negb (follows =? 0)))) payload.

Definition shared_secret (our_seed peer_public : list Z) : option (result (list Z) unit) :=
  if all_zero32 peer_public then Some (Err tt)
  else
    secret ← x25519 our_seed peer_public;
    if all_zero32 secret then Some (Err tt) else Some (Ok secret).

Definition exchange_hash (v_c v_s i_c i_s k_s e f k_mpint : list Z) : list Z :=
  let e_wire := to_be_bytes 4 32 ++ e in
  let f_wire := to_be_bytes 4 32 ++ f in
  let i_c_wire := to_be_bytes 4 (Writer.len_u32 i_c) in
  let i_s_wire := to_be_bytes 4 (Writer.len_u32 i_s) in
  let v_c_wire := to_be_bytes 4 (Writer.len_u32 v_c) in
  let v_s_wire := to_be_bytes 4 (Writer.len_u32 v_s) in
  sha256.digest
    [v_c_wire; v_c; v_s_wire; v_s; i_c_wire; i_c; i_s_wire; i_s; k_s; e_wire; f_wire; k_mpint].

Definition derive_direction_keys (k_mpint h session_id : list Z) (x : Z) : list Z :=
  let k1 := sha256.digest [k_mpint; h; [x]; session_id] in
  let k2 := sha256.digest [k_mpint; h; k1] in
  k1 ++ k2.

(** [b'C'] and [b'D'] *)
Definition derive_session_keys (k_mpint h : list Z) : CipherKeys * CipherKeys :=
  let c2s := derive_direction_keys k_mpint h h 67 in
  let s2c := derive_direction_keys k_mpint h h 68 in
  (from_material c2s, from_material s2c).

Definition build_ecdh_init (e : list Z) (out_len : nat) : result (list Z) WireErr :=
  Writer.build out_len (Writer.u8 SSH_MSG_KEX_ECDH_INIT ;? Writer.string e).

Definition parse_ecdh_init (payload : list Z) : result (list Z) WireErr :=
  parse (
    code <-? Reader.u8;
    if negb (code =? SSH_MSG_KEX_ECDH_INIT) then read_err Truncated
    else
      e <-? Reader.string;
      left <-? remaining;
      if negb (length e =? 32)%nat || negb (left =? 0)%nat then read_err Truncated
      else if all_zero32 e then read_err Truncated
      else read_ret e) payload.

Definition build_ecdh_reply (host_key_blob f signature_blob : list Z) (out_len : nat) :
    result (list Z) WireErr :=
  Writer.build out_len
    (Writer.u8 SSH_MSG_KEX_ECDH_REPLY ;? Writer.string host_key_blob ;? Writer.string f ;?
     Writer.string signature_blob).

Record EcdhReplyRef : Type := mkEcdhReplyRef {
  host_key : nat * nat; f : list Z; sig : nat * nat
}.

Definition parse_ecdh_reply (payload : list Z) : result EcdhReplyRef WireErr :=
  parse (
    code <-? Reader.u8;
    if negb (code =? SSH_MSG_KEX_ECDH_REPLY) then read_err Truncated
    else
      _k_s <-? Reader.string;
      hk_end <-? bytes_read payload;
      f_raw <-? Reader.string;
      if negb (length f_raw =? 32)%nat then read_err Truncated
      else
        sig_start <-? bytes_read payload;
        sig <-? Reader.string;
        left <-? remaining;
        if negb (left =? 0)%nat then read_err Truncated
        else read_ret (mkEcdhReplyRef (1%nat, hk_end) f_raw (sig_start, (sig_start + 4 + length sig)%nat)))
    payload.

End kex.

(** * Theorems *)

(** ** Running a parser over a known payload *)

(** A reader between what it has read and what is left. *)
Definition at_ (pre rest : list Z) : Reader := mkReader (pre ++ rest) (length pre).

Lemma new_at payload : Reader.new payload = at_ [] payload.
Proof. done. Qed.

Lemma bind_at {A B} (m : Read A) (k : A -> Read B) bs a pre rest :
  reads m bs a -> read_bind m k (at_ pre (bs ++ rest)) = k a (at_ (pre ++ bs) rest).
Proof.
  intros H. unfold read_bind, at_. rewrite (H pre rest), <- app_assoc, length_app. done.
Qed.

Lemma bind_at_end {A B} (m : Read A) (k : A -> Read B) bs a pre :
  reads m bs a -> read_bind m k (at_ pre bs) = k a (at_ (pre ++ bs) []).
Proof. intros H. rewrite <- (app_nil_r bs) at 1. by apply bind_at. Qed.

Lemma bind_remaining {B} (k : nat -> Read B) pre rest :
  read_bind remaining k (at_ pre rest) = k (length rest) (at_ pre rest).
Proof.
  unfold read_bind, remaining, at_, Reader.remaining. cbn [r_buf r_pos]. rewrite length_app.
  by replace (length pre + length rest - length pre)%nat with (length rest) by lia.
Qed.

Lemma bind_bytes_read {B} (k : nat -> Read B) payload pre rest :
  payload = pre ++ rest ->
  read_bind (bytes_read payload) k (at_ pre rest) = k (length pre) (at_ pre rest).
Proof.
  intros ->. unfold read_bind, bytes_read, at_, Reader.remaining. cbn [r_buf r_pos]. rewrite length_app.
  by replace (length pre + length rest - (length pre + length rest - length pre))%nat
    with (length pre) by lia.
Qed.

Lemma is_string_small s n : length s = n -> Z.of_nat n < 2 ^ 32 -> is_string s.
Proof. intros <-. done. Qed.

Lemma ct_eq_false a b : ct_eq a b = false <-> a <> b.
Proof.
  rewrite <- ct_eq_true. destruct (ct_eq a b); split; congruence.
Qed.

(** ** Blobs and messages round trip *)

Definition blob (bytes : list Z) : list Z := ssh_string (bytes_of "ssh-ed25519") ++ ssh_string bytes.

Lemma length_blob bytes : length (blob bytes) = (19 + length bytes)%nat.
Proof. unfold blob. rewrite length_app, !length_ssh_string. cbn [length bytes_of]. done. Qed.

Lemma is_bytes_of s : is_bytes (bytes_of s).
Proof.
  unfold bytes_of. apply Forall_map, Forall_forall. intros c _. unfold compose, is_word.
  pose proof (Ascii.N_ascii_bounded c). lia.
Qed.

Lemma is_bytes_blob bytes : is_bytes bytes -> is_bytes (blob bytes).
Proof.
  intros H. apply is_bytes_app. split; apply is_bytes_ssh_string; [apply is_bytes_of|done].
Qed.

Lemma build_blob bytes out_len : is_string bytes ->
  Writer.build out_len (Writer.string (bytes_of "ssh-ed25519") ;? Writer.string bytes) =
    if (19 + length bytes <=? out_len)%nat then Ok (blob bytes) else Err Overflow.
Proof.
  intros H. rewrite (build_writes _ _ (blob bytes)); [by rewrite length_blob|].
  apply writes_seq; apply writes_string; [done|exact H].
Qed.

Lemma parse_host_key_blob_ok pk : length pk = 32%nat -> hostkey.parse_host_key_blob (blob pk) = Ok pk.
Proof.
  intros H. unfold hostkey.parse_host_key_blob, parse, blob. rewrite new_at.
  rewrite (bind_at _ _ _ (bytes_of "ssh-ed25519")) by (by apply reads_string).
  rewrite bool_decide_eq_true_2 by done. cbn [negb].
  rewrite (bind_at_end _ _ _ pk) by (by apply reads_string, (is_string_small _ _ H)).
  rewrite bind_remaining, H. done.
Qed.

Lemma parse_signature_blob_ok sig : length sig = 64%nat -> hostkey.parse_signature_blob (blob sig) = Ok sig.
Proof.
  intros H. unfold hostkey.parse_signature_blob, parse, blob. rewrite new_at.
  rewrite (bind_at _ _ _ (bytes_of "ssh-ed25519")) by (by apply reads_string).
  rewrite bool_decide_eq_true_2 by done. cbn [negb].
  rewrite (bind_at_end _ _ _ sig) by (by apply reads_string, (is_string_small _ _ H)).
  rewrite bind_remaining, H. done.
Qed.

Lemma parse_ecdh_init_ok e : length e = 32%nat -> e <> replicate 32 0 ->
  kex.parse_ecdh_init (SSH_MSG_KEX_ECDH_INIT :: ssh_string e) = Ok e.
Proof.
  intros H Hne. unfold kex.parse_ecdh_init, parse. rewrite new_at.
  change (SSH_MSG_KEX_ECDH_INIT :: ssh_string e) with ([SSH_MSG_KEX_ECDH_INIT] ++ ssh_string e).
  rewrite (bind_at _ _ _ SSH_MSG_KEX_ECDH_INIT) by apply reads_u8. cbn [Z.eqb negb Pos.eqb SSH_MSG_KEX_ECDH_INIT].
  rewrite (bind_at_end _ _ _ e) by (by apply reads_string, (is_string_small _ _ H)).
  rewrite bind_remaining, H. cbn [length Nat.eqb negb orb]. unfold kex.all_zero32.
  by rewrite (proj2 (ct_eq_false _ _)).
Qed.

Definition ecdh_reply (host_key_blob f signature_blob : list Z) : list Z :=
  [SSH_MSG_KEX_ECDH_REPLY] ++ ssh_string host_key_blob ++ ssh_string f ++ ssh_string signature_blob.

Lemma parse_ecdh_reply_ok k_s f sig :
  is_string k_s -> length f = 32%nat -> is_string sig ->
  let payload := ecdh_reply k_s f sig in
  exists p, kex.parse_ecdh_reply payload = Ok p /\ kex.f p = f /\
    take ((kex.host_key p).2 - (kex.host_key p).1) (drop (kex.host_key p).1 payload) = ssh_string k_s /\
    take ((kex.sig p).2 - (kex.sig p).1) (drop (kex.sig p).1 payload) = ssh_string sig /\
    (kex.host_key p).1 = 1%nat /\ (kex.host_key p).2 = (5 + length k_s)%nat /\
    (kex.sig p).1 = (41 + length k_s)%nat /\ (kex.sig p).2 = (45 + length k_s + length sig)%nat.
Proof.
  intros Hk Hf Hs. cbv zeta. unfold kex.parse_ecdh_reply, parse, ecdh_reply. rewrite new_at.
  rewrite (bind_at _ _ _ SSH_MSG_KEX_ECDH_REPLY) by apply reads_u8.
  cbn [Z.eqb negb Pos.eqb SSH_MSG_KEX_ECDH_REPLY].
  rewrite (bind_at _ _ _ k_s) by (by apply reads_string).
  rewrite bind_bytes_read by (by rewrite <- app_assoc).
  rewrite (bind_at _ _ _ f) by (by apply reads_string, (is_string_small _ _ Hf)).
  rewrite Hf. cbn [Nat.eqb negb]. rewrite bind_bytes_read by (by rewrite <- !app_assoc).
  rewrite (bind_at_end _ _ _ sig) by (by apply reads_string). rewrite bind_remaining.
  cbn [length Nat.eqb negb]. unfold read_ret. cbn [fst]. eexists. split; [done|].
  cbn [kex.f kex.host_key kex.sig fst snd]. rewrite !app_nil_l, !length_app, !length_ssh_string, Hf. cbn [length].
  split_and!; try done; try lia.
  - replace (1 + (4 + length k_s) - 1)%nat with (length (ssh_string k_s)) by (rewrite length_ssh_string; lia).
    rewrite (drop_app_length' [_]) by done. apply take_app_length.
  - replace (1 + (4 + length k_s) + (4 + 32) + 4 + length sig - (1 + (4 + length k_s) + (4 + 32)))%nat
      with (length (ssh_string sig)) by (rewrite length_ssh_string; lia).
    rewrite !app_assoc, drop_app_length'; [by rewrite firstn_all|].
    rewrite !length_app, !length_ssh_string, Hf. done.
Qed.

Lemma read_lists_ok bodies pre rest payload :
  Forall is_string bodies -> payload = pre ++ concat (map ssh_string bodies) ++ rest ->
  exists refs,
    kex.read_lists (length bodies) payload (at_ pre (concat (map ssh_string bodies) ++ rest)) =
      (Ok refs, at_ (pre ++ concat (map ssh_string bodies)) rest) /\
    map (fun '(s, l) => take l (drop s payload)) refs = bodies.
Proof.
  intros Hb. revert pre. induction Hb as [|b bodies Hs Hb IH]; intros pre Hp; cbn [map concat length].
  - exists []. split; [|done]. cbn [kex.read_lists]. unfold read_ret. by rewrite app_nil_r.
  - cbn [kex.read_lists map concat] in *. unfold ssh_string at 1. rewrite <- !app_assoc.
    unfold is_string in Hs.
    rewrite (bind_at _ _ _ (Z.of_nat (length b))) by (apply reads_u32; unfold is_word; lia).
    rewrite bind_bytes_read by (rewrite Hp; unfold ssh_string; by rewrite <- !app_assoc).
    rewrite (bind_at _ _ _ b) by (by apply reads_take).
    destruct (IH (pre ++ ssh_string b)) as (refs & E & Er); [rewrite Hp; by rewrite <- !app_assoc|].
    unfold read_bind. replace ((pre ++ ssh_u32 (Z.of_nat (length b))) ++ b) with (pre ++ ssh_string b)
      by (unfold ssh_string; by rewrite <- !app_assoc).
    rewrite E. unfold read_ret. eexists. split; [by rewrite <- !app_assoc|].
    cbn [map]. rewrite Er. f_equal. rewrite Hp. unfold ssh_string at 1. rewrite <- !app_assoc.
    rewrite (app_assoc pre), drop_app_length, take_app_length. done.
Qed.

(** A KEXINIT payload with ten name lists. *)
Definition kexinit (cookie : list Z) (bodies : list (list Z)) (follows : Z) : list Z :=
  [SSH_MSG_KEXINIT] ++ cookie ++ concat (map ssh_string bodies) ++ [follows] ++ ssh_u32 0.

Lemma parse_kexinit_ok cookie bodies follows :
  length cookie = 16%nat -> length bodies = 10%nat -> Forall is_string bodies ->
  zlen (kexinit cookie bodies follows) <= KEXINIT_MAX ->
  exists k, kex.parse_kexinit (kexinit cookie bodies follows) = Ok k /\
    (forall i, (i < 10)%nat -> kex.list_at k (kexinit cookie bodies follows) i = bodies !!! i).
Proof.
  intros Hc Hl Hb Hz. unfold kex.parse_kexinit.
  rewrite (proj2 (Z.ltb_ge _ _)) by done.
  replace (length (kexinit cookie bodies follows) =? 0)%nat with false by done. cbn [orb].
  unfold parse. rewrite new_at. unfold kexinit at 2.
  rewrite (bind_at _ _ _ SSH_MSG_KEXINIT) by apply reads_u8. cbn [Z.eqb negb Pos.eqb SSH_MSG_KEXINIT].
  rewrite (bind_at _ _ _ cookie) by (apply reads_take; by rewrite Hc).
  destruct (read_lists_ok bodies ([] ++ [SSH_MSG_KEXINIT] ++ cookie) ([follows] ++ ssh_u32 0)
    (kexinit cookie bodies follows) Hb) as (refs & E & Er); [unfold kexinit; by rewrite <- !app_assoc|].
  unfold read_bind at 1. rewrite Hl in E. rewrite <- app_assoc, E. cbn [fst].
  rewrite (bind_at _ _ _ follows) by apply reads_u8.
  rewrite (bind_at_end _ _ _ 0) by (apply reads_u32; unfold is_word; lia).
  rewrite bind_remaining. cbn [length Nat.eqb negb]. unfold read_ret. cbn [fst].
  eexists. split; [done|]. intros i Hi. unfold kex.list_at. cbn [kex.lists].
  assert (Hlen : length refs = 10%nat) by (rewrite <- Hl, <- Er; by rewrite length_map).
  destruct (lookup_lt_is_Some_2 refs i) as [[s l] Ei]; [lia|].
  rewrite (list_lookup_total_correct refs i (s, l) Ei). symmetry. apply list_lookup_total_correct.
  apply (f_equal (lookup i)) in Er. change (map ?g refs) with (g <$> refs) in Er.
  by rewrite list_lookup_fmap, Ei in Er.
Qed.

(** The lists this transport offers. *)
Definition offered : list (list Z) :=
  let kex := bytes_of "curve25519-sha256,curve25519-sha256@libssh.org" in
  let cipher := bytes_of "chacha20-poly1305@openssh.com" in
  [kex; bytes_of "ssh-ed25519"; cipher; cipher; bytes_of "hmac-sha2-256"; bytes_of "hmac-sha2-256";
   bytes_of "none"; bytes_of "none"; []; []].

Lemma length_kexinit cookie bodies follows :
  length (kexinit cookie bodies follows) =
    (6 + length cookie + length (concat (map ssh_string bodies)))%nat.
Proof. unfold kexinit. rewrite !length_app, length_ssh_u32. cbn [length]. lia. Qed.

Lemma offered_strings : Forall is_string offered.
Proof. repeat constructor. Qed.

Lemma length_offered cookie : length cookie = 16%nat -> length (kexinit cookie offered 0) = 211%nat.
Proof. intros H. rewrite length_kexinit, H. done. Qed.

Lemma build_kexinit_ok cookie out_len : length cookie = 16%nat -> (211 <= out_len)%nat ->
  kex.build_kexinit cookie out_len = Some (Ok (kexinit cookie offered 0)).
Proof.
  intros Hc Ho. unfold kex.build_kexinit.
  change (kex.list_body 0 [] KEX_ALGS) with (Some (offered !!! 0%nat)).
  change (kex.list_body 0 [] HOSTKEY_ALGS) with (Some (offered !!! 1%nat)).
  change (kex.list_body 0 [] CIPHER_ALGS) with (Some (offered !!! 2%nat)).
  change (kex.list_body 0 [] MAC_ALGS) with (Some (offered !!! 4%nat)).
  change (kex.list_body 0 [] COMPRESSION_ALGS) with (Some (offered !!! 6%nat)).
  cbn [mbind option_bind]. rewrite (build_writes _ _ (kexinit cookie offered 0)).
  { by rewrite length_offered, (proj2 (Nat.leb_le _ _)). }
  unfold kexinit, offered. cbv zeta. cbn [map concat lookup_total list_lookup_total]. rewrite <- !app_assoc, app_nil_l.
  repeat first [apply writes_seq; [first [apply writes_u8 | apply writes_raw | apply writes_u32 | by apply writes_string]|]].
  apply writes_u32.
Qed.

(** Two peers of this implementation agree on every algorithm. *)
Lemma offers_agree :
  negotiate (offered !!! 0%nat) (offered !!! 1%nat) (offered !!! 2%nat) (offered !!! 3%nat)
    (offered !!! 4%nat) (offered !!! 5%nat) (offered !!! 6%nat) (offered !!! 7%nat) =
  Ok (mkNegotiated "curve25519-sha256" "ssh-ed25519" "chacha20-poly1305@openssh.com"
        "chacha20-poly1305@openssh.com" "hmac-sha2-256" "hmac-sha2-256" "none" "none").
Proof. vm_compute. reflexivity. Qed.

(** ** What a parser's success says of its payload *)

Lemma bind_inv {A B} (m : Read A) (k : A -> Read B) r r'' b :
  read_bind m k r = (Ok b, r'') -> exists a r', m r = (Ok a, r') /\ k a r' = (Ok b, r'').
Proof. unfold read_bind. destruct (m r) as [[a|e] r'] eqn:E; [|done]. intros H. by exists a, r'. Qed.

(** [r'] is [r] moved on by [n] bytes, within the buffer. *)
Definition moved (r r' : Reader) (n : nat) : Prop :=
  r_buf r' = r_buf r /\ r_pos r' = (r_pos r + n)%nat /\ (r_pos r' <= length (r_buf r))%nat.

Lemma u8_inv r r' v :
  is_bytes (r_buf r) -> Reader.u8 r = (Ok v, r') -> is_word 8 v /\ moved r r' 1.
Proof.
  intros Hb. unfold Reader.u8, moved. destruct (Nat.leb_spec (length (r_buf r)) (r_pos r)) as [H|H]; [done|].
  intros [= <- <-]. cbn [r_buf r_pos]. split_and!; try done; [|lia].
  destruct (lookup_lt_is_Some_2 (r_buf r) (r_pos r) H) as [x E].
  rewrite (list_lookup_total_correct _ _ _ E). by apply (Forall_lookup_1 _ _ _ _ Hb E).
Qed.

Lemma take_inv n r r' s :
  is_bytes (r_buf r) -> 0 <= n -> (r_pos r <= length (r_buf r))%nat -> Reader.take n r = (Ok s, r') ->
  is_bytes s /\ Z.of_nat (length s) = n /\ moved r r' (length s).
Proof.
  intros Hb Hn Hp. unfold Reader.take, moved, Reader.remaining.
  destruct (Z.ltb_spec (Z.of_nat (length (r_buf r) - r_pos r)) n) as [H|H]; [done|].
  intros [= <- <-]. cbn [r_buf r_pos]. rewrite length_take, length_drop. split_and!; try done; try lia.
  by apply Forall_take, Forall_drop.
Qed.

Lemma u32_inv r r' v :
  is_bytes (r_buf r) -> Reader.u32 r = (Ok v, r') -> is_word 32 v /\ moved r r' 4.
Proof.
  intros Hb. unfold Reader.u32, moved, Reader.remaining.
  destruct (Nat.ltb_spec (length (r_buf r) - r_pos r) 4) as [H|H]; [done|].
  intros [= <- <-]. cbn [r_buf r_pos]. split_and!; try done; try lia.
  pose proof (from_be_bound (list.take 4 (drop (r_pos r) (r_buf r)))) as Hv.
  rewrite length_take, length_drop, Nat.min_l in Hv by lia. by apply Hv, Forall_take, Forall_drop.
Qed.

Lemma string_inv r r' s :
  is_bytes (r_buf r) -> Reader.string r = (Ok s, r') -> is_bytes s /\ is_string s /\ moved r r' (4 + length s).
Proof.
  intros Hb H. apply bind_inv in H as (len & r1 & H1 & H2).
  apply u32_inv in H1 as [Hw (B1 & P1 & L1)]; [|done]. unfold is_word in Hw.
  rewrite <- B1 in Hb, L1. apply take_inv in H2 as (Hs & Hl & B2 & P2 & L2); [|done|lia|lia].
  unfold is_string, moved. rewrite B2, B1. rewrite B1 in L2. split_and!; try done; lia.
Qed.

(** Take a parser's success apart, read by read. *)
Ltac read_inv H :=
  lazymatch type of H with
  | read_bind _ _ _ = (Ok _, _) =>
      let a := fresh "v" in let r := fresh "rd" in let E := fresh "E" in
      apply bind_inv in H as (a & r & E & H); cbn beta in H; read_inv H
  | (if ?c then read_err _ else _) _ = (Ok _, _) =>
      let E := fresh "C" in destruct c eqn:E; [discriminate H|]; read_inv H
  | read_ret _ _ = (Ok _, _) => unfold read_ret in H; injection H as <- <-
  | _ => idtac
  end.

Lemma parse_inv {A} (m : Read A) payload a :
  parse m payload = Ok a -> exists r', m (Reader.new payload) = (Ok a, r').
Proof. unfold parse. destruct (m _) as [x r']. cbn. intros ->. by exists r'. Qed.

Lemma parse_host_key_blob_inv b pk :
  is_bytes b -> hostkey.parse_host_key_blob b = Ok pk -> is_bytes pk /\ length pk = 32%nat.
Proof.
  intros Hb H. apply parse_inv in H as [r' H]. read_inv H.
  apply string_inv in E as (_ & _ & B & _); [|done]. apply string_inv in E0 as (? & _); [|by rewrite B].
  apply orb_false_iff in C0 as [C0 _]. apply negb_false_iff, Nat.eqb_eq in C0. done.
Qed.

Lemma parse_signature_blob_inv b sig :
  is_bytes b -> hostkey.parse_signature_blob b = Ok sig -> is_bytes sig /\ length sig = 64%nat.
Proof.
  intros Hb H. apply parse_inv in H as [r' H]. read_inv H.
  apply string_inv in E as (_ & _ & B & _); [|done]. apply string_inv in E0 as (? & _); [|by rewrite B].
  apply orb_false_iff in C0 as [C0 _]. apply negb_false_iff, Nat.eqb_eq in C0. done.
Qed.

Lemma parse_ecdh_init_inv payload e :
  is_bytes payload -> kex.parse_ecdh_init payload = Ok e ->
  is_bytes e /\ length e = 32%nat /\ e <> replicate 32 0.
Proof.
  intros Hb H. apply parse_inv in H as [r' H]. read_inv H.
  apply u8_inv in E as (_ & B & _); [|done]. apply string_inv in E0 as (? & _); [|by rewrite B].
  apply orb_false_iff in C0 as [C0 _]. apply negb_false_iff, Nat.eqb_eq in C0.
  unfold kex.all_zero32 in C1. by apply ct_eq_false in C1.
Qed.

Lemma parse_ecdh_reply_inv payload p :
  is_bytes payload -> kex.parse_ecdh_reply payload = Ok p ->
  is_bytes (kex.f p) /\ length (kex.f p) = 32%nat /\
  ((kex.host_key p).1 = 1 /\ 5 <= (kex.host_key p).2 <= length payload)%nat /\
  ((kex.sig p).1 + 4 <= (kex.sig p).2 <= length payload)%nat.
Proof.
  intros Hb H. apply parse_inv in H as [r' H]. read_inv H.
  apply u8_inv in E as (_ & B & P & L); [|done]. cbn [r_buf r_pos Reader.new] in *.
  apply string_inv in E0 as (_ & _ & B0 & P0 & L0); [|by rewrite B].
  unfold bytes_read in E1. injection E1 as <- <-.
  apply string_inv in E2 as (? & _ & B2 & P2 & L2); [|by rewrite B0, B].
  unfold bytes_read in E3. injection E3 as <- <-.
  apply string_inv in E4 as (_ & _ & B4 & P4 & L4); [|by rewrite B2, B0, B].
  apply negb_false_iff, Nat.eqb_eq in C0.
  cbn [kex.f kex.host_key kex.sig fst snd]. unfold Reader.remaining.
  rewrite B2, B0, B in *. rewrite P2, P0, P in *. split_and!; try done; lia.
Qed.
