(* ===== verification/SshCore.v ===== *)
(** * SSH transport state (shared/ssh/src/transport.rs, auth.rs, channel.rs)

    The state of a connection, the monad its handlers run in, and the output
    path: queueing raw bytes, queueing a packet, and closing with a DISCONNECT.

    Buffers with a length field ([out], [inbuf], [peer_ident], the KEXINIT
    records, [k_mpint], [peer_desc], [pending_out]) are the list of their live
    bytes, as nothing reads past the length; their capacities are checked where
    the code checks them.  [len_scratch] and [msg_scratch] are written whole
    before every use and are local values here. *)

From S2P Require Import Prelude Words SshWire SshPacket SshKex.
From stdpp Require Import base list option strings.
From Stdlib Require Import ZArith Lia.

#[local] Open Scope Z_scope.
#[local] Open Scope ssh_scope.

(** ** Record update

    [t <| f := v |>] is the record [t] with field [f] replaced.  A setter is
    derived per field by abstracting the field in the record's eta expansion. *)

Class Setter {R T : Type} (field : R -> T) : Type := set : (T -> T) -> R -> R.
#[global] Arguments set {R T} field {_} f r.

Notation "t <| f := v |>" := (set f (fun _ => v) t)
  (at level 1, f at next level, left associativity) : ssh_scope.

Ltac derive_setter eta :=
  lazymatch goal with
  | |- Setter ?field =>
      let body := eval cbv beta delta [eta] in eta in
      lazymatch (eval pattern field in body) with
      | ?k _ => exact (fun f => k (fun r => f (field r)))
      end
  end.

Inductive Role : Type := Server | Client.

Inductive State : Type := VersionExchange | KexInit | KexReply | NewKeys | Established | Closed.

#[export] Instance Role_eq_dec : EqDecision Role.
Proof. solve_decision. Defined.
#[export] Instance State_eq_dec : EqDecision State.
Proof. solve_decision. Defined.

(** ** Authentication state (auth.rs) *)

Definition MAX_AUTH_FAILURES : Z := 3.
Definition MAX_USER : nat := 32.
Definition MAX_PASSWORD : nat := 64.

Inductive AuthPhase : Type := Idle | ServiceAccepted | Pending | Authenticated.

#[export] Instance AuthPhase_eq_dec : EqDecision AuthPhase.
Proof. solve_decision. Defined.

Record AuthState : Type := mkAuthState {
  phase : AuthPhase; fails : Z; user : list Z; user_len : nat; password : list Z; password_len : nat
}.

Module AuthState.

Definition new : AuthState :=
  mkAuthState Idle 0 (replicate MAX_USER 0) 0 (replicate MAX_PASSWORD 0) 0.

Definition zero_credentials (a : AuthState) : AuthState :=
  mkAuthState (phase a) (fails a) (replicate (length (user a)) 0) 0
    (replicate (length (password a)) 0) 0.

Definition set_phase (p : AuthPhase) (a : AuthState) : AuthState :=
  mkAuthState p (fails a) (user a) (user_len a) (password a) (password_len a).

Definition set_fails (n : Z) (a : AuthState) : AuthState :=
  mkAuthState (phase a) n (user a) (user_len a) (password a) (password_len a).

End AuthState.

(** ** Channel state (channel.rs) *)

Record ChannelState : Type := mkChannelState {
  chan_open : bool; chan_remote_id : Z; chan_remote_window : Z; chan_pty : bool;
  chan_pty_width : Z; chan_pty_height : Z; chan_shell : bool; chan_eof_in : bool;
  chan_eof_out : bool; chan_close_in : bool; chan_close_out : bool; chan_pending_out : list Z
}.

Module ChannelState.

Definition new : ChannelState :=
  mkChannelState false 0 0 false 0 0 false false false false false [].

End ChannelState.

(** ** The transport *)

Record SshTransport : Type := mkTransport {
  t_role : Role; t_state : State; t_out : list Z; t_inbuf : list Z; t_proc : list Z;
  t_host_seed : list Z; t_host_pub : list Z; t_x25519_seed : list Z; t_cookie : list Z;
  t_peer_ident : list Z; t_my_kexinit : list Z; t_peer_kexinit : list Z;
  t_negotiated : option Negotiated; t_e_client : list Z; t_f_server : list Z;
  t_k_mpint : list Z; t_exchange_h : list Z; t_session_id : option (list Z);
  t_tx_keys : option CipherKeys; t_rx_keys : option CipherKeys;
  t_pending_rx : option CipherKeys; t_rx_seq : Z; t_tx_seq : Z; t_peer_desc : list Z;
  t_peer_reason : option Z; t_auth : AuthState; t_chan : ChannelState
}.

Definition eta_transport (t : SshTransport) : SshTransport :=
  mkTransport (t_role t) (t_state t) (t_out t) (t_inbuf t) (t_proc t) (t_host_seed t)
    (t_host_pub t) (t_x25519_seed t) (t_cookie t) (t_peer_ident t) (t_my_kexinit t)
    (t_peer_kexinit t) (t_negotiated t) (t_e_client t) (t_f_server t) (t_k_mpint t)
    (t_exchange_h t) (t_session_id t) (t_tx_keys t) (t_rx_keys t) (t_pending_rx t) (t_rx_seq t)
    (t_tx_seq t) (t_peer_desc t) (t_peer_reason t) (t_auth t) (t_chan t).

Definition eta_channel (c : ChannelState) : ChannelState :=
  mkChannelState (chan_open c) (chan_remote_id c) (chan_remote_window c) (chan_pty c)
    (chan_pty_width c) (chan_pty_height c) (chan_shell c) (chan_eof_in c) (chan_eof_out c)
    (chan_close_in c) (chan_close_out c) (chan_pending_out c).

#[export] Instance set_role : Setter t_role.
Proof. derive_setter eta_transport. Defined.
#[export] Instance set_state : Setter t_state.
Proof. derive_setter eta_transport. Defined.
#[export] Instance set_out : Setter t_out.
Proof. derive_setter eta_transport. Defined.
#[export] Instance set_inbuf : Setter t_inbuf.
Proof. derive_setter eta_transport. Defined.
#[export] Instance set_proc : Setter t_proc.
Proof. derive_setter eta_transport. Defined.
#[export] Instance set_host_seed : Setter t_host_seed.
Proof. derive_setter eta_transport. Defined.
#[export] Instance set_host_pub : Setter t_host_pub.
Proof. derive_setter eta_transport. Defined.
#[export] Instance set_x25519_seed : Setter t_x25519_seed.
Proof. derive_setter eta_transport. Defined.
#[export] Instance set_cookie : Setter t_cookie.
Proof. derive_setter eta_transport. Defined.
#[export] Instance set_peer_ident : Setter t_peer_ident.
Proof. derive_setter eta_transport. Defined.
#[export] Instance set_my_kexinit : Setter t_my_kexinit.
Proof. derive_setter eta_transport. Defined.
#[export] Instance set_peer_kexinit : Setter t_peer_kexinit.
Proof. derive_setter eta_transport. Defined.
#[export] Instance set_negotiated : Setter t_negotiated.
Proof. derive_setter eta_transport. Defined.
#[export] Instance set_e_client : Setter t_e_client.
Proof. derive_setter eta_transport. Defined.
#[export] Instance set_f_server : Setter t_f_server.
Proof. derive_setter eta_transport. Defined.
#[export] Instance set_k_mpint : Setter t_k_mpint.
Proof. derive_setter eta_transport. Defined.
#[export] Instance set_exchange_h : Setter t_exchange_h.
Proof. derive_setter eta_transport. Defined.
#[export] Instance set_session_id : Setter t_session_id.
Proof. derive_setter eta_transport. Defined.
#[export] Instance set_tx_keys : Setter t_tx_keys.
Proof. derive_setter eta_transport. Defined.
#[export] Instance set_rx_keys : Setter t_rx_keys.
Proof. derive_setter eta_transport. Defined.
#[export] Instance set_pending_rx : Setter t_pending_rx.
Proof. derive_setter eta_transport. Defined.
#[export] Instance set_rx_seq : Setter t_rx_seq.
Proof. derive_setter eta_transport. Defined.
#[export] Instance set_tx_seq : Setter t_tx_seq.
Proof. derive_setter eta_transport. Defined.
#[export] Instance set_peer_desc : Setter t_peer_desc.
Proof. derive_setter eta_transport. Defined.
#[export] Instance set_peer_reason : Setter t_peer_reason.
Proof. derive_setter eta_transport. Defined.
#[export] Instance set_auth : Setter t_auth.
Proof. derive_setter eta_transport. Defined.
#[export] Instance set_chan : Setter t_chan.
Proof. derive_setter eta_transport. Defined.
#[export] Instance set_chan_open : Setter chan_open.
Proof. derive_setter eta_channel. Defined.
#[export] Instance set_chan_remote_id : Setter chan_remote_id.
Proof. derive_setter eta_channel. Defined.
#[export] Instance set_chan_remote_window : Setter chan_remote_window.
Proof. derive_setter eta_channel. Defined.
#[export] Instance set_chan_pty : Setter chan_pty.
Proof. derive_setter eta_channel. Defined.
#[export] Instance set_chan_pty_width : Setter chan_pty_width.
Proof. derive_setter eta_channel. Defined.
#[export] Instance set_chan_pty_height : Setter chan_pty_height.
Proof. derive_setter eta_channel. Defined.
#[export] Instance set_chan_shell : Setter chan_shell.
Proof. derive_setter eta_channel. Defined.
#[export] Instance set_chan_eof_in : Setter chan_eof_in.
Proof. derive_setter eta_channel. Defined.
#[export] Instance set_chan_eof_out : Setter chan_eof_out.
Proof. derive_setter eta_channel. Defined.
#[export] Instance set_chan_close_in : Setter chan_close_in.
Proof. derive_setter eta_channel. Defined.
#[export] Instance set_chan_close_out : Setter chan_close_out.
Proof. derive_setter eta_channel. Defined.
#[export] Instance set_chan_pending_out : Setter chan_pending_out.
Proof. derive_setter eta_channel. Defined.

Definition OUT_CAP : Z := 34816.
Definition IN_CAP : Z := MAX_WIRE_LEN + 512.
Definition STAGE_CAP : Z := MAX_PACKET_LEN.
Definition MSG_SCRATCH_CAP : Z := MAX_PAYLOAD_LEN + Z.of_nat BLOCK_SIZE + 8.
Definition LINE_CAP : nat := IDENT_MAX + 1.
Definition PRE_LINES_MAX : nat := 16.
Definition PEER_DESC_CAP : nat := 128.
Definition KEXINIT_CAP : Z := KEXINIT_MAX.

(** ** The handlers' monad

    A handler runs on the transport and ends in a value or in an error, which
    [?] passes on with the state as it is then; [None] is a panic. *)

Definition M (A : Type) : Type := SshTransport -> option (result A Fail * SshTransport).

Definition ret {A : Type} (a : A) : M A := fun t => Some (Ok a, t).
Definition fail {A : Type} (e : Fail) : M A := fun t => Some (Err e, t).
Definition panic {A : Type} : M A := fun _ => None.
Definition get : M SshTransport := fun t => Some (Ok t, t).
Definition modify (f : SshTransport -> SshTransport) : M unit := fun t => Some (Ok tt, f t).

(** [let x = m?; k] *)
Definition bind {A B : Type} (m : M A) (k : A -> M B) : M B := fun t =>
  match m t with
  | Some (Ok a, t') => k a t'
  | Some (Err e, t') => Some (Err e, t')
  | None => None
  end.

Notation "x <-! m ; k" := (bind m (fun x => k))
  (at level 100, m at next level, k at level 200, right associativity) : ssh_scope.
Notation "m ;; k" := (bind m (fun _ => k))
  (at level 100, k at level 200, right associativity) : ssh_scope.

(** A computation that does not touch the transport and can panic. *)
Definition lift {A : Type} (o : option A) : M A :=
  match o with Some a => ret a | None => panic end.

(** [let _ = m;] *)
Definition ignore {A : Type} (m : M A) : M unit := fun t =>
  match m t with
  | Some (_, t') => Some (Ok tt, t')
  | None => None
  end.

(** [r.map_err(|_| e)?] *)
Definition or_fail {A E : Type} (r : result A E) (e : Fail) : M A :=
  match r with Ok a => ret a | Err _ => fail e end.

(** [&l[a..b]] *)
Definition index_range (l : list Z) (a b : nat) : option (list Z) :=
  if (a <=? b)%nat && (b <=? length l)%nat then Some (take (b - a) (drop a l)) else None.

Definition is_some {A : Type} (o : option A) : bool := match o with Some _ => true | None => false end.

(** ** Output *)

Definition emit_raw (bytes : list Z) : M unit :=
  t <-! get;
  if OUT_CAP <? zlen (t_out t) + zlen bytes then fail OutOfCapacity
  else modify (fun t => t <| t_out := t_out t ++ bytes |>).

Definition emit_packet (payload : list Z) : M unit :=
  t <-! get;
  let pad :=
    if is_some (t_tx_keys t) then padding_len_aead (length payload) BLOCK_SIZE
    else padding_len (length payload) BLOCK_SIZE in
  let wire_len := (4 + 1 + length payload + pad + if is_some (t_tx_keys t) then 16 else 0)%nat in
  if OUT_CAP <? zlen (t_out t) + Z.of_nat wire_len then fail OutOfCapacity
  else
    wire <-! match t_tx_keys t with
      | None => or_fail (encode_plain payload (OUT_CAP - zlen (t_out t))) OutOfCapacity
      | Some keys =>
          if MSG_SCRATCH_CAP <? Z.of_nat (1 + length payload + pad) then panic
          else
            let msg := padded pad payload in
            r <-! lift (encode_aead_msg msg keys (t_tx_seq t) (OUT_CAP - zlen (t_out t)));
            or_fail r OutOfCapacity
      end;
    modify (fun t => t <| t_out := t_out t ++ wire |> <| t_tx_seq := wrapping_add 32 (t_tx_seq t) 1 |>).

(** The payload of a DISCONNECT; both writes' errors are dropped. *)
Definition disconnect_payload (reason : DisconnectReason) (description : string) : list Z :=
  let w := Writer.new (4 + PEER_DESC_CAP + 4) in
  let w := (Writer.string (bytes_of description) w).2 in
  let w := (Writer.string [] w).2 in
  [1] ++ to_be_bytes 4 (DisconnectReason.code reason) ++ w_out w.

(** [return Err(self.fail_disconnect(reason, description))] *)
Definition fail_disconnect {A : Type} (reason : DisconnectReason) (description : string) : M A :=
  ignore (emit_packet (disconnect_payload reason description)) ;;
  modify (fun t => t <| t_state := Closed |>) ;;
  fail (LocalDisconnect reason description).

Definition pending_output (t : SshTransport) : list Z := t_out t.

Definition consume_output (n : nat) (t : SshTransport) : SshTransport :=
  let n := Nat.min n (length (t_out t)) in
  t <| t_out := drop n (t_out t) |>.
