(* ===== verification/SshAuth.v ===== *)
(** * SSH authentication (shared/ssh/src/auth.rs)

    The handlers of RFC 4252 password authentication, and the host's verdict. *)

From S2P Require Import Prelude Words SshWire SshPacket SshKex SshCore.
From stdpp Require Import base list option strings.
From Stdlib Require Import ZArith Lia.

#[local] Open Scope Z_scope.
#[local] Open Scope ssh_scope.

(** [&payload[1..]] *)
Definition after_type (payload : list Z) : option (list Z) := index_range payload 1 (length payload).

(** A parser over the bytes after the message type; [.ok()?] all along. *)
Definition parse_body {A : Type} (m : Read A) (payload : list Z) : option (option A) :=
  body ← after_type payload;
  Some (ok (parse m body)).

(** [&self.proc[start..start + len]] *)
Definition proc_range (start len : nat) : M (list Z) :=
  t <-! get;
  lift (index_range (t_proc t) start (start + len)).

(** ** Authentication *)

Definition SSH_MSG_SERVICE_ACCEPT : Z := 6.
Definition SSH_MSG_USERAUTH_REQUEST : Z := 50.
Definition SSH_MSG_USERAUTH_FAILURE : Z := 51.
Definition SSH_MSG_USERAUTH_SUCCESS : Z := 52.

Definition PASSWORD_METHOD : list Z := bytes_of "password".

Definition parse_service_request : list Z -> option (option nat) :=
  parse_body (name <-? Reader.string; read_ret (length name)).

Definition set_phase (p : AuthPhase) (t : SshTransport) : SshTransport :=
  t <| t_auth := AuthState.set_phase p (t_auth t) |>.

Definition handle_service_request (start len : nat) : M unit :=
  payload <-! proc_range start len;
  name_len <-! lift (parse_service_request payload);
  match name_len with
  | None => fail_disconnect ProtocolError "malformed SERVICE_REQUEST"
  | Some name_len =>
      t <-! get;
      accepted <-! match phase (t_auth t) with
        | Idle => ret (bytes_of "ssh-userauth")
        | Authenticated => ret (bytes_of "ssh-connection")
        | ServiceAccepted | Pending => fail_disconnect ProtocolError "duplicate service request"
        end;
      if negb (name_len =? length accepted)%nat then
        fail_disconnect ServiceNotAvailable "service request rejected (only ssh-userauth pre-auth)"
      else
        body <-! match Writer.build 20 (Writer.string accepted) with Ok b => ret b | Err _ => panic end;
        modify (fun t => set_phase
          (match phase (t_auth t) with Idle => ServiceAccepted | _ => Authenticated end) t) ;;
        emit_packet ([SSH_MSG_SERVICE_ACCEPT] ++ body)
  end.

Inductive ShapeError : Type := Malformed | NotAPassword.

Definition reply_auth_failure : M unit :=
  emit_packet ([SSH_MSG_USERAUTH_FAILURE] ++
    to_be_bytes 4 (Writer.len_u32 PASSWORD_METHOD) ++ PASSWORD_METHOD ++ [0]).

(** The fields of a USERAUTH_REQUEST, in reading order; [None] where the reader
    ran out of bytes. *)
Definition read_shape : Read (result (nat * nat) ShapeError) :=
  user <-? Reader.string;
  service <-? Reader.string;
  method <-? Reader.string;
  if negb (bool_decide (method = PASSWORD_METHOD)) ||
     negb (bool_decide (service = bytes_of "ssh-connection"))
  then read_ret (Err NotAPassword)
  else
    flag <-? Reader.u8;
    if negb (flag =? 0) then read_ret (Err NotAPassword)
    else
      password <-? Reader.string;
      left <-? remaining;
      if negb (left =? 0)%nat then read_ret (Err NotAPassword)
      else if (length user =? 0)%nat || (MAX_USER <? length user)%nat ||
              (MAX_PASSWORD <? length password)%nat
      then read_ret (Err NotAPassword)
      else read_ret (Ok (length user, length password)).

Definition parse_userauth_shape (payload : list Z) : option (result (nat * nat) ShapeError) :=
  body ← after_type payload;
  Some (match parse read_shape body with Ok r => r | Err _ => Err Malformed end).

(** The user name and the password; [None] where the code returns [false]. *)
Definition read_credentials : Read (option (list Z * list Z)) :=
  user <-? Reader.string;
  _service <-? Reader.string;
  _method <-? Reader.string;
  flag <-? (fun r => let '(v, r) := Reader.u8 r in (Ok (unwrap_or 1 v), r));
  if negb (flag =? 0) then read_ret None
  else
    password <-? Reader.string;
    read_ret (Some (user, password)).

(** The credentials copied into the two arrays; a field longer than its array panics. *)
Definition copy_credentials (payload user password : list Z) : option (option (list Z * list Z)) :=
  body ← after_type payload;
  match parse read_credentials body with
  | Ok (Some (u, p)) =>
      if (length u <=? length user)%nat && (length p <=? length password)%nat
      then Some (Some (copy_into user 0 u, copy_into password 0 p))
      else None
  | _ => Some None
  end.

Definition handle_userauth_request (start len : nat) : M unit :=
  payload <-! proc_range start len;
  shape <-! lift (parse_userauth_shape payload);
  match shape with
  | Err Malformed => fail_disconnect ProtocolError "malformed USERAUTH_REQUEST"
  | Err NotAPassword => reply_auth_failure
  | Ok (user_len, password_len) =>
      parsed <-! lift (copy_credentials payload (replicate MAX_USER 0) (replicate MAX_PASSWORD 0));
      match parsed with
      | None => reply_auth_failure
      | Some (user_, password_) =>
          modify (fun t => t <| t_auth :=
            mkAuthState Pending (fails (t_auth t))
              (copy_into (user (t_auth t)) 0 (take user_len user_)) user_len
              (copy_into (password (t_auth t)) 0 (take password_len password_)) password_len |>)
      end
  end.

(** The credentials handed to the caller's two buffers, by their lengths. *)
Definition take_auth_request (t : SshTransport) (user_cap password_cap : nat) :
    option (list Z * list Z) :=
  if bool_decide (phase (t_auth t) = Pending) then
    let u := Nat.min (user_len (t_auth t)) user_cap in
    let p := Nat.min (password_len (t_auth t)) password_cap in
    Some (take u (user (t_auth t)), take p (password (t_auth t)))
  else None.

Definition auth_verdict (accepted : bool) : M unit :=
  t <-! get;
  if negb (bool_decide (phase (t_auth t) = Pending)) then fail NotReady
  else
    modify (fun t => t <| t_auth := AuthState.zero_credentials (t_auth t) |>) ;;
    if accepted then
      modify (fun t => t <| t_auth :=
        AuthState.set_phase Authenticated (AuthState.set_fails 0 (t_auth t)) |>) ;;
      emit_packet [SSH_MSG_USERAUTH_SUCCESS]
    else
      modify (fun t => t <| t_auth :=
        AuthState.set_fails (Z.min (fails (t_auth t) + 1) 255) (t_auth t) |>) ;;
      t <-! get;
      if MAX_AUTH_FAILURES <=? fails (t_auth t) then
        fail_disconnect ByApplication "too many authentication failures"
      else
        modify (set_phase ServiceAccepted) ;;
        reply_auth_failure.
