(* ===== verification/SshChannel.v ===== *)
(** * SSH channels (shared/ssh/src/channel.rs)

    The handlers of the one RFC 4254 session channel, and the calls the host
    makes to exchange data over it. *)

From S2P Require Import Prelude Words SshWire SshPacket SshKex SshCore SshAuth.
From stdpp Require Import base list option strings.
From Stdlib Require Import ZArith Lia.

#[local] Open Scope Z_scope.
#[local] Open Scope ssh_scope.

Definition SSH_MSG_GLOBAL_REQUEST : Z := 80.
Definition SSH_MSG_REQUEST_FAILURE : Z := 82.
Definition SSH_MSG_CHANNEL_OPEN : Z := 90.
Definition SSH_MSG_CHANNEL_OPEN_CONFIRMATION : Z := 91.
Definition SSH_MSG_CHANNEL_OPEN_FAILURE : Z := 92.
Definition SSH_MSG_CHANNEL_WINDOW_ADJUST : Z := 93.
Definition SSH_MSG_CHANNEL_DATA : Z := 94.
Definition SSH_MSG_CHANNEL_EOF : Z := 96.
Definition SSH_MSG_CHANNEL_CLOSE : Z := 97.
Definition SSH_MSG_CHANNEL_REQUEST : Z := 98.
Definition SSH_MSG_CHANNEL_SUCCESS : Z := 99.
Definition SSH_MSG_CHANNEL_FAILURE : Z := 100.

Definition LOCAL_RECV_WINDOW : Z := 16384.
Definition PENDING_OUT_CAP : nat := 4096.
Definition CHUNK : nat := 1024.
Definition LOCAL_ID : Z := 0.
Definition OPEN_ADMIN_PROHIBITED : Z := 1.
Definition MAX_INBOUND_BATCH : nat := 4096.

(** ** Parsing *)

Record ParsedOpen : Type := mkParsedOpen { sender : Z; initial_window : Z }.

Inductive ParsedRequest : Type := Pty (width height : Z) | Shell | Refused.

Definition read_open : Read (option ParsedOpen) :=
  kind <-? Reader.string;
  sender <-? Reader.u32;
  initial_window <-? Reader.u32;
  read_ret (if bool_decide (kind = bytes_of "session") then Some (mkParsedOpen sender initial_window)
            else None).

Definition parse_open (payload : list Z) : option (option ParsedOpen) :=
  r ← parse_body read_open payload;
  Some (match r with Some o => o | None => None end).

Definition read_open_sender : Read Z := _kind <-? Reader.string; Reader.u32.

Definition parse_open_sender : list Z -> option (option Z) := parse_body read_open_sender.

Definition read_request : Read ParsedRequest :=
  _recipient <-? Reader.u32;
  name <-? Reader.string;
  _want_reply <-? Reader.u8;
  if bool_decide (name = bytes_of "pty-req") then
    _term <-? Reader.string;
    width <-? Reader.u32;
    height <-? Reader.u32;
    _xpixels <-? Reader.u32;
    _ypixels <-? Reader.u32;
    _modes <-? Reader.string;
    read_ret (Pty width height)
  else if bool_decide (name = bytes_of "shell") then read_ret Shell
  else read_ret Refused.

Definition parse_request : list Z -> option (option ParsedRequest) := parse_body read_request.

Definition read_recipient_u32 : Read (Z * Z) :=
  recipient <-? Reader.u32;
  extra <-? (fun r => let '(v, r) := Reader.u32 r in (Ok (unwrap_or 0 v), r));
  read_ret (recipient, extra).

Definition parse_recipient_u32 : list Z -> option (option (Z * Z)) := parse_body read_recipient_u32.

Definition read_data_header : Read (Z * nat) :=
  recipient <-? Reader.u32;
  data <-? Reader.string;
  read_ret (recipient, length data).

Definition parse_data_header : list Z -> option (option (Z * nat)) := parse_body read_data_header.

Definition read_global_request : Read bool :=
  _name <-? Reader.string;
  want_reply <-? Reader.u8;
  read_ret (negb (want_reply =? 0)).

Definition parse_global_request : list Z -> option (option bool) := parse_body read_global_request.

Definition read_want_reply : Read Z := _recipient <-? Reader.u32; _name <-? Reader.string; Reader.u8.

Definition request_want_reply : list Z -> option (option Z) := parse_body read_want_reply.

(** ** Inbound messages *)

Inductive ChanSimple : Type := SimpleHandled | SimplePassthrough.
Inductive ChannelOutcome : Type := OutcomeHandled | OutcomeData (len : nat) | OutcomePassthrough.

Definition on_chan (f : ChannelState -> ChannelState) (t : SshTransport) : SshTransport :=
  t <| t_chan := f (t_chan t) |>.

(** [reply[0] = code; reply[1..5].copy_from_slice(&id.to_be_bytes())] *)
Definition to_channel (code id : Z) : list Z := [code] ++ to_be_bytes 4 id.

Definition handle_channel_open (start len : nat) : M unit :=
  body <-! proc_range start len;
  open <-! lift (parse_open body);
  match open with
  | Some open =>
      t <-! get;
      if chan_open (t_chan t) then
        fail_disconnect ProtocolError "duplicate session channel (single-session v0)"
      else
        modify (on_chan (fun c => c <| chan_open := true |> <| chan_remote_id := sender open |>
          <| chan_remote_window := initial_window open |>)) ;;
        emit_packet (to_channel SSH_MSG_CHANNEL_OPEN_CONFIRMATION (sender open) ++
          to_be_bytes 4 LOCAL_ID ++ to_be_bytes 4 LOCAL_RECV_WINDOW ++ to_be_bytes 4 MAX_PAYLOAD_LEN)
  | None =>
      sender <-! lift (parse_open_sender body);
      match sender with
      | None => fail_disconnect ProtocolError "malformed CHANNEL_OPEN"
      | Some sender =>
          let w := Writer.new 51 in
          let w := (Writer.string (bytes_of "only session channels are supported") w).2 in
          let w := (Writer.string [] w).2 in
          emit_packet (to_channel SSH_MSG_CHANNEL_OPEN_FAILURE sender ++
            to_be_bytes 4 OPEN_ADMIN_PROHIBITED ++ w_out w)
      end
  end.

Definition handle_channel_request (start len : nat) : M unit :=
  t <-! get;
  first <-! lift (index_range (t_proc t) (start + 1) (start + len));
  match parse Reader.u32 first with
  | Err _ => fail_disconnect ProtocolError "malformed CHANNEL_REQUEST"
  | Ok recipient =>
      if negb (recipient =? LOCAL_ID) then
        fail_disconnect ProtocolError "channel request for unknown channel"
      else
        body <-! proc_range start len;
        parsed <-! lift (parse_request body);
        match parsed with
        | None => fail_disconnect ProtocolError "malformed CHANNEL_REQUEST"
        | Some parsed =>
            want_reply <-! lift (request_want_reply body);
            let want_reply := default 0 want_reply in
            success <-! match parsed with
              | Pty width height =>
                  modify (on_chan (fun c => c <| chan_pty := true |> <| chan_pty_width := width |>
                    <| chan_pty_height := height |>)) ;;
                  ret true
              | Shell => modify (on_chan (fun c => c <| chan_shell := true |>)) ;; ret true
              | Refused => ret false
              end;
            if want_reply =? 0 then ret tt
            else
              t <-! get;
              emit_packet (to_channel
                (if success : bool then SSH_MSG_CHANNEL_SUCCESS else SSH_MSG_CHANNEL_FAILURE)
                (chan_remote_id (t_chan t)))
        end
  end.

Definition try_channel_data (start len : nat) : M ChannelOutcome :=
  body <-! proc_range start len;
  header <-! lift (parse_data_header body);
  match header with
  | None => fail_disconnect ProtocolError "malformed CHANNEL_DATA"
  | Some (recipient, data_len) =>
      t <-! get;
      if negb (recipient =? LOCAL_ID) then
        if bool_decide (t_role t = Client) then ret OutcomePassthrough else ret OutcomeHandled
      else if negb (chan_open (t_chan t)) || chan_close_in (t_chan t) then ret OutcomeHandled
      else if (MAX_INBOUND_BATCH <? data_len)%nat then
        fail_disconnect ProtocolError "oversized CHANNEL_DATA"
      else ret (OutcomeData data_len)
  end.

Definition client_passthrough : M ChanSimple :=
  t <-! get;
  ret (if bool_decide (t_role t = Client) then SimplePassthrough else SimpleHandled).

Definition flush_pending_out : M unit :=
  t <-! get;
  let c := t_chan t in
  if (length (chan_pending_out c) =? 0)%nat || (chan_remote_window c =? 0) then ret tt
  else
    let chunk := Nat.min (Nat.min (length (chan_pending_out c)) CHUNK) (Z.to_nat (chan_remote_window c)) in
    emit_packet (to_channel SSH_MSG_CHANNEL_DATA (chan_remote_id c) ++
      to_be_bytes 4 (Z.of_nat chunk) ++ take chunk (chan_pending_out c)) ;;
    modify (on_chan (fun c => c <| chan_remote_window := chan_remote_window c - Z.of_nat chunk |>
      <| chan_pending_out := drop chunk (chan_pending_out c) |>)).

Definition saturating_add32 (a b : Z) : Z := Z.min (a + b) (2 ^ 32 - 1).

Definition handle_window_adjust (start len : nat) : M ChanSimple :=
  body <-! proc_range start len;
  parsed <-! lift (parse_recipient_u32 body);
  match parsed with
  | None => fail_disconnect ProtocolError "malformed WINDOW_ADJUST"
  | Some (recipient, bytes) =>
      if negb (recipient =? LOCAL_ID) then client_passthrough
      else
        modify (on_chan (fun c => c <| chan_remote_window := saturating_add32 (chan_remote_window c) bytes |>)) ;;
        flush_pending_out ;;
        ret SimpleHandled
  end.

Definition handle_channel_eof (start len : nat) : M ChanSimple :=
  body <-! proc_range start len;
  parsed <-! lift (parse_recipient_u32 body);
  match parsed with
  | None => fail_disconnect ProtocolError "malformed CHANNEL_EOF"
  | Some (recipient, _) =>
      t <-! get;
      if (recipient =? LOCAL_ID) && chan_open (t_chan t) then
        modify (on_chan (fun c => c <| chan_eof_in := true |>)) ;; ret SimpleHandled
      else client_passthrough
  end.

Definition handle_channel_close (start len : nat) : M ChanSimple :=
  body <-! proc_range start len;
  parsed <-! lift (parse_recipient_u32 body);
  match parsed with
  | None => fail_disconnect ProtocolError "malformed CHANNEL_CLOSE"
  | Some (recipient, _) =>
      if negb (recipient =? LOCAL_ID) then client_passthrough
      else
        modify (on_chan (fun c => c <| chan_close_in := true |>)) ;;
        t <-! get;
        (if negb (chan_close_out (t_chan t)) then
           modify (on_chan (fun c => c <| chan_close_out := true |>)) ;;
           emit_packet (to_channel SSH_MSG_CHANNEL_CLOSE (chan_remote_id (t_chan t)))
         else ret tt) ;;
        ret SimpleHandled
  end.

Definition handle_global_request (start len : nat) : M unit :=
  body <-! proc_range start len;
  parsed <-! lift (parse_global_request body);
  match parsed with
  | None => fail_disconnect ProtocolError "malformed GLOBAL_REQUEST"
  | Some want_reply => if want_reply : bool then emit_packet [SSH_MSG_REQUEST_FAILURE] else ret tt
  end.

(** ** The host's calls *)

Definition channel_ready (t : SshTransport) : bool := chan_open (t_chan t) && chan_shell (t_chan t).
Definition channel_eof_in (t : SshTransport) : bool := chan_eof_in (t_chan t).
Definition channel_closed (t : SshTransport) : bool := negb (chan_open (t_chan t)) || chan_close_in (t_chan t).

Definition ack_channel_data (n : nat) : M unit :=
  t <-! get;
  let c := t_chan t in
  if (n =? 0)%nat || negb (chan_open c) || chan_close_out c then ret tt
  else
    emit_packet (to_channel SSH_MSG_CHANNEL_WINDOW_ADJUST (chan_remote_id c) ++
      to_be_bytes 4 (wrap 32 (Z.of_nat n))).

Definition send_channel_data (data : list Z) : M nat :=
  t <-! get;
  if negb (chan_open (t_chan t)) || chan_close_out (t_chan t) then fail NotReady
  else
    let room := (PENDING_OUT_CAP - length (chan_pending_out (t_chan t)))%nat in
    let accepted := Nat.min (length data) room in
    modify (on_chan (fun c => c <| chan_pending_out := chan_pending_out c ++ take accepted data |>)) ;;
    flush_pending_out ;;
    ret accepted.

Definition send_channel_eof : M unit :=
  t <-! get;
  if negb (chan_open (t_chan t)) || chan_eof_out (t_chan t) then ret tt
  else
    modify (on_chan (fun c => c <| chan_eof_out := true |>)) ;;
    emit_packet (to_channel SSH_MSG_CHANNEL_EOF (chan_remote_id (t_chan t))).

Definition send_channel_close : M unit :=
  t <-! get;
  if negb (chan_open (t_chan t)) || chan_close_out (t_chan t) then ret tt
  else
    modify (on_chan (fun c => c <| chan_close_out := true |>)) ;;
    emit_packet (to_channel SSH_MSG_CHANNEL_CLOSE (chan_remote_id (t_chan t))).
