(* ===== verification/SshTransport.v ===== *)
(** * The SSH transport state machine (shared/ssh/src/transport.rs)

    Construction, the version exchange, packet decoding, the key exchange
    handlers of both roles, dispatch by state, and [feed]. *)

From S2P Require Import Prelude Words X25519 Ed25519 SshWire SshPacket SshKex SshCore SshAuth SshChannel.
From stdpp Require Import base list option strings.
From Stdlib Require Import ZArith Lia.

#[local] Open Scope Z_scope.
#[local] Open Scope ssh_scope.

Inductive Feed : Type :=
| Progress
| Packet (msg_type : Z) (payload : list Z)
| AuthQuery
| ChannelData (data : list Z).

Inductive Dispatch : Type := Handled | Passthrough | Auth | DeliverData (len : nat).

(** ** Construction *)

Definition placeholder : SshTransport :=
  {| t_role := Client; t_state := Closed; t_out := []; t_inbuf := [];
     t_proc := replicate (Z.to_nat STAGE_CAP) 0;
     t_host_seed := replicate 32 0; t_host_pub := replicate 32 0; t_x25519_seed := replicate 32 0;
     t_cookie := replicate 16 0; t_peer_ident := []; t_my_kexinit := []; t_peer_kexinit := [];
     t_negotiated := None; t_e_client := replicate 32 0; t_f_server := replicate 32 0;
     t_k_mpint := []; t_exchange_h := replicate 32 0; t_session_id := None;
     t_tx_keys := None; t_rx_keys := None; t_pending_rx := None; t_rx_seq := 0; t_tx_seq := 0;
     t_peer_desc := []; t_peer_reason := None;
     t_auth := AuthState.new; t_chan := ChannelState.new |}.

Definition setup (role : Role) (host_seed x25519_seed cookie : list Z) : M unit :=
  host_pub <-! lift (ed25519.public_key host_seed);
  modify (fun t =>
    {| t_role := role; t_state := VersionExchange; t_out := []; t_inbuf := []; t_proc := t_proc t;
       t_host_seed := host_seed; t_host_pub := host_pub; t_x25519_seed := x25519_seed;
       t_cookie := cookie; t_peer_ident := []; t_my_kexinit := []; t_peer_kexinit := [];
       t_negotiated := None; t_e_client := replicate 32 0; t_f_server := replicate 32 0;
       t_k_mpint := []; t_exchange_h := replicate 32 0; t_session_id := None;
       t_tx_keys := None; t_rx_keys := None; t_pending_rx := None; t_rx_seq := 0; t_tx_seq := 0;
       t_peer_desc := []; t_peer_reason := None;
       t_auth := AuthState.new; t_chan := ChannelState.new |}).

Definition init_server (host_seed x25519_seed cookie : list Z) : M unit :=
  setup Server host_seed x25519_seed cookie ;;
  ignore (emit_raw SERVER_BANNER).

Definition emit_my_kexinit : M unit :=
  t <-! get;
  r <-! lift (kex.build_kexinit (t_cookie t) 1024);
  buf <-! or_fail r NotReady;
  modify (fun t => t <| t_my_kexinit := buf |>) ;;
  emit_packet buf.

(** The transport a constructor returns. *)
Definition constructed (m : M unit) : option SshTransport := snd <$> m placeholder.

Definition server (host_seed x25519_seed cookie : list Z) : option SshTransport :=
  constructed (
    setup Server host_seed x25519_seed cookie ;;
    ignore (emit_raw SERVER_BANNER)).

Definition client (x25519_seed cookie : list Z) : option SshTransport :=
  constructed (
    setup Client (replicate 32 0) x25519_seed cookie ;;
    ignore (emit_raw SERVER_BANNER) ;;
    ignore emit_my_kexinit).

(** ** Input *)

Definition push_in (bytes : list Z) : M unit :=
  t <-! get;
  if (length bytes =? 0)%nat then ret tt
  else if IN_CAP <? zlen (t_inbuf t) + zlen bytes then fail OutOfCapacity
  else modify (fun t => t <| t_inbuf := t_inbuf t ++ bytes |>).

(** Drop the consumed bytes and keep the peer's identification. *)
Definition take_ident (consumed : nat) (ident : list Z) : M unit :=
  if (IDENT_MAX <? length ident)%nat then panic
  else
    modify (fun t => t <| t_peer_ident := ident |> <| t_inbuf := drop consumed (t_inbuf t) |>
      <| t_state := KexInit |>).

Definition try_version_server : M bool :=
  t <-! get;
  match position LF (t_inbuf t) with
  | None =>
      if (LINE_CAP <=? length (t_inbuf t))%nat then
        fail_disconnect ProtocolError "identification line too long"
      else ret false
  | Some lf =>
      let line := strip_cr (take lf (t_inbuf t)) in
      match parse_identification line with
      | Ok ident => take_ident (lf + 1) ident ;; emit_my_kexinit ;; ret true
      | Err BadPrefix =>
          if starts_with line (bytes_of "SSH-") then
            fail_disconnect ProtocolVersionNotSupported "unsupported SSH protocol version"
          else fail_disconnect ProtocolError "malformed identification line"
      | Err _ => fail_disconnect ProtocolError "malformed identification line"
      end
  end.

Definition try_version_client : M bool :=
  t <-! get;
  match parse_server_identification (t_inbuf t) PRE_LINES_MAX with
  | Ok None => ret false
  | Ok (Some (consumed, ident)) => take_ident consumed ident ;; ret true
  | Err TooLong => fail_disconnect ProtocolError "identification line too long"
  | Err BadPrefix => fail_disconnect ProtocolError "too many pre-identification lines"
  | Err _ => fail_disconnect ProtocolError "malformed identification line"
  end.

Definition try_version : M bool :=
  t <-! get;
  match t_role t with
  | Server => try_version_server
  | Client => try_version_client
  end.

Definition try_packet : M (option (FrameInfo * Z)) :=
  t <-! get;
  let seq := t_rx_seq t in
  decoded <-! lift (match t_rx_keys t with
    | None => decode_plain (t_inbuf t) (t_proc t)
    | Some keys => decode_aead (t_inbuf t) (t_proc t) keys seq
    end);
  modify (fun t => t <| t_proc := decoded.2 |>) ;;
  match decoded.1 with
  | Ok None => ret None
  | Ok (Some info) =>
      modify (fun t => t <| t_inbuf := drop (consumed info) (t_inbuf t) |>
        <| t_rx_seq := wrapping_add 32 (t_rx_seq t) 1 |>) ;;
      ret (Some (info, seq))
  | Err MacError => fail_disconnect MacError "packet authentication failure"
  | Err reason => fail_disconnect reason "malformed binary packet"
  end.

(** ** Handlers shared by the states *)

Definition reply_unimplemented (offender_seq : Z) : M unit :=
  emit_packet [3; wrap 8 (Z.shiftr offender_seq 24); wrap 8 (Z.shiftr offender_seq 16);
    wrap 8 (Z.shiftr offender_seq 8); wrap 8 offender_seq].

(** [Err(self.take_peer_disconnect(info))] *)
Definition take_peer_disconnect {A : Type} (info : FrameInfo) : M A :=
  let start := payload_start info in
  let end_ := (start + payload_len info)%nat in
  t <-! get;
  body <-! lift (index_range (t_proc t) (start + 1) end_);
  let '(reason, r) := Reader.u32 (Reader.new body) in
  let reason := unwrap_or (DisconnectReason.code ByApplication) reason in
  let desc := take PEER_DESC_CAP (unwrap_or [] (Reader.string r).1) in
  modify (fun t => t <| t_peer_desc := desc |> <| t_peer_reason := Some reason |>
    <| t_state := Closed |>) ;;
  fail (PeerDisconnect reason).

Definition dispatch_pre_established (msg : Z) (info : FrameInfo) : option (M Dispatch) :=
  match msg with
  | 1 => Some (take_peer_disconnect info)
  | 2 | 3 | 4 => Some (ret Handled)
  | 5 =>
      Some (fail_disconnect ServiceNotAvailable
        "service requests not implemented (no authentication this wave)")
  | _ => None
  end.

Definition unexpected_kex_message (msg : Z) : bool :=
  (msg =? 20) || (msg =? 21) || (msg =? 30) || (msg =? 31).

(** [self.rx_seq.wrapping_sub(1)] *)
Definition unimplemented_here : M Dispatch :=
  t <-! get;
  reply_unimplemented (wrapping_sub 32 (t_rx_seq t) 1) ;;
  ret Handled.

(** ** Key exchange *)

Definition dispatch_kexinit (msg : Z) (info : FrameInfo) : M Dispatch :=
  match dispatch_pre_established msg info with
  | Some r => r
  | None =>
      if negb (msg =? SSH_MSG_KEXINIT) then
        if unexpected_kex_message msg then
          fail_disconnect ProtocolError "key exchange message out of order"
        else unimplemented_here
      else
        t <-! get;
        if negb (length (t_peer_kexinit t) =? 0)%nat then
          fail_disconnect ProtocolError "duplicate KEXINIT"
        else
          let len := payload_len info in
          if KEXINIT_CAP <? Z.of_nat len then
            fail_disconnect ProtocolError "KEXINIT payload too large"
          else
            p <-! lift (index_range (t_proc t) (payload_start info) (payload_start info + len));
            modify (fun t => t <| t_peer_kexinit := p |>) ;;
            match kex.parse_kexinit p with
            | Err _ => fail_disconnect ProtocolError "malformed KEXINIT"
            | Ok parsed =>
                match negotiate
                  (kex.list_at parsed p kex.KEX) (kex.list_at parsed p kex.HOSTKEY)
                  (kex.list_at parsed p kex.ENC_C2S) (kex.list_at parsed p kex.ENC_S2C)
                  (kex.list_at parsed p kex.MAC_C2S) (kex.list_at parsed p kex.MAC_S2C)
                  (kex.list_at parsed p kex.COMP_C2S) (kex.list_at parsed p kex.COMP_S2C) with
                | Err class => fail_disconnect KeyExchangeFailed class
                | Ok neg =>
                    modify (fun t => t <| t_negotiated := Some neg |>) ;;
                    match t_role t with
                    | Server => modify (fun t => t <| t_state := KexReply |>)
                    | Client =>
                        e <-! lift (x25519_public (t_x25519_seed t));
                        buf <-! or_fail (kex.build_ecdh_init e 64) NotReady;
                        emit_packet buf ;;
                        modify (fun t => t <| t_state := KexReply |>)
                    end ;;
                    ret Handled
                end
            end
  end.

(** [K_S] in its full string encoding: the blob behind its length. *)
Definition full_host_key (blob : list Z) : list Z := to_be_bytes 4 (Writer.len_u32 blob) ++ blob.

Definition handle_ecdh_init (info : FrameInfo) : M Dispatch :=
  payload <-! proc_range (payload_start info) (payload_len info);
  match kex.parse_ecdh_init payload with
  | Err _ => fail_disconnect KeyExchangeFailed "invalid client ephemeral public key"
  | Ok e =>
      t <-! get;
      shared <-! lift (kex.shared_secret (t_x25519_seed t) e);
      match shared with
      | Err _ => fail_disconnect KeyExchangeFailed "all-zero X25519 shared secret"
      | Ok shared_le =>
          modify (fun t => t <| t_e_client := e |>) ;;
          f_server <-! lift (x25519_public (t_x25519_seed t));
          modify (fun t => t <| t_f_server := f_server |>) ;;
          k_mpint <-! or_fail (Writer.build 40 (Writer.mpint_be shared_le)) NotReady;
          modify (fun t => t <| t_k_mpint := k_mpint |>) ;;
          k_s <-! or_fail (hostkey.host_key_blob (t_host_pub t) 96) NotReady;
          let h := kex.exchange_hash (t_peer_ident t) SERVER_BANNER_TEXT (t_peer_kexinit t)
            (t_my_kexinit t) (full_host_key k_s) e f_server k_mpint in
          modify (fun t => t <| t_exchange_h := h |>) ;;
          signature <-! lift (ed25519.sign (t_host_seed t) h);
          sig_blob <-! or_fail (hostkey.signature_blob signature 96) NotReady;
          reply <-! or_fail (kex.build_ecdh_reply k_s f_server sig_blob 320) NotReady;
          emit_packet reply ;;
          emit_packet [SSH_MSG_NEWKEYS] ;;
          let '(c2s, s2c) := kex.derive_session_keys k_mpint h in
          modify (fun t => t <| t_pending_rx := Some c2s |> <| t_tx_keys := Some s2c |>
            <| t_session_id := Some h |> <| t_state := NewKeys |>) ;;
          ret Handled
      end
  end.

Definition handle_ecdh_reply (info : FrameInfo) : M Dispatch :=
  let start := payload_start info in
  payload <-! proc_range start (payload_len info);
  match kex.parse_ecdh_reply payload with
  | Err _ => fail_disconnect ProtocolError "malformed ECDH_REPLY"
  | Ok parsed =>
      t <-! get;
      let '(hk_start, hk_end) := kex.host_key parsed in
      let '(sig_start, sig_end) := kex.sig parsed in
      blob <-! lift (index_range (t_proc t) (start + hk_start + 4) (start + hk_end));
      match hostkey.parse_host_key_blob blob with
      | Err _ => fail_disconnect HostKeyNotVerifiable "unsupported or malformed host key blob"
      | Ok host_pub =>
          shared <-! lift (kex.shared_secret (t_x25519_seed t) (kex.f parsed));
          match shared with
          | Err _ => fail_disconnect KeyExchangeFailed "all-zero X25519 shared secret"
          | Ok shared_le =>
              k_mpint <-! or_fail (Writer.build 40 (Writer.mpint_be shared_le)) NotReady;
              e_client <-! lift (x25519_public (t_x25519_seed t));
              k_s <-! lift (index_range (t_proc t) (start + hk_start) (start + hk_end));
              let h := kex.exchange_hash SERVER_BANNER_TEXT (t_peer_ident t) (t_my_kexinit t)
                (t_peer_kexinit t) k_s e_client (kex.f parsed) k_mpint in
              sig_blob <-! lift (index_range (t_proc t) (start + sig_start + 4) (start + sig_end));
              ok <-! lift (hostkey.verify_exchange_signature host_pub h sig_blob);
              if negb (unwrap_or false ok) then
                fail_disconnect HostKeyNotVerifiable "host key signature verification failed"
              else
                let '(c2s, s2c) := kex.derive_session_keys k_mpint h in
                emit_packet [SSH_MSG_NEWKEYS] ;;
                modify (fun t => t <| t_tx_keys := Some c2s |> <| t_pending_rx := Some s2c |>
                  <| t_exchange_h := h |> <| t_session_id := Some h |> <| t_state := NewKeys |>) ;;
                ret Handled
          end
      end
  end.

Definition dispatch_kexreply (msg : Z) (info : FrameInfo) : M Dispatch :=
  match dispatch_pre_established msg info with
  | Some r => r
  | None =>
      t <-! get;
      if bool_decide (t_role t = Server) && (msg =? SSH_MSG_KEX_ECDH_INIT) then handle_ecdh_init info
      else if bool_decide (t_role t = Client) && (msg =? SSH_MSG_KEX_ECDH_REPLY) then handle_ecdh_reply info
      else if unexpected_kex_message msg then
        fail_disconnect ProtocolError "key exchange message out of order"
      else unimplemented_here
  end.

Definition dispatch_newkeys (msg : Z) (info : FrameInfo) : M Dispatch :=
  match dispatch_pre_established msg info with
  | Some r => r
  | None =>
      if msg =? SSH_MSG_NEWKEYS then
        t <-! get;
        match t_pending_rx t with
        | Some keys =>
            modify (fun t => t <| t_pending_rx := None |> <| t_rx_keys := Some keys |>
              <| t_state := Established |>) ;;
            ret Handled
        | None => fail_disconnect ProtocolError "NEWKEYS without pending keys"
        end
      else if unexpected_kex_message msg then
        fail_disconnect ProtocolError "key exchange message out of order"
      else unimplemented_here
  end.

(** ** The established state *)

Definition of_simple (m : M ChanSimple) : M Dispatch :=
  s <-! m;
  match s with
  | SimpleHandled => ret Handled
  | SimplePassthrough => ret Passthrough
  end.

Definition dispatch_established (msg : Z) (info : FrameInfo) (seq : Z) : M Dispatch :=
  let start := payload_start info in
  let len := payload_len info in
  if msg =? 1 then take_peer_disconnect info
  else if (msg =? 2) || (msg =? 3) || (msg =? 4) then ret Handled
  else if msg =? 5 then handle_service_request start len ;; ret Handled
  else if msg =? SSH_MSG_USERAUTH_REQUEST then
    handle_userauth_request start len ;;
    t <-! get;
    ret (if bool_decide (phase (t_auth t) = Pending) then Auth else Handled)
  else if msg =? SSH_MSG_GLOBAL_REQUEST then handle_global_request start len ;; ret Handled
  else if msg =? SSH_MSG_CHANNEL_OPEN then handle_channel_open start len ;; ret Handled
  else if msg =? SSH_MSG_CHANNEL_WINDOW_ADJUST then of_simple (handle_window_adjust start len)
  else if msg =? SSH_MSG_CHANNEL_EOF then of_simple (handle_channel_eof start len)
  else if msg =? SSH_MSG_CHANNEL_CLOSE then of_simple (handle_channel_close start len)
  else if msg =? SSH_MSG_CHANNEL_REQUEST then handle_channel_request start len ;; ret Handled
  else if msg =? SSH_MSG_CHANNEL_DATA then
    outcome <-! try_channel_data start len;
    match outcome with
    | OutcomeData len => ret (DeliverData len)
    | OutcomePassthrough => ret Passthrough
    | OutcomeHandled => ret Handled
    end
  else if msg =? 20 then fail_disconnect ProtocolError "rekeying not supported"
  else if (msg =? 21) || (msg =? 30) || (msg =? 31) then
    fail_disconnect ProtocolError "key exchange message outside key exchange"
  else reply_unimplemented seq ;; ret Passthrough.

Definition dispatch (info : FrameInfo) (seq : Z) : M Dispatch :=
  t <-! get;
  msg <-! lift (t_proc t !! payload_start info);
  match t_state t with
  | KexInit => dispatch_kexinit msg info
  | KexReply => dispatch_kexreply msg info
  | NewKeys => dispatch_newkeys msg info
  | Established => dispatch_established msg info seq
  | _ => fail FailClosed
  end.

(** ** [feed] *)

(** What a round does with the outcome of [dispatch]: [Some] is what [feed]
    returns, [None] goes round again. *)
Definition deliver (info : FrameInfo) (d : Dispatch) : M (option Feed) :=
  match d with
  | Handled => ret None
  | Passthrough =>
      t <-! get;
      msg <-! lift (t_proc t !! payload_start info);
      payload <-! proc_range (payload_start info) (payload_len info);
      ret (Some (Packet msg payload))
  | Auth => ret (Some AuthQuery)
  | DeliverData len =>
      data <-! proc_range (payload_start info + 9) len;
      ret (Some (ChannelData data))
  end.

Definition packet_round : M (option Feed) :=
  p <-! try_packet;
  match p with
  | None => ret (Some Progress)
  | Some (info, seq) => d <-! dispatch info seq; deliver info d
  end.

(** One round of the loop. *)
Definition feed_step : M (option Feed) :=
  t <-! get;
  if bool_decide (phase (t_auth t) = Pending) then ret (Some Progress)
  else
    match t_state t with
    | VersionExchange =>
        more <-! try_version;
        ret (if more : bool then None else Some Progress)
    | _ => packet_round
    end.

Fixpoint feed_loop (fuel : nat) : M Feed :=
  match fuel with
  | O => ret Progress
  | S fuel =>
      r <-! feed_step;
      match r with
      | Some feed => ret feed
      | None => feed_loop fuel
      end
  end.

(** Every round that goes on takes bytes off the input, so a round per byte and
    one more are enough. *)
Definition feed (bytes : list Z) : M Feed :=
  t <-! get;
  if bool_decide (t_state t = Closed) then fail FailClosed
  else
    push_in bytes ;;
    t <-! get;
    feed_loop (S (length (t_inbuf t))).

Definition send_payload (payload : list Z) : M unit :=
  t <-! get;
  if bool_decide (t_state t = Closed) then fail FailClosed
  else if negb (bool_decide (t_state t = Established)) || negb (is_some (t_tx_keys t)) then fail NotReady
  else if MAX_PAYLOAD_LEN <? zlen payload then
    fail (LocalDisconnect ProtocolError "payload exceeds maximum packet size")
  else emit_packet payload.
