(* ===== verification/SshInv.v ===== *)
(** * Invariant of the SSH transport

    [wf] is what every operation of the transport keeps; [evolves] is what it
    can do to one: the connection state only moves forward, and nothing but an
    accepted verdict makes a connection authenticated.  Every handler is shown
    to run without a panic from a well-formed transport and to evolve it, for
    every packet that has a payload. *)

From S2P Require Import Prelude Words ChaCha Field25519 X25519 Sha2 Hmac Ed25519.
From S2P Require Import SshWire SshPacket SshKex SshCore SshAuth SshChannel SshTransport.
From stdpp Require Import base list option strings.
From Stdlib Require Import ZArith Lia.

#[local] Open Scope Z_scope.
#[local] Open Scope ssh_scope.

(** ** Weakest preconditions *)

Section invariant.

(** When a panic is let through: never, or on a packet without a payload. *)
Context {panics : Prop}.

(** [m] does not panic on [t], unless [panics], and its outcome satisfies [Q]. *)
Definition runs {A : Type} (m : M A) (Q : result A Fail -> SshTransport -> Prop) (t : SshTransport) : Prop :=
  match m t with
  | Some (r, t') => Q r t'
  | None => panics
  end.

Lemma runs_bind {A B} (m : M A) (k : A -> M B) Q t :
  runs m (fun r t' => match r with Ok a => runs (k a) Q t' | Err e => Q (Err e) t' end) t ->
  runs (bind m k) Q t.
Proof. unfold runs, bind. destruct (m t) as [[[a|e] t']|]; done. Qed.

Lemma runs_mono {A} (m : M A) (Q Q' : result A Fail -> SshTransport -> Prop) t :
  runs m Q t -> (forall r t', Q r t' -> Q' r t') -> runs m Q' t.
Proof. unfold runs. destruct (m t) as [[r t']|]; auto. Qed.

Lemma runs_ignore {A} (m : M A) Q t :
  runs m (fun _ t' => Q (Ok tt) t') t -> runs (ignore m) Q t.
Proof. unfold runs, ignore. by destruct (m t) as [[r t']|]. Qed.

Lemma runs_lift {A} (o : option A) a Q t : o = Some a -> Q (Ok a) t -> runs (lift o) Q t.
Proof. by intros ->. Qed.

(** ** The invariant *)

Record chan_wf (c : ChannelState) : Prop := {
  cw_id : is_word 32 (chan_remote_id c);
  cw_window : is_word 32 (chan_remote_window c);
  cw_pending : is_bytes (chan_pending_out c);
  cw_room : (length (chan_pending_out c) <= PENDING_OUT_CAP)%nat
}.

Record auth_wf (a : AuthState) : Prop := {
  aw_user : length (user a) = MAX_USER;
  aw_password : length (password a) = MAX_PASSWORD;
  aw_user_len : (user_len a <= MAX_USER)%nat;
  aw_password_len : (password_len a <= MAX_PASSWORD)%nat
}.

(** Which keys a state has: none before the key exchange, both after it. *)
Definition keys_wf (t : SshTransport) : Prop :=
  match t_state t with
  | VersionExchange | KexInit | KexReply =>
      t_tx_keys t = None /\ t_rx_keys t = None /\ t_pending_rx t = None /\ t_session_id t = None
  | NewKeys =>
      is_Some (t_tx_keys t) /\ t_rx_keys t = None /\ is_Some (t_pending_rx t) /\ is_Some (t_session_id t)
  | Established => is_Some (t_tx_keys t) /\ is_Some (t_rx_keys t) /\ is_Some (t_session_id t)
  | Closed => True
  end.

(** Authentication and channels wait for the keys. *)
Definition established (t : SshTransport) : Prop := t_state t = Established \/ t_state t = Closed.

Record wf (t : SshTransport) : Prop := {
  wf_proc : zlen (t_proc t) = STAGE_CAP;
  wf_proc_bytes : is_bytes (t_proc t);
  wf_out : zlen (t_out t) <= OUT_CAP;
  wf_out_bytes : is_bytes (t_out t);
  wf_in : zlen (t_inbuf t) <= IN_CAP;
  wf_in_bytes : is_bytes (t_inbuf t);
  wf_seed : length (t_x25519_seed t) = 32%nat;
  wf_seed_bytes : is_bytes (t_x25519_seed t);
  wf_pub : length (t_host_pub t) = 32%nat;
  wf_pub_bytes : is_bytes (t_host_pub t);
  wf_cookie : length (t_cookie t) = 16%nat;
  wf_cookie_bytes : is_bytes (t_cookie t);
  wf_ident : (length (t_peer_ident t) <= 253)%nat;
  wf_my_kexinit : zlen (t_my_kexinit t) <= KEXINIT_CAP;
  wf_peer_kexinit : zlen (t_peer_kexinit t) <= KEXINIT_CAP;
  wf_auth : auth_wf (t_auth t);
  wf_chan : chan_wf (t_chan t);
  wf_keys : keys_wf t;
  wf_early : established t \/ phase (t_auth t) = Idle /\ chan_open (t_chan t) = false
}.

Definition rank (s : State) : nat :=
  match s with
  | VersionExchange => 0 | KexInit => 1 | KexReply => 2 | NewKeys => 3 | Established => 4 | Closed => 5
  end.

(** What an operation other than an accepted verdict does to a transport. *)
Record evolves (t t' : SshTransport) : Prop := {
  ev_wf : wf t';
  ev_role : t_role t' = t_role t;
  ev_state : (rank (t_state t) <= rank (t_state t'))%nat;
  ev_phase : phase (t_auth t') = Authenticated -> phase (t_auth t) = Authenticated;
  ev_in : (length (t_inbuf t') <= length (t_inbuf t))%nat
}.

Lemma evolves_refl t : wf t -> evolves t t.
Proof. by constructor. Qed.

Lemma evolves_trans t t' t'' : evolves t t' -> evolves t' t'' -> evolves t t''.
Proof. intros [] []. constructor; [done|congruence|lia|auto|lia]. Qed.

(** ** The output path *)

(** A packet on the wire under the sender's keys. *)
Definition packet_msg (keys : option CipherKeys) (payload : list Z) : list Z :=
  padded (if is_some keys then padding_len_aead (length payload) BLOCK_SIZE
          else padding_len (length payload) BLOCK_SIZE) payload.

Definition packet_wire (keys : option CipherKeys) (seqno : Z) (payload : list Z) : list Z :=
  match keys with
  | None => plain (packet_msg keys payload)
  | Some k => sealed k seqno (packet_msg keys payload)
  end.

Definition fits (t : SshTransport) (payload : list Z) : bool :=
  zlen (t_out t) + zlen (packet_wire (t_tx_keys t) (t_tx_seq t) payload) <=? OUT_CAP.

Definition after_emit (payload : list Z) (t : SshTransport) : SshTransport :=
  t <| t_out := t_out t ++ packet_wire (t_tx_keys t) (t_tx_seq t) payload |>
    <| t_tx_seq := wrapping_add 32 (t_tx_seq t) 1 |>.

Lemma packet_msg_ok keys payload :
  zlen payload <= MAX_PAYLOAD_LEN ->
  frame_ok (is_some keys) (packet_msg keys payload) /\ payload_of (packet_msg keys payload) = payload /\
  (length payload + 5 <= length (packet_msg keys payload) < length payload + 13)%nat /\
  length (packet_msg keys payload) = (1 + length payload +
    if is_some keys then padding_len_aead (length payload) BLOCK_SIZE
    else padding_len (length payload) BLOCK_SIZE)%nat.
Proof.
  intros Hl. unfold packet_msg. destruct keys; cbn [is_some].
  - destruct (padding_len_aead_spec (length payload)) as [Hp Ha].
    destruct (padded_ok true _ payload Hp Ha Hl) as (Hok & Hpay & Hlen). rewrite Hlen. split_and!; try done; lia.
  - destruct (padding_len_spec (length payload)) as [Hp Ha].
    destruct (padded_ok false _ payload Hp Ha Hl) as (Hok & Hpay & Hlen). rewrite Hlen. split_and!; try done; lia.
Qed.

Lemma is_bytes_packet_wire keys seqno payload : is_bytes payload -> is_bytes (packet_wire keys seqno payload).
Proof.
  intros H. apply is_bytes_padded with (pad := if is_some keys then padding_len_aead (length payload) BLOCK_SIZE
          else padding_len (length payload) BLOCK_SIZE) in H. fold (packet_msg keys payload) in H.
  unfold packet_wire. destruct keys as [k|].
  - unfold sealed. apply is_bytes_app; split; [apply is_bytes_crypt, is_bytes_to_be|].
    apply is_bytes_app; split; [by apply is_bytes_crypt|apply is_bytes_ssh_tag].
  - apply is_bytes_app; split; [apply is_bytes_to_be|done].
Qed.

Lemma emit_packet_spec payload t :
  is_bytes payload -> zlen payload <= MAX_PAYLOAD_LEN ->
  emit_packet payload t =
    Some (if fits t payload then (Ok tt, after_emit payload t) else (Err OutOfCapacity, t)).
Proof.
  intros Hb Hl. destruct (packet_msg_ok (t_tx_keys t) payload Hl) as (Hok & _ & Hlt & Hlen).
  pose proof Hok as (Hr & _). unfold emit_packet, bind at 1, get, fits, after_emit. cbv zeta.
  unfold packet_wire, MSG_SCRATCH_CAP, MAX_PAYLOAD_LEN, OUT_CAP, zlen in *.
  change (Z.of_nat BLOCK_SIZE) with 8.
  destruct (t_tx_keys t) as [keys|] eqn:E; cbn [is_some] in *.
  - rewrite length_sealed. rewrite <- Hlen.
    destruct (Z.ltb_spec 34816 (Z.of_nat (length (t_out t)) +
      Z.of_nat (4 + 1 + length payload + padding_len_aead (length payload) BLOCK_SIZE + 16))) as [H|H].
    { by rewrite (proj2 (Z.leb_gt _ _)) by lia. }
    rewrite (proj2 (Z.leb_le _ _)) by lia. rewrite (proj2 (Z.ltb_ge (32768 + 8 + 8) _)) by lia.
    unfold bind, lift. change (padded (padding_len_aead (length payload) BLOCK_SIZE) payload)
      with (packet_msg (Some keys) payload).
    rewrite encode_aead_msg_spec by (done || apply is_bytes_padded, Hb).
    rewrite (proj2 (Z.ltb_ge _ _)) by (unfold zlen in *; lia). done.
  - rewrite length_plain.
    destruct (Z.ltb_spec 34816 (Z.of_nat (length (t_out t)) +
      Z.of_nat (4 + 1 + length payload + padding_len (length payload) BLOCK_SIZE + 0))) as [H|H].
    { by rewrite (proj2 (Z.leb_gt _ _)) by lia. }
    rewrite (proj2 (Z.leb_le _ _)) by lia. unfold bind.
    rewrite encode_plain_spec by done. cbv zeta.
    change (padded (padding_len (length payload) BLOCK_SIZE) payload) with (packet_msg None payload).
    rewrite (proj2 (Z.ltb_ge _ _)) by (unfold zlen in *; lia). done.
Qed.

Lemma wf_after_emit payload t :
  wf t -> is_bytes payload -> fits t payload = true -> wf (after_emit payload t).
Proof.
  intros [] Hb Hf. apply Z.leb_le in Hf. constructor; try done.
  - cbn. unfold zlen in *. rewrite length_app. lia.
  - apply is_bytes_app. split; [done|]. by apply is_bytes_packet_wire.
Qed.

Lemma evolves_emit payload t :
  wf t -> is_bytes payload -> fits t payload = true -> evolves t (after_emit payload t).
Proof. intros Hw Hb Hf. by constructor; [apply wf_after_emit|..]. Qed.

(** ** Handlers that keep the invariant *)

(** [m] runs without a panic from any well-formed transport satisfying [P], and
    evolves it. *)
Definition keeps {A : Type} (P : SshTransport -> Prop) (m : M A) : Prop := forall t,
  wf t -> P t -> runs m (fun _ t' => evolves t t') t.

Definition always (t : SshTransport) : Prop := True.

Lemma established_evolves t t' : established t -> evolves t t' -> established t'.
Proof.
  unfold established. intros E He. pose proof (ev_state _ _ He) as H.
  destruct E as [E|E]; rewrite E in H; destruct (t_state t') eqn:E'; cbn in H; solve [auto | exfalso; lia].
Qed.

Lemma runs_keeps {A} P (m : M A) t0 t :
  keeps P m -> evolves t0 t -> P t -> runs m (fun _ t' => evolves t0 t') t.
Proof.
  intros Hm He HP. eapply runs_mono; [apply Hm; [by destruct He|done]|]. intros r t' H.
  by eapply evolves_trans.
Qed.

(** Sequencing under a goal [evolves t0 _]. *)
Lemma runs_seq {A B} P (m : M A) (k : A -> M B) (Q : result B Fail -> SshTransport -> Prop) t0 t :
  keeps P m -> evolves t0 t -> P t ->
  (forall e t', evolves t0 t' -> Q (Err e) t') ->
  (forall a t', evolves t0 t' -> runs (k a) Q t') ->
  runs (bind m k) Q t.
Proof.
  intros Hm He HP Herr Hk. apply runs_bind. eapply runs_mono; [by apply (runs_keeps P)|].
  intros [a|e] t' H; auto.
Qed.

Lemma runs_get {B} (k : SshTransport -> M B) Q t : runs (k t) Q t -> runs (bind get k) Q t.
Proof. done. Qed.

Lemma runs_modify {B} f (k : unit -> M B) Q t : runs (k tt) Q (f t) -> runs (bind (modify f) k) Q t.
Proof. done. Qed.

Lemma runs_lift_bind {A B} (o : option A) a (k : A -> M B) Q t :
  o = Some a -> runs (k a) Q t -> runs (bind (lift o) k) Q t.
Proof. by intros ->. Qed.

Lemma keeps_ret {A} (a : A) : keeps always (ret a).
Proof. intros t Hw _. by apply evolves_refl. Qed.

Lemma keeps_fail {A} e : keeps always (fail e : M A).
Proof. intros t Hw _. by apply evolves_refl. Qed.

Lemma keeps_emit payload :
  is_bytes payload -> zlen payload <= MAX_PAYLOAD_LEN -> keeps always (emit_packet payload).
Proof.
  intros Hb Hl t Hw _. unfold runs. rewrite emit_packet_spec by done.
  destruct (fits t payload) eqn:Hf; [by apply evolves_emit|by apply evolves_refl].
Qed.

Lemma evolves_close t : wf t -> evolves t (t <| t_state := Closed |>).
Proof.
  intros []. constructor; [|done|destruct (t_state t); cbn; lia|done|done]. constructor; try done. left; by right.
Qed.

(** Every message this transport sends is short. *)
Lemma is_bytes_disconnect reason description : is_bytes (disconnect_payload reason description) /\
  zlen (disconnect_payload reason description) <= 141.
Proof.
  unfold disconnect_payload. cbv zeta. set (d := bytes_of description).
  assert (Hd : is_bytes d) by apply is_bytes_of.
  assert (H : forall w s, is_bytes s -> is_bytes (w_out w) -> (length (w_out w) <= w_cap w)%nat ->
    let w' := (Writer.string s w).2 in
    is_bytes (w_out w') /\ (length (w_out w') <= w_cap w')%nat /\ w_cap w' = w_cap w).
  { intros w s Hs Hw Hl. unfold Writer.string, write_seq, Writer.u32, Writer.raw, Writer.room.
    destruct (Nat.leb_spec (length (w_out w) + 4) (w_cap w)); cbn [snd]; [|done].
    cbn [w_cap w_out]. rewrite length_app, length_to_be_bytes.
    assert (Hw4 : is_bytes (w_out w ++ to_be_bytes 4 (Writer.len_u32 s)))
      by (apply is_bytes_app; split; [done|apply is_bytes_to_be]).
    destruct (Nat.leb_spec (length (w_out w) + 4 + length s) (w_cap w)); cbn [snd w_out w_cap].
    - rewrite !length_app, length_to_be_bytes. split_and!; try lia. apply is_bytes_app. done.
    - rewrite length_app, length_to_be_bytes. split_and!; done || lia. }
  destruct (H (Writer.new (4 + PEER_DESC_CAP + 4)) d Hd) as (B1 & L1 & C1); [constructor|cbn; lia|].
  destruct (H (Writer.string d (Writer.new (4 + PEER_DESC_CAP + 4))).2 []) as (B2 & L2 & C2);
    [constructor|done|done|]. rewrite C2, C1 in L2. unfold Writer.new in L2 at 2. cbn [w_cap] in L2. unfold PEER_DESC_CAP in *.
  split.
  - constructor; [unfold is_word; lia|]. apply is_bytes_app. split; [apply is_bytes_to_be|done].
  - unfold zlen. rewrite !length_app, length_to_be_bytes. cbn [length]. lia.
Qed.

Lemma keeps_disconnect {A} reason description : keeps always (fail_disconnect reason description : M A).
Proof.
  intros t Hw _. destruct (is_bytes_disconnect reason description) as [Hb Hl].
  unfold fail_disconnect. apply runs_bind, runs_ignore.
  eapply runs_mono; [apply keeps_emit; [done|unfold MAX_PAYLOAD_LEN; lia|done|done]|].
  intros r t' H. apply runs_modify. apply (evolves_trans t t'); [exact H|]. apply evolves_close, (ev_wf _ _ H).
Qed.

(** ** Updates of the authentication and channel state *)

Lemma evolves_chan f t :
  wf t -> established t -> chan_wf (f (t_chan t)) -> evolves t (on_chan f t).
Proof. intros [] He Hc. constructor; try done. constructor; try done. by left. Qed.

Lemma evolves_auth a t :
  wf t -> established t -> auth_wf a -> (phase a = Authenticated -> phase (t_auth t) = Authenticated) ->
  evolves t (t <| t_auth := a |>).
Proof. intros [] He Ha Hp. constructor; try done. constructor; try done. by left. Qed.

(** ** Reading the staging buffer *)

Lemma index_range_some l a b :
  (a <= b)%nat -> (b <= length l)%nat -> index_range l a b = Some (take (b - a) (drop a l)).
Proof. intros H1 H2. unfold index_range. by rewrite !(proj2 (Nat.leb_le _ _)). Qed.

Lemma index_range_none l a b : (b < a)%nat -> index_range l a b = None.
Proof. intros H. unfold index_range. by rewrite (proj2 (Nat.leb_gt _ _)). Qed.

(** The bytes of a frame's payload. *)
Definition frame_bytes (t : SshTransport) (start len : nat) : list Z := take len (drop start (t_proc t)).

(** A frame lies in the staging buffer, and is not empty or panics are let through. *)
Definition in_stage (start len : nat) : Prop :=
  ((1 <= len)%nat \/ panics) /\ Z.of_nat (start + len) <= STAGE_CAP /\ Z.of_nat start < STAGE_CAP.

Lemma length_frame_bytes t start len : wf t -> in_stage start len -> length (frame_bytes t start len) = len.
Proof.
  intros Hw (_ & H & _). pose proof (wf_proc _ Hw) as Hp. unfold zlen in Hp. unfold frame_bytes.
  rewrite length_take, length_drop. lia.
Qed.

Lemma is_bytes_frame t start len : wf t -> is_bytes (frame_bytes t start len).
Proof. intros Hw. by apply Forall_take, Forall_drop, Hw. Qed.

Lemma proc_range_eq start len t :
  wf t -> in_stage start len -> proc_range start len t = Some (Ok (frame_bytes t start len), t).
Proof.
  intros Hw (H1 & H2 & _). pose proof (wf_proc _ Hw) as Hp. unfold zlen in Hp.
  unfold proc_range, bind, get. rewrite index_range_some by lia.
  by replace (start + len - start)%nat with len by lia.
Qed.

Lemma runs_proc_range {B} start len (k : list Z -> M B) Q t :
  wf t -> in_stage start len -> runs (k (frame_bytes t start len)) Q t ->
  runs (bind (proc_range start len) k) Q t.
Proof.
  intros Hw Hs Hk. apply runs_bind. unfold runs at 1. by rewrite proc_range_eq.
Qed.

(** The bytes after the message type. *)
Lemma after_type_some payload : (1 <= length payload)%nat -> after_type payload = Some (drop 1 payload).
Proof.
  intros H. unfold after_type. rewrite index_range_some by lia.
  by rewrite take_ge by (rewrite length_drop; lia).
Qed.

Lemma is_bytes_drop n l : is_bytes l -> is_bytes (drop n l).
Proof. apply Forall_drop. Qed.

Lemma runs_ret_bind {A B} (a : A) (k : A -> M B) Q t : runs (k a) Q t -> runs (bind (ret a) k) Q t.
Proof. done. Qed.

(** A disconnect ends the handler. *)
Lemma runs_disconnect {A} (Q : result A Fail -> SshTransport -> Prop) t0 reason description t :
  evolves t0 t -> (forall e t', evolves t0 t' -> Q (Err e) t') ->
  runs (fail_disconnect reason description) Q t.
Proof.
  intros H HQ. pose proof (keeps_disconnect (A := A) reason description t (ev_wf _ _ H) I) as Hk.
  unfold runs in *. unfold fail_disconnect, bind, ignore, modify, fail in *.
  destruct (emit_packet _ t) as [[r t']|]; [|done]. apply HQ. by eapply evolves_trans.
Qed.

Lemma runs_disconnect_bind {A B} (Q : result B Fail -> SshTransport -> Prop) t0 reason description
    (k : A -> M B) t :
  evolves t0 t -> (forall e t', evolves t0 t' -> Q (Err e) t') ->
  runs (bind (fail_disconnect reason description) k) Q t.
Proof. intros H HQ. apply runs_bind. by apply (runs_disconnect _ t0). Qed.

Lemma is_bytes_check l : forallb (fun b => (0 <=? b) && (b <? 256)) l = true -> is_bytes l.
Proof.
  intros H. apply Forall_forall. intros b Hb. rewrite forallb_forall in H.
  specialize (H b (proj1 (list_elem_of_In _ _) Hb)). unfold is_word. lia.
Qed.

Lemma runs_emit t0 payload t :
  evolves t0 t -> is_bytes payload -> zlen payload <= MAX_PAYLOAD_LEN ->
  runs (emit_packet payload) (fun _ t' => evolves t0 t') t.
Proof. intros H Hb Hl. by apply (runs_keeps always); [apply keeps_emit|..]. Qed.

(** The body of a frame in the staging buffer, and that its parser runs. *)
Lemma frame_body t start len :
  wf t -> in_stage start len ->
  after_type (frame_bytes t start len) = Some (drop 1 (frame_bytes t start len)) \/
  panics /\ after_type (frame_bytes t start len) = None.
Proof.
  intros Hw Hs. pose proof (length_frame_bytes t start len Hw Hs) as Hl. destruct Hs as [[H|H] _].
  - left. apply after_type_some. lia.
  - destruct (frame_bytes t start len) as [|b l]; [by right|]. left. apply after_type_some. cbn. lia.
Qed.

Lemma runs_after_type {A B} (f : list Z -> option A) start len (k : A -> M B) Q t :
  wf t -> in_stage start len ->
  runs (bind (lift (f (drop 1 (frame_bytes t start len)))) k) Q t ->
  runs (bind (lift (body ← after_type (frame_bytes t start len); f body)) k) Q t.
Proof. intros Hw Hs H. by destruct (frame_body t start len Hw Hs) as [E|[Hp E]]; rewrite E. Qed.

Lemma runs_body {A B} (m : Read A) start len (k : option A -> M B) Q t :
  wf t -> in_stage start len ->
  runs (k (ok (parse m (drop 1 (frame_bytes t start len))))) Q t ->
  runs (bind (lift (parse_body m (frame_bytes t start len))) k) Q t.
Proof. intros Hw Hs H. by apply runs_after_type. Qed.

(** [&self.proc[start + 1..start + len]] *)
Lemma runs_index_after {B} start len (k : list Z -> M B) Q t :
  wf t -> in_stage start len ->
  runs (k (take (start + len - (start + 1)) (drop (start + 1) (t_proc t)))) Q t ->
  runs (bind (lift (index_range (t_proc t) (start + 1) (start + len))) k) Q t.
Proof.
  intros Hw (H1 & H2 & H3) Hk. pose proof (wf_proc _ Hw) as Hp. unfold zlen in Hp.
  destruct (decide (1 <= len)%nat) as [Hl|Hl].
  - by rewrite index_range_some by lia.
  - rewrite index_range_none by lia. by destruct H1.
Qed.

Lemma is_bytes_body t start len : wf t -> is_bytes (drop 1 (frame_bytes t start len)).
Proof. intros Hw. by apply is_bytes_drop, is_bytes_frame. Qed.

(** ** Authentication handlers *)

Lemma keeps_auth_failure : keeps always reply_auth_failure.
Proof. apply keeps_emit; [by apply is_bytes_check|done]. Qed.

Lemma set_phase_wf p a : auth_wf a -> auth_wf (AuthState.set_phase p a).
Proof. by intros []. Qed.

Lemma keeps_service_request start len :
  in_stage start len -> keeps established (handle_service_request start len).
Proof.
  intros Hs t Hw He. pose proof (evolves_refl t Hw) as Hr. unfold handle_service_request.
  apply runs_proc_range; [done|done|].
  apply runs_body; [done|done|]. destruct (ok _) as [n|]; [|by apply (runs_disconnect _ t)]. apply runs_get.
  assert (Hgo : forall accepted p, (length accepted <= 16)%nat -> is_bytes accepted ->
    (p = Authenticated -> phase (t_auth t) = Authenticated) ->
    (match phase (t_auth t) with Idle => ServiceAccepted | _ => Authenticated end) = p ->
    runs (if negb (n =? length accepted)%nat then
        fail_disconnect ServiceNotAvailable "service request rejected (only ssh-userauth pre-auth)"
      else
        body <-! match Writer.build 20 (Writer.string accepted) with Ok b => ret b | Err _ => panic end;
        modify (fun t => set_phase
          (match phase (t_auth t) with Idle => ServiceAccepted | _ => Authenticated end) t) ;;
        emit_packet ([SSH_MSG_SERVICE_ACCEPT] ++ body)) (fun _ t' => evolves t t') t).
  { intros accepted p Hl Hb Hp E. destruct (negb _); [by apply (runs_disconnect _ t)|].
    rewrite (build_writes _ _ (ssh_string accepted)), length_ssh_string, (proj2 (Nat.leb_le _ _)) by
      (lia || apply writes_string; unfold is_string; lia).
    apply runs_ret_bind, runs_modify. rewrite E. apply runs_emit.
    - apply evolves_auth; [done|done|apply set_phase_wf, Hw|done].
    - apply is_bytes_app. split; [by apply is_bytes_check|by apply is_bytes_ssh_string].
    - unfold zlen, MAX_PAYLOAD_LEN. rewrite length_app, length_ssh_string. cbn [length]. lia. }
  destruct (phase (t_auth t)) eqn:Ep.
  - apply runs_ret_bind, (Hgo _ ServiceAccepted); [cbn; lia|apply is_bytes_of|done|done].
  - by apply (runs_disconnect_bind _ t).
  - by apply (runs_disconnect_bind _ t).
  - apply runs_ret_bind, (Hgo _ Authenticated); [cbn; lia|apply is_bytes_of|done|done].
Qed.

(** What an accepted USERAUTH_REQUEST looks like. *)
Lemma userauth_shape_inv body u p :
  is_bytes body -> parse read_shape body = Ok (Ok (u, p)) ->
  exists user password, parse read_credentials body = Ok (Some (user, password)) /\
    length user = u /\ length password = p /\ (1 <= u <= MAX_USER)%nat /\ (p <= MAX_PASSWORD)%nat.
Proof.
  intros Hb H. apply parse_inv in H as [r' H]. unfold read_shape in H.
  apply bind_inv in H as (user & r1 & E1 & H). apply bind_inv in H as (service & r2 & E2 & H).
  apply bind_inv in H as (method & r3 & E3 & H). destruct (_ || _) in H; [discriminate H|].
  apply bind_inv in H as (flag & r4 & E4 & H). destruct (flag =? 0) eqn:Ef; [|discriminate H]. cbn [negb] in H.
  apply bind_inv in H as (password & r5 & E5 & H). apply bind_inv in H as (left & r6 & E6 & H).
  destruct (negb _) in H; [discriminate H|]. destruct (_ || _) eqn:C in H; [discriminate H|].
  unfold read_ret in H. injection H as <- <- <-.
  apply orb_false_iff in C as [[C1 C2]%orb_false_iff C3]. apply Nat.eqb_neq in C1.
  apply Nat.ltb_ge in C2, C3. exists user, password. split_and!; try done; try lia.
  unfold parse, read_credentials, read_bind. rewrite E1, E2, E3, E4. cbn [unwrap_or]. rewrite Ef. cbn [negb].
  by rewrite E5.
Qed.

Lemma keeps_userauth_request start len :
  in_stage start len -> keeps established (handle_userauth_request start len).
Proof.
  intros Hs t Hw He. pose proof (evolves_refl t Hw) as Hr. unfold handle_userauth_request.
  apply runs_proc_range; [done|done|].
  destruct (frame_body t start len Hw Hs) as [Hl|[Hp Hl]]; unfold parse_userauth_shape; rewrite Hl; [|done].
  cbn [mbind option_bind]. eapply runs_lift_bind; [done|].
  set (body := drop 1 (frame_bytes t start len)).
  assert (Hb : is_bytes body) by (by apply is_bytes_drop, is_bytes_frame).
  destruct (parse read_shape body) as [[[u p]|[]]|] eqn:E;
    [|by apply (runs_disconnect _ t)|by apply keeps_auth_failure|by apply (runs_disconnect _ t)].
  destruct (userauth_shape_inv body u p Hb E) as (user_ & password_ & E' & Hu & Hp & Hul & Hpl).
  unfold copy_credentials. rewrite Hl. cbn [mbind option_bind]. fold body. rewrite E'.
  rewrite !length_replicate, !(proj2 (Nat.leb_le _ _)) by lia. cbn [andb].
  eapply runs_lift_bind; [done|]. pose proof (wf_auth _ Hw) as [A1 A2 _ _].
  apply evolves_auth; [done|done| |done]. unfold copy_into.
  constructor; cbn [user password user_len password_len Z.to_nat take drop app Nat.add]; try done; try lia;
    rewrite !length_app, !length_take, !length_drop, ?length_app, ?length_drop, ?length_take, ?length_replicate; lia.
Qed.

(** ** Channel handlers *)

Lemma is_bytes_to_channel code id rest :
  is_word 8 code -> is_bytes rest -> is_bytes (to_channel code id ++ rest).
Proof.
  intros Hc Hr. unfold to_channel. apply is_bytes_app. split; [|done].
  apply is_bytes_app. split; [by constructor|apply is_bytes_to_be].
Qed.

Lemma runs_to_channel t0 t code id rest :
  evolves t0 t -> is_word 8 code -> is_bytes rest -> (length rest <= 1100)%nat ->
  runs (emit_packet (to_channel code id ++ rest)) (fun _ t' => evolves t0 t') t.
Proof.
  intros H Hc Hr Hl. apply runs_emit; [done|by apply is_bytes_to_channel|].
  unfold to_channel, zlen, MAX_PAYLOAD_LEN. rewrite !length_app, length_to_be_bytes. cbn [length]. lia.
Qed.

Lemma keeps_to_channel code id : is_word 8 code -> keeps always (emit_packet (to_channel code id)).
Proof.
  intros Hc t Hw _. rewrite <- (app_nil_r (to_channel code id)).
  apply runs_to_channel; [by apply evolves_refl|done|constructor|cbn; lia].
Qed.

Lemma read_open_inv body o :
  is_bytes body -> parse read_open body = Ok (Some o) -> is_word 32 (sender o) /\ is_word 32 (initial_window o).
Proof.
  intros Hb H. apply parse_inv in H as [r' H].
  apply bind_inv in H as (kind & r1 & E1 & H). apply bind_inv in H as (s & r2 & E2 & H).
  apply bind_inv in H as (w & r3 & E3 & H). unfold read_ret in H.
  apply string_inv in E1 as (_ & _ & B1 & _); [|done]. apply u32_inv in E2 as (Hs & B2 & _); [|by rewrite B1].
  apply u32_inv in E3 as (Hw & _); [|by rewrite B2, B1].
  destruct (bool_decide _); [|discriminate H]. by injection H as <- <-.
Qed.

Lemma keeps_channel_open start len :
  in_stage start len -> keeps established (handle_channel_open start len).
Proof.
  intros Hs t Hw He. pose proof (evolves_refl t Hw) as Hr. unfold handle_channel_open.
  apply runs_proc_range; [done|done|]. unfold parse_open, parse_body.
  destruct (frame_body t start len Hw Hs) as [Hl|[Hp Hl]]; rewrite Hl; [|done].
  cbn [mbind option_bind]. eapply runs_lift_bind; [done|].
  destruct (parse read_open _) as [[o|]|] eqn:E; cbn [ok].
  - apply read_open_inv in E as [Ho Hi]; [|by apply is_bytes_body]. apply runs_get.
    destruct (chan_open (t_chan t)); [by apply (runs_disconnect _ t)|]. apply runs_modify, runs_to_channel.
    + apply evolves_chan; [done|done|]. destruct (wf_chan _ Hw). by constructor.
    + by cbv.
    + by apply is_bytes_check.
    + cbn. lia.
  - apply runs_body; [done|done|].
    destruct (ok _) as [s|]; [|by apply (runs_disconnect _ t)].
    apply runs_to_channel; [done|by cbv|by apply is_bytes_check|cbn; lia].
  - apply runs_body; [done|done|].
    destruct (ok _) as [s|]; [|by apply (runs_disconnect _ t)].
    apply runs_to_channel; [done|by cbv|by apply is_bytes_check|cbn; lia].
Qed.

Lemma keeps_channel_request start len :
  in_stage start len -> keeps established (handle_channel_request start len).
Proof.
  intros Hs t Hw He. pose proof (evolves_refl t Hw) as Hr. unfold handle_channel_request. apply runs_get.
  apply runs_index_after; [done|done|].
  destruct (parse Reader.u32 _) as [recipient|]; [|by apply (runs_disconnect _ t)].
  destruct (negb _); [by apply (runs_disconnect _ t)|]. apply runs_proc_range; [done|done|].
  apply runs_body; [done|done|]. destruct (ok _) as [p|]; [|by apply (runs_disconnect _ t)].
  apply runs_body; [done|done|]. cbv zeta.
  set (w := default 0 _). apply runs_bind.
  assert (Hreply : forall success t1, evolves t t1 -> established t1 ->
    runs (if w =? 0 then ret tt else
      t0 <-! get; emit_packet (to_channel
        (if success : bool then SSH_MSG_CHANNEL_SUCCESS else SSH_MSG_CHANNEL_FAILURE)
        (chan_remote_id (t_chan t0)))) (fun _ t' => evolves t t') t1).
  { intros success t1 Ht1 _. destruct (w =? 0); [done|]. apply runs_get.
    apply (runs_keeps always); [apply keeps_to_channel; by destruct success; cbv|done|done]. }
  destruct p as [width height| |].
  - apply (Hreply true); [|done]. apply evolves_chan; [done|done|]. by destruct (wf_chan _ Hw).
  - apply (Hreply true); [|done]. apply evolves_chan; [done|done|]. by destruct (wf_chan _ Hw).
  - by apply (Hreply false).
Qed.

Lemma keeps_try_channel_data start len :
  in_stage start len -> keeps established (try_channel_data start len).
Proof.
  intros Hs t Hw He. pose proof (evolves_refl t Hw) as Hr. unfold try_channel_data.
  apply runs_proc_range; [done|done|]. apply runs_body; [done|done|].
  destruct (ok _) as [[recipient n]|]; [|by apply (runs_disconnect _ t)]. apply runs_get.
  destruct (negb (recipient =? LOCAL_ID)); [by destruct (bool_decide _)|].
  destruct (_ || _); [done|]. destruct (_ <? _)%nat; [by apply (runs_disconnect _ t)|done].
Qed.

Lemma keeps_client_passthrough : keeps always client_passthrough.
Proof. intros t Hw _. by apply evolves_refl. Qed.

(** The chunk [flush_pending_out] sends. *)
Definition flush_chunk (c : ChannelState) : nat :=
  Nat.min (Nat.min (length (chan_pending_out c)) CHUNK) (Z.to_nat (chan_remote_window c)).

Definition data_payload (c : ChannelState) : list Z :=
  to_channel SSH_MSG_CHANNEL_DATA (chan_remote_id c) ++
    to_be_bytes 4 (Z.of_nat (flush_chunk c)) ++ take (flush_chunk c) (chan_pending_out c).

Definition after_flush (c : ChannelState) : ChannelState :=
  c <| chan_remote_window := chan_remote_window c - Z.of_nat (flush_chunk c) |>
    <| chan_pending_out := drop (flush_chunk c) (chan_pending_out c) |>.

Lemma flush_chunk_le c : (flush_chunk c <= CHUNK)%nat.
Proof. unfold flush_chunk. lia. Qed.

Lemma data_payload_ok c : chan_wf c -> is_bytes (data_payload c) /\ zlen (data_payload c) <= MAX_PAYLOAD_LEN.
Proof.
  intros Hc. split.
  - apply is_bytes_to_channel; [by cbv|]. apply is_bytes_app.
    split; [apply is_bytes_to_be|apply Forall_take, Hc].
  - unfold data_payload, to_channel, zlen, MAX_PAYLOAD_LEN.
    rewrite !length_app, !length_to_be_bytes, length_take. pose proof (flush_chunk_le c).
    unfold CHUNK in *. cbn [length]. lia.
Qed.

Lemma after_flush_wf c : chan_wf c -> chan_wf (after_flush c).
Proof.
  intros [H1 H2 H3 H4]. unfold is_word in *.
  constructor; cbn; [done|unfold is_word, flush_chunk; lia|by apply Forall_drop|]. rewrite length_drop. lia.
Qed.

(** What a flush does: nothing, or one packet of data. *)
Lemma flush_spec t : wf t ->
  flush_pending_out t =
    Some (let c := t_chan t in
          if (length (chan_pending_out c) =? 0)%nat || (chan_remote_window c =? 0) then (Ok tt, t)
          else if fits t (data_payload c)
          then (Ok tt, on_chan after_flush (after_emit (data_payload c) t))
          else (Err OutOfCapacity, t)).
Proof.
  intros Hw. destruct (data_payload_ok (t_chan t) (wf_chan _ Hw)) as [Hb Hl].
  unfold flush_pending_out, bind at 1, get. cbv zeta. destruct (_ || _); [done|].
  fold (flush_chunk (t_chan t)). fold (data_payload (t_chan t)).
  unfold bind. rewrite emit_packet_spec by done. by destruct (fits _ _).
Qed.

Lemma keeps_flush : keeps established flush_pending_out.
Proof.
  intros t Hw He. unfold runs. rewrite flush_spec by done. cbv zeta. pose proof (evolves_refl t Hw) as Hr.
  destruct (data_payload_ok (t_chan t) (wf_chan _ Hw)) as [Hb Hl].
  destruct (_ || _); [done|]. destruct (fits _ _) eqn:Hf; [|done].
  pose proof (evolves_emit _ _ Hw Hb Hf) as Hem. eapply evolves_trans; [done|].
  apply evolves_chan; [by destruct Hem|done|]. apply after_flush_wf, Hw.
Qed.

Lemma keeps_window_adjust start len :
  in_stage start len -> keeps established (handle_window_adjust start len).
Proof.
  intros Hs t Hw He. pose proof (evolves_refl t Hw) as Hr. unfold handle_window_adjust.
  apply runs_proc_range; [done|done|]. apply runs_body; [done|done|].
  destruct (parse _ _) as [[recipient n]|] eqn:E; cbn [ok]; [|by apply (runs_disconnect _ t)].
  destruct (negb _); [done|]. apply runs_modify.
  assert (Hn : is_word 32 n).
  { apply parse_inv in E as [r' E]. apply bind_inv in E as (id & r1 & E1 & E).
    apply bind_inv in E as (x & r2 & E2 & E). unfold read_ret in E. injection E as <- <- <-.
    apply u32_inv in E1 as (_ & B1 & _); [|by apply is_bytes_body].
    destruct (Reader.u32 r1) as [[v|] r3] eqn:E3; injection E2 as <- <-; cbn [unwrap_or]; [|by cbv].
    apply u32_inv in E3 as [H _]; [done|]. rewrite B1. by apply is_bytes_body. }
  assert (Hc : evolves t (on_chan (fun c => c <| chan_remote_window :=
    saturating_add32 (chan_remote_window c) n |>) t)).
  { apply evolves_chan; [done|done|]. destruct (wf_chan _ Hw). constructor; try done.
    cbn. unfold saturating_add32, is_word in *. lia. }
  eapply (runs_seq established); [apply keeps_flush|done|by eapply established_evolves|done|]. done.
Qed.

Lemma keeps_channel_eof start len :
  in_stage start len -> keeps established (handle_channel_eof start len).
Proof.
  intros Hs t Hw He. pose proof (evolves_refl t Hw) as Hr. unfold handle_channel_eof.
  apply runs_proc_range; [done|done|]. apply runs_body; [done|done|].
  destruct (ok _) as [[recipient n]|]; [|by apply (runs_disconnect _ t)]. apply runs_get.
  destruct (_ && _); [|done]. apply evolves_chan; [done|done|]. by destruct (wf_chan _ Hw).
Qed.

Lemma keeps_channel_close start len :
  in_stage start len -> keeps established (handle_channel_close start len).
Proof.
  intros Hs t Hw He. pose proof (evolves_refl t Hw) as Hr. unfold handle_channel_close.
  apply runs_proc_range; [done|done|]. apply runs_body; [done|done|].
  destruct (ok _) as [[recipient n]|]; [|by apply (runs_disconnect _ t)].
  destruct (negb _); [done|]. apply runs_modify, runs_get.
  assert (Hc : evolves t (on_chan (fun c => c <| chan_close_in := true |>) t))
    by (apply evolves_chan; [done|done|by destruct (wf_chan _ Hw)]).
  destruct (negb _); [|done]. apply runs_bind, runs_modify.
  eapply runs_mono; [apply (runs_keeps always); [apply keeps_to_channel; by cbv| |done]|].
  - eapply evolves_trans; [apply Hc|]. apply evolves_chan; [by destruct Hc|done|]. by destruct (wf_chan _ Hw).
  - by intros [] t' H.
Qed.

Lemma keeps_global_request start len :
  in_stage start len -> keeps always (handle_global_request start len).
Proof.
  intros Hs t Hw _. pose proof (evolves_refl t Hw) as Hr. unfold handle_global_request.
  apply runs_proc_range; [done|done|]. apply runs_body; [done|done|].
  destruct (ok _) as [[]|]; [|done|by apply (runs_disconnect _ t)].
  apply runs_emit; [done|by apply is_bytes_check|done].
Qed.

End invariant.
