(* ===== verification/SshSafe.v ===== *)
(** * The SSH transport does not panic on packets with a payload

    The invariant of SshInv.v through the version exchange, packet decoding,
    the key exchange of both roles, dispatch and [feed]: every round of [feed]
    from a well-formed transport evolves it, except that a packet with an empty
    payload can make it panic. *)

From S2P Require Import Prelude Words ChaCha Field25519 X25519 Sha2 Hmac Ed25519.
From S2P Require Import SshWire SshPacket SshKex SshCore SshAuth SshChannel SshTransport SshInv.
From stdpp Require Import base list option strings.
From Stdlib Require Import ZArith Lia.

#[local] Open Scope Z_scope.
#[local] Open Scope ssh_scope.

(** ** The primitives of the key exchange, by their RFCs *)

Definition SHA256 (m : list Z) : list Z :=
  hash_spec 64 8 (fips_compress sha256.sizes) sha256.H_INIT 4 m.

Definition X25519 (secret peer : list Z) : list Z :=
  to_le_bytes 32 (x25519_spec (2 ^ 254 + 8 * (from_le_bytes secret / 8 mod 2 ^ 251)) (from_le_bytes peer)).

Lemma length_SHA256 m : length (SHA256 m) = 32%nat.
Proof. apply length_output. Qed.

Lemma is_bytes_SHA256 m : is_bytes (SHA256 m).
Proof. apply is_bytes_output. Qed.

Lemma length_X25519 k u : length (X25519 k u) = 32%nat.
Proof. apply length_to_le_bytes. Qed.

Lemma is_bytes_X25519 k u : is_bytes (X25519 k u).
Proof. apply is_bytes_to_le. Qed.

Lemma length_ed_encode P : length (ed_encode P) = 32%nat.
Proof. destruct P as [[[X Y] Zc] T]. apply length_to_le_bytes. Qed.

Lemma is_bytes_ed_encode P : is_bytes (ed_encode P).
Proof. destruct P as [[[X Y] Zc] T]. apply is_bytes_to_le. Qed.

Lemma length_ed_sign seed m : length (ed_sign seed m) = 64%nat.
Proof. unfold ed_sign. cbv zeta. rewrite length_app, length_ed_encode, length_to_le_bytes. done. Qed.

Lemma is_bytes_ed_sign seed m : is_bytes (ed_sign seed m).
Proof.
  unfold ed_sign. cbv zeta. apply is_bytes_app. split; [apply is_bytes_ed_encode|apply is_bytes_to_le].
Qed.

#[local] Opaque SHA256 X25519 ed_sign ed_public ed_verify x25519 x25519_public ed25519.sign
  ed25519.verify ed25519.public_key sha256.digest.

Lemma x25519_rfc secret peer :
  is_bytes secret -> length secret = 32%nat -> is_bytes peer -> length peer = 32%nat ->
  x25519 secret peer = Some (X25519 secret peer).
Proof. exact (x25519_ok secret peer). Qed.

Lemma x25519_public_rfc seed :
  is_bytes seed -> length seed = 32%nat -> x25519_public seed = Some (X25519 seed BASEPOINT_U).
Proof.
  intros Hb Hl. apply (x25519_ok seed BASEPOINT_U Hb Hl); [|done]. by apply is_bytes_check.
Qed.

Lemma sign_rfc seed m : ed25519.sign seed m = Some (ed_sign seed m).
Proof. exact (proj2 (sign_ok seed m)). Qed.

Lemma digest_SHA256 parts : sha256.digest parts = SHA256 (concat parts).
Proof. exact (sha256_digest_spec parts). Qed.

Lemma shared_secret_spec seed peer :
  is_bytes seed -> length seed = 32%nat -> is_bytes peer -> length peer = 32%nat ->
  peer <> replicate 32 0 ->
  kex.shared_secret seed peer =
    Some (if decide (X25519 seed peer = replicate 32 0) then Err tt else Ok (X25519 seed peer)).
Proof.
  intros Hs Hsl Hp Hpl Hne. unfold kex.shared_secret, kex.all_zero32.
  rewrite (proj2 (ct_eq_false _ _)), x25519_rfc by done. cbn [mbind option_bind].
  destruct (decide _) as [E|E]; [by rewrite (proj2 (ct_eq_true _ _))|by rewrite (proj2 (ct_eq_false _ _))].
Qed.

(** The peer key can also be zero in a reply. *)
Lemma shared_secret_some seed peer :
  is_bytes seed -> length seed = 32%nat -> is_bytes peer -> length peer = 32%nat ->
  exists r, kex.shared_secret seed peer = Some r /\
    forall k, r = Ok k -> k = X25519 seed peer /\ k <> replicate 32 0.
Proof.
  intros Hs Hsl Hp Hpl. destruct (decide (peer = replicate 32 0)) as [->|Hne].
  - eexists. unfold kex.shared_secret, kex.all_zero32. by rewrite (proj2 (ct_eq_true _ _)).
  - rewrite shared_secret_spec by done. eexists. split; [done|]. by destruct (decide _); intros k [= <-].
Qed.

(** The finished [mpint] of a shared secret. *)
Definition k_mpint_of (shared : list Z) : list Z := ssh_string (mpint_body shared).

Lemma mpint_build shared : is_bytes shared -> length shared = 32%nat ->
  Writer.build 40 (Writer.mpint_be shared) = Ok (k_mpint_of shared).
Proof.
  intros Hb Hl. pose proof (length_mpint_body shared) as Hm.
  rewrite (build_writes _ _ _ (writes_mpint _ Hb ltac:(unfold is_string; lia))), length_ssh_string.
  by rewrite (proj2 (Nat.leb_le _ _)) by lia.
Qed.

Section safety.

Context {panics : Prop}.
#[local] Abbreviation runs := (SshInv.runs (panics := panics)).
#[local] Abbreviation keeps := (SshInv.keeps (panics := panics)).
#[local] Abbreviation in_stage := (SshInv.in_stage (panics := panics)).

(** ** The version exchange *)

Definition in_state (s : State) (t : SshTransport) : Prop := t_state t = s.

Lemma parse_identification_len line ident :
  parse_identification line = Ok ident -> (length ident <= 253)%nat.
Proof.
  unfold parse_identification. destruct (_ =? _)%nat; [done|].
  destruct (Nat.ltb_spec (IDENT_MAX - 2) (length line)) as [H|H]; [done|]. destruct (negb _); [done|].
  destruct (forallb _ _); [|done]. intros [= <-]. unfold IDENT_MAX in H. lia.
Qed.

Lemma server_ident_len fuel buf n m scan consumed ident :
  server_ident_loop fuel buf n m scan = Ok (Some (consumed, ident)) -> (length ident <= 253)%nat.
Proof.
  revert m scan. induction fuel as [|fuel IH]; intros m scan; [done|]. cbn [server_ident_loop].
  destruct (position _ _); [|by destruct (_ <? _)%nat]. cbv zeta. destruct (_ || _).
  - destruct (parse_identification _) eqn:E; [|done]. intros [= <- <-]. by eapply parse_identification_len.
  - destruct (_ <? _)%nat; [done|]. destruct (_ <=? _)%nat; [done|]. apply IH.
Qed.

Lemma keeps_my_kexinit : keeps always emit_my_kexinit.
Proof.
  intros t Hw _. unfold emit_my_kexinit. apply runs_get.
  eapply runs_lift_bind; [apply build_kexinit_ok; [apply Hw|lia]|]. apply runs_ret_bind, runs_modify.
  apply runs_emit.
  - destruct Hw. constructor; [constructor; try done|done..].
    change (zlen (kexinit (t_cookie t) offered 0) <= KEXINIT_CAP). unfold zlen. by rewrite length_offered.
  - unfold kexinit. apply is_bytes_app. split; [by apply is_bytes_check|].
    apply is_bytes_app. split; [apply Hw|]. by apply is_bytes_check.
  - unfold zlen. rewrite length_offered by apply Hw. done.
Qed.

(** The transport once the peer has identified itself. *)
Definition identified (consumed : nat) (ident : list Z) (t : SshTransport) : SshTransport :=
  t <| t_peer_ident := ident |> <| t_inbuf := drop consumed (t_inbuf t) |> <| t_state := KexInit |>.

Lemma take_ident_eq consumed ident t :
  (length ident <= 253)%nat -> take_ident consumed ident t = Some (Ok tt, identified consumed ident t).
Proof. intros Hl. unfold take_ident. by rewrite (proj2 (Nat.ltb_ge _ _)) by (unfold IDENT_MAX; lia). Qed.

Lemma evolves_identified consumed ident t :
  wf t -> t_state t = VersionExchange -> (length ident <= 253)%nat ->
  evolves t (identified consumed ident t).
Proof.
  intros Hw Hs Hl. destruct Hw. unfold keys_wf in *. rewrite Hs in *.
  constructor; [constructor; try done|done|cbn; rewrite Hs; cbn; lia|done|cbn; rewrite length_drop; lia].
  - cbn. unfold zlen in *. rewrite length_drop. lia.
  - by apply is_bytes_drop.
  - destruct wf_early as [[E|E]|H]; [by rewrite Hs in E|by rewrite Hs in E|by right].
Qed.

Lemma server_ident_consumed fuel buf n m scan consumed ident :
  server_ident_loop fuel buf n m scan = Ok (Some (consumed, ident)) -> (0 < consumed)%nat /\ buf <> [].
Proof.
  revert m scan. induction fuel as [|fuel IH]; intros m scan; [done|]. cbn [server_ident_loop].
  destruct (position _ _) as [lf|] eqn:E; [|by destruct (_ <? _)%nat]. cbv zeta. destruct (_ || _).
  - destruct (parse_identification _); [|done]. intros [= <- <-]. split; [lia|]. intros ->. by rewrite drop_nil in E.
  - destruct (_ <? _)%nat; [done|]. destruct (_ <=? _)%nat; [done|]. apply IH.
Qed.

(** The version exchange evolves the transport, and when it goes on it has taken
    bytes off the input. *)
Lemma runs_try_version t :
  wf t -> t_state t = VersionExchange ->
  runs try_version (fun r t' => evolves t t' /\
    (r = Ok true -> (length (t_inbuf t') < length (t_inbuf t))%nat)) t.
Proof.
  intros Hw Hs. pose proof (evolves_refl t Hw) as Hr. unfold try_version. apply runs_get. destruct (t_role t).
  - unfold try_version_server. apply runs_get. destruct (position LF (t_inbuf t)) as [lf|] eqn:Ep.
    2: { destruct (_ <=? _)%nat; [by apply (runs_disconnect _ t)|done]. }
    cbv zeta. destruct (parse_identification _) as [ident|e] eqn:E.
    2: { by destruct e; try destruct (starts_with _ _); apply (runs_disconnect _ t). }
    apply parse_identification_len in E. apply runs_bind. unfold SshInv.runs at 1. rewrite take_ident_eq by done.
    set (t1 := identified _ _ t). assert (H1 : evolves t t1) by (by apply evolves_identified).
    apply position_lt in Ep. assert (Hlt : (length (t_inbuf t1) < length (t_inbuf t))%nat)
      by (cbn; rewrite length_drop; lia).
    eapply (runs_seq always); [apply keeps_my_kexinit|by apply evolves_refl, H1|done| |].
    + intros e t2 H2. split; [by eapply evolves_trans|done].
    + intros _ t2 H2. split; [by eapply evolves_trans|]. intros _. pose proof (ev_in _ _ H2). lia.
  - unfold try_version_client. apply runs_get.
    destruct (parse_server_identification _ _) as [[[consumed ident]|]|e] eqn:E; [|done|].
    2: { by destruct e; apply (runs_disconnect _ t). }
    pose proof (server_ident_len _ _ _ _ _ _ _ E) as Hl.
    destruct (server_ident_consumed _ _ _ _ _ _ _ E) as [Hc Hne].
    apply runs_bind. unfold SshInv.runs. rewrite take_ident_eq by done.
    split; [by apply evolves_identified|]. intros _. cbn. rewrite length_drop.
    destruct (t_inbuf t); [done|cbn; lia].
Qed.

(** ** Receiving a packet *)

Definition wire_of (keys : option CipherKeys) (seqno : Z) (msg : list Z) : list Z :=
  match keys with None => plain msg | Some k => sealed k seqno msg end.

Definition overhead (keys : option CipherKeys) : nat := if is_some keys then 20 else 4.

(** The transport once a packet has been taken off its input. *)
Definition received (msg rest : list Z) (t : SshTransport) : SshTransport :=
  t <| t_proc := msg ++ drop (length msg) (t_proc t) |> <| t_inbuf := rest |>
    <| t_rx_seq := wrapping_add 32 (t_rx_seq t) 1 |>.

Lemma length_wire_of keys seqno msg : length (wire_of keys seqno msg) = (overhead keys + length msg)%nat.
Proof.
  destruct keys; cbn [wire_of overhead is_some]; [rewrite length_sealed|rewrite length_plain]; lia.
Qed.

Lemma is_bytes_wire_of keys seqno msg : is_bytes msg -> is_bytes (wire_of keys seqno msg).
Proof.
  intros H. destruct keys as [k|]; cbn [wire_of].
  - unfold sealed. apply is_bytes_app; split; [apply is_bytes_crypt, is_bytes_to_be|].
    apply is_bytes_app; split; [by apply is_bytes_crypt|apply is_bytes_ssh_tag].
  - apply is_bytes_app; split; [apply is_bytes_to_be|done].
Qed.

Lemma wf_received msg rest t :
  wf t -> is_bytes msg -> zlen msg <= STAGE_CAP -> t_inbuf t = wire_of (t_rx_keys t) (t_rx_seq t) msg ++ rest ->
  wf (received msg rest t).
Proof.
  intros [] Hm Hl Hi. rewrite Hi in *. apply is_bytes_app in wf_in_bytes as [_ Hrest].
  unfold zlen in *. rewrite length_app in wf_in. constructor; cbn; try done; unfold zlen.
  - rewrite length_app, length_drop. lia.
  - apply is_bytes_app. split; [done|by apply is_bytes_drop].
  - lia.
Qed.

Lemma evolves_received msg rest t :
  wf t -> is_bytes msg -> zlen msg <= STAGE_CAP -> t_inbuf t = wire_of (t_rx_keys t) (t_rx_seq t) msg ++ rest ->
  evolves t (received msg rest t).
Proof.
  intros Hw Hm Hl Hi. constructor; try done; [by apply wf_received|]. cbn. rewrite Hi, length_app. lia.
Qed.

(** A frame whose front is complete is taken. *)
Lemma try_packet_complete t msg rest :
  wf t -> is_bytes msg -> frame_ok (is_some (t_rx_keys t)) msg ->
  t_inbuf t = wire_of (t_rx_keys t) (t_rx_seq t) msg ++ rest ->
  try_packet t = Some (Ok (Some (frame_of (overhead (t_rx_keys t)) msg, t_rx_seq t)), received msg rest t).
Proof.
  intros Hw Hm Hok Hi. pose proof Hok as (Hr & _). unfold try_packet, bind at 1, get. cbv zeta.
  pose proof (wf_proc _ Hw) as Hp. unfold zlen, STAGE_CAP in *.
  assert (E : (match t_rx_keys t with
    | None => decode_plain (t_inbuf t) (t_proc t)
    | Some keys => decode_aead (t_inbuf t) (t_proc t) keys (t_rx_seq t)
    end) = Some (Ok (Some (frame_of (overhead (t_rx_keys t)) msg)), msg ++ drop (length msg) (t_proc t))).
  { rewrite Hi. destruct (t_rx_keys t) as [keys|]; cbn [wire_of overhead is_some] in *.
    - apply decode_aead_complete; [done|done|lia].
    - rewrite decode_plain_complete by (unfold zlen; lia). by rewrite frame_verdict_ok. }
  rewrite E. unfold bind, lift, ret, modify. cbn [fst snd]. do 2 f_equal. unfold received.
  cbn [set set_proc set_inbuf set_rx_seq t_role t_state t_out t_inbuf t_proc t_host_seed t_host_pub
    t_x25519_seed t_cookie t_peer_ident t_my_kexinit t_peer_kexinit t_negotiated t_e_client t_f_server
    t_k_mpint t_exchange_h t_session_id t_tx_keys t_rx_keys t_pending_rx t_rx_seq t_tx_seq t_peer_desc
    t_peer_reason t_auth t_chan].
  rewrite Hi. unfold frame_of. cbn [consumed].
  by rewrite drop_app_length' by (by rewrite length_wire_of).
Qed.

Lemma set_proc_same t : t <| t_proc := t_proc t |> = t.
Proof. by destruct t. Qed.

Lemma evolves_proc p t : wf t -> is_bytes p -> length p = length (t_proc t) -> evolves t (t <| t_proc := p |>).
Proof. intros [] Hp Hl. constructor; [constructor; cbn; try done|done..]. unfold zlen in *. by rewrite Hl. Qed.

(** What a packet round finds: a complete packet, not enough bytes, or a packet
    that closes the connection. *)
Lemma try_packet_cases t : wf t ->
  (exists msg rest, is_bytes msg /\ frame_ok (is_some (t_rx_keys t)) msg /\
     t_inbuf t = wire_of (t_rx_keys t) (t_rx_seq t) msg ++ rest /\
     try_packet t = Some (Ok (Some (frame_of (overhead (t_rx_keys t)) msg, t_rx_seq t)), received msg rest t)) \/
  try_packet t = Some (Ok None, t) \/
  (exists e t', try_packet t = Some (Err e, t') /\ evolves t t').
Proof.
  intros Hw. pose proof (wf_proc _ Hw) as Hp. pose proof (wf_in_bytes _ Hw) as Hi.
  assert (Hst : MAX_PACKET_LEN <= zlen (t_proc t)) by (rewrite Hp; done).
  set (d := match t_rx_keys t with
    | None => decode_plain (t_inbuf t) (t_proc t)
    | Some keys => decode_aead (t_inbuf t) (t_proc t) keys (t_rx_seq t)
    end).
  assert (Hd : (exists msg rest, is_bytes msg /\ frame_ok (is_some (t_rx_keys t)) msg /\
      t_inbuf t = wire_of (t_rx_keys t) (t_rx_seq t) msg ++ rest) \/
    d = Some (Ok None, t_proc t) \/
    exists e p, d = Some (Err e, p) /\ length p = length (t_proc t) /\ is_bytes p).
  { subst d. destruct (t_rx_keys t) as [keys|].
    - destruct (decode_aead_cases keys (t_rx_seq t) (t_inbuf t) (t_proc t) Hi Hst)
        as [(msg & rest & E & Hm & Hok & _)|[E|(e & p & E & Hl & Hb)]]; [left|right; left|right; right]; eauto.
      exists e, p. split_and!; try done. apply Hb, Hw.
    - destruct (decode_plain_cases (t_inbuf t) (t_proc t) Hi Hst)
        as [(msg & rest & E & Hok & _)|[E|(e & p & E & Hl & Hb)]]; [left|right; left|right; right]; eauto.
      + exists msg, rest. split_and!; try done. rewrite E in Hi. apply is_bytes_app in Hi as [Hi _].
        by apply is_bytes_app in Hi as [_ Hi].
      + exists e, p. split_and!; try done. apply Hb, Hw. }
  destruct Hd as [(msg & rest & Hm & Hok & E)|[E|(e & p & E & Hl & Hb)]].
  - left. exists msg, rest. split_and!; try done. by apply try_packet_complete.
  - right; left. unfold try_packet, bind at 1, get. cbv zeta. fold d. rewrite E.
    unfold bind, lift, ret, modify. cbn [fst snd]. by rewrite set_proc_same.
  - right; right. unfold try_packet, bind at 1, get. cbv zeta. fold d. rewrite E.
    unfold bind, lift, ret, modify. cbn [fst snd].
    assert (He : evolves t (t <| t_proc := p |>)) by (by apply evolves_proc).
    assert (Hx : forall reason text, exists e' t',
      fail_disconnect reason text (t <| t_proc := p |>) =
        Some (Err e' : result (option (FrameInfo * Z)) Fail, t') /\ evolves t t').
    { intros reason text.
      pose proof (runs_disconnect (panics := False) (A := option (FrameInfo * Z))
        (fun r t' => exists e', r = Err e' /\ evolves t t') t reason text _ He) as H.
      unfold SshInv.runs in H. destruct (fail_disconnect _ _ _) as [[r t']|]; [|by destruct H; eauto].
      destruct H as (e' & -> & H); [eauto|]. by exists e', t'. }
    destruct e; apply Hx.
Qed.

(** ** Handlers of the key exchange *)

Definition stage_of (info : FrameInfo) : Prop := in_stage (payload_start info) (payload_len info).

Lemma keeps_peer_disconnect {A} info : stage_of info -> keeps always (take_peer_disconnect info : M A).
Proof.
  intros Hs t Hw _. unfold take_peer_disconnect. cbv zeta. apply runs_get.
  apply runs_index_after; [done|done|].
  destruct (Reader.u32 _) as [reason r]. apply runs_modify. destruct Hw.
  constructor; [constructor; try done; by left; right|done|destruct (t_state t); cbn; lia|done|done].
Qed.

Lemma keeps_unimplemented seq : keeps always (reply_unimplemented seq).
Proof.
  apply keeps_emit; [|done]. repeat constructor; try apply wrap_word; lia.
Qed.

Lemma keeps_unimplemented_here : keeps always unimplemented_here.
Proof.
  intros t Hw _. pose proof (evolves_refl t Hw) as Hr. unfold unimplemented_here. apply runs_get.
  by eapply (runs_seq always); [apply keeps_unimplemented|done|done|done|].
Qed.

Lemma keeps_pre_established msg info m :
  stage_of info -> dispatch_pre_established msg info = Some m -> keeps always m.
Proof.
  intros Hs. unfold dispatch_pre_established.
  assert (H1 : forall x : M Dispatch, keeps always x -> Some x = Some m -> keeps always m)
    by (by intros x Hx [= <-]).
  repeat (match goal with |- context [match ?x with _ => _ end] => is_var x; destruct x end; try done);
    first [apply H1, keeps_peer_disconnect, Hs | apply H1, keeps_ret | apply H1, keeps_disconnect].
Qed.

(** Moving to the reply state. *)
Lemma keeps_to_reply : keeps (in_state KexInit) (modify (fun t => t <| t_state := KexReply |>)).
Proof.
  intros t Hw Hs. unfold in_state in Hs. destruct Hw. unfold keys_wf, established in *. rewrite Hs in *.
  constructor; [constructor; try done|done|cbn; rewrite Hs; cbn; lia|done|done].
  right. by destruct wf_early as [[E|E]|H].
Qed.

Lemma in_state_emit s payload t :
  t_state t = s -> is_bytes payload -> zlen payload <= MAX_PAYLOAD_LEN ->
  runs (emit_packet payload) (fun _ t' => t_state t' = s) t.
Proof. intros Hs Hb Hl. unfold runs. rewrite emit_packet_spec by done. by destruct (fits _ _). Qed.

Lemma runs_and {A} (m : M A) (Q1 Q2 : result A Fail -> SshTransport -> Prop) t :
  runs m Q1 t -> runs m Q2 t -> runs m (fun r t' => Q1 r t' /\ Q2 r t') t.
Proof. unfold runs. by destruct (m t) as [[r t']|]. Qed.

Lemma keeps_dispatch_kexinit msg info :
  stage_of info -> keeps (in_state KexInit) (dispatch_kexinit msg info).
Proof.
  intros Hs t Hw Hst. pose proof (evolves_refl t Hw) as Hr. unfold dispatch_kexinit.
  destruct (dispatch_pre_established msg info) eqn:E; [by apply (keeps_pre_established msg info)|].
  destruct (negb _). { destruct (unexpected_kex_message msg); [by apply (runs_disconnect _ t)|by apply keeps_unimplemented_here]. }
  apply runs_get. destruct (negb _); [by apply (runs_disconnect _ t)|]. cbv zeta.
  destruct (Z.ltb_spec KEXINIT_CAP (Z.of_nat (payload_len info))) as [|Hcap]; [by apply (runs_disconnect _ t)|].
  pose proof (wf_proc _ Hw) as Hp. destruct Hs as (_ & H2 & _). unfold zlen in Hp.
  eapply runs_lift_bind; [apply index_range_some; lia|]. apply runs_modify. set (p := take _ _).
  assert (Hpl : zlen p <= KEXINIT_CAP) by (unfold p, zlen; rewrite length_take, length_drop; lia).
  assert (He : evolves t (t <| t_peer_kexinit := p |>)) by (destruct Hw; by constructor; [constructor|..]).
  destruct (kex.parse_kexinit p) as [parsed|]; [|by apply (runs_disconnect _ t)].
  destruct (negotiate _ _ _ _ _ _ _ _) as [neg|]; [|by apply (runs_disconnect _ t)].
  apply runs_modify. set (t1 := _ <| t_negotiated := _ |>).
  assert (He1 : evolves t t1) by (destruct Hw; by constructor; [constructor|..]).
  apply runs_bind. destruct (t_role t).
  - eapply runs_mono; [by apply (runs_keeps (in_state KexInit) _ t); [apply keeps_to_reply|..]|]. by intros [].
  - eapply runs_lift_bind; [apply x25519_public_rfc; apply Hw|].
    unfold kex.build_ecdh_init.
    rewrite (build_writes _ _ ([SSH_MSG_KEX_ECDH_INIT] ++ ssh_string (X25519 (t_x25519_seed t) BASEPOINT_U))).
    2: { apply writes_seq; [apply writes_u8|]. apply writes_string, (is_string_small _ 32); [apply length_X25519|done]. }
    rewrite length_app, length_ssh_string, length_X25519. cbn [length Nat.add Nat.leb].
    apply runs_ret_bind, runs_bind. set (payload := _ ++ _).
    assert (Hb : is_bytes payload)
      by (apply is_bytes_app; split; [by apply is_bytes_check|apply is_bytes_ssh_string, is_bytes_X25519]).
    assert (Hl : zlen payload <= MAX_PAYLOAD_LEN)
      by (unfold payload, zlen; rewrite length_app, length_ssh_string, length_X25519; done).
    eapply runs_mono; [apply runs_and; [by apply (runs_emit t)|by apply (in_state_emit KexInit)]|].
    intros [a|e] t2 [H2' Hs2]; [|done].
    eapply runs_mono; [by apply (runs_keeps (in_state KexInit) _ t); [apply keeps_to_reply|..]|]. by intros [].
Qed.

(** *** The exchange hash and the keys of RFC 4253 and RFC 8731 *)

Definition exchange_H (v_c v_s i_c i_s k_s e f k : list Z) : list Z :=
  SHA256 (ssh_string v_c ++ ssh_string v_s ++ ssh_string i_c ++ ssh_string i_s ++
          ssh_string k_s ++ ssh_string e ++ ssh_string f ++ k).

(** RFC 4253, section 7.2, for the letter [x] and 64 bytes of key. *)
Definition key_material (k h : list Z) (x : Z) : CipherKeys :=
  let k1 := SHA256 (k ++ h ++ [x] ++ h) in
  mkCipherKeys k1 (SHA256 (k ++ h ++ k1)).

Lemma exchange_hash_client v_c v_s i_c i_s k_s e f k :
  is_string v_c -> is_string v_s -> is_string i_c -> is_string i_s ->
  length e = 32%nat -> length f = 32%nat ->
  kex.exchange_hash v_c v_s i_c i_s k_s e f k =
    SHA256 (ssh_string v_c ++ ssh_string v_s ++ ssh_string i_c ++ ssh_string i_s ++ k_s ++
            ssh_string e ++ ssh_string f ++ k).
Proof.
  intros H1 H2 H3 H4 He Hf. unfold kex.exchange_hash. cbv zeta. rewrite digest_SHA256.
  apply (f_equal SHA256). cbn [concat]. unfold ssh_string, ssh_u32, Writer.len_u32, is_string in *.
  rewrite He, Hf, !wrap_small by lia. rewrite <- !app_assoc, app_nil_r. done.
Qed.

Lemma exchange_hash_rfc v_c v_s i_c i_s k_s e f k :
  is_string v_c -> is_string v_s -> is_string i_c -> is_string i_s -> is_string k_s ->
  length e = 32%nat -> length f = 32%nat ->
  kex.exchange_hash v_c v_s i_c i_s (full_host_key k_s) e f k = exchange_H v_c v_s i_c i_s k_s e f k.
Proof.
  intros H1 H2 H3 H4 H5 He Hf. rewrite exchange_hash_client by done.
  unfold full_host_key, Writer.len_u32. unfold is_string in H5. by rewrite wrap_small by lia.
Qed.

Lemma session_keys_rfc k h :
  kex.derive_session_keys k h = (key_material k h 67, key_material k h 68).
Proof.
  unfold kex.derive_session_keys, kex.derive_direction_keys, from_material, key_material. cbv zeta.
  rewrite !digest_SHA256. cbn [concat]. rewrite !app_nil_r.
  by rewrite !take_app_length', !drop_app_length' by (by rewrite length_SHA256).
Qed.

(** *** The server's answer to the client's key *)

Definition server_public (t : SshTransport) : list Z := X25519 (t_x25519_seed t) BASEPOINT_U.

Definition server_k (t : SshTransport) (e : list Z) : list Z := k_mpint_of (X25519 (t_x25519_seed t) e).

Definition server_hash (t : SshTransport) (e : list Z) : list Z :=
  exchange_H (t_peer_ident t) SERVER_BANNER_TEXT (t_peer_kexinit t) (t_my_kexinit t)
    (blob (t_host_pub t)) e (server_public t) (server_k t e).

Definition server_reply (t : SshTransport) (e : list Z) : list Z :=
  ecdh_reply (blob (t_host_pub t)) (server_public t) (blob (ed_sign (t_host_seed t) (server_hash t e))).

Definition with_exchange (e : list Z) (t : SshTransport) : SshTransport :=
  t <| t_e_client := e |> <| t_f_server := server_public t |> <| t_k_mpint := server_k t e |>
    <| t_exchange_h := server_hash t e |>.


Lemma length_host_blob t : wf t -> length (blob (t_host_pub t)) = 51%nat.
Proof. intros Hw. by rewrite length_blob, (wf_pub _ Hw). Qed.

Lemma server_hash_rfc t e k_s :
  wf t -> length e = 32%nat -> k_s = blob (t_host_pub t) ->
  kex.exchange_hash (t_peer_ident t) SERVER_BANNER_TEXT (t_peer_kexinit t) (t_my_kexinit t)
    (full_host_key k_s) e (server_public t) (server_k t e) = server_hash t e.
Proof.
  intros Hw He ->. pose proof (length_host_blob t Hw). destruct Hw. unfold KEXINIT_CAP, KEXINIT_MAX, zlen in *.
  apply exchange_hash_rfc; unfold is_string; try lia; [done|apply length_X25519].
Qed.

Lemma server_reply_ok t e : wf t ->
  kex.build_ecdh_reply (blob (t_host_pub t)) (server_public t)
    (blob (ed_sign (t_host_seed t) (server_hash t e))) 320 = Ok (server_reply t e) /\
  is_bytes (server_reply t e) /\ zlen (server_reply t e) = 179.
Proof.
  intros Hw. pose proof (length_host_blob t Hw) as Hl.
  assert (Hs : length (blob (ed_sign (t_host_seed t) (server_hash t e))) = 83%nat)
    by (by rewrite length_blob, length_ed_sign).
  assert (Hf : length (server_public t) = 32%nat) by apply length_X25519.
  assert (Hlen : length (server_reply t e) = 179%nat)
    by (unfold server_reply, ecdh_reply; rewrite !length_app, !length_ssh_string, Hl, Hs, Hf; done).
  split_and!.
  - unfold kex.build_ecdh_reply. rewrite (build_writes _ _ (server_reply t e)); [by rewrite Hlen|].
    apply writes_seq; [apply writes_u8|].
    apply writes_seq; [by apply writes_string, (is_string_small _ _ Hl)|].
    apply writes_seq; [by apply writes_string, (is_string_small _ _ Hf)|].
    by apply writes_string, (is_string_small _ _ Hs).
  - unfold server_reply, ecdh_reply. apply is_bytes_app; split; [by apply is_bytes_check|].
    apply is_bytes_app; split; [apply is_bytes_ssh_string, is_bytes_blob, Hw|].
    apply is_bytes_app; split; apply is_bytes_ssh_string; [apply is_bytes_X25519|apply is_bytes_blob, is_bytes_ed_sign].
  - unfold zlen. by rewrite Hlen.
Qed.

Definition server_switch (e : list Z) (t0 t : SshTransport) : SshTransport :=
  t <| t_pending_rx := Some (key_material (server_k t0 e) (server_hash t0 e) 67) |>
    <| t_tx_keys := Some (key_material (server_k t0 e) (server_hash t0 e) 68) |>
    <| t_session_id := Some (server_hash t0 e) |> <| t_state := NewKeys |>.

Lemma handle_ecdh_init_spec info t e :
  wf t -> stage_of info ->
  kex.parse_ecdh_init (frame_bytes t (payload_start info) (payload_len info)) = Ok e ->
  X25519 (t_x25519_seed t) e <> replicate 32 0 ->
  let t1 := with_exchange e t in
  let t2 := after_emit (server_reply t e) t1 in
  handle_ecdh_init info t =
    Some (if fits t1 (server_reply t e) then
            if fits t2 [SSH_MSG_NEWKEYS]
            then (Ok Handled, server_switch e t (after_emit [SSH_MSG_NEWKEYS] t2))
            else (Err OutOfCapacity, t2)
          else (Err OutOfCapacity, t1)).
Proof.
  intros Hw Hs Hp Hne t1 t2. pose proof (wf_seed _ Hw) as Hsl. pose proof (wf_seed_bytes _ Hw) as Hsb.
  destruct (parse_ecdh_init_inv _ _ (is_bytes_frame t _ _ Hw) Hp) as (Heb & Hel & Hez).
  destruct (server_reply_ok t e Hw) as (Hr & Hrb & Hrl).
  unfold handle_ecdh_init, or_fail, bind, get, lift, modify, ret.
  rewrite proc_range_eq, Hp, shared_secret_spec by done.
  rewrite decide_False by done. rewrite x25519_public_rfc by done.
  rewrite mpint_build by (apply is_bytes_X25519 || apply length_X25519).
  unfold hostkey.host_key_blob. rewrite build_blob by (apply (is_string_small _ _ (wf_pub _ Hw)); done).
  rewrite (wf_pub _ Hw). cbn [Nat.add Nat.leb].
  fold (server_public t). fold (server_k t e). rewrite server_hash_rfc by done.
  rewrite sign_rfc. unfold hostkey.signature_blob.
  rewrite build_blob by (apply (is_string_small _ _ (length_ed_sign _ _)); done).
  rewrite length_ed_sign. cbn [Nat.add Nat.leb]. rewrite Hr.
  rewrite emit_packet_spec by (done || (unfold MAX_PAYLOAD_LEN; lia)).
  change (_ <| t_exchange_h := server_hash t e |>) with t1. destruct (fits t1 (server_reply t e)); [|done].
  fold t2. rewrite emit_packet_spec by (done || by apply is_bytes_check).
  destruct (fits t2 [SSH_MSG_NEWKEYS]); [|done]. by rewrite session_keys_rfc.
Qed.

Lemma evolves_with_exchange e t : wf t -> evolves t (with_exchange e t).
Proof. intros Hw. destruct Hw. by constructor; [constructor|..]. Qed.

(** Switching to the new keys. *)
Lemma evolves_switch tx rx h t :
  wf t -> t_state t = KexReply ->
  evolves t (t <| t_pending_rx := Some rx |> <| t_tx_keys := Some tx |> <| t_session_id := Some h |>
               <| t_state := NewKeys |>).
Proof.
  intros [] Hst. unfold keys_wf, established in *. rewrite Hst in *.
  constructor; [constructor; try done|done|cbn; rewrite Hst; cbn; lia|done|done].
  - destruct wf_keys as (_ & Hrx & _). split_and!; [by eexists|done|by eexists|by eexists].
  - right. by destruct wf_early as [[?|?]|?].
Qed.

Lemma evolves_hash h t : wf t -> evolves t (t <| t_exchange_h := h |>).
Proof. intros []. by constructor; [constructor|..]. Qed.

Lemma keeps_ecdh_init info : stage_of info -> keeps (in_state KexReply) (handle_ecdh_init info).
Proof.
  intros Hs t Hw Hst. pose proof (evolves_refl t Hw) as Hr.
  destruct (kex.parse_ecdh_init (frame_bytes t (payload_start info) (payload_len info))) as [e|] eqn:E.
  2: { unfold handle_ecdh_init. apply runs_proc_range; [done|done|]. rewrite E. by apply (runs_disconnect _ t). }
  destruct (parse_ecdh_init_inv _ _ (is_bytes_frame t _ _ Hw) E) as (Heb & Hel & Hez).
  pose proof (shared_secret_spec _ e (wf_seed_bytes _ Hw) (wf_seed _ Hw) Heb Hel Hez) as HS.
  destruct (decide (X25519 (t_x25519_seed t) e = replicate 32 0)) as [Hz|Hz].
  { clear Hz. unfold handle_ecdh_init. apply runs_proc_range; [done|done|]. rewrite E. apply runs_get.
    eapply runs_lift_bind; [exact HS|]. by apply (runs_disconnect _ t). }
  unfold runs. rewrite (handle_ecdh_init_spec info t e Hw Hs E Hz). cbv zeta.
  destruct (server_reply_ok t e Hw) as (_ & Hb & _). pose proof (evolves_with_exchange e t Hw) as H1.
  destruct (fits (with_exchange e t) _) eqn:F1; [|done].
  pose proof (evolves_trans _ _ _ H1 (evolves_emit _ _ (ev_wf _ _ H1) Hb F1)) as H2.
  destruct (fits _ [SSH_MSG_NEWKEYS]) eqn:F2; [|done].
  assert (Hn : is_bytes [SSH_MSG_NEWKEYS]) by (by apply is_bytes_check).
  pose proof (evolves_trans _ _ _ H2 (evolves_emit _ _ (ev_wf _ _ H2) Hn F2)) as H3.
  eapply evolves_trans; [exact H3|]. exact (evolves_switch _ _ _ _ (ev_wf _ _ H3) Hst).
Qed.

(** *** The client's check of the server's reply *)

(** What the client has checked when it accepts a reply: the host key signed the
    exchange hash of this very exchange, and the keys come from it. *)
Definition signed_exchange (t t' : SshTransport) : Prop :=
  exists k_s pk f sig h,
    hostkey.parse_host_key_blob (drop 4 k_s) = Ok pk /\
    length f = 32%nat /\ X25519 (t_x25519_seed t) f <> replicate 32 0 /\
    h = SHA256 (ssh_string SERVER_BANNER_TEXT ++ ssh_string (t_peer_ident t) ++
          ssh_string (t_my_kexinit t) ++ ssh_string (t_peer_kexinit t) ++ k_s ++
          ssh_string (server_public t) ++ ssh_string f ++ server_k t f) /\
    ed_verify pk h sig = true /\
    t_session_id t' = Some h /\
    t_tx_keys t' = Some (key_material (server_k t f) h 67) /\
    t_pending_rx t' = Some (key_material (server_k t f) h 68).

Lemma verify_exchange_signature_spec pk h b :
  is_bytes pk -> length pk = 32%nat -> is_bytes b ->
  exists r, hostkey.verify_exchange_signature pk h b = Some r /\
    (unwrap_or false r = true -> exists sig, ed_verify pk h sig = true).
Proof.
  intros Hb Hl Hbb. unfold hostkey.verify_exchange_signature.
  destruct (hostkey.parse_signature_blob b) as [sig|] eqn:E; [|by eexists].
  apply parse_signature_blob_inv in E as [Hs Hsl]; [|done].
  rewrite (verify_ok pk h sig Hb Hl Hs Hsl). cbn [mbind option_bind]. eexists. split; [done|].
  cbn [unwrap_or]. by exists sig.
Qed.

Lemma runs_index {B} l a b (k : list Z -> M B) Q t :
  (a <= b)%nat -> (b <= length l)%nat -> runs (k (take (b - a) (drop a l))) Q t ->
  runs (bind (lift (index_range l a b)) k) Q t.
Proof. intros H1 H2. by apply runs_lift_bind, index_range_some. Qed.

(** The client evolves, and accepts only a signed exchange. *)
Lemma runs_ecdh_reply info t :
  stage_of info -> wf t -> t_state t = KexReply ->
  runs (handle_ecdh_reply info)
    (fun r t' => evolves t t' /\ (forall d, r = Ok d -> signed_exchange t t')) t.
Proof.
  intros Hs Hw Hst. pose proof (evolves_refl t Hw) as Hr. unfold handle_ecdh_reply. cbv zeta.
  assert (Hdis : forall reason text, runs (fail_disconnect reason text : M Dispatch)
    (fun r t' => evolves t t' /\ (forall d, r = Ok d -> signed_exchange t t')) t)
    by (intros reason text; by apply (runs_disconnect _ t)).
  apply runs_proc_range; [done|done|].
  pose proof (wf_proc _ Hw) as Hp. unfold zlen in Hp. pose proof (wf_proc_bytes _ Hw) as Hpb.
  destruct (kex.parse_ecdh_reply _) as [p|] eqn:E; [|by apply Hdis].
  apply parse_ecdh_reply_inv in E as (Hf & Hfl & [H1 H2] & H3); [|by apply is_bytes_frame].
  rewrite length_frame_bytes in H2, H3 by done. destruct Hs as (Hs1 & Hs2 & _).
  destruct (kex.host_key p) as [hk1 hk2], (kex.sig p) as [s1 s2]. cbn [fst snd] in *. subst hk1. apply runs_get.
  apply runs_index; [lia|lia|]. set (b := take _ _).
  assert (Hb : is_bytes b) by (by apply Forall_take, Forall_drop).
  destruct (hostkey.parse_host_key_blob b) as [pk|] eqn:Epk; [|by apply Hdis].
  destruct (parse_host_key_blob_inv b pk Hb Epk) as [Hpk Hpkl].
  destruct (shared_secret_some _ (kex.f p) (wf_seed_bytes _ Hw) (wf_seed _ Hw) Hf Hfl) as (r & Er & Hk).
  eapply runs_lift_bind; [exact Er|]. destruct r as [k|]; [|by apply Hdis].
  destruct (Hk k eq_refl) as [-> Hz]. clear Hk Er.
  rewrite (mpint_build _ (is_bytes_X25519 _ _) (length_X25519 _ _)). fold (server_k t (kex.f p)). apply runs_ret_bind.
  eapply runs_lift_bind; [apply x25519_public_rfc; apply Hw|]. fold (server_public t).
  apply runs_index; [lia|lia|]. set (k_s := take _ _).
  apply runs_index; [lia|lia|]. set (sb := take _ _).
  rewrite exchange_hash_client by
    (try apply length_X25519; try exact Hfl; destruct Hw; unfold is_string, zlen, KEXINIT_CAP, KEXINIT_MAX in *;
     first [lia | done]).
  set (h := SHA256 _).
  destruct (verify_exchange_signature_spec pk h sb Hpk Hpkl) as (v & Ev & Hv); [by apply Forall_take, Forall_drop|].
  eapply runs_lift_bind; [exact Ev|]. destruct (unwrap_or false v); [|by apply Hdis]. cbn [negb].
  destruct (Hv eq_refl) as [sig Hsig]. rewrite session_keys_rfc. clear Ev Hv. apply runs_bind.
  assert (Hn : is_bytes [SSH_MSG_NEWKEYS]) by (by apply is_bytes_check).
  unfold runs at 1. rewrite emit_packet_spec by done. destruct (fits t [SSH_MSG_NEWKEYS]) eqn:F; [|done].
  pose proof (evolves_emit _ _ Hw Hn F) as He. apply runs_modify.
  split; [eapply evolves_trans; [exact He|]|].
  - set (t1 := after_emit _ t) in *. pose proof (evolves_hash h t1 (ev_wf _ _ He)) as Hh.
    eapply evolves_trans; [exact Hh|]. exact (evolves_switch _ _ _ _ (ev_wf _ _ Hh) Hst).
  - intros d _. exists k_s, pk, (kex.f p), sig, h. split_and!; try reflexivity; try assumption.
    rewrite <- Epk. f_equal. unfold k_s, b.
    replace (payload_start info + hk2 - (payload_start info + 1))%nat
      with (4 + (payload_start info + hk2 - (payload_start info + 1 + 4)))%nat by lia.
    by rewrite <- firstn_skipn_comm, drop_drop.
Qed.

(** ** Dispatch *)

Lemma keeps_dispatch_kexreply msg info :
  stage_of info -> keeps (in_state KexReply) (dispatch_kexreply msg info).
Proof.
  intros Hs t Hw Hst. pose proof (evolves_refl t Hw) as Hr. unfold dispatch_kexreply.
  destruct (dispatch_pre_established msg info) eqn:E; [by apply (keeps_pre_established msg info)|].
  apply runs_get. destruct (_ && _); [by apply keeps_ecdh_init|]. destruct (_ && _).
  - eapply runs_mono; [by apply runs_ecdh_reply|]. by intros r t' [H _].
  - destruct (unexpected_kex_message msg); [by apply (runs_disconnect _ t)|by apply keeps_unimplemented_here].
Qed.

Lemma keeps_dispatch_newkeys msg info :
  stage_of info -> keeps (in_state NewKeys) (dispatch_newkeys msg info).
Proof.
  intros Hs t Hw Hst. pose proof (evolves_refl t Hw) as Hr. unfold dispatch_newkeys.
  destruct (dispatch_pre_established msg info) eqn:E; [by apply (keeps_pre_established msg info)|].
  destruct (_ =? _).
  - apply runs_get. destruct (t_pending_rx t) as [keys|] eqn:Ep; [|by apply (runs_disconnect _ t)].
    unfold in_state in Hst. destruct Hw. unfold keys_wf in *. rewrite Hst in *.
    constructor; [constructor; try done|done|cbn; rewrite Hst; cbn; lia|done|done].
    + destruct wf_keys as (Ht & _ & _ & Hid). by split_and!; [|by eexists|].
    + left; by left.
  - destruct (unexpected_kex_message msg); [by apply (runs_disconnect _ t)|by apply keeps_unimplemented_here].
Qed.

Lemma keeps_then {A B} P (m : M A) (b : B) : keeps P m -> keeps P (m ;; ret b).
Proof. intros Hm t Hw HP. by eapply runs_seq; [exact Hm|by apply evolves_refl|done|..]. Qed.

Lemma keeps_of_simple P m : keeps P m -> keeps P (of_simple m).
Proof.
  intros Hm t Hw HP. eapply runs_seq; [exact Hm|by apply evolves_refl|done|done|]. by intros [] t' H.
Qed.

Lemma keeps_dispatch_established msg info seq :
  stage_of info -> keeps established (dispatch_established msg info seq).
Proof.
  intros Hs t Hw He. pose proof (evolves_refl t Hw) as Hr. unfold dispatch_established. cbv zeta.
  destruct (msg =? 1); [by apply keeps_peer_disconnect|]. destruct (_ || _ || _); [done|].
  destruct (msg =? 5); [by apply (keeps_then established); [apply keeps_service_request|..]|].
  destruct (msg =? _).
  { eapply (runs_seq established); [by apply keeps_userauth_request|done|done|done|]. done. }
  destruct (msg =? _); [by apply (keeps_then always); [apply keeps_global_request|..]|].
  destruct (msg =? _); [by apply (keeps_then established); [apply keeps_channel_open|..]|].
  destruct (msg =? _); [by apply (keeps_of_simple established); [apply keeps_window_adjust|..]|].
  destruct (msg =? _); [by apply (keeps_of_simple established); [apply keeps_channel_eof|..]|].
  destruct (msg =? _); [by apply (keeps_of_simple established); [apply keeps_channel_close|..]|].
  destruct (msg =? _); [by apply (keeps_then established); [apply keeps_channel_request|..]|].
  destruct (msg =? _).
  { eapply (runs_seq established); [by apply keeps_try_channel_data|done|done|done|]. by intros [] t' H. }
  destruct (msg =? _); [by apply (runs_disconnect _ t)|].
  destruct (_ || _ || _); [by apply (runs_disconnect _ t)|].
  by apply (keeps_then always); [apply keeps_unimplemented|..].
Qed.

Lemma stage_lookup t info : wf t -> stage_of info -> exists msg, t_proc t !! payload_start info = Some msg.
Proof.
  intros Hw (_ & _ & H). pose proof (wf_proc _ Hw) as Hp. unfold zlen in Hp. apply lookup_lt_is_Some_2. lia.
Qed.

Lemma keeps_dispatch info seq : stage_of info -> keeps always (dispatch info seq).
Proof.
  intros Hs t Hw _. unfold dispatch. apply runs_get.
  destruct (stage_lookup t info Hw Hs) as [msg E]. eapply runs_lift_bind; [exact E|].
  destruct (t_state t) eqn:Est.
  - by apply evolves_refl.
  - by apply keeps_dispatch_kexinit.
  - by apply keeps_dispatch_kexreply.
  - by apply keeps_dispatch_newkeys.
  - apply keeps_dispatch_established; [done|done|by left].
  - by apply evolves_refl.
Qed.

(** A batch to deliver lies in the payload. *)
Definition delivers (info : FrameInfo) (d : Dispatch) : Prop :=
  match d with DeliverData n => (9 + n <= payload_len info)%nat | _ => True end.

Definition bounded (info : FrameInfo) (m : M Dispatch) : Prop := forall t d t',
  m t = Some (Ok d, t') -> delivers info d.

Lemma bounded_bind {A} info (m : M A) k : (forall a, bounded info (k a)) -> bounded info (bind m k).
Proof.
  intros Hk t d t'. unfold bind. destruct (m t) as [[[a|e] t1]|]; [apply Hk|done|done].
Qed.

Lemma bounded_disconnect info reason text : bounded info (fail_disconnect reason text).
Proof. apply bounded_bind. intros _. by apply bounded_bind. Qed.

Lemma bounded_ret info d : delivers info d -> bounded info (ret d).
Proof. by intros H t d' t' [= <- <-]. Qed.

Lemma bounded_peer_disconnect info info' : bounded info (take_peer_disconnect info').
Proof.
  apply bounded_bind. intros t. apply bounded_bind. intros body. destruct (Reader.u32 _).
  by apply bounded_bind.
Qed.

Ltac bounded :=
  repeat lazymatch goal with
    | |- bounded _ (fail_disconnect _ _) => apply bounded_disconnect
    | |- bounded _ (take_peer_disconnect _) => apply bounded_peer_disconnect
    | |- bounded _ (ret _) => apply bounded_ret; first [exact I | by case_match]
    | |- bounded _ (bind _ _) => apply bounded_bind; intros ?
    | |- bounded _ (match ?x with _ => _ end) => destruct x
    end.

Lemma bounded_pre_established msg info info' m :
  dispatch_pre_established msg info' = Some m -> bounded info m.
Proof.
  unfold dispatch_pre_established.
  repeat (match goal with |- context [match ?x with _ => _ end] => is_var x; destruct x end; try done);
    intros [= <-]; bounded.
Qed.

Lemma bounded_kexinit msg info info' : bounded info (dispatch_kexinit msg info').
Proof.
  unfold dispatch_kexinit. destruct (dispatch_pre_established msg info') eqn:E;
    [by apply (bounded_pre_established msg info info')|]. cbv zeta. unfold unimplemented_here. bounded.
Qed.

Lemma bounded_kexreply msg info info' : bounded info (dispatch_kexreply msg info').
Proof.
  unfold dispatch_kexreply. destruct (dispatch_pre_established msg info') eqn:E;
    [by apply (bounded_pre_established msg info info')|].
  unfold unimplemented_here, handle_ecdh_init, handle_ecdh_reply. cbv zeta. bounded.
Qed.

Lemma bounded_newkeys msg info info' : bounded info (dispatch_newkeys msg info').
Proof.
  unfold dispatch_newkeys. destruct (dispatch_pre_established msg info') eqn:E;
    [by apply (bounded_pre_established msg info info')|]. unfold unimplemented_here. bounded.
Qed.

Lemma disconnect_not_ok {A} reason text t (a : A) t' : fail_disconnect reason text t <> Some (Ok a, t').
Proof.
  unfold fail_disconnect, bind, ignore, modify, fail. destruct (emit_packet _ t) as [[r t1]|]; done.
Qed.

Lemma channel_data_bound start len t n t' :
  wf t -> in_stage start len -> try_channel_data start len t = Some (Ok (OutcomeData n), t') ->
  (9 + n <= len)%nat.
Proof.
  intros Hw Hs. pose proof (length_frame_bytes t start len Hw Hs) as Hl.
  unfold try_channel_data, bind, get. rewrite (proc_range_eq start len t Hw Hs).
  unfold parse_data_header, parse_body.
  destruct (frame_bytes t start len) as [|b body] eqn:Ef; [done|].
  rewrite after_type_some by (cbn; lia). cbn [mbind option_bind lift drop]. rewrite drop_0.
  assert (Hb : is_bytes (b :: body)) by (rewrite <- Ef; by apply is_bytes_frame).
  apply Forall_cons_1 in Hb as [_ Hb].
  destruct (parse read_data_header body) as [[recipient m]|] eqn:E; cbn [ok ret];
    [|intros H; by apply disconnect_not_ok in H].
  destruct (negb _); [by destruct (bool_decide _)|]. destruct (_ || _); [done|].
  destruct (_ <? _)%nat; [intros H; by apply disconnect_not_ok in H|]. intros [= <- _].
  apply parse_inv in E as [r' E]. apply bind_inv in E as (id & r1 & E1 & E).
  apply bind_inv in E as (data & r2 & E2 & E). unfold read_ret in E. injection E as <- <- <-.
  apply u32_inv in E1 as (_ & B1 & P1 & _); [|done].
  apply string_inv in E2 as (_ & _ & B2 & P2 & L2); [|by rewrite B1].
  rewrite B1 in L2. cbn [r_buf r_pos Reader.new length] in *. lia.
Qed.

Lemma dispatch_established_bound msg info seq t d t' :
  wf t -> stage_of info -> dispatch_established msg info seq t = Some (Ok d, t') -> delivers info d.
Proof.
  intros Hw Hs. unfold dispatch_established. cbv zeta.
  destruct (Z.eqb_spec msg SSH_MSG_CHANNEL_DATA) as [->|Hne].
  - cbn [Z.eqb Pos.eqb orb SSH_MSG_CHANNEL_DATA SSH_MSG_USERAUTH_REQUEST SSH_MSG_GLOBAL_REQUEST
      SSH_MSG_CHANNEL_OPEN SSH_MSG_CHANNEL_WINDOW_ADJUST SSH_MSG_CHANNEL_EOF SSH_MSG_CHANNEL_CLOSE
      SSH_MSG_CHANNEL_REQUEST]. unfold bind.
    destruct (try_channel_data _ _ t) as [[[[|n|]|] t1]|] eqn:E; try done; intros [= <- <-]; [done| |done].
    by eapply channel_data_bound.
  - match goal with |- ?m t = _ -> _ => assert (H : bounded info m); [|apply H] end.
    unfold of_simple. bounded.
Qed.

Lemma dispatch_bound info seq t d t' :
  wf t -> stage_of info -> dispatch info seq t = Some (Ok d, t') -> delivers info d.
Proof.
  intros Hw Hs. unfold dispatch, bind at 1, get.
  destruct (stage_lookup t info Hw Hs) as [msg ->]. cbn [lift]. unfold bind at 1, ret at 1.
  destruct (t_state t); [done|apply bounded_kexinit|apply bounded_kexreply|apply bounded_newkeys| |done].
  by apply dispatch_established_bound.
Qed.

(** ** Rounds of [feed] *)

(** The packet at the front of the input, if it is complete and well formed. *)
Definition at_front (t : SshTransport) (msg rest : list Z) : Prop :=
  is_bytes msg /\ frame_ok (is_some (t_rx_keys t)) msg /\
  t_inbuf t = wire_of (t_rx_keys t) (t_rx_seq t) msg ++ rest.

(** The front of the input is a packet without a payload. *)
Definition empty_front (t : SshTransport) : Prop :=
  exists msg rest, at_front t msg rest /\ payload_of msg = [].

Lemma stage_frame t o msg :
  frame_ok o msg -> (payload_of msg = [] -> panics) -> stage_of (frame_of t msg).
Proof.
  intros (Hl & _ & _ & Hp & _) He. unfold stage_of, SshInv.in_stage, frame_of, STAGE_CAP. cbn [payload_start payload_len].
  unfold zlen, MAX_PACKET_LEN in *. split_and!; try lia.
  destruct (decide (length msg - 1 - Z.to_nat (msg !!! 0%nat) = 0)%nat) as [E|E]; [|left; lia].
  right. apply He. unfold payload_of. by rewrite E.
Qed.

Lemma at_front_shrinks t msg rest :
  at_front t msg rest -> (length (t_inbuf (received msg rest t)) < length (t_inbuf t))%nat.
Proof.
  intros (_ & _ & E). cbn. rewrite E, length_app, length_wire_of. unfold overhead. destruct (is_some _); lia.
Qed.

Lemma runs_deliver info d t :
  wf t -> stage_of info -> delivers info d ->
  runs (deliver info d) (fun _ t' => t' = t) t.
Proof.
  intros Hw Hs Hd. destruct d as [| | |n]; try done; cbn [deliver].
  - apply runs_get. destruct (stage_lookup t info Hw Hs) as [msg E]. unfold SshInv.runs, lift. rewrite E.
    unfold bind at 1, ret at 1. unfold bind at 1. by rewrite (proc_range_eq _ _ t Hw Hs).
  - apply runs_bind. cbn [delivers] in Hd. destruct Hs as (_ & Hs & _).
    assert (Hi : index_range (t_proc t) (payload_start info + 9) (payload_start info + 9 + n) <> None).
    { pose proof (wf_proc _ Hw) as Hp. unfold index_range, zlen in *. rewrite !(proj2 (Nat.leb_le _ _)) by lia. done. }
    unfold SshInv.runs, proc_range, bind, get, lift.
    destruct (index_range _ _ _); [done|by destruct Hi].
Qed.

Lemma runs_packet_round t :
  wf t -> (empty_front t -> panics) ->
  runs packet_round (fun r t' => evolves t t' /\
    (r = Ok None -> (length (t_inbuf t') < length (t_inbuf t))%nat)) t.
Proof.
  intros Hw He. apply runs_bind. unfold SshInv.runs at 1.
  destruct (try_packet_cases t Hw) as [(msg & rest & Hm & Hok & E & Et)|[Et|(e & t' & Et & H)]]; rewrite Et.
  2: { split; [by apply evolves_refl|done]. }
  2: done.
  assert (Hf : at_front t msg rest) by done. set (info := frame_of _ msg).
  assert (Hs : stage_of info) by (eapply stage_frame; [done|]; intros Hz; apply He; by exists msg, rest).
  pose proof (at_front_shrinks _ _ _ Hf) as Hlt. pose proof Hok as (Hl & _).
  assert (H1 : evolves t (received msg rest t))
    by (apply evolves_received; try done; unfold STAGE_CAP, MAX_PACKET_LEN, zlen in *; lia).
  apply runs_bind. pose proof (keeps_dispatch info (t_rx_seq t) Hs _ (ev_wf _ _ H1) I) as Hd.
  pose proof (dispatch_bound info (t_rx_seq t) (received msg rest t)) as Hb. unfold SshInv.runs in Hd |- * at 1.
  destruct (dispatch _ _ _) as [[[d|e] t2]|]; [|split; [by eapply evolves_trans|done]|done].
  eapply runs_mono; [apply runs_deliver; [apply Hd|done|by eapply Hb; [apply H1|..]]|].
  intros r t3 ->. split; [by eapply evolves_trans|]. intros _. pose proof (ev_in _ _ Hd). lia.
Qed.

(** A round panics only on a packet without a payload, and a round that goes on
    has taken bytes off the input. *)
Lemma runs_feed_step t :
  wf t -> (empty_front t -> panics) ->
  runs feed_step (fun r t' => evolves t t' /\
    (r = Ok None -> (length (t_inbuf t') < length (t_inbuf t))%nat)) t.
Proof.
  intros Hw He. unfold feed_step. apply runs_get.
  destruct (bool_decide _); [by split; [apply evolves_refl|]|].
  pose proof (runs_packet_round t Hw He) as Hp. destruct (t_state t) eqn:Hs; try exact Hp.
  apply runs_bind. eapply runs_mono; [by apply runs_try_version|].
  intros [[]|e] t' [H1 H2]; split; try done. intros _. by apply H2.
Qed.

End safety.
