(* ===== verification/SshSession.v ===== *)
(** * Sessions over the SSH transport

    [feed] run to its end, the operations a host performs on a transport, and
    what any sequence of them can do to it: the invariant is kept, the state
    only moves forward, and only an accepted verdict authenticates. *)

From S2P Require Import Prelude Words Ed25519.
From S2P Require Import SshWire SshPacket SshKex SshCore SshAuth SshChannel SshTransport SshInv SshSafe.
From stdpp Require Import base list option strings.
From Stdlib Require Import ZArith Lia.

#[local] Open Scope Z_scope.
#[local] Open Scope ssh_scope.

(** ** The loop of [feed] *)

(** One round that goes on leads from [t] to [t']. *)
Definition goes_on (t t' : SshTransport) : Prop := feed_step t = Some (Ok None, t').

(** The transports the loop passes through. *)
Inductive rounds : SshTransport -> SshTransport -> Prop :=
| rounds_here t : rounds t t
| rounds_next t t1 t2 : goes_on t t1 -> rounds t1 t2 -> rounds t t2.

(** The loop from [t] ends with [r]: the unbounded loop of the source. *)
Inductive loop_ends : SshTransport -> result Feed Fail * SshTransport -> Prop :=
| ends_feed t f t' : feed_step t = Some (Ok (Some f), t') -> loop_ends t (Ok f, t')
| ends_fail t e t' : feed_step t = Some (Err e, t') -> loop_ends t (Err e, t')
| ends_later t t1 r : goes_on t t1 -> loop_ends t1 r -> loop_ends t r.

(** The transport with new bytes behind its input. *)
Definition pushed (bytes : list Z) (t : SshTransport) : SshTransport := t <| t_inbuf := t_inbuf t ++ bytes |>.

Lemma wf_pushed bytes t :
  wf t -> is_bytes bytes -> zlen (t_inbuf t) + zlen bytes <= IN_CAP -> wf (pushed bytes t).
Proof.
  intros [] Hb Hl. constructor; try done.
  - cbn. unfold zlen in *. rewrite length_app. lia.
  - by apply is_bytes_app.
Qed.

Lemma push_in_spec bytes t : push_in bytes t =
  Some (if (bool_decide (bytes <> []) && (IN_CAP <? zlen (t_inbuf t) + zlen bytes))%bool
        then (Err OutOfCapacity, t) else (Ok tt, pushed bytes t)).
Proof.
  unfold push_in, bind, get, pushed. destruct bytes as [|b bytes].
  - cbn [length Nat.eqb]. rewrite app_nil_r, bool_decide_false by (intros H; by apply H). by destruct t.
  - cbn [length Nat.eqb]. rewrite bool_decide_true by done. cbn [andb]. by destruct (IN_CAP <? _).
Qed.

(** What an operation other than an accepted verdict does to a transport that
    can also take bytes in. *)
Record advances (t t' : SshTransport) : Prop := {
  ad_wf : wf t';
  ad_role : t_role t' = t_role t;
  ad_state : (rank (t_state t) <= rank (t_state t'))%nat;
  ad_phase : phase (t_auth t') = Authenticated -> phase (t_auth t) = Authenticated
}.

Lemma evolves_advances t t' : evolves t t' -> advances t t'.
Proof. by intros []. Qed.

Lemma goes_on_spec t t' :
  wf t -> goes_on t t' -> evolves t t' /\ (length (t_inbuf t') < length (t_inbuf t))%nat.
Proof.
  intros Hw E. pose proof (runs_feed_step (panics := True) t Hw) as H. unfold runs in H.
  rewrite E in H. split; [by apply H|]. by apply H.
Qed.

(** A round panics only on a packet without a payload. *)
Lemma feed_step_none t : wf t -> feed_step t = None -> empty_front t.
Proof.
  intros Hw E. pose proof (runs_feed_step (panics := empty_front t) t Hw id) as H. unfold runs in H.
  by rewrite E in H.
Qed.

(** The loop comes to an end or to a panic. *)
Lemma loop_result t : wf t ->
  (exists r t', loop_ends t (r, t') /\ evolves t t') \/ (exists t', rounds t t' /\ wf t' /\ feed_step t' = None).
Proof.
  remember (length (t_inbuf t)) as n eqn:En. revert t En.
  induction (lt_wf n) as [n _ IH]. intros t -> Hw.
  pose proof (runs_feed_step (panics := True) t Hw (fun _ => I)) as H. unfold runs in H.
  destruct (feed_step t) as [[[[f|]|e] t1]|] eqn:E.
  - left. exists (Ok f), t1. split; [by constructor|apply H].
  - destruct (goes_on_spec t t1 Hw E) as [He Hl].
    destruct (IH _ Hl t1 eq_refl (ev_wf _ _ He)) as [(r & t' & Hr & Ht)|(t' & Hr & Ht)]; [left|right].
    + exists r, t'. split; [by econstructor|by eapply evolves_trans].
    + exists t'. split; [by econstructor|done].
  - left. exists (Err e), t1. split; [by constructor|apply H].
  - right. exists t. split; [constructor|done].
Qed.

(** A fuel above the length of the input is enough. *)
Lemma feed_loop_ends fuel t r :
  loop_ends t r -> wf t -> (length (t_inbuf t) < fuel)%nat -> feed_loop fuel t = Some r.
Proof.
  intros Hr. revert fuel. induction Hr as [t f t' E|t e t' E|t t1 r E Hr IH]; intros [|fuel] Hw Hl;
    try lia; cbn [feed_loop]; unfold bind; rewrite E; try done.
  destruct (goes_on_spec t t1 Hw E). apply IH; [by eapply ev_wf|lia].
Qed.

Lemma feed_loop_panics fuel t t' :
  rounds t t' -> feed_step t' = None -> wf t -> (length (t_inbuf t) < fuel)%nat -> feed_loop fuel t = None.
Proof.
  intros Hr E'. revert fuel. induction Hr as [t|t t1 t2 E Hr IH]; intros [|fuel] Hw Hl;
    try lia; cbn [feed_loop]; unfold bind; [by rewrite E'|]. rewrite E.
  destruct (goes_on_spec t t1 Hw E). apply IH; [done|by eapply ev_wf|lia].
Qed.

(** The input has room for [bytes] on an open connection. *)
Definition takes_in (bytes : list Z) (t : SshTransport) : Prop :=
  t_state t <> Closed /\ zlen (t_inbuf t) + zlen bytes <= IN_CAP.

Lemma feed_eq bytes t : wf t -> takes_in bytes t ->
  feed bytes t = feed_loop (S (length (t_inbuf (pushed bytes t)))) (pushed bytes t).
Proof.
  intros Hw [Hs Hl]. unfold feed, bind at 1, get. rewrite bool_decide_false by done.
  unfold bind. rewrite push_in_spec, (proj2 (Z.ltb_ge _ _)), andb_false_r by done. done.
Qed.

Lemma feed_refused bytes t : wf t -> ~ takes_in bytes t -> exists e, feed bytes t = Some (Err e, t).
Proof.
  intros Hw Hn. unfold feed, bind at 1, get. case_bool_decide as Hs; [by eexists|].
  unfold bind. rewrite push_in_spec. destruct (_ && _) eqn:Ec; [by eexists|]. exfalso. apply Hn. split; [done|].
  apply andb_false_iff in Ec as [Ec|Ec]; [|by apply Z.ltb_ge in Ec].
  apply bool_decide_eq_false in Ec. pose proof (wf_in _ Hw).
  destruct bytes; [unfold zlen in *; cbn [length]; lia|by destruct Ec].
Qed.

Lemma feed_ends bytes t r : wf t -> is_bytes bytes -> takes_in bytes t ->
  loop_ends (pushed bytes t) r -> feed bytes t = Some r.
Proof.
  intros Hw Hb Ht Hr. rewrite feed_eq by done. apply feed_loop_ends; [done|apply wf_pushed; [done..|apply Ht]|lia].
Qed.

(** What [feed] comes to. *)
Lemma feed_result bytes t : wf t -> is_bytes bytes -> takes_in bytes t ->
  (exists r t', loop_ends (pushed bytes t) (r, t') /\ advances t t' /\ feed bytes t = Some (r, t')) \/
  (exists t', rounds (pushed bytes t) t' /\ empty_front t' /\ feed bytes t = None).
Proof.
  intros Hw Hb Ht. assert (Hp : wf (pushed bytes t)) by (apply wf_pushed; [done..|apply Ht]).
  destruct (loop_result _ Hp) as [(r & t' & Hr & [])|(t' & Hr & Hw' & E)]; [left|right].
  - exists r, t'. split_and!; [done|by constructor|by apply feed_ends].
  - exists t'. split_and!; [done|by apply feed_step_none|]. rewrite feed_eq by done.
    eapply feed_loop_panics; [done..|lia].
Qed.

Lemma feed_advances bytes t r t' : wf t -> is_bytes bytes -> feed bytes t = Some (r, t') -> advances t t'.
Proof.
  intros Hw Hb E. destruct (decide (t_state t <> Closed /\ zlen (t_inbuf t) + zlen bytes <= IN_CAP)) as [Ht|Ht].
  - by destruct (feed_result bytes t Hw Hb Ht) as [(r1 & t1 & _ & Ha & E1)|(t1 & _ & _ & E1)]; simplify_eq.
  - destruct (feed_refused bytes t Hw Ht) as [e E1]. simplify_eq. by apply evolves_advances, evolves_refl.
Qed.

(** ** The host's operations *)

Inductive Op : Type :=
| Feeds (bytes : list Z)
| SendsPayload (payload : list Z)
| Verdict (accepted : bool)
| Acks (n : nat)
| SendsData (data : list Z)
| SendsEof
| SendsClose
| Drains (n : nat).

Definition after {A : Type} (m : M A) (t : SshTransport) : option SshTransport := snd <$> m t.

(** The transport after an operation, whatever it returned; [None] is a panic. *)
Definition perform (op : Op) (t : SshTransport) : option SshTransport :=
  match op with
  | Feeds bytes => after (feed bytes) t
  | SendsPayload payload => after (send_payload payload) t
  | Verdict accepted => after (auth_verdict accepted) t
  | Acks n => after (ack_channel_data n) t
  | SendsData data => after (send_channel_data data) t
  | SendsEof => after send_channel_eof t
  | SendsClose => after send_channel_close t
  | Drains n => Some (consume_output n t)
  end.

Fixpoint run_session (ops : list Op) (t : SshTransport) : option SshTransport :=
  match ops with
  | [] => Some t
  | op :: ops => perform op t ≫= run_session ops
  end.

(** What crosses the interface are bytes. *)
Definition op_ok (op : Op) : Prop :=
  match op with
  | Feeds l | SendsPayload l | SendsData l => is_bytes l
  | _ => True
  end.

Section operations.

Context {panics : Prop}.

#[local] Abbreviation keeps := (keeps (panics := panics)).
#[local] Abbreviation runs := (runs (panics := panics)).

Lemma open_established t : wf t -> chan_open (t_chan t) = true -> established t.
Proof. intros Hw Ho. destruct (wf_early _ Hw) as [H|[_ H]]; [done|congruence]. Qed.

Lemma pending_established t : wf t -> phase (t_auth t) = Pending -> established t.
Proof. intros Hw Ho. destruct (wf_early _ Hw) as [H|[H _]]; [done|congruence]. Qed.

Lemma keeps_send_payload payload : is_bytes payload -> keeps always (send_payload payload).
Proof.
  intros Hb t Hw _. pose proof (evolves_refl t Hw) as Hr. unfold send_payload. apply runs_get.
  destruct (bool_decide _); [done|]. destruct (_ || _); [done|].
  destruct (Z.ltb_spec MAX_PAYLOAD_LEN (zlen payload)); [done|]. by apply keeps_emit.
Qed.

Lemma keeps_ack n : keeps always (ack_channel_data n).
Proof.
  intros t Hw _. unfold ack_channel_data. apply runs_get. cbv zeta.
  destruct (_ || _); [by apply evolves_refl|].
  apply runs_to_channel; [by apply evolves_refl|by cbv|apply is_bytes_to_be|]. rewrite length_to_be_bytes. lia.
Qed.

(** The channel's flag is raised, then its message sent. *)
Lemma keeps_final (flag : ChannelState -> ChannelState) (sent : ChannelState -> bool) code :
  (forall c, chan_wf c -> chan_wf (flag c)) -> is_word 8 code ->
  keeps always (t <-! get;
    if negb (chan_open (t_chan t)) || sent (t_chan t) then ret tt
    else modify (on_chan flag) ;; emit_packet (to_channel code (chan_remote_id (t_chan t)))).
Proof.
  intros Hf Hc t Hw _. apply runs_get. destruct (chan_open (t_chan t)) eqn:Ho; [|by apply evolves_refl].
  destruct (negb true || _); [by apply evolves_refl|]. apply runs_modify.
  apply (runs_keeps always); [by apply keeps_to_channel| |done].
  apply evolves_chan; [done|by apply open_established|apply Hf, Hw].
Qed.

Lemma keeps_send_eof : keeps always send_channel_eof.
Proof. apply keeps_final; [by intros c []|by cbv]. Qed.

Lemma keeps_send_close : keeps always send_channel_close.
Proof. apply keeps_final; [by intros c []|by cbv]. Qed.

(** The channel with more bytes to send. *)
Definition queued (data : list Z) (c : ChannelState) : ChannelState :=
  c <| chan_pending_out := chan_pending_out c ++
    take (Nat.min (length data) (PENDING_OUT_CAP - length (chan_pending_out c))) data |>.

Lemma queued_wf data c : is_bytes data -> chan_wf c -> chan_wf (queued data c).
Proof.
  intros Hd [H1 H2 H3 H4]. constructor; cbn -[PENDING_OUT_CAP Nat.sub]; [done|done| |].
  - apply is_bytes_app. split; [done|by apply Forall_take].
  - rewrite length_app, length_take. lia.
Qed.

Lemma keeps_send_data data : is_bytes data -> keeps always (send_channel_data data).
Proof.
  intros Hd t Hw _. unfold send_channel_data. apply runs_get.
  destruct (chan_open (t_chan t)) eqn:Ho; [|by apply evolves_refl].
  destruct (negb true || _); [by apply evolves_refl|]. apply runs_modify.
  pose proof (open_established t Hw Ho) as He.
  assert (Hq : evolves t (on_chan (queued data) t)) by (apply evolves_chan; [done|done|by apply queued_wf, Hw]).
  eapply (runs_seq established); [apply keeps_flush|exact Hq|done|done|done].
Qed.

Lemma evolves_drain n t : wf t -> evolves t (consume_output n t).
Proof.
  intros []. constructor; try done. constructor; try done; cbn; [|by apply is_bytes_drop].
  unfold zlen in *. rewrite length_drop. lia.
Qed.

(** ** The verdict *)

Lemma auth_wf_verdict a n :
  auth_wf a -> auth_wf (AuthState.set_fails n (AuthState.zero_credentials a)).
Proof. intros []. constructor; cbn; rewrite ?length_replicate; done || lia. Qed.

(** The transport a verdict works on: the credentials gone, the count updated. *)
Definition judged (n : Z) (t : SshTransport) : SshTransport :=
  t <| t_auth := AuthState.set_fails n (AuthState.zero_credentials (t_auth t)) |>.

Lemma evolves_judged n t : wf t -> phase (t_auth t) = Pending -> evolves t (judged n t).
Proof.
  intros Hw Hp. apply evolves_auth; [done|by apply pending_established|apply auth_wf_verdict, Hw|done].
Qed.

(** A refused attempt: the count goes up, and the third one closes the connection. *)
Definition refused (t : SshTransport) : M unit :=
  if MAX_AUTH_FAILURES <=? Z.min (fails (t_auth t) + 1) 255
  then fail_disconnect ByApplication "too many authentication failures"
  else modify (SshAuth.set_phase ServiceAccepted) ;; reply_auth_failure.

Lemma verdict_false_eq t :
  phase (t_auth t) = Pending ->
  auth_verdict false t = refused t (judged (Z.min (fails (t_auth t) + 1) 255) t).
Proof.
  intros Hp. unfold auth_verdict, bind at 1, get. by rewrite bool_decide_true by done.
Qed.

Lemma keeps_refused t : phase (t_auth t) = Pending -> wf t -> runs (auth_verdict false) (fun _ t' => evolves t t') t.
Proof.
  intros Hp Hw. unfold SshInv.runs. rewrite verdict_false_eq by done.
  pose proof (evolves_judged (Z.min (fails (t_auth t) + 1) 255) t Hw Hp) as Hj.
  set (t1 := judged _ t) in *. change (runs (refused t) (fun _ t' => evolves t t') t1).
  unfold refused. destruct (_ <=? _); [by apply (runs_disconnect _ t)|]. apply runs_modify.
  apply (runs_keeps always); [apply keeps_auth_failure| |done].
  eapply evolves_trans; [exact Hj|]. apply evolves_auth; [apply Hj| |apply set_phase_wf, Hj|done].
  by apply (pending_established t).
Qed.

(** What a verdict may do. *)
Record decided (accepted : bool) (t t' : SshTransport) : Prop := {
  de_wf : wf t';
  de_role : t_role t' = t_role t;
  de_state : (rank (t_state t) <= rank (t_state t'))%nat;
  de_phase : phase (t_auth t') = Authenticated ->
    phase (t_auth t) = Authenticated \/ accepted = true /\ phase (t_auth t) = Pending
}.

Lemma runs_verdict accepted t : wf t -> runs (auth_verdict accepted) (fun _ t' => decided accepted t t') t.
Proof.
  intros Hw. destruct (decide (phase (t_auth t) = Pending)) as [Hp|Hp].
  2: { unfold auth_verdict. apply runs_get. rewrite bool_decide_false by done. constructor; auto. }
  destruct accepted.
  - unfold auth_verdict. apply runs_get. rewrite bool_decide_true by done.
    apply runs_modify, runs_modify. set (t1 := set _ _ (set _ _ t)).
    assert (H1 : wf t1).
    { pose proof (pending_established t Hw Hp) as He. pose proof (auth_wf_verdict (t_auth t) 0 (wf_auth _ Hw)) as Ha.
      destruct Hw. constructor; try done; [by apply set_phase_wf|by left]. }
    eapply runs_mono; [apply keeps_emit; [by repeat constructor|by cbv|exact H1|done]|].
    intros r t' []. constructor; try done. auto.
  - eapply runs_mono; [by apply keeps_refused|]. intros r t' []. constructor; auto.
Qed.

End operations.

(** ** Sessions *)

(** An accepted verdict on a waiting attempt. *)
Definition accepts (op : Op) (t : SshTransport) : Prop :=
  op = Verdict true /\ phase (t_auth t) = Pending.

Lemma after_runs {A} (m : M A) (Q : SshTransport -> Prop) t t' :
  runs (panics := True) m (fun _ t' => Q t') t -> after m t = Some t' -> Q t'.
Proof. unfold runs, after. destruct (m t) as [[r t1]|]; [|done]. by intros H [= <-]. Qed.

Lemma after_keeps {A} (m : M A) t t' :
  keeps (panics := True) always m -> wf t -> after m t = Some t' -> advances t t'.
Proof. intros Hm Hw. apply after_runs. eapply runs_mono; [by apply Hm|]. intros r t1. apply evolves_advances. Qed.

Lemma perform_step op t t' :
  wf t -> op_ok op -> perform op t = Some t' ->
  wf t' /\ t_role t' = t_role t /\ (rank (t_state t) <= rank (t_state t'))%nat /\
  (phase (t_auth t') = Authenticated -> phase (t_auth t) = Authenticated \/ accepts op t).
Proof.
  intros Hw Hop E.
  assert (Ha : advances t t' \/ exists b, op = Verdict b /\ decided b t t').
  { destruct op as [bytes|p|b|n|data| | |n]; cbn [perform op_ok] in *.
    - left. unfold after in E. destruct (feed bytes t) as [[r t1]|] eqn:Ef; [|done]. injection E as <-.
      by eapply feed_advances.
    - left. by apply (after_keeps _ _ _ (keeps_send_payload p Hop)).
    - right. exists b. split; [done|]. revert E. apply after_runs. by apply runs_verdict.
    - left. by apply (after_keeps _ _ _ (keeps_ack n)).
    - left. by apply (after_keeps _ _ _ (keeps_send_data data Hop)).
    - left. by apply (after_keeps _ _ _ keeps_send_eof).
    - left. by apply (after_keeps _ _ _ keeps_send_close).
    - left. injection E as <-. by apply evolves_advances, evolves_drain. }
  destruct Ha as [[]|(b & -> & [])]; split_and!; auto.
  intros H. destruct (de_phase0 H) as [|[-> Hp]]; [by left|by right].
Qed.

Lemma run_session_app ops1 ops2 t : run_session (ops1 ++ ops2) t = run_session ops1 t ≫= run_session ops2.
Proof. revert t. induction ops1 as [|op ops1 IH]; intros t; [done|]. cbn. by destruct (perform op t); cbn. Qed.

Lemma run_session_invariant ops t t' :
  wf t -> Forall op_ok ops -> run_session ops t = Some t' ->
  wf t' /\ t_role t' = t_role t /\ (rank (t_state t) <= rank (t_state t'))%nat /\
  (phase (t_auth t') = Authenticated -> phase (t_auth t) = Authenticated \/
    exists before rest t1, ops = before ++ Verdict true :: rest /\ run_session before t = Some t1 /\
      phase (t_auth t1) = Pending).
Proof.
  revert t. induction ops as [|op ops IH]; intros t Hw Hops E.
  { injection E as <-. split_and!; auto. }
  cbn [run_session] in E. destruct (perform op t) as [t1|] eqn:E1; [|done]. cbn in E.
  inversion_clear Hops. destruct (perform_step op t t1) as (Hw1 & Hr1 & Hs1 & Hp1); try done.
  destruct (IH t1) as (Hw2 & Hr2 & Hs2 & Hp2); try done. split_and!; [done|congruence|lia|].
  intros Hp. destruct (Hp2 Hp) as [H'|(before & rest & t2 & -> & Hb & Ht2)].
  - destruct (Hp1 H') as [|[-> Hpend]]; [by left|]. right. by exists [], ops, t.
  - right. exists (op :: before), rest, t2. split_and!; [done| |done]. cbn. by rewrite E1.
Qed.

(** ** Construction *)

(** The seeds and the cookie the host draws. *)
Record seeds_ok (host_seed x25519_seed cookie : list Z) : Prop := {
  so_host : length host_seed = 32%nat /\ is_bytes host_seed;
  so_x25519 : length x25519_seed = 32%nat /\ is_bytes x25519_seed;
  so_cookie : length cookie = 16%nat /\ is_bytes cookie
}.

(** A transport at the start of a connection. *)
Definition initial (role : Role) (t : SshTransport) : Prop :=
  wf t /\ t_role t = role /\ t_auth t = AuthState.new /\ t_chan t = ChannelState.new /\
  t_state t = VersionExchange.

Lemma is_bytes_zeros n : is_bytes (replicate n 0).
Proof. apply Forall_replicate. by cbv. Qed.

Lemma auth_new_wf : auth_wf AuthState.new.
Proof. constructor; cbn; rewrite ?length_replicate; done || lia. Qed.

Lemma chan_new_wf : chan_wf ChannelState.new.
Proof. constructor; cbn; [by cbv|by cbv|constructor|unfold PENDING_OUT_CAP; lia]. Qed.

Lemma is_bytes_banner : is_bytes SERVER_BANNER.
Proof. apply is_bytes_app. split; [apply is_bytes_of|by repeat constructor]. Qed.

(** The transport of either role with its banner queued. *)
Definition greeting (role : Role) (host_seed x25519_seed cookie : list Z) : SshTransport :=
  {| t_role := role; t_state := VersionExchange; t_out := SERVER_BANNER; t_inbuf := []; t_proc := t_proc placeholder;
     t_host_seed := host_seed; t_host_pub := ed_public host_seed; t_x25519_seed := x25519_seed;
     t_cookie := cookie; t_peer_ident := []; t_my_kexinit := []; t_peer_kexinit := [];
     t_negotiated := None; t_e_client := replicate 32 0; t_f_server := replicate 32 0;
     t_k_mpint := []; t_exchange_h := replicate 32 0; t_session_id := None;
     t_tx_keys := None; t_rx_keys := None; t_pending_rx := None; t_rx_seq := 0; t_tx_seq := 0;
     t_peer_desc := []; t_peer_reason := None;
     t_auth := AuthState.new; t_chan := ChannelState.new |}.

Lemma setup_greeting role host_seed x25519_seed cookie :
  (setup role host_seed x25519_seed cookie ;; ignore (emit_raw SERVER_BANNER)) placeholder =
    Some (Ok tt, greeting role host_seed x25519_seed cookie).
Proof. unfold setup, bind. rewrite public_key_ok. reflexivity. Qed.

Lemma greeting_initial role host_seed x25519_seed cookie :
  seeds_ok host_seed x25519_seed cookie -> initial role (greeting role host_seed x25519_seed cookie).
Proof.
  intros [[] [] []]. split; [|done].
  constructor; cbn [t_role t_state t_out t_inbuf t_proc t_host_seed t_host_pub t_x25519_seed t_cookie
    t_peer_ident t_my_kexinit t_peer_kexinit t_negotiated t_auth t_chan placeholder greeting]; try assumption;
    try (by constructor); try (unfold zlen; cbn [length]; by (done || lia)).
  - apply is_bytes_zeros.
  - apply is_bytes_banner.
  - apply length_ed_encode.
  - apply is_bytes_ed_encode.
  - apply auth_new_wf.
  - apply chan_new_wf.
Qed.

Lemma server_eq host_seed x25519_seed cookie :
  server host_seed x25519_seed cookie = Some (greeting Server host_seed x25519_seed cookie).
Proof. unfold server, constructed. by rewrite setup_greeting. Qed.

Lemma server_initial host_seed x25519_seed cookie :
  seeds_ok host_seed x25519_seed cookie ->
  exists t, server host_seed x25519_seed cookie = Some t /\ initial Server t /\ pending_output t = SERVER_BANNER.
Proof. intros H. eexists. split_and!; [apply server_eq|by apply greeting_initial|done]. Qed.

(** The client's key exchange offer. *)
Definition offer (cookie : list Z) : list Z := kexinit cookie offered 0.

Lemma offer_ok cookie : length cookie = 16%nat -> is_bytes cookie ->
  is_bytes (offer cookie) /\ zlen (offer cookie) <= MAX_PAYLOAD_LEN /\ zlen (offer cookie) <= KEXINIT_CAP.
Proof.
  intros Hl Hb. split_and!.
  - unfold offer, kexinit. apply is_bytes_app. split; [by apply is_bytes_check|].
    apply is_bytes_app. split; [done|]. by apply is_bytes_check.
  - unfold zlen, offer. by rewrite length_offered.
  - unfold zlen, offer. by rewrite length_offered.
Qed.

Lemma emit_my_kexinit_eq t : wf t ->
  emit_my_kexinit t =
    let t1 := t <| t_my_kexinit := offer (t_cookie t) |> in
    Some (if fits t (offer (t_cookie t)) then (Ok tt, after_emit (offer (t_cookie t)) t1)
          else (Err OutOfCapacity, t1)).
Proof.
  intros Hw. destruct (offer_ok (t_cookie t)) as (Hb & Hl & _); [apply Hw|apply Hw|].
  unfold emit_my_kexinit, bind at 1, get. rewrite build_kexinit_ok by (apply Hw || lia).
  cbv zeta. unfold lift, or_fail, bind, ret, modify. fold (offer (t_cookie t)).
  rewrite emit_packet_spec by done. done.
Qed.

Lemma bind_assoc_at {A B C} (m : M A) (f : A -> M B) (g : B -> M C) t :
  bind m (fun a => bind (f a) g) t = bind (bind m f) g t.
Proof. unfold bind. by destruct (m t) as [[[]]|]. Qed.

Lemma client_eq x25519_seed cookie :
  seeds_ok (replicate 32 0) x25519_seed cookie ->
  let t := greeting Client (replicate 32 0) x25519_seed cookie in
  client x25519_seed cookie = Some (after_emit (offer cookie) (t <| t_my_kexinit := offer cookie |>)).
Proof.
  intros Hs. cbv zeta. pose proof (greeting_initial Client _ _ _ Hs) as (Hw & _).
  assert (Hf : fits (greeting Client (replicate 32 0) x25519_seed cookie) (offer cookie) = true).
  { unfold fits. apply Z.leb_le. unfold zlen at 2. cbn [packet_wire greeting t_tx_keys].
    destruct Hs as [_ _ [Hcl Hcb]]. destruct (offer_ok cookie Hcl Hcb) as (_ & Hl & _).
    destruct (packet_msg_ok None (offer cookie) Hl) as (_ & _ & Hm & _). rewrite length_plain.
    unfold offer in *. rewrite length_offered in Hm by done. unfold OUT_CAP.
    change (zlen (t_out (greeting Client (replicate 32 0) x25519_seed cookie))) with 25. lia. }
  unfold client, constructed.
  rewrite (bind_assoc_at (setup Client _ _ _) (fun _ => ignore (emit_raw SERVER_BANNER)) (fun _ => ignore emit_my_kexinit)).
  unfold bind at 1.
  rewrite setup_greeting. unfold ignore. rewrite emit_my_kexinit_eq by done. cbv zeta.
  change (t_cookie (greeting Client (replicate 32 0) x25519_seed cookie)) with cookie. by rewrite Hf.
Qed.

(** ** An established transport *)

(** A transport past its key exchange, with the same keys in both directions. *)
Definition resting (role : Role) (keys : CipherKeys) (chan : ChannelState) : SshTransport :=
  placeholder <| t_role := role |> <| t_state := Established |> <| t_tx_keys := Some keys |>
    <| t_rx_keys := Some keys |> <| t_session_id := Some [] |> <| t_chan := chan |>.

Lemma wf_resting role keys chan : chan_wf chan -> wf (resting role keys chan).
Proof.
  intros Hc. constructor; cbn -[replicate Z.to_nat STAGE_CAP IN_CAP OUT_CAP KEXINIT_CAP zlen];
    try (rewrite length_replicate; done); try apply is_bytes_zeros; try (by constructor); try done.
  - lia.
  - apply auth_new_wf.
  - by left; left.
Qed.
