(* ===== verification/SshDeliver.v ===== *)
(** * Packets through the transport

    What [feed] does with one packet on a connection past the version exchange,
    as an equation: the payload reaches the handler of the connection's state.
    From it, what a peer can do with each message. *)

From S2P Require Import Prelude Words SshWire SshPacket SshKex SshCore SshAuth SshChannel SshTransport SshInv.
From S2P Require Import SshSafe SshSession.
From stdpp Require Import base list option strings.
From Stdlib Require Import ZArith Lia.

#[local] Open Scope Z_scope.
#[local] Open Scope ssh_scope.

(** A round that takes a packet. *)
Lemma feed_step_packet t msg rest :
  wf t -> t_state t <> VersionExchange -> phase (t_auth t) <> Pending -> at_front t msg rest ->
  let info := frame_of (overhead (t_rx_keys t)) msg in
  feed_step t = (d <-! dispatch info (t_rx_seq t); deliver info d) (received msg rest t).
Proof.
  intros Hw Hs Hp (Hm & Hok & Hi). cbv zeta. unfold feed_step, bind at 1, get.
  rewrite bool_decide_false by done.
  pose proof (try_packet_complete t msg rest Hw Hm Hok Hi) as E.
  assert (Hr : packet_round t = (d <-! dispatch (frame_of (overhead (t_rx_keys t)) msg) (t_rx_seq t);
    deliver (frame_of (overhead (t_rx_keys t)) msg) d) (received msg rest t))
    by (unfold packet_round, bind at 1; by rewrite E).
  by destruct (t_state t).
Qed.

(** Nothing is left to take. *)
Lemma feed_step_idle t : wf t -> t_inbuf t = [] -> feed_step t = Some (Ok (Some Progress), t).
Proof.
  intros Hw Hi. unfold feed_step, bind at 1, get. case_bool_decide; [done|].
  assert (E : try_packet t = Some (Ok None, t)).
  { unfold try_packet, bind at 1, get. cbv zeta. rewrite Hi.
    replace (match t_rx_keys t with None => decode_plain [] (t_proc t)
      | Some keys => decode_aead [] (t_proc t) keys (t_rx_seq t) end)
      with (Some (Ok None, t_proc t) : option Decoded) by (by destruct (t_rx_keys t)).
    unfold bind, lift, ret, modify. cbn [fst snd]. by rewrite set_proc_same. }
  assert (Hr : packet_round t = Some (Ok (Some Progress), t)) by (unfold packet_round, bind at 1; by rewrite E).
  destruct (t_state t); try done. unfold bind, try_version, bind, get.
  destruct (t_role t); [unfold try_version_server|unfold try_version_client]; unfold bind, get; by rewrite Hi.
Qed.

(** ** A payload *)

(** The packet of a payload, taken off the input. *)
Definition arrived (p : list Z) (rest : list Z) (t : SshTransport) : SshTransport :=
  received (packet_msg (t_rx_keys t) p) rest t.

Definition info_of (p : list Z) (t : SshTransport) : FrameInfo :=
  frame_of (overhead (t_rx_keys t)) (packet_msg (t_rx_keys t) p).

(** A payload a peer can send. *)
Definition sendable (p : list Z) : Prop := is_bytes p /\ 0 < zlen p <= MAX_PAYLOAD_LEN.

Lemma wire_of_packet keys seqno p : wire_of keys seqno (packet_msg keys p) = packet_wire keys seqno p.
Proof. by destruct keys. Qed.

Lemma is_bytes_packet_msg keys p : is_bytes p -> is_bytes (packet_msg keys p).
Proof. apply is_bytes_padded. Qed.

Lemma info_start p t : payload_start (info_of p t) = 1%nat.
Proof. done. Qed.

Lemma info_len p t : sendable p -> payload_len (info_of p t) = length p.
Proof.
  intros [_ Hl]. destruct (packet_msg_ok (t_rx_keys t) p) as (Hok & Hp & _); [lia|].
  apply (f_equal length) in Hp. unfold payload_of in Hp. unfold info_of, frame_of. cbn [payload_len].
  rewrite length_take, length_drop in Hp. lia.
Qed.

Lemma arrived_front p rest t :
  sendable p -> t_inbuf t = packet_wire (t_rx_keys t) (t_rx_seq t) p ++ rest ->
  at_front t (packet_msg (t_rx_keys t) p) rest.
Proof.
  intros [Hb Hl] Hi. destruct (packet_msg_ok (t_rx_keys t) p) as (Hok & _); [lia|].
  split_and!; [by apply is_bytes_packet_msg|done|]. by rewrite wire_of_packet.
Qed.

Lemma evolves_arrived p rest t :
  wf t -> sendable p -> t_inbuf t = packet_wire (t_rx_keys t) (t_rx_seq t) p ++ rest -> evolves t (arrived p rest t).
Proof.
  intros Hw Hp Hi. destruct (arrived_front p rest t Hp Hi) as (Hb & Hok & E). destruct Hok as (Hl & _).
  apply evolves_received; try done. unfold STAGE_CAP. lia.
Qed.

(** The staging buffer holds the payload behind the padding length. *)
Lemma frame_arrived p rest t :
  sendable p -> frame_bytes (arrived p rest t) 1 (length p) = p.
Proof.
  intros [Hb Hl]. destruct (packet_msg_ok (t_rx_keys t) p) as (_ & Hp & Hr & _); [lia|].
  set (msg := packet_msg (t_rx_keys t) p) in *.
  change (take (length p) (drop 1 (msg ++ drop (length msg) (t_proc t))) = p).
  rewrite drop_app_le, take_app_le by (rewrite ?length_drop; lia).
  pose proof (f_equal length Hp) as Hlen. unfold payload_of in Hp, Hlen. rewrite length_take, length_drop in Hlen.
  rewrite <- Hp at 2. f_equal. lia.
Qed.

Lemma in_stage_arrived p : sendable p -> in_stage (panics := False) 1 (length p).
Proof. intros [_ Hl]. unfold zlen, MAX_PAYLOAD_LEN in Hl. split_and!; [left; lia|unfold STAGE_CAP, MAX_PACKET_LEN; lia|done]. Qed.

Lemma proc_range_arrived p rest t :
  wf (arrived p rest t) -> sendable p ->
  proc_range 1 (length p) (arrived p rest t) = Some (Ok p, arrived p rest t).
Proof.
  intros Hw Hp. rewrite (proc_range_eq (panics := False)) by (done || by apply in_stage_arrived).
  by rewrite frame_arrived.
Qed.

Lemma index_arrived p rest t k n :
  wf (arrived p rest t) -> sendable p -> (k + n <= length p)%nat ->
  index_range (t_proc (arrived p rest t)) (1 + k) (1 + k + n) = Some (take n (drop k p)).
Proof.
  intros Hw Hp Hk. pose proof (frame_arrived p rest t Hp) as Hf. pose proof (in_stage_arrived p Hp) as (H1 & H2 & _).
  pose proof (wf_proc _ Hw) as Hz. unfold zlen in Hz. rewrite index_range_some by lia. f_equal.
  transitivity (take n (drop k (frame_bytes (arrived p rest t) 1 (length p)))); [|by rewrite Hf].
  unfold frame_bytes. rewrite skipn_firstn_comm, drop_drop, take_take. f_equal. lia.
Qed.

Lemma lookup_arrived c body rest t :
  sendable (c :: body) -> t_proc (arrived (c :: body) rest t) !! 1%nat = Some c.
Proof.
  intros Hp. pose proof (frame_arrived (c :: body) rest t Hp) as H.
  apply (f_equal (fun l => l !! 0%nat)) in H. unfold frame_bytes in H. cbn [length] in H.
  by rewrite lookup_take_lt, lookup_drop in H by lia.
Qed.

(** A payload reaches the handlers of the connection's state. *)
Lemma dispatch_arrived c body rest t seq :
  sendable (c :: body) ->
  let p := c :: body in
  dispatch (info_of p t) seq (arrived p rest t) =
    match t_state t with
    | KexInit => dispatch_kexinit c (info_of p t)
    | KexReply => dispatch_kexreply c (info_of p t)
    | NewKeys => dispatch_newkeys c (info_of p t)
    | Established => dispatch_established c (info_of p t) seq
    | _ => fail FailClosed
    end (arrived p rest t).
Proof.
  intros Hp. cbv zeta. unfold dispatch, bind at 1, get. rewrite info_start, lookup_arrived by done.
  unfold bind, lift, ret. done.
Qed.

(** ** [feed] on one packet *)

(** The connection waits for a packet with an empty input. *)
Record ready (t : SshTransport) : Prop := {
  rd_wf : wf t;
  rd_state : t_state t <> VersionExchange /\ t_state t <> Closed;
  rd_phase : phase (t_auth t) <> Pending;
  rd_input : t_inbuf t = []
}.

Definition rx_wire (p : list Z) (t : SshTransport) : list Z := packet_wire (t_rx_keys t) (t_rx_seq t) p.

Lemma rx_wire_fits p t : ready t -> sendable p -> takes_in (rx_wire p t) t /\ is_bytes (rx_wire p t).
Proof.
  intros [] [Hb Hl]. split; [|by apply is_bytes_packet_wire]. split; [apply rd_state0|].
  destruct (packet_msg_ok (t_rx_keys t) p) as (_ & _ & Hr & _); [lia|].
  rewrite rd_input0. unfold rx_wire. rewrite <- wire_of_packet. unfold zlen in *.
  rewrite length_wire_of. unfold overhead, IN_CAP, MAX_WIRE_LEN, MAX_PAYLOAD_LEN, MAX_PACKET_LEN in *. cbn [length].
  destruct (is_some _); lia.
Qed.

Lemma arrived_pushed p bytes t : arrived p [] (pushed bytes t) = arrived p [] t.
Proof. done. Qed.

Lemma wf_arrived p t : ready t -> sendable p -> evolves (pushed (rx_wire p t) t) (arrived p [] t).
Proof.
  intros Hr Hp. destruct (rx_wire_fits p t Hr Hp) as [[_ Hl] Hb]. rewrite <- (arrived_pushed p (rx_wire p t) t).
  apply evolves_arrived; [by apply wf_pushed; [apply Hr|..]|done|].
  cbn. rewrite (rd_input _ Hr). by rewrite app_nil_r.
Qed.

Lemma feed_step_payload p t :
  ready t -> sendable p ->
  feed_step (pushed (rx_wire p t) t) =
    (d <-! dispatch (info_of p t) (t_rx_seq t); deliver (info_of p t) d) (arrived p [] t).
Proof.
  intros Hr Hp. destruct (rx_wire_fits p t Hr Hp) as [[_ Hl] Hb].
  rewrite <- (arrived_pushed p (rx_wire p t) t). unfold arrived.
  apply (feed_step_packet (pushed (rx_wire p t) t)); [by apply wf_pushed; [apply Hr|..]|apply Hr|apply Hr|].
  apply arrived_front; [done|]. cbn. rewrite (rd_input _ Hr). by rewrite app_nil_r.
Qed.

(** The packet is handled, and nothing is left. *)
Lemma feed_handled p t t1 :
  ready t -> sendable p ->
  dispatch (info_of p t) (t_rx_seq t) (arrived p [] t) = Some (Ok Handled, t1) ->
  feed (rx_wire p t) t = Some (Ok Progress, t1) /\ evolves (arrived p [] t) t1.
Proof.
  intros Hr Hp E. destruct (rx_wire_fits p t Hr Hp) as [Ht Hb]. pose proof (wf_arrived p t Hr Hp) as Ha.
  assert (H1 : evolves (arrived p [] t) t1).
  { assert (Hs : stage_of (panics := False) (info_of p t)) by (unfold stage_of; rewrite info_start, info_len by done; by apply in_stage_arrived).
    pose proof (keeps_dispatch (panics := False) _ (t_rx_seq t) Hs _ (ev_wf _ _ Ha) I) as H. unfold runs in H. by rewrite E in H. }
  split; [|done]. apply feed_ends; [apply Hr|done|done|]. apply (ends_later _ t1).
  - unfold goes_on. rewrite feed_step_payload by done. unfold bind. by rewrite E.
  - constructor. apply feed_step_idle; [apply H1|]. pose proof (ev_in _ _ H1) as Hi. cbn in Hi. by destruct (t_inbuf t1); [|cbn in Hi; lia].
Qed.

(** The packet is for the host. *)
Lemma feed_returns p t f t1 :
  ready t -> sendable p ->
  (d <-! dispatch (info_of p t) (t_rx_seq t); deliver (info_of p t) d) (arrived p [] t) = Some (Ok (Some f), t1) ->
  feed (rx_wire p t) t = Some (Ok f, t1).
Proof.
  intros Hr Hp E. destruct (rx_wire_fits p t Hr Hp) as [Ht Hb].
  apply feed_ends; [apply Hr|done|done|]. constructor. by rewrite feed_step_payload.
Qed.

Lemma feed_refuses p t e t1 :
  ready t -> sendable p ->
  dispatch (info_of p t) (t_rx_seq t) (arrived p [] t) = Some (Err e, t1) ->
  feed (rx_wire p t) t = Some (Err e, t1).
Proof.
  intros Hr Hp E. destruct (rx_wire_fits p t Hr Hp) as [Ht Hb].
  apply feed_ends; [apply Hr|done|done|]. constructor. rewrite feed_step_payload by done. unfold bind. by rewrite E.
Qed.

Lemma disconnect_eq {A} reason description t :
  exists t', (fail_disconnect reason description : M A) t = Some (Err (LocalDisconnect reason description), t') /\
    t_auth t' = t_auth t /\ t_state t' = Closed.
Proof.
  destruct (is_bytes_disconnect reason description) as [Hb Hl].
  unfold fail_disconnect, bind, ignore, modify, fail. rewrite emit_packet_spec by (done || unfold MAX_PAYLOAD_LEN; lia).
  by destruct (fits _ _); eexists.
Qed.

(** ** The messages of the session channel *)

Lemma parse_body_reads {A} (m : Read A) c bs rest a :
  reads m bs a -> parse_body m (c :: bs ++ rest) = Some (Some a).
Proof.
  intros Hm. unfold parse_body. rewrite after_type_some by (cbn; lia).
  change (drop 1 (c :: bs ++ rest)) with (bs ++ rest).
  specialize (Hm [] rest). change (m (Reader.new (bs ++ rest)) = (Ok a, mkReader (bs ++ rest) (length bs))) in Hm.
  cbn [mbind option_bind]. unfold parse. by rewrite Hm.
Qed.

Definition open_msg (id window max : Z) : list Z :=
  SSH_MSG_CHANNEL_OPEN :: (ssh_string (bytes_of "session") ++ ssh_u32 id ++ ssh_u32 window) ++ ssh_u32 max.

(** A shell request that wants no reply. *)
Definition shell_msg : list Z :=
  SSH_MSG_CHANNEL_REQUEST :: (ssh_u32 LOCAL_ID ++ ssh_string (bytes_of "shell") ++ [0]).

Definition data_msg (recipient : Z) (data : list Z) : list Z :=
  SSH_MSG_CHANNEL_DATA :: ssh_u32 recipient ++ ssh_string data.

Lemma sendable_cons c body :
  is_word 8 c -> is_bytes body -> 1 + zlen body <= MAX_PAYLOAD_LEN -> sendable (c :: body).
Proof. intros Hc Hb Hl. split; [by constructor|]. unfold zlen in *. cbn [length]. lia. Qed.

Lemma zlen_ssh_string l : zlen (ssh_string l) = 4 + zlen l.
Proof. unfold zlen, ssh_string, ssh_u32. rewrite length_app, length_to_be_bytes. lia. Qed.

Lemma zlen_ssh_u32 v : zlen (ssh_u32 v) = 4.
Proof. unfold zlen, ssh_u32. by rewrite length_to_be_bytes. Qed.

Lemma sendable_open id window max : sendable (open_msg id window max).
Proof.
  apply sendable_cons; [by cbv|repeat (apply is_bytes_app; split); try apply is_bytes_to_be|].
  - apply is_bytes_of.
  - rewrite !zlen_app, zlen_ssh_string, !zlen_ssh_u32. by cbv.
Qed.

Lemma sendable_shell : sendable shell_msg.
Proof. split; [by apply is_bytes_check|by cbv]. Qed.

Lemma sendable_data recipient data :
  is_bytes data -> zlen data <= MAX_PAYLOAD_LEN - 9 -> sendable (data_msg recipient data).
Proof.
  intros Hb Hl. apply sendable_cons; [by cbv| |].
  - apply is_bytes_app. split; [apply is_bytes_to_be|by apply is_bytes_ssh_string].
  - rewrite zlen_app, zlen_ssh_string, zlen_ssh_u32. lia.
Qed.

(** The channel a peer opened. *)
Definition opened (id window : Z) (c : ChannelState) : ChannelState :=
  c <| chan_open := true |> <| chan_remote_id := id |> <| chan_remote_window := window |>.

Definition confirmation (id : Z) : list Z :=
  to_channel SSH_MSG_CHANNEL_OPEN_CONFIRMATION id ++
    to_be_bytes 4 LOCAL_ID ++ to_be_bytes 4 LOCAL_RECV_WINDOW ++ to_be_bytes 4 MAX_PAYLOAD_LEN.

Lemma confirmation_ok id : is_bytes (confirmation id) /\ zlen (confirmation id) <= MAX_PAYLOAD_LEN.
Proof.
  split.
  - apply is_bytes_to_channel; [by cbv|]. repeat (apply is_bytes_app; split); apply is_bytes_to_be.
  - unfold confirmation, to_channel. rewrite !zlen_app. unfold zlen. by rewrite !length_to_be_bytes.
Qed.

Lemma reads_nil {A B} (m : Read A) (k : A -> Read B) bs a b :
  reads m bs a -> reads (k a) [] b -> reads (read_bind m k) bs b.
Proof. intros H1 H2. rewrite <- (app_nil_r bs). by eapply reads_bind. Qed.

Lemma reads_open id window : is_word 32 id -> is_word 32 window ->
  reads read_open (ssh_string (bytes_of "session") ++ ssh_u32 id ++ ssh_u32 window) (Some (mkParsedOpen id window)).
Proof.
  intros Hi Hw. eapply reads_bind; [by apply reads_string|]. eapply reads_bind; [by apply reads_u32|].
  eapply reads_nil; [by apply reads_u32|]. rewrite bool_decide_true by done. apply reads_ret.
Qed.

(** A message of the session channel in the established state. *)
Ltac established_message Hs Hp :=
  rewrite dispatch_arrived, Hs by done; unfold dispatch_established; cbv zeta;
  rewrite info_start, info_len by done;
  cbn [Z.eqb Pos.eqb orb SSH_MSG_CHANNEL_OPEN SSH_MSG_USERAUTH_REQUEST SSH_MSG_GLOBAL_REQUEST
    SSH_MSG_CHANNEL_WINDOW_ADJUST SSH_MSG_CHANNEL_EOF SSH_MSG_CHANNEL_CLOSE SSH_MSG_CHANNEL_REQUEST
    SSH_MSG_CHANNEL_DATA].

Lemma open_handled id window max t :
  ready t -> t_state t = Established -> is_word 32 id -> is_word 32 window ->
  chan_open (t_chan t) = false -> fits t (confirmation id) = true ->
  let p := open_msg id window max in
  dispatch (info_of p t) (t_rx_seq t) (arrived p [] t) =
    Some (Ok Handled, after_emit (confirmation id) (on_chan (opened id window) (arrived p [] t))).
Proof.
  intros Hr Hs Hi Hwin Hc Hf. cbv zeta. pose proof (sendable_open id window max) as Hp.
  destruct (confirmation_ok id) as [Hb Hl].
  assert (Eh : handle_channel_open 1 (length (open_msg id window max)) (arrived (open_msg id window max) [] t) =
    Some (Ok tt, after_emit (confirmation id) (on_chan (opened id window) (arrived (open_msg id window max) [] t)))).
  { unfold handle_channel_open, bind at 1.
    rewrite proc_range_arrived by (done || apply (ev_wf _ _ (wf_arrived _ _ Hr Hp))).
    unfold parse_open, open_msg at 1. rewrite (parse_body_reads _ _ _ _ (Some (mkParsedOpen id window)))
      by (by apply reads_open).
    cbn [mbind option_bind lift sender initial_window]. unfold bind at 1, ret at 1, bind at 1, get.
    change (chan_open (t_chan (arrived (open_msg id window max) [] t))) with (chan_open (t_chan t)). rewrite Hc.
    set (t1 := on_chan (opened id window) _). change (emit_packet (confirmation id) t1 =
      Some (Ok tt, after_emit (confirmation id) t1)). rewrite emit_packet_spec by done.
    change (fits t1 (confirmation id)) with (fits t (confirmation id)). by rewrite Hf. }
  unfold open_msg in Hp |- *. established_message Hs Hp. fold (open_msg id window max) in *.
  unfold bind. by rewrite Eh.
Qed.

Lemma shell_handled t :
  ready t -> t_state t = Established ->
  dispatch (info_of shell_msg t) (t_rx_seq t) (arrived shell_msg [] t) =
    Some (Ok Handled, on_chan (fun c => c <| chan_shell := true |>) (arrived shell_msg [] t)).
Proof.
  intros Hr Hs. pose proof sendable_shell as Hp. pose proof (ev_wf _ _ (wf_arrived _ _ Hr Hp)) as Hw.
  assert (Eh : handle_channel_request 1 (length shell_msg) (arrived shell_msg [] t) =
    Some (Ok tt, on_chan (fun c => c <| chan_shell := true |>) (arrived shell_msg [] t))).
  { unfold handle_channel_request, bind at 1, get.
    change (1 + length shell_msg)%nat with (1 + 1 + (length shell_msg - 1))%nat. rewrite index_arrived by done.
    cbn [lift]. unfold bind at 1, ret at 1. change (take _ (drop 1 shell_msg)) with (ssh_u32 LOCAL_ID ++ ssh_string (bytes_of "shell") ++ [0]).
    change (parse Reader.u32 _) with (Ok LOCAL_ID : result Z WireErr). cbn [Z.eqb LOCAL_ID negb].
    unfold bind at 1. rewrite proc_range_arrived by done.
    change (parse_request shell_msg) with (Some (Some Shell)).
    change (request_want_reply shell_msg) with (Some (Some 0)). done. }
  unfold shell_msg in Hp |- *. established_message Hs Hp. fold shell_msg in *.
  unfold bind. by rewrite Eh.
Qed.

Lemma reads_data recipient data : is_word 32 recipient -> is_string data ->
  reads read_data_header (ssh_u32 recipient ++ ssh_string data) (recipient, length data).
Proof.
  intros Hr Hd. eapply reads_bind; [by apply reads_u32|]. eapply reads_nil; [by apply reads_string|]. apply reads_ret.
Qed.

Lemma data_header recipient data : is_word 32 recipient -> is_string data ->
  parse_data_header (data_msg recipient data) = Some (Some (recipient, length data)).
Proof.
  intros Hr Hd. unfold data_msg. rewrite <- (app_nil_r (ssh_u32 recipient ++ _)).
  by apply parse_body_reads, reads_data.
Qed.

Lemma length_data_msg recipient data : length (data_msg recipient data) = (9 + length data)%nat.
Proof.
  unfold data_msg, ssh_string, ssh_u32. cbn [length]. rewrite !length_app, !length_to_be_bytes. lia.
Qed.

Lemma drop_data_msg recipient data : drop 9 (data_msg recipient data) = data.
Proof.
  unfold data_msg, ssh_string. rewrite (app_assoc (ssh_u32 recipient)).
  change (drop 8 ((ssh_u32 recipient ++ ssh_u32 (Z.of_nat (length data))) ++ data) = data).
  apply drop_app_length'. unfold ssh_u32. by rewrite length_app, !length_to_be_bytes.
Qed.

(** Data of an open channel goes to the host. *)
Lemma data_delivered data t :
  ready t -> t_state t = Established -> chan_open (t_chan t) = true -> chan_close_in (t_chan t) = false ->
  is_bytes data -> (length data <= MAX_INBOUND_BATCH)%nat ->
  let p := data_msg LOCAL_ID data in
  (d <-! dispatch (info_of p t) (t_rx_seq t); deliver (info_of p t) d) (arrived p [] t) =
    Some (Ok (Some (ChannelData data)), arrived p [] t).
Proof.
  intros Hr Hs Ho Hc Hb Hl. cbv zeta. unfold MAX_INBOUND_BATCH in Hl.
  assert (Hp : sendable (data_msg LOCAL_ID data))
    by (apply sendable_data; [done|unfold zlen, MAX_PAYLOAD_LEN; lia]).
  pose proof (ev_wf _ _ (wf_arrived _ _ Hr Hp)) as Hw. set (p := data_msg LOCAL_ID data) in *.
  assert (Ed : dispatch (info_of p t) (t_rx_seq t) (arrived p [] t) = Some (Ok (DeliverData (length data)), arrived p [] t)).
  { subst p. unfold data_msg in Hp |- *. established_message Hs Hp. fold (data_msg LOCAL_ID data) in *.
    unfold bind at 1, try_channel_data, bind at 1. rewrite proc_range_arrived, data_header
      by (done || unfold is_string; lia).
    cbn [lift]. unfold bind at 1, ret at 1, bind at 1, get. cbn [Z.eqb LOCAL_ID negb].
    change (t_chan (arrived _ [] t)) with (t_chan t). rewrite Ho, Hc. cbn [negb orb].
    by rewrite (proj2 (Nat.ltb_ge _ _)) by (unfold MAX_INBOUND_BATCH; lia). }
  unfold bind at 1. rewrite Ed. cbn [deliver]. unfold bind, proc_range, bind, get. rewrite info_start.
  rewrite (index_arrived p [] t 9 (length data)) by (done || (subst p; rewrite length_data_msg; lia)).
  unfold p. by rewrite drop_data_msg, firstn_all.
Qed.

(** Data of a channel the client numbered itself goes to the host whole. *)
Lemma data_passed id data t :
  ready t -> t_state t = Established -> t_role t = Client -> is_word 32 id -> id <> LOCAL_ID ->
  is_bytes data -> zlen data <= MAX_PAYLOAD_LEN - 9 ->
  let p := data_msg id data in
  (d <-! dispatch (info_of p t) (t_rx_seq t); deliver (info_of p t) d) (arrived p [] t) =
    Some (Ok (Some (Packet SSH_MSG_CHANNEL_DATA p)), arrived p [] t).
Proof.
  intros Hr Hs Hro Hi Hne Hb Hl. cbv zeta.
  assert (Hp : sendable (data_msg id data)) by (by apply sendable_data).
  pose proof (ev_wf _ _ (wf_arrived _ _ Hr Hp)) as Hw. set (p := data_msg id data) in *.
  assert (Ed : dispatch (info_of p t) (t_rx_seq t) (arrived p [] t) = Some (Ok Passthrough, arrived p [] t)).
  { subst p. unfold data_msg in Hp |- *. established_message Hs Hp. fold (data_msg id data) in *.
    unfold bind at 1, try_channel_data, bind at 1. rewrite proc_range_arrived, data_header
      by (done || unfold is_string, zlen, MAX_PAYLOAD_LEN in *; lia).
    cbn [lift]. unfold bind at 1, ret at 1, bind at 1, get. rewrite (proj2 (Z.eqb_neq _ _)) by done. cbn [negb].
    change (t_role (arrived _ [] t)) with (t_role t). by rewrite Hro. }
  unfold bind at 1. rewrite Ed. cbn [deliver]. unfold bind at 1, get. rewrite info_start, info_len by done.
  rewrite (lookup_arrived _ _ _ _ Hp : t_proc (arrived p [] t) !! 1%nat = Some SSH_MSG_CHANNEL_DATA).
  cbn [lift]. unfold bind, ret. by rewrite proc_range_arrived.
Qed.
