(* ===== verification/SshChannelProps.v ===== *)
(** * Channel data between two transports

    What the host queues on an open channel arrives at the peer in order, within
    the window the peer granted; what a failed call leaves behind. *)

From S2P Require Import Prelude Words SshWire SshPacket SshKex SshCore SshAuth SshChannel SshTransport SshInv.
From S2P Require Import SshSafe SshSession SshDeliver.
From stdpp Require Import base list option strings.
From Stdlib Require Import ZArith Lia.

#[local] Open Scope Z_scope.
#[local] Open Scope ssh_scope.

(** ** Sending *)

Definition accepted_of (data : list Z) (t : SshTransport) : nat :=
  Nat.min (length data) (PENDING_OUT_CAP - length (chan_pending_out (t_chan t))).

(** The channel accepts the host's data. *)
Definition sending (t : SshTransport) : Prop :=
  wf t /\ chan_open (t_chan t) = true /\ chan_close_out (t_chan t) = false.

Lemma send_data_eq data t :
  sending t -> is_bytes data ->
  send_channel_data data t =
    Some (let t1 := on_chan (queued data) t in
          let c := t_chan t1 in
          if (length (chan_pending_out c) =? 0)%nat || (chan_remote_window c =? 0)
          then (Ok (accepted_of data t), t1)
          else if fits t (data_payload c)
          then (Ok (accepted_of data t), on_chan after_flush (after_emit (data_payload c) t1))
          else (Err OutOfCapacity, t1)).
Proof.
  intros (Hw & Ho & Hc) Hd. unfold send_channel_data, bind at 1, get. rewrite Ho, Hc. cbn [negb orb].
  set (t1 := on_chan (queued data) t).
  assert (Hw1 : wf t1) by (apply (evolves_chan (queued data) t Hw); [by apply open_established|by apply queued_wf, Hw]).
  change ((flush_pending_out ;; ret (accepted_of data t)) t1 = Some (let c := t_chan t1 in
    if (length (chan_pending_out c) =? 0)%nat || (chan_remote_window c =? 0)
    then (Ok (accepted_of data t), t1)
    else if fits t1 (data_payload c)
    then (Ok (accepted_of data t), on_chan after_flush (after_emit (data_payload c) t1))
    else (Err OutOfCapacity, t1))).
  unfold bind. rewrite flush_spec by done. cbv zeta. destruct (_ || _); [done|]. by destruct (fits _ _).
Qed.

(** The packet of a flush is a CHANNEL_DATA of the bytes it takes off the queue. *)
Lemma data_payload_msg c : chan_wf c -> is_word 32 (chan_remote_id c) ->
  data_payload c = data_msg (chan_remote_id c) (take (flush_chunk c) (chan_pending_out c)).
Proof.
  intros Hw Hi. unfold data_payload, data_msg, to_channel, ssh_string, ssh_u32.
  rewrite length_take, Nat.min_l by (unfold flush_chunk; lia). done.
Qed.

Lemma fits_drained t payload :
  t_out t = [] -> zlen payload <= 1100 -> fits t payload = true.
Proof.
  intros Ho Hl. unfold fits. rewrite Ho, <- wire_of_packet. apply Z.leb_le.
  destruct (packet_msg_ok (t_tx_keys t) payload) as (_ & _ & Hr & _); [unfold MAX_PAYLOAD_LEN; lia|].
  unfold zlen in *. rewrite length_wire_of. unfold overhead, OUT_CAP. cbn [length]. destruct (is_some _); lia.
Qed.

(** ** A link *)

(** A server's output reaches a client: nothing is on the way, the keys agree,
    and the client numbered the channel itself. *)
Record linked (s c : SshTransport) : Prop := {
  ln_send : sending s;
  ln_id : chan_remote_id (t_chan s) <> LOCAL_ID;
  ln_out : t_out s = [];
  ln_ready : ready c;
  ln_state : t_state c = Established;
  ln_role : t_role c = Client;
  ln_keys : t_tx_keys s = t_rx_keys c;
  ln_seq : t_tx_seq s = t_rx_seq c
}.

(** The host sends, and the output is carried to the peer; the bytes accepted,
    and the bytes the peer is handed. *)
Definition link_step (data : list Z) (s c : SshTransport) :
    option (list Z * list Z * SshTransport * SshTransport) :=
  match send_channel_data data s with
  | Some (Ok n, s1) =>
      match feed (pending_output s1) c with
      | Some (Ok f, c1) =>
          Some (take n data, match f with Packet _ p => drop 9 p | _ => [] end,
                consume_output (length (pending_output s1)) s1, c1)
      | _ => None
      end
  | _ => None
  end.

Fixpoint stream (datas : list (list Z)) (s c : SshTransport) :
    option (list Z * list Z * SshTransport * SshTransport) :=
  match datas with
  | [] => Some ([], [], s, c)
  | data :: datas =>
      '(acc, del, s, c) ← link_step data s c;
      '(accs, dels, s, c) ← stream datas s c;
      Some (acc ++ accs, del ++ dels, s, c)
  end.

Lemma feed_nothing c : ready c -> feed [] c = Some (Ok Progress, c).
Proof.
  intros Hr. assert (E : pushed [] c = c).
  { unfold pushed. rewrite app_nil_r. by destruct c. }
  apply feed_ends; [apply Hr|constructor| |].
  - split; [apply Hr|]. rewrite (rd_input _ Hr). by cbv.
  - rewrite E. constructor. apply feed_step_idle; apply Hr.
Qed.

Lemma ready_arrived p t : ready t -> sendable p -> ready (arrived p [] t).
Proof. intros Hr Hp. constructor; [apply (wf_arrived p t Hr Hp)|apply Hr|apply Hr|done]. Qed.

Lemma sending_evolves t t' :
  sending t -> evolves t t' -> chan_open (t_chan t') = chan_open (t_chan t) ->
  chan_close_out (t_chan t') = chan_close_out (t_chan t) -> sending t'.
Proof. intros (Hw & Ho & Hc) He E1 E2. split_and!; [apply He|congruence|congruence]. Qed.

(** The transport with the host's bytes queued. *)
Lemma queued_sending data t : sending t -> is_bytes data ->
  sending (on_chan (queued data) t) /\ established t.
Proof.
  intros Hs Hd. pose proof Hs as (Hw & Ho & Hc). pose proof (open_established t Hw Ho) as He.
  split; [|done]. apply (sending_evolves t); [done| |done|done].
  apply evolves_chan; [done|done|by apply queued_wf, Hw].
Qed.

Lemma linked_queued data s c : linked s c -> is_bytes data -> linked (on_chan (queued data) s) c.
Proof. intros [] Hd. constructor; try done. by apply queued_sending. Qed.

Lemma drain_all t : t_out (consume_output (length (pending_output t)) t) = [].
Proof.
  change (drop (Nat.min (length (t_out t)) (length (t_out t))) (t_out t) = []). by rewrite Nat.min_id, drop_all.
Qed.

(** The transport after a flush. *)
Definition flushed (p : list Z) (t : SshTransport) : SshTransport := on_chan after_flush (after_emit p t).

Lemma flushed_sending p t :
  sending t -> is_bytes p -> fits t p = true -> sending (flushed p t).
Proof.
  intros Hs Hb Hf. pose proof Hs as (Hw & Ho & _). apply (sending_evolves t); [done| |done|done].
  eapply evolves_trans; [by apply evolves_emit|]. apply evolves_chan; [by apply wf_after_emit| |].
  - by apply (open_established t).
  - apply after_flush_wf, Hw.
Qed.

(** A flush over a link: the packet, what the peer makes of it, and the link after it. *)
Lemma linked_flush s c :
  linked s c ->
  let chunk := take (flush_chunk (t_chan s)) (chan_pending_out (t_chan s)) in
  let p := data_payload (t_chan s) in
  let s' := consume_output (length (pending_output (flushed p s))) (flushed p s) in
  fits s p = true /\ p = data_msg (chan_remote_id (t_chan s)) chunk /\
  feed (pending_output (flushed p s)) c = Some (Ok (Packet SSH_MSG_CHANNEL_DATA p), arrived p [] c) /\
  linked s' (arrived p [] c).
Proof.
  intros [Hs ? ? ? ? ? Hk Hq]. pose proof Hs as (Hw & Ho & Hc). pose proof (wf_chan _ Hw) as Hcw. cbv zeta.
  pose proof (cw_id _ Hcw) as Hid. rewrite (data_payload_msg _ Hcw Hid).
  set (chunk := take _ _). set (p := data_msg _ chunk).
  assert (Hlc : (length chunk <= CHUNK)%nat)
    by (subst chunk; rewrite length_take; pose proof (flush_chunk_le (t_chan s)); lia).
  assert (Hbc : is_bytes chunk) by (apply Forall_take, Hcw). unfold CHUNK in Hlc.
  assert (Hp : sendable p) by (apply sendable_data; [done|unfold zlen, MAX_PAYLOAD_LEN; lia]).
  assert (Hfit : fits s p = true).
  { apply fits_drained; [done|]. subst p. unfold zlen. rewrite length_data_msg. lia. }
  split_and!; try done.
  - replace (pending_output (flushed p s)) with (rx_wire p c) by
      (unfold pending_output, rx_wire, flushed; cbn; by rewrite ln_out0, Hk, Hq).
    apply feed_returns; [done|done|]. apply data_passed; try done. unfold zlen, MAX_PAYLOAD_LEN. lia.
  - pose proof (flushed_sending p s Hs (proj1 Hp) Hfit) as Hf. constructor; try done.
    + apply (sending_evolves (flushed p s)); [done|apply evolves_drain, Hf|done|done].
    + apply drain_all.
    + by apply ready_arrived.
    + cbn. by rewrite Hq.
Qed.

(** One step of a link: what is handed over, what stays queued, and the window used. *)
Lemma link_step_spec data s c :
  linked s c -> is_bytes data ->
  exists del s' c', link_step data s c = Some (take (accepted_of data s) data, del, s', c') /\ linked s' c' /\
    chan_pending_out (t_chan s) ++ take (accepted_of data s) data = del ++ chan_pending_out (t_chan s') /\
    chan_remote_window (t_chan s) = zlen del + chan_remote_window (t_chan s').
Proof.
  intros Hl Hd. unfold link_step. rewrite send_data_eq by (done || apply Hl). cbv zeta.
  pose proof (linked_queued data s c Hl Hd) as Hq. set (s1 := on_chan (queued data) s) in *.
  assert (E1 : chan_pending_out (t_chan s) ++ take (accepted_of data s) data = chan_pending_out (t_chan s1)) by done.
  destruct (_ || _) eqn:Ef.
  - replace (pending_output s1) with (@nil Z) by (symmetry; apply Hq). rewrite feed_nothing by apply Hq.
    exists [], (consume_output (length (@nil Z)) s1), c. split_and!; [done| |done|done].
    by destruct Hq.
  - pose proof (wf_chan _ (proj1 (ln_send _ _ Hq))) as Hcw.
    destruct (linked_flush s1 c Hq) as (Hf & Ep & Efeed & Hlink).
    change (fits s (data_payload (t_chan s1))) with (fits s1 (data_payload (t_chan s1))). rewrite Hf.
    fold (flushed (data_payload (t_chan s1)) s1). rewrite Efeed. eexists _, _, _. split_and!; [done|done| |].
    + rewrite E1, Ep at 1. rewrite drop_data_msg. symmetry. apply take_drop.
    + rewrite Ep at 1. rewrite drop_data_msg. unfold zlen. rewrite length_take.
      change (chan_remote_window (t_chan s)) with (chan_remote_window (t_chan s1)).
      match goal with |- context [consume_output ?n ?t] =>
        change (chan_remote_window (t_chan (consume_output n t))) with
          (chan_remote_window (t_chan s1) - Z.of_nat (flush_chunk (t_chan s1))) end.
      unfold flush_chunk. lia.
Qed.

Lemma stream_spec datas s c :
  linked s c -> Forall is_bytes datas ->
  exists acc del s' c', stream datas s c = Some (acc, del, s', c') /\ linked s' c' /\
    chan_pending_out (t_chan s) ++ acc = del ++ chan_pending_out (t_chan s') /\
    chan_remote_window (t_chan s) = zlen del + chan_remote_window (t_chan s').
Proof.
  intros Hl Hd. revert s c Hl. induction Hd as [|data datas Hb Hd IH]; intros s c Hl.
  { exists [], [], s, c. split_and!; try done. by rewrite app_nil_r. }
  destruct (link_step_spec data s c Hl Hb) as (del & s1 & c1 & E & Hl1 & Hq & Hwin).
  destruct (IH s1 c1 Hl1) as (acc & dels & s2 & c2 & E2 & Hl2 & Hq2 & Hwin2).
  cbn [stream]. rewrite E. cbn [mbind option_bind]. rewrite E2. cbn [mbind option_bind].
  eexists _, _, s2, c2. split_and!; [done|done| |rewrite zlen_app; lia].
  by rewrite (app_assoc (chan_pending_out _)), Hq, <- app_assoc, Hq2, app_assoc.
Qed.

(** ** Theorems *)

(** C19: What the host queues on a channel arrives at the peer in order: over a link
    every sequence of [send_channel_data] calls succeeds, and the bytes the calls
    accepted are exactly those the peer's [feed] handed out followed by those
    still queued; what was handed out has been taken off the window the peer
    granted, which is never overdrawn. *)
Theorem channel_stream_in_order datas s c :
  linked s c -> Forall is_bytes datas -> chan_pending_out (t_chan s) = [] ->
  exists acc del s' c', stream datas s c = Some (acc, del, s', c') /\
    acc = del ++ chan_pending_out (t_chan s') /\
    zlen del = chan_remote_window (t_chan s) - chan_remote_window (t_chan s') /\
    0 <= chan_remote_window (t_chan s').
Proof.
  intros Hl Hd Hp. destruct (stream_spec datas s c Hl Hd) as (acc & del & s' & c' & E & Hl' & Hq & Hwin).
  rewrite Hp in Hq. exists acc, del, s', c'. split_and!; [done|done|lia|].
  apply (cw_window _ (wf_chan _ (proj1 (ln_send _ _ Hl')))).
Qed.

(** The keys and channels of the examples. *)
Definition some_keys : CipherKeys := from_material (replicate 64 7).

Definition some_channel (id window : Z) : ChannelState := opened id window ChannelState.new.

Lemma some_channel_wf id window : is_word 32 id -> is_word 32 window -> chan_wf (some_channel id window).
Proof. intros Hi Hw. constructor; cbn; [done|done|constructor|unfold PENDING_OUT_CAP; lia]. Qed.

Lemma ready_resting role keys chan : chan_wf chan -> ready (resting role keys chan).
Proof. intros Hc. constructor; [by apply wf_resting|done|done|done]. Qed.

Lemma channel_stream_in_order_witness :
  exists acc del s' c',
    stream [bytes_of "hello "; bytes_of "world"]
      (resting Server some_keys (some_channel 7 9)) (resting Client some_keys ChannelState.new) =
      Some (acc, del, s', c') /\
    acc = del ++ chan_pending_out (t_chan s') /\
    zlen del = 9 - chan_remote_window (t_chan s') /\ 0 <= chan_remote_window (t_chan s').
Proof.
  apply (channel_stream_in_order [bytes_of "hello "; bytes_of "world"]
    (resting Server some_keys (some_channel 7 9)) (resting Client some_keys ChannelState.new)).
  - constructor; try done.
    + split_and!; [|done|done]. apply wf_resting, some_channel_wf; by cbv.
    + apply ready_resting, chan_new_wf.
  - constructor; [apply is_bytes_of|constructor; [apply is_bytes_of|constructor]].
  - reflexivity.
Defined.

(** Data a client sends to the session channel reaches the server's host as it
    was sent, and the two ends stay in step. *)
Theorem client_data_reaches_host data c s :
  wf c -> t_state c = Established -> is_Some (t_tx_keys c) -> t_out c = [] ->
  ready s -> t_state s = Established -> t_rx_keys s = t_tx_keys c -> t_rx_seq s = t_tx_seq c ->
  chan_open (t_chan s) = true -> chan_close_in (t_chan s) = false ->
  is_bytes data -> (length data <= MAX_INBOUND_BATCH)%nat ->
  exists c' s', send_payload (data_msg LOCAL_ID data) c = Some (Ok tt, c') /\
    feed (pending_output c') s = Some (Ok (ChannelData data), s') /\
    ready s' /\ t_rx_seq s' = t_tx_seq c' /\ t_chan s' = t_chan s.
Proof.
  intros Hw Hs [k Hk] Ho Hr Hss Hkk Hq Hop Hcl Hb Hl. unfold MAX_INBOUND_BATCH in Hl. set (p := data_msg LOCAL_ID data).
  assert (Hp : sendable p) by (apply sendable_data; [done|unfold zlen, MAX_PAYLOAD_LEN; lia]).
  assert (Hz : zlen p = 9 + Z.of_nat (length data)) by (unfold zlen, p; rewrite length_data_msg; lia).
  exists (after_emit p c), (arrived p [] s). split_and!; [| |by apply ready_arrived|cbn; by rewrite Hq|done].
  - unfold send_payload, bind, get. rewrite Hs, Hk. cbn [bool_decide negb orb is_some].
    rewrite bool_decide_false, bool_decide_true, (proj2 (Z.ltb_ge _ _)) by (done || unfold MAX_PAYLOAD_LEN; lia).
    cbn [negb orb]. rewrite emit_packet_spec by (apply Hp || unfold MAX_PAYLOAD_LEN; lia).
    replace (fits c p) with true; [done|]. symmetry. unfold fits. rewrite Ho, <- wire_of_packet. apply Z.leb_le.
    destruct (packet_msg_ok (t_tx_keys c) p) as (_ & _ & Hm & _); [unfold MAX_PAYLOAD_LEN; lia|].
    unfold zlen in *. rewrite length_wire_of. unfold overhead, OUT_CAP. cbn [length]. destruct (is_some _); lia.
  - replace (pending_output (after_emit p c)) with (rx_wire p s)
      by (unfold pending_output, rx_wire; cbn; by rewrite Ho, Hkk, Hq).
    apply feed_returns; [done|done|]. by apply data_delivered.
Qed.

Lemma client_data_reaches_host_witness :
  exists c' s', send_payload (data_msg LOCAL_ID (bytes_of "ls")) (resting Client some_keys ChannelState.new) = Some (Ok tt, c') /\
    feed (pending_output c') (resting Server some_keys (some_channel 7 9)) = Some (Ok (ChannelData (bytes_of "ls")), s') /\
    ready s' /\ t_rx_seq s' = t_tx_seq c' /\ t_chan s' = some_channel 7 9.
Proof.
  apply (client_data_reaches_host (bytes_of "ls") (resting Client some_keys ChannelState.new)
    (resting Server some_keys (some_channel 7 9))); try done.
  - apply wf_resting, chan_new_wf.
  - apply ready_resting, some_channel_wf; by cbv.
  - apply is_bytes_of.
  - cbn. unfold MAX_INBOUND_BATCH. lia.
Defined.

(** ** A full output buffer *)

Lemma queued_all data c :
  (length (chan_pending_out c) + length data <= PENDING_OUT_CAP)%nat ->
  chan_pending_out (queued data c) = chan_pending_out c ++ data.
Proof.
  intros Hl. change (chan_pending_out c ++ take (Nat.min (length data) (PENDING_OUT_CAP - length (chan_pending_out c))) data
    = chan_pending_out c ++ data). by rewrite Nat.min_l, firstn_all by lia.
Qed.

(** A queue within the window and a packet goes out whole. *)
Lemma send_whole data t :
  sending t -> is_bytes data ->
  let all := chan_pending_out (t_chan t) ++ data in
  (0 < length all <= CHUNK)%nat -> zlen all <= chan_remote_window (t_chan t) ->
  let p := data_msg (chan_remote_id (t_chan t)) all in
  send_channel_data data t = Some (if fits t p then (Ok (length data), flushed p (on_chan (queued data) t))
                                   else (Err OutOfCapacity, on_chan (queued data) t)).
Proof.
  cbv zeta. intros Hs Hd Hl Hwin. rewrite send_data_eq by done. cbv zeta. unfold CHUNK in Hl.
  destruct (queued_sending data t Hs Hd) as [(Hw1 & _) _]. rewrite length_app in Hl.
  assert (Hq : (length (chan_pending_out (t_chan t)) + length data <= PENDING_OUT_CAP)%nat)
    by (unfold PENDING_OUT_CAP; lia).
  set (t1 := on_chan (queued data) t) in *.
  assert (Ep : chan_pending_out (t_chan t1) = chan_pending_out (t_chan t) ++ data) by (by apply queued_all).
  assert (Ew : chan_remote_window (t_chan t1) = chan_remote_window (t_chan t)) by done.
  assert (Ea : accepted_of data t = length data) by (unfold accepted_of; lia).
  pose proof (wf_chan _ Hw1) as Hcw. rewrite (data_payload_msg _ Hcw (cw_id _ Hcw)).
  rewrite take_ge by (unfold flush_chunk, CHUNK; rewrite Ep, Ew, length_app; unfold zlen in Hwin; rewrite length_app in Hwin; lia).
  rewrite Ep, Ew, Ea, length_app. unfold zlen in Hwin. rewrite length_app in Hwin.
  rewrite (proj2 (Nat.eqb_neq _ _)), (proj2 (Z.eqb_neq _ _)) by lia. cbn [orb]. by destruct (fits _ _).
Qed.

(** An error asks the caller to drain the output and repeat the call.  Repeating
    a [send_channel_data] that failed this way sends its bytes twice: the failed
    call has queued them. *)
Theorem repeated_send_duplicates data t :
  sending t -> is_bytes data -> chan_pending_out (t_chan t) = [] ->
  (0 < length data)%nat -> (2 * length data <= CHUNK)%nat ->
  2 * Z.of_nat (length data) <= chan_remote_window (t_chan t) ->
  fits t (data_msg (chan_remote_id (t_chan t)) data) = false ->
  exists t1 t2, send_channel_data data t = Some (Err OutOfCapacity, t1) /\
    send_channel_data data (consume_output (length (pending_output t1)) t1) = Some (Ok (length data), t2) /\
    pending_output t2 = packet_wire (t_tx_keys t) (t_tx_seq t)
      (data_msg (chan_remote_id (t_chan t)) (data ++ data)).
Proof.
  intros Hs Hd Hp Hl0 Hl Hwin Hf. unfold CHUNK in Hl. pose proof Hs as (Hw & _).
  destruct (queued_sending data t Hs Hd) as [Hs1 He]. set (t1 := on_chan (queued data) t) in *.
  set (t1' := consume_output (length (pending_output t1)) t1).
  assert (Hs1' : sending t1') by (apply (sending_evolves t1); [done|by apply evolves_drain, Hs1|done|done]).
  assert (Ep : chan_pending_out (t_chan t1') = data).
  { change (chan_pending_out (queued data (t_chan t)) = data).
    rewrite queued_all, Hp; [done|]. rewrite Hp. cbn [length]. unfold PENDING_OUT_CAP. lia. }
  exists t1. eexists. split_and!.
  - pose proof (send_whole data t Hs Hd) as E. cbv zeta in E. rewrite Hp in E. cbn [app] in E.
    rewrite E, Hf by (unfold CHUNK, zlen; lia). done.
  - pose proof (send_whole data t1' Hs1' Hd) as E. cbv zeta in E. rewrite Ep in E.
    change (chan_remote_window (t_chan t1')) with (chan_remote_window (t_chan t)) in E.
    fold t1'. rewrite E by (unfold CHUNK, zlen; rewrite length_app; lia).
    rewrite fits_drained; [done|apply drain_all|]. unfold zlen. rewrite length_data_msg, length_app. lia.
  - change (t_out t1' ++ packet_wire (t_tx_keys t) (t_tx_seq t) (data_msg (chan_remote_id (t_chan t)) (data ++ data)) =
      packet_wire (t_tx_keys t) (t_tx_seq t) (data_msg (chan_remote_id (t_chan t)) (data ++ data))).
    unfold t1'. by rewrite drain_all.
Qed.

(** A transport whose output buffer is full. *)
Definition congested (t : SshTransport) : SshTransport := t <| t_out := replicate (Z.to_nat OUT_CAP) 0 |>.

Lemma wf_with_out out t : wf t -> zlen out <= OUT_CAP -> is_bytes out -> wf (t <| t_out := out |>).
Proof. intros [] Ho Hb. by constructor. Qed.

Lemma wf_congested t : wf t -> wf (congested t).
Proof.
  intros Hw. apply wf_with_out; [done| |apply is_bytes_zeros].
  unfold zlen. rewrite length_replicate. unfold OUT_CAP. lia.
Qed.

Lemma congested_fits t payload : fits (congested t) payload = false.
Proof.
  unfold fits. rewrite <- wire_of_packet. apply Z.leb_gt.
  change (t_out (congested t)) with (replicate (Z.to_nat OUT_CAP) 0). unfold zlen.
  rewrite length_replicate, length_wire_of. unfold overhead, OUT_CAP. destruct (is_some _); lia.
Qed.

Lemma repeated_send_duplicates_witness :
  exists t1 t2, send_channel_data (bytes_of "ab") (congested (resting Server some_keys (some_channel 7 9))) =
      Some (Err OutOfCapacity, t1) /\
    send_channel_data (bytes_of "ab") (consume_output (length (pending_output t1)) t1) = Some (Ok 2%nat, t2) /\
    pending_output t2 = packet_wire (Some some_keys) 0 (data_msg 7 (bytes_of "ab" ++ bytes_of "ab")).
Proof.
  apply (repeated_send_duplicates (bytes_of "ab") (congested (resting Server some_keys (some_channel 7 9)))).
  - split_and!; [|done|done]. apply wf_congested, wf_resting, some_channel_wf; by cbv.
  - apply is_bytes_of.
  - reflexivity.
  - cbn. lia.
  - cbn. unfold CHUNK. lia.
  - cbn. lia.
  - apply congested_fits.
Defined.

Lemma close_msg_ok id : is_bytes (to_channel SSH_MSG_CHANNEL_CLOSE id) /\
  zlen (to_channel SSH_MSG_CHANNEL_CLOSE id) <= MAX_PAYLOAD_LEN.
Proof.
  split.
  - rewrite <- (app_nil_r (to_channel _ _)). apply is_bytes_to_channel; [by cbv|constructor].
  - unfold to_channel. rewrite zlen_app. unfold zlen. rewrite length_to_be_bytes. by cbv.
Qed.

(** Repeating a [send_channel_close] that failed this way sends nothing: the
    failed call has marked the message as sent, so the peer is never told. *)
Theorem repeated_close_is_silent t :
  sending t -> fits t (to_channel SSH_MSG_CHANNEL_CLOSE (chan_remote_id (t_chan t))) = false ->
  exists t1, send_channel_close t = Some (Err OutOfCapacity, t1) /\
    let t2 := consume_output (length (pending_output t1)) t1 in
    send_channel_close t2 = Some (Ok tt, t2) /\ pending_output t2 = [].
Proof.
  intros (Hw & Ho & Hc) Hf. destruct (close_msg_ok (chan_remote_id (t_chan t))) as [Hb Hl].
  set (t1 := on_chan (fun c => c <| chan_close_out := true |>) t). exists t1. cbv zeta. split_and!; [| |apply drain_all].
  - unfold send_channel_close, bind at 1, get. rewrite Ho, Hc. cbn [negb orb].
    change (emit_packet (to_channel SSH_MSG_CHANNEL_CLOSE (chan_remote_id (t_chan t))) t1 = Some (Err OutOfCapacity, t1)).
    rewrite emit_packet_spec by done.
    change (fits t1) with (fits t). by rewrite Hf.
  - unfold send_channel_close, bind at 1, get. cbn. by rewrite orb_true_r.
Qed.

Lemma repeated_close_is_silent_witness :
  exists t1, send_channel_close (congested (resting Server some_keys (some_channel 7 9))) =
      Some (Err OutOfCapacity, t1) /\
    let t2 := consume_output (length (pending_output t1)) t1 in
    send_channel_close t2 = Some (Ok tt, t2) /\ pending_output t2 = [].
Proof.
  apply (repeated_close_is_silent (congested (resting Server some_keys (some_channel 7 9)))).
  - split_and!; [|done|done]. apply wf_congested, wf_resting, some_channel_wf; by cbv.
  - apply congested_fits.
Defined.
