(* ===== verification/SshAuthProps.v ===== *)
(** * Theorems about password authentication

    What the host learns of an attempt, what a verdict does, and which service
    requests are accepted. *)

From S2P Require Import Prelude Words SshWire SshPacket SshKex SshCore SshAuth SshChannel SshTransport SshInv.
From S2P Require Import SshSafe SshSession SshDeliver SshChannelProps.
From stdpp Require Import base list option strings.
From Stdlib Require Import ZArith Lia.

#[local] Open Scope Z_scope.
#[local] Open Scope ssh_scope.

(** A password attempt. *)
Definition password_msg (user password : list Z) : list Z :=
  SSH_MSG_USERAUTH_REQUEST ::
    ssh_string user ++ ssh_string (bytes_of "ssh-connection") ++ ssh_string PASSWORD_METHOD ++ [0] ++ ssh_string password.

(** The credentials an attempt may carry. *)
Record credentials_ok (user password : list Z) : Prop := {
  co_user : is_bytes user /\ (0 < length user <= MAX_USER)%nat;
  co_password : is_bytes password /\ (length password <= MAX_PASSWORD)%nat
}.

Lemma sendable_password user password : credentials_ok user password -> sendable (password_msg user password).
Proof.
  intros [[Hu Hul] [Hp Hpl]]. unfold MAX_USER, MAX_PASSWORD in *. apply sendable_cons; [by cbv| |].
  - repeat (apply is_bytes_app; split); try apply is_bytes_to_be; try done; try apply is_bytes_of. by repeat constructor.
  - rewrite !zlen_app, !zlen_ssh_string. unfold zlen, MAX_PAYLOAD_LEN. cbn [length]. cbn. lia.
Qed.

Lemma after_type_cons c body : after_type (c :: body) = Some body.
Proof. rewrite after_type_some by (cbn; lia). done. Qed.

(** Both parsers of an attempt find its fields. *)
Lemma shape_of user password : credentials_ok user password ->
  parse_userauth_shape (password_msg user password) = Some (Ok (length user, length password)).
Proof.
  intros [[Hu Hul] [Hp Hpl]]. unfold MAX_USER, MAX_PASSWORD in *.
  unfold parse_userauth_shape, password_msg. rewrite after_type_cons. cbn [mbind option_bind]. unfold parse.
  rewrite new_at. unfold read_shape.
  rewrite (bind_at _ _ _ user) by (apply reads_string; unfold is_string; lia).
  rewrite (bind_at _ _ _ (bytes_of "ssh-connection")) by (by apply reads_string).
  rewrite (bind_at _ _ _ PASSWORD_METHOD) by (by apply reads_string).
  rewrite !bool_decide_true by done. cbn [negb orb]. rewrite (bind_at _ _ _ 0) by apply reads_u8. cbn [negb Z.eqb].
  rewrite (bind_at_end _ _ _ password) by (apply reads_string; unfold is_string; lia).
  rewrite bind_remaining. cbn [length Nat.eqb negb].
  rewrite (proj2 (Nat.eqb_neq _ _)), !(proj2 (Nat.ltb_ge _ _)) by (unfold MAX_USER, MAX_PASSWORD; lia). done.
Qed.

Lemma credentials_of user password ubuf pbuf :
  credentials_ok user password -> length ubuf = MAX_USER -> length pbuf = MAX_PASSWORD ->
  copy_credentials (password_msg user password) ubuf pbuf =
    Some (Some (copy_into ubuf 0 user, copy_into pbuf 0 password)).
Proof.
  intros [[Hu Hul] [Hp Hpl]] Hub Hpb. unfold MAX_USER, MAX_PASSWORD in *.
  unfold copy_credentials, password_msg. rewrite after_type_cons. cbn [mbind option_bind].
  assert (E : parse read_credentials (ssh_string user ++ ssh_string (bytes_of "ssh-connection") ++
    ssh_string PASSWORD_METHOD ++ [0] ++ ssh_string password) = Ok (Some (user, password))).
  { unfold parse. rewrite new_at. unfold read_credentials.
    rewrite (bind_at _ _ _ user) by (apply reads_string; unfold is_string; lia).
    rewrite (bind_at _ _ _ (bytes_of "ssh-connection")) by (by apply reads_string).
    rewrite (bind_at _ _ _ PASSWORD_METHOD) by (by apply reads_string).
    rewrite (bind_at _ _ [0] 0).
    2: { intros pre rest. by rewrite (reads_u8 0 pre rest). }
    cbn [negb Z.eqb]. rewrite (bind_at_end _ _ _ password) by (apply reads_string; unfold is_string; lia). done. }
  rewrite E, Hub, Hpb, !(proj2 (Nat.leb_le _ _)) by lia. done.
Qed.

Lemma take_copy_into (buf l : list Z) : (length l <= length buf)%nat -> take (length l) (copy_into buf 0 l) = l.
Proof. intros Hl. change (take (length l) (l ++ drop (length l) buf) = l). apply take_app_length. Qed.

(** The state of the authentication with an attempt parked in it. *)
Definition parked (user_ password_ : list Z) (a : AuthState) : AuthState :=
  mkAuthState Pending (fails a) (copy_into (user a) 0 user_) (length user_)
    (copy_into (password a) 0 password_) (length password_).

Lemma attempt_handled user password t :
  ready t -> t_state t = Established -> credentials_ok user password ->
  let p := password_msg user password in
  (d <-! dispatch (info_of p t) (t_rx_seq t); deliver (info_of p t) d) (arrived p [] t) =
    Some (Ok (Some AuthQuery), arrived p [] (t <| t_auth := parked user password (t_auth t) |>)).
Proof.
  intros Hr Hs Hc. cbv zeta. pose proof (sendable_password _ _ Hc) as Hp.
  pose proof (ev_wf _ _ (wf_arrived _ _ Hr Hp)) as Hw. set (p := password_msg user password) in *.
  assert (Eh : handle_userauth_request 1 (length p) (arrived p [] t) =
    Some (Ok tt, arrived p [] (t <| t_auth := parked user password (t_auth t) |>))).
  { unfold handle_userauth_request, bind at 1. rewrite proc_range_arrived by done.
    unfold p at 1. rewrite shape_of by done. cbn [lift]. unfold bind at 1, ret at 1.
    unfold p at 1. rewrite credentials_of by (done || by rewrite length_replicate). cbn [lift].
    unfold bind at 1, ret at 1, modify.
    destruct Hc as [[_ Hul] [_ Hpl]]. rewrite !take_copy_into by (rewrite length_replicate; lia). done. }
  unfold bind at 1. subst p. unfold password_msg in Hp, Eh |- *. established_message Hs Hp.
  unfold bind at 1. rewrite Eh. done.
Qed.

(** ** Theorems *)

(** A well-formed password attempt reaches the host whatever the phase, the user
    name and the password as they were sent, and stalls the connection until the
    verdict: later input is only buffered. *)
Theorem password_reaches_host user password t :
  ready t -> t_state t = Established -> credentials_ok user password ->
  exists t1, feed (rx_wire (password_msg user password) t) t = Some (Ok AuthQuery, t1) /\
    phase (t_auth t1) = Pending /\
    (forall ucap pcap, (length user <= ucap)%nat -> (length password <= pcap)%nat ->
       take_auth_request t1 ucap pcap = Some (user, password)) /\
    (forall bytes, is_bytes bytes -> takes_in bytes t1 -> feed bytes t1 = Some (Ok Progress, pushed bytes t1)).
Proof.
  intros Hr Hs Hc. pose proof (sendable_password _ _ Hc) as Hp. pose proof Hc as [[_ Hul] [_ Hpl]].
  assert (E := feed_returns _ _ _ _ Hr Hp (attempt_handled user password t Hr Hs Hc)).
  set (t1 := arrived (password_msg user password) [] _) in E.
  exists t1. pose proof (wf_auth _ (rd_wf _ Hr)) as [Hu Hpw _ _].
  split_and!; [exact E|done| |].
  - intros ucap pcap Hu1 Hp1. unfold take_auth_request. rewrite bool_decide_true by done. f_equal.
    change (user_len (t_auth t1)) with (length user). change (password_len (t_auth t1)) with (length password).
    rewrite !Nat.min_l by done. f_equal; apply take_copy_into; lia.
  - intros bytes Hb Ht. assert (Hw1 : wf t1).
    { eapply ad_wf, feed_advances; [apply Hr| |exact E]. apply (rx_wire_fits _ t Hr Hp). }
    apply feed_ends; [done|done|done|]. constructor. unfold feed_step, bind at 1, get.
    by rewrite bool_decide_true by done.
Qed.

Lemma password_reaches_host_witness :
  exists t1, feed (rx_wire (password_msg (bytes_of "root") (bytes_of "pw")) (resting Server some_keys ChannelState.new))
      (resting Server some_keys ChannelState.new) = Some (Ok AuthQuery, t1) /\
    take_auth_request t1 32 64 = Some (bytes_of "root", bytes_of "pw").
Proof.
  destruct (password_reaches_host (bytes_of "root") (bytes_of "pw") (resting Server some_keys ChannelState.new))
    as (t1 & E & _ & H & _).
  - apply ready_resting, chan_new_wf.
  - reflexivity.
  - split; (split; [apply is_bytes_of|]); cbn; unfold MAX_USER, MAX_PASSWORD; lia.
  - exists t1. split; [exact E|]. apply H; cbn; lia.
Defined.

(** What is left of an attempt. *)
Definition erased (t t' : SshTransport) : Prop :=
  user (t_auth t') = replicate MAX_USER 0 /\ password (t_auth t') = replicate MAX_PASSWORD 0 /\
  user_len (t_auth t') = 0%nat /\ password_len (t_auth t') = 0%nat.

Lemma auth_failure_ok : let p := [SSH_MSG_USERAUTH_FAILURE] ++
    to_be_bytes 4 (Writer.len_u32 PASSWORD_METHOD) ++ PASSWORD_METHOD ++ [0] in
  is_bytes p /\ zlen p <= MAX_PAYLOAD_LEN.
Proof. split; [by apply is_bytes_check|by cbv]. Qed.

(** A verdict settles a waiting attempt: the credentials are erased; an accepted
    one authenticates, a refused one is counted, and the third in a row closes
    the connection. *)
Theorem verdict_settles_attempt accepted t :
  wf t -> phase (t_auth t) = Pending ->
  exists r t', auth_verdict accepted t = Some (r, t') /\ erased t t' /\
    (if accepted then phase (t_auth t') = Authenticated /\ fails (t_auth t') = 0
     else fails (t_auth t') = Z.min (fails (t_auth t) + 1) 255 /\
       if 3 <=? Z.min (fails (t_auth t) + 1) 255
       then t_state t' = Closed /\ r = Err (LocalDisconnect ByApplication "too many authentication failures")
       else t_state t' = t_state t /\ phase (t_auth t') = ServiceAccepted).
Proof.
  intros Hw Hp. pose proof (wf_auth _ Hw) as [Hu Hpw _ _].
  assert (Hz : forall n p t', t_auth t' = AuthState.set_phase p (AuthState.set_fails n (AuthState.zero_credentials (t_auth t))) ->
    erased t t') by (intros n p t' E; unfold erased; rewrite E; cbn; by rewrite Hu, Hpw).
  destruct accepted.
  - unfold auth_verdict, bind at 1, get. rewrite bool_decide_true by done. cbn [negb].
    unfold bind, modify. rewrite emit_packet_spec by (done || by repeat constructor).
    destruct (fits _ _); eexists _, _; split; try done; split; [by eapply Hz|done|by eapply Hz|done].
  - rewrite verdict_false_eq by done. unfold refused. change MAX_AUTH_FAILURES with 3. set (n := Z.min _ _).
    destruct (3 <=? n).
    + destruct (disconnect_eq (A := unit) ByApplication "too many authentication failures" (judged n t))
        as (t' & -> & Ha & Hst). eexists _, t'. split_and!; [done| |by rewrite Ha|done|done].
      apply (Hz n Pending). rewrite Ha. cbn. unfold AuthState.set_phase, AuthState.set_fails, AuthState.zero_credentials.
      cbn. by rewrite Hp.
    + destruct auth_failure_ok as [Hb Hl]. unfold bind, modify, reply_auth_failure. rewrite emit_packet_spec by done.
      destruct (fits _ _); eexists _, _; (split; [done|]); (split; [by apply (Hz n ServiceAccepted)|done]).
Qed.

(** A connection on its third attempt. *)
Definition third_attempt (t : SshTransport) : SshTransport :=
  t <| t_auth := AuthState.set_phase Pending (AuthState.set_fails 2 (t_auth t)) |>.

Lemma wf_third_attempt t : wf t -> established t -> wf (third_attempt t).
Proof. intros [] He. constructor; try done; [|by left]. destruct wf_auth. by constructor. Qed.

Lemma verdict_settles_attempt_witness :
  exists r t', auth_verdict false (third_attempt (resting Server some_keys ChannelState.new)) = Some (r, t') /\
    t_state t' = Closed /\ r = Err (LocalDisconnect ByApplication "too many authentication failures").
Proof.
  destruct (verdict_settles_attempt false (third_attempt (resting Server some_keys ChannelState.new)))
    as (r & t' & E & _ & _ & H).
  - apply wf_third_attempt; [apply wf_resting, chan_new_wf|by left].
  - reflexivity.
  - exists r, t'. exact (conj E H).
Defined.

(** ** Service requests *)

Definition service_msg (name : list Z) : list Z := 5 :: ssh_string name.

Definition accept_msg : list Z := [SSH_MSG_SERVICE_ACCEPT] ++ ssh_string (bytes_of "ssh-userauth").

Lemma accept_msg_ok : is_bytes accept_msg /\ zlen accept_msg <= MAX_PAYLOAD_LEN.
Proof. split; [by apply is_bytes_check|by cbv]. Qed.

Lemma service_handled name t :
  ready t -> t_state t = Established -> phase (t_auth t) = Idle -> t_out t = [] ->
  is_bytes name -> length name = 12%nat ->
  dispatch (info_of (service_msg name) t) (t_rx_seq t) (arrived (service_msg name) [] t) =
    Some (Ok Handled, after_emit accept_msg (SshAuth.set_phase ServiceAccepted (arrived (service_msg name) [] t))).
Proof.
  intros Hr Hs Hi Ho Hb Hl. destruct accept_msg_ok as [Ha Hal].
  assert (Hp : sendable (service_msg name)).
  { apply sendable_cons; [by cbv|by apply is_bytes_ssh_string|]. rewrite zlen_ssh_string. unfold zlen. rewrite Hl. by cbv. }
  pose proof (ev_wf _ _ (wf_arrived _ _ Hr Hp)) as Hw.
  assert (Eh : handle_service_request 1 (length (service_msg name)) (arrived (service_msg name) [] t) =
    Some (Ok tt, after_emit accept_msg (SshAuth.set_phase ServiceAccepted (arrived (service_msg name) [] t)))).
  { unfold handle_service_request, bind at 1. rewrite proc_range_arrived by done.
    unfold parse_service_request, service_msg at 1.
    replace (ssh_string name) with (ssh_string name ++ []) by apply app_nil_r.
    rewrite (parse_body_reads _ _ _ _ 12%nat).
    2: { eapply reads_nil; [apply reads_string; unfold is_string; lia|]. rewrite Hl. apply reads_ret. }
    cbn [lift]. unfold bind at 1, ret at 1, bind at 1, get.
    change (phase (t_auth (arrived (service_msg name) [] t))) with (phase (t_auth t)). rewrite Hi.
    set (t1 := SshAuth.set_phase ServiceAccepted (arrived (service_msg name) [] t)).
    assert (Et : (modify (fun t => SshAuth.set_phase (match phase (t_auth t) with Idle => ServiceAccepted | _ => Authenticated end) t) ;;
      emit_packet accept_msg) (arrived (service_msg name) [] t) = emit_packet accept_msg t1).
    { unfold bind, modify.
      change (phase (t_auth (arrived (service_msg name) [] t))) with (phase (t_auth t)). by rewrite Hi. }
    etransitivity; [exact Et|]. rewrite emit_packet_spec by done. by rewrite fits_drained by done. }
  unfold service_msg in Hp, Eh |- *. established_message Hs Hp. unfold bind. by rewrite Eh.
Qed.

(** A service request is judged by the length of the name alone: before the
    authentication any twelve bytes are accepted as if they were "ssh-userauth". *)
Theorem service_name_is_not_compared name t :
  ready t -> t_state t = Established -> phase (t_auth t) = Idle -> t_out t = [] ->
  is_bytes name -> length name = 12%nat ->
  exists t1, feed (rx_wire (service_msg name) t) t = Some (Ok Progress, t1) /\
    phase (t_auth t1) = ServiceAccepted /\
    pending_output t1 = packet_wire (t_tx_keys t) (t_tx_seq t) accept_msg.
Proof.
  intros Hr Hs Hi Ho Hb Hl. eexists. split; [eapply feed_handled; [done| |by apply service_handled]|split; [done|]].
  - apply sendable_cons; [by cbv|by apply is_bytes_ssh_string|]. rewrite zlen_ssh_string. unfold zlen. rewrite Hl. by cbv.
  - unfold pending_output. cbn. by rewrite Ho.
Qed.

Lemma service_name_is_not_compared_witness :
  exists t1, feed (rx_wire (service_msg (bytes_of "any-old-name")) (resting Server some_keys ChannelState.new))
      (resting Server some_keys ChannelState.new) = Some (Ok Progress, t1) /\
    phase (t_auth t1) = ServiceAccepted /\ pending_output t1 = packet_wire (Some some_keys) 0 accept_msg.
Proof.
  apply (service_name_is_not_compared (bytes_of "any-old-name") (resting Server some_keys ChannelState.new)).
  - apply ready_resting, chan_new_wf.
  - reflexivity.
  - reflexivity.
  - reflexivity.
  - apply is_bytes_of.
  - reflexivity.
Defined.
