(* ===== verification/SshProps.v ===== *)
(** * Theorems about SSH connections

    Totality of [feed] and the packet that makes it panic, the invariant of a
    session and how a connection becomes authenticated, and what a peer reaches
    without authenticating. *)

From S2P Require Import Prelude Words SshWire SshPacket SshKex SshCore SshAuth SshChannel SshTransport SshInv.
From S2P Require Import SshSafe SshSession SshDeliver SshChannelProps.
From stdpp Require Import base list option strings.
From Stdlib Require Import ZArith Lia.

#[local] Open Scope Z_scope.
#[local] Open Scope ssh_scope.

(** ** Termination *)

(** C15: The loop of [feed] terminates: no chain of rounds is infinite, and either the
    loop ends, with a transport that keeps its invariant and [feed] returns what
    it ends with, or it reaches a packet without a payload, the only input on
    which a round can panic. *)
Theorem feed_terminates bytes t :
  wf t -> is_bytes bytes -> takes_in bytes t ->
  Acc (fun t2 t1 => wf t1 /\ goes_on t1 t2) (pushed bytes t) /\
  ((exists r t', loop_ends (pushed bytes t) (r, t') /\ advances t t' /\ feed bytes t = Some (r, t')) \/
   (exists t', rounds (pushed bytes t) t' /\ empty_front t' /\ feed bytes t = None)).
Proof.
  intros Hw Hb Ht. split; [|by apply feed_result].
  apply (well_founded_lt_compat _ (fun t => length (t_inbuf t))). intros t2 t1 [Hw1 Hg]. by apply goes_on_spec.
Qed.

Lemma feed_terminates_witness :
  exists r t', loop_ends (pushed (bytes_of "x") (resting Client some_keys ChannelState.new)) (r, t') /\
    feed (bytes_of "x") (resting Client some_keys ChannelState.new) = Some (r, t').
Proof.
  destruct (feed_terminates (bytes_of "x") (resting Client some_keys ChannelState.new))
    as [_ [(r & t' & H1 & _ & H2)|(t' & _ & _ & H)]]; [| | |by exists r, t'|].
  - apply wf_resting, chan_new_wf.
  - apply is_bytes_of.
  - split; [done|]. by cbv.
  - discriminate H.
Defined.

(** ** Packets without a payload *)

(** C35: A packet of padding alone takes the connection's host down: the receive path
    accepts it, takes its first padding byte for the message type, and when that
    is DISCONNECT slices the payload from behind its end. *)
Theorem empty_packet_panics t msg :
  ready t -> is_bytes msg -> frame_ok (is_some (t_rx_keys t)) msg -> payload_of msg = [] -> msg !! 1%nat = Some 1 ->
  feed (wire_of (t_rx_keys t) (t_rx_seq t) msg) t = None.
Proof.
  intros Hr Hm Hok Hp H1. pose proof Hr as [Hw [Hs Hs'] Hph Hin]. set (w := wire_of _ _ _).
  pose proof Hok as (Hl & _ & _ & Hpad & _). unfold zlen, MAX_PACKET_LEN in Hl.
  assert (Hb : is_bytes w) by (by apply is_bytes_wire_of).
  assert (Ht : takes_in w t).
  { split; [done|]. rewrite Hin. unfold w, zlen. rewrite length_wire_of. unfold overhead, IN_CAP, MAX_WIRE_LEN, MAX_PACKET_LEN.
    cbn [length]. destruct (is_some _); lia. }
  rewrite feed_eq by done. eapply feed_loop_panics; [constructor| |apply wf_pushed; [done|done|apply Ht]|lia].
  rewrite (feed_step_packet _ msg []); [|apply wf_pushed; [done|done|apply Ht]|done|done|].
  2: { split_and!; [done|done|]. cbn. by rewrite Hin, app_nil_r. }
  unfold bind at 1, dispatch, bind at 1, get.
  change (t_proc (received msg [] (pushed w t))) with (msg ++ drop (length msg) (t_proc t)).
  change (payload_start _) with 1%nat. rewrite lookup_app_l, H1 by (apply lookup_lt_Some in H1; lia).
  cbn [lift]. unfold bind at 1, ret at 1.
  assert (Hpanic : forall A info, payload_start info = 1%nat -> payload_len info = 0%nat ->
    forall u, (take_peer_disconnect info : M A) u = None) by (intros A [] ? ? u; simpl in *; by subst).
  assert (Hlen : payload_len (frame_of (overhead (t_rx_keys (pushed w t))) msg) = 0%nat).
  { apply (f_equal length) in Hp. unfold payload_of in Hp. rewrite length_take, length_drop in Hp. cbn in *. lia. }
  change (t_state (received msg [] (pushed w t))) with (t_state t).
  destruct (t_state t); try done; cbn [dispatch_kexinit dispatch_kexreply dispatch_newkeys dispatch_pre_established
    dispatch_established]; unfold dispatch_kexinit, dispatch_kexreply, dispatch_newkeys, dispatch_established;
    cbn [dispatch_pre_established Z.eqb Pos.eqb]; by rewrite Hpanic.
Qed.

(** A server in the middle of its key exchange. *)
Definition exchanging (t : SshTransport) : SshTransport :=
  t <| t_state := KexInit |> <| t_rx_keys := None |> <| t_tx_keys := None |> <| t_session_id := None |>.

Lemma ready_exchanging t :
  ready t -> t_pending_rx t = None -> t_auth t = AuthState.new -> t_chan t = ChannelState.new -> ready (exchanging t).
Proof.
  intros [[] ? ? ?] Hp Ha Hc. constructor; try done. constructor; try done. right. cbn. by rewrite Ha, Hc.
Qed.

(** Before any keys are agreed: twelve bytes, eleven of them padding. *)
Lemma empty_packet_panics_witness :
  feed ([0; 0; 0; 12] ++ [11; 1] ++ replicate 10 0) (exchanging (resting Server some_keys ChannelState.new)) = None.
Proof.
  apply (empty_packet_panics (exchanging (resting Server some_keys ChannelState.new)) ([11; 1] ++ replicate 10 0)).
  - apply ready_exchanging; [apply ready_resting, chan_new_wf|reflexivity|reflexivity|reflexivity].
  - by apply is_bytes_check.
  - split_and!; try done; cbn; unfold MIN_PADDING; lia.
  - reflexivity.
  - reflexivity.
Defined.

(** ** The invariant of a session *)

Lemma after_total {A} (m : M A) t :
  keeps (panics := False) always m -> wf t -> exists t', after m t = Some t'.
Proof. intros Hm Hw. specialize (Hm t Hw I). unfold runs in Hm. unfold after. by destruct (m t) as [[r t']|]; [eexists|]. Qed.

Lemma perform_total op t :
  wf t -> op_ok op ->
  (exists t', perform op t = Some t') \/
  (exists bytes t', op = Feeds bytes /\ rounds (pushed bytes t) t' /\ empty_front t').
Proof.
  intros Hw Hop. destruct op as [bytes|p|b|n|data| | |n]; cbn [perform op_ok] in *.
  - destruct (decide (t_state t <> Closed /\ zlen (t_inbuf t) + zlen bytes <= IN_CAP)) as [Ht|Ht].
    + destruct (feed_result bytes t Hw Hop Ht) as [(r & t' & _ & _ & E)|(t' & Hr & He & _)]; [left|right].
      * exists t'. unfold after. by rewrite E.
      * by exists bytes, t'.
    + left. destruct (feed_refused bytes t Hw Ht) as [e E]. exists t. unfold after. by rewrite E.
  - left. by apply after_total; [apply keeps_send_payload|].
  - left. pose proof (runs_verdict (panics := False) b t Hw) as H. unfold runs in H. unfold after.
    by destruct (auth_verdict b t) as [[r t']|]; [eexists|].
  - left. by apply after_total; [apply keeps_ack|].
  - left. by apply after_total; [apply keeps_send_data|].
  - left. by apply after_total; [apply keeps_send_eof|].
  - left. by apply after_total; [apply keeps_send_close|].
  - left. by eexists.
Qed.

(** C14: A well-formed transport does not go wrong: every operation of the host
    returns a well-formed transport of the same role whose connection state has
    not moved back, except [feed] on a packet without a payload. *)
Theorem transport_type_safety op t :
  wf t -> op_ok op ->
  (exists t', perform op t = Some t' /\ wf t' /\ t_role t' = t_role t /\
     (rank (t_state t) <= rank (t_state t'))%nat) \/
  (exists bytes t', op = Feeds bytes /\ rounds (pushed bytes t) t' /\ empty_front t').
Proof.
  intros Hw Hop. destruct (perform_total op t Hw Hop) as [[t' E]|H]; [left|by right].
  destruct (perform_step op t t' Hw Hop E) as (? & ? & ? & _). by exists t'.
Qed.

Lemma transport_type_safety_witness :
  exists t', perform (SendsData (bytes_of "x")) (resting Server some_keys (some_channel 7 9)) = Some t' /\ wf t'.
Proof.
  destruct (transport_type_safety (SendsData (bytes_of "x")) (resting Server some_keys (some_channel 7 9)))
    as [(t' & E & Hw & _)|(bytes & t' & E & _)]; [| |exists t'; exact (conj E Hw)|discriminate E].
  - apply wf_resting, some_channel_wf; by cbv.
  - apply is_bytes_of.
Defined.



(** ** A shell without authentication *)

Lemma fits_confirmation t id : t_out t = [] -> fits t (confirmation id) = true.
Proof.
  intros Ho. apply fits_drained; [done|]. unfold confirmation, to_channel. rewrite !zlen_app.
  unfold zlen. rewrite !length_to_be_bytes. cbn [length]. lia.
Qed.

(** C34: The handlers of the session channel do not ask whether the peer has
    authenticated: a peer that has only exchanged keys opens the channel,
    requests a shell, which makes [channel_ready] hold, and has its input handed
    to the host, while the phase of the authentication is still [Idle]. *)
Theorem shell_without_authentication t id window max data :
  ready t -> t_state t = Established -> phase (t_auth t) = Idle -> t_chan t = ChannelState.new -> t_out t = [] ->
  is_word 32 id -> is_word 32 window -> is_bytes data -> (length data <= MAX_INBOUND_BATCH)%nat ->
  exists t1 t2 t3,
    feed (rx_wire (open_msg id window max) t) t = Some (Ok Progress, t1) /\
    feed (rx_wire shell_msg t1) t1 = Some (Ok Progress, t2) /\
    channel_ready t2 = true /\ channel_closed t2 = false /\
    feed (rx_wire (data_msg LOCAL_ID data) t2) t2 = Some (Ok (ChannelData data), t3) /\
    phase (t_auth t3) = Idle.
Proof.
  intros Hr Hs Hi Hc Ho Hid Hwin Hb Hl. pose proof (sendable_open id window max) as Hp1. pose proof sendable_shell as Hp2.
  assert (Hp3 : sendable (data_msg LOCAL_ID data))
    by (apply sendable_data; [done|unfold zlen, MAX_PAYLOAD_LEN, MAX_INBOUND_BATCH in *; lia]).
  assert (E1 := open_handled id window max t Hr Hs Hid Hwin). rewrite Hc in E1.
  specialize (E1 eq_refl (fits_confirmation t id Ho)). cbv zeta in E1.
  apply feed_handled in E1 as [E1 Hev1]; [|done|done]. set (t1 := after_emit _ _) in *.
  assert (Hr1 : ready t1) by (constructor; [apply Hev1|apply Hr|apply Hr|done]).
  assert (Hs1 : t_state t1 = Established) by done.
  destruct (feed_handled _ _ _ Hr1 Hp2 (shell_handled t1 Hr1 Hs1)) as [E2 Hev2].
  set (t2 := on_chan _ (arrived shell_msg [] t1)) in *.
  assert (Hr2 : ready t2) by (constructor; [apply Hev2|apply Hr|apply Hr|done]).
  exists t1, t2, (arrived (data_msg LOCAL_ID data) [] t2). split_and!; [done|done|done| | |done].
  { unfold channel_closed. change (negb true || chan_close_in (t_chan t) = false). by rewrite Hc. }
  assert (Hc2 : chan_close_in (t_chan t2) = false) by (change (chan_close_in (t_chan t) = false); by rewrite Hc).
  apply feed_returns; [done|done|]. exact (data_delivered data t2 Hr2 Hs eq_refl Hc2 Hb Hl).
Qed.

Lemma shell_without_authentication_witness :
  exists t1 t2 t3,
    feed (rx_wire (open_msg 7 4096 32768) (resting Server some_keys ChannelState.new))
      (resting Server some_keys ChannelState.new) = Some (Ok Progress, t1) /\
    feed (rx_wire shell_msg t1) t1 = Some (Ok Progress, t2) /\
    channel_ready t2 = true /\ channel_closed t2 = false /\
    feed (rx_wire (data_msg LOCAL_ID (bytes_of "reboot")) t2) t2 = Some (Ok (ChannelData (bytes_of "reboot")), t3) /\
    phase (t_auth t3) = Idle.
Proof.
  apply (shell_without_authentication (resting Server some_keys ChannelState.new) 7 4096 32768 (bytes_of "reboot")).
  - apply ready_resting, chan_new_wf.
  - reflexivity.
  - reflexivity.
  - reflexivity.
  - reflexivity.
  - by cbv.
  - by cbv.
  - apply is_bytes_of.
  - cbn. unfold MAX_INBOUND_BATCH. lia.
Defined.
