(* ===== verification/SshHandshake.v ===== *)
(** * The key exchange between two transports

    The rounds of the version and key exchange as equations, what the server
    computes and what the client checks, and a whole handshake between a client
    and a server that hand each other their output. *)

From S2P Require Import Prelude Words ChaCha Field25519 X25519 Sha2 Hmac Ed25519.
From S2P Require Import SshWire SshPacket SshKex SshCore SshAuth SshChannel SshTransport SshInv.
From S2P Require Import SshSafe SshSession SshDeliver.
From stdpp Require Import base list option strings.
From Stdlib Require Import ZArith Lia.

#[local] Open Scope Z_scope.
#[local] Open Scope ssh_scope.

#[local] Opaque SHA256 X25519 ed_encode ed_sign ed_verify ed_public x25519 x25519_public ed25519.sign
  ed25519.verify ed25519.public_key sha256.digest.

(** ** Rounds *)

(** A round that handles a packet. *)
Lemma goes_on_packet p rest t t1 :
  wf t -> t_state t <> VersionExchange -> phase (t_auth t) <> Pending -> sendable p ->
  t_inbuf t = packet_wire (t_rx_keys t) (t_rx_seq t) p ++ rest ->
  dispatch (info_of p t) (t_rx_seq t) (arrived p rest t) = Some (Ok Handled, t1) ->
  goes_on t t1.
Proof.
  intros Hw Hs Hp Hsend Hi E. unfold goes_on.
  rewrite (feed_step_packet t (packet_msg (t_rx_keys t) p) rest); [|done|done|done|by apply arrived_front].
  unfold bind. fold (info_of p t). fold (arrived p rest t). by rewrite E.
Qed.

(** A round that takes the peer's identification. *)
Lemma goes_on_version t t1 :
  t_state t = VersionExchange -> phase (t_auth t) <> Pending ->
  (match t_role t with Server => try_version_server | Client => try_version_client end) t = Some (Ok true, t1) ->
  goes_on t t1.
Proof.
  intros Hs Hp E. unfold goes_on, feed_step, bind at 1, get. rewrite bool_decide_false, Hs by done.
  unfold bind, try_version, bind, get. by rewrite E.
Qed.

Lemma goes_on_version_server rest t :
  wf t -> t_role t = Server -> t_state t = VersionExchange -> phase (t_auth t) <> Pending ->
  t_inbuf t = SERVER_BANNER ++ rest -> fits t (offer (t_cookie t)) = true ->
  let t1 := identified 25 SERVER_BANNER_TEXT t in
  goes_on t (after_emit (offer (t_cookie t)) (t1 <| t_my_kexinit := offer (t_cookie t) |>)).
Proof.
  intros Hw Hr Hs Hp Hi Hf. cbv zeta. apply goes_on_version; [done|done|]. rewrite Hr.
  assert (Hw1 : wf (identified 25 SERVER_BANNER_TEXT t)) by (apply evolves_identified; [done|done|cbn; lia]).
  unfold try_version_server, bind, get. rewrite Hi.
  change (position LF (SERVER_BANNER ++ rest)) with (Some 24%nat). cbv beta iota zeta.
  change (strip_cr (take 24 (SERVER_BANNER ++ rest))) with SERVER_BANNER_TEXT.
  change (parse_identification SERVER_BANNER_TEXT) with (Ok SERVER_BANNER_TEXT : result (list Z) IdentErr).
  change (24 + 1)%nat with 25%nat. cbv beta iota. rewrite take_ident_eq by (cbn; lia).
  rewrite emit_my_kexinit_eq by done. cbv zeta.
  change (fits (identified 25 SERVER_BANNER_TEXT t)) with (fits t).
  change (t_cookie (identified 25 SERVER_BANNER_TEXT t)) with (t_cookie t). by rewrite Hf.
Qed.

Lemma goes_on_version_client rest t :
  wf t -> t_role t = Client -> t_state t = VersionExchange -> phase (t_auth t) <> Pending ->
  t_inbuf t = SERVER_BANNER ++ rest ->
  goes_on t (identified 25 SERVER_BANNER_TEXT t).
Proof.
  intros Hw Hr Hs Hp Hi. apply goes_on_version; [done|done|]. rewrite Hr.
  assert (E : parse_server_identification (SERVER_BANNER ++ rest) PRE_LINES_MAX = Ok (Some (25%nat, SERVER_BANNER_TEXT)))
    by reflexivity.
  unfold try_version_client, bind, get. rewrite Hi, E. cbv beta iota. by rewrite take_ident_eq by (cbn; lia).
Qed.

(** ** The offers *)

(** What both sides settle on. *)
Definition choice : Negotiated :=
  mkNegotiated "curve25519-sha256" "ssh-ed25519" "chacha20-poly1305@openssh.com"
    "chacha20-poly1305@openssh.com" "hmac-sha2-256" "hmac-sha2-256" "none" "none".

Definition agreed (p : list Z) (t : SshTransport) : SshTransport :=
  t <| t_peer_kexinit := p |> <| t_negotiated := Some choice |>.

Lemma sendable_offer cookie : length cookie = 16%nat -> is_bytes cookie -> sendable (offer cookie).
Proof.
  intros Hl Hb. destruct (offer_ok cookie Hl Hb) as (H1 & H2 & _). split; [done|]. split; [|done].
  unfold zlen, offer. rewrite length_offered by done. lia.
Qed.

(** The offer of the other side is parsed and agreed to. *)
Lemma offer_handled cookie rest t seq :
  wf (arrived (offer cookie) rest t) -> length cookie = 16%nat -> is_bytes cookie ->
  t_state t = KexInit -> t_peer_kexinit t = [] ->
  dispatch (info_of (offer cookie) t) seq (arrived (offer cookie) rest t) =
    (match t_role t with
     | Server => modify (fun t => t <| t_state := KexReply |>)
     | Client =>
         e <-! lift (x25519_public (t_x25519_seed t));
         buf <-! or_fail (kex.build_ecdh_init e 64) NotReady;
         emit_packet buf ;;
         modify (fun t => t <| t_state := KexReply |>)
     end ;; ret Handled) (agreed (offer cookie) (arrived (offer cookie) rest t)).
Proof.
  intros Hw Hl Hb Hs Hp. pose proof (sendable_offer cookie Hl Hb) as Hsend.
  destruct (offer_ok cookie Hl Hb) as (_ & _ & Hcap).
  destruct (parse_kexinit_ok cookie offered 0 Hl) as (k & Ek & Hk); [done|by repeat constructor|exact Hcap|].
  change (offer cookie) with (SSH_MSG_KEXINIT :: tail (offer cookie)).
  rewrite dispatch_arrived, Hs by exact Hsend. change (SSH_MSG_KEXINIT :: tail (offer cookie)) with (offer cookie).
  unfold dispatch_kexinit. change (dispatch_pre_established SSH_MSG_KEXINIT (info_of (offer cookie) t)) with (@None (M Dispatch)).
  cbn [negb Z.eqb Pos.eqb SSH_MSG_KEXINIT]. unfold bind at 1, get.
  change (t_peer_kexinit (arrived (offer cookie) rest t)) with (t_peer_kexinit t). rewrite Hp. cbn [length Nat.eqb negb].
  cbv zeta. rewrite info_start, info_len by done.
  rewrite (proj2 (Z.ltb_ge _ _)) by exact Hcap.
  pose proof (index_arrived (offer cookie) rest t 0 (length (offer cookie)) Hw Hsend (le_n _)) as Ei.
  rewrite drop_0, firstn_all in Ei.
  change (index_range (t_proc (arrived (offer cookie) rest t)) 1 (1 + length (offer cookie)) = Some (offer cookie)) in Ei.
  rewrite Ei. cbn [lift]. unfold bind at 1, ret at 1. unfold bind at 1, modify at 1.
  unfold offer in Ek. fold (offer cookie) in Ek, Hk. rewrite Ek, !Hk by (cbv; lia).
  unfold kex.KEX, kex.HOSTKEY, kex.ENC_C2S, kex.ENC_S2C, kex.MAC_C2S, kex.MAC_S2C, kex.COMP_C2S, kex.COMP_S2C.
  rewrite offers_agree.
  change (t_role (arrived (offer cookie) rest t)) with (t_role t). done.
Qed.

(** The server waits for the client's key. *)
Lemma goes_on_offer_server cookie rest t :
  wf t -> t_role t = Server -> t_state t = KexInit -> phase (t_auth t) <> Pending -> t_peer_kexinit t = [] ->
  length cookie = 16%nat -> is_bytes cookie ->
  t_inbuf t = packet_wire (t_rx_keys t) (t_rx_seq t) (offer cookie) ++ rest ->
  let t1 := agreed (offer cookie) (arrived (offer cookie) rest t) in
  goes_on t (t1 <| t_state := KexReply |>).
Proof.
  intros Hw Hr Hs Hp Hk Hl Hb Hi. cbv zeta. pose proof (sendable_offer cookie Hl Hb) as Hsend.
  apply (goes_on_packet (offer cookie) rest); [done|by rewrite Hs|done|done|done|].
  rewrite offer_handled by (done || by apply (evolves_arrived _ _ t)). by rewrite Hr.
Qed.

(** The client sends its key. *)
Definition init_msg (e : list Z) : list Z := SSH_MSG_KEX_ECDH_INIT :: ssh_string e.

Lemma init_msg_ok e : is_bytes e -> length e = 32%nat -> sendable (init_msg e).
Proof.
  intros Hb Hl. apply sendable_cons; [by cbv|by apply is_bytes_ssh_string|].
  rewrite zlen_ssh_string. unfold zlen. rewrite Hl. by cbv.
Qed.

Lemma build_init_eq e : length e = 32%nat -> kex.build_ecdh_init e 64 = Ok (init_msg e).
Proof.
  intros Hl. unfold kex.build_ecdh_init. rewrite (build_writes _ _ (init_msg e)).
  - unfold init_msg. cbn [length]. by rewrite length_ssh_string, Hl.
  - apply (writes_seq _ _ [SSH_MSG_KEX_ECDH_INIT]); [apply writes_u8|]. by apply writes_string, (is_string_small _ _ Hl).
Qed.

Lemma goes_on_offer_client cookie rest t :
  wf t -> t_role t = Client -> t_state t = KexInit -> phase (t_auth t) <> Pending -> t_peer_kexinit t = [] ->
  length cookie = 16%nat -> is_bytes cookie ->
  t_inbuf t = packet_wire (t_rx_keys t) (t_rx_seq t) (offer cookie) ++ rest ->
  fits t (init_msg (server_public t)) = true ->
  let t1 := after_emit (init_msg (server_public t)) (agreed (offer cookie) (arrived (offer cookie) rest t)) in
  goes_on t (t1 <| t_state := KexReply |>).
Proof.
  intros Hw Hr Hs Hp Hk Hl Hb Hi Hf. cbv zeta. pose proof (sendable_offer cookie Hl Hb) as Hsend.
  apply (goes_on_packet (offer cookie) rest); [done|by rewrite Hs|done|done|done|].
  rewrite offer_handled by (done || by apply (evolves_arrived _ _ t)). rewrite Hr.
  set (t1 := agreed _ _). assert (Hl32 : length (server_public t) = 32%nat) by apply length_X25519.
  destruct (init_msg_ok (server_public t) (is_bytes_X25519 _ _) Hl32) as [Hib Hil].
  unfold bind, lift. rewrite x25519_public_rfc by apply Hw.
  change (X25519 (t_x25519_seed t) BASEPOINT_U) with (server_public t).
  unfold ret at 1. rewrite build_init_eq by done. unfold or_fail, ret at 1. rewrite emit_packet_spec by (done || lia).
  change (fits t1) with (fits t). by rewrite Hf.
Qed.

(** ** The keys *)

(** The client's key reaches the server's handler. *)
Lemma init_dispatched e rest t :
  t_role t = Server -> t_state t = KexReply -> is_bytes e -> length e = 32%nat ->
  dispatch (info_of (init_msg e) t) (t_rx_seq t) (arrived (init_msg e) rest t) =
    handle_ecdh_init (info_of (init_msg e) t) (arrived (init_msg e) rest t).
Proof.
  intros Hr Hs Hb Hl. pose proof (init_msg_ok e Hb Hl) as Hsend.
  unfold init_msg at 1 2. rewrite dispatch_arrived, Hs by done. fold (init_msg e).
  unfold dispatch_kexreply. change (dispatch_pre_established SSH_MSG_KEX_ECDH_INIT (info_of (init_msg e) t)) with (@None (M Dispatch)).
  unfold bind at 1, get. change (t_role (arrived (init_msg e) rest t)) with (t_role t). rewrite Hr.
  rewrite bool_decide_true by done. done.
Qed.

(** The server's round on the client's key. *)
Lemma goes_on_init e rest t :
  wf t -> t_role t = Server -> t_state t = KexReply -> phase (t_auth t) <> Pending ->
  is_bytes e -> length e = 32%nat -> e <> replicate 32 0 -> X25519 (t_x25519_seed t) e <> replicate 32 0 ->
  t_inbuf t = packet_wire (t_rx_keys t) (t_rx_seq t) (init_msg e) ++ rest ->
  let t1 := with_exchange e (arrived (init_msg e) rest t) in
  let t2 := after_emit (server_reply t e) t1 in
  fits t (server_reply t e) = true -> fits t2 [SSH_MSG_NEWKEYS] = true ->
  goes_on t (server_switch e t (after_emit [SSH_MSG_NEWKEYS] t2)).
Proof.
  intros Hw Hr Hs Hp Hb Hl Hne Hz Hi t1 t2 Hf1 Hf2. pose proof (init_msg_ok e Hb Hl) as Hsend.
  assert (Hwa : wf (arrived (init_msg e) rest t)) by (by apply (evolves_arrived _ _ t)).
  apply (goes_on_packet (init_msg e) rest); [done|by rewrite Hs|done|done|done|]. rewrite init_dispatched by done.
  assert (Hst : stage_of (panics := False) (info_of (init_msg e) t))
    by (unfold stage_of; rewrite info_start, info_len by done; by apply in_stage_arrived).
  rewrite (handle_ecdh_init_spec (panics := False) _ _ e Hwa Hst); [|rewrite info_start, info_len, frame_arrived by done|exact Hz].
  - cbv zeta. change (fits (with_exchange e (arrived (init_msg e) rest t)) (server_reply (arrived (init_msg e) rest t) e))
      with (fits t (server_reply t e)). rewrite Hf1.
    change (fits (after_emit (server_reply (arrived (init_msg e) rest t) e) (with_exchange e (arrived (init_msg e) rest t))))
      with (fits t2). rewrite Hf2. done.
  - by apply parse_ecdh_init_ok.
Qed.

(** A part of a payload in the staging buffer. *)
Lemma index_arrived_part p rest t a b off :
  wf (arrived p rest t) -> sendable p -> (a + off <= b)%nat -> (b <= length p)%nat ->
  index_range (t_proc (arrived p rest t)) (1 + a + off) (1 + b) = Some (drop off (take (b - a) (drop a p))).
Proof.
  intros Hw Hp H1 H2. pose proof (index_arrived p rest t (a + off) (b - a - off) Hw Hp ltac:(lia)) as E.
  replace (1 + (a + off) + (b - a - off))%nat with (1 + b)%nat in E by lia. rewrite Nat.add_assoc in E.
  rewrite E, skipn_firstn_comm, drop_drop. done.
Qed.

(** The exchange hash a client computes for a host key and a server key. *)
Definition client_hash (t : SshTransport) (pk f : list Z) : list Z :=
  exchange_H SERVER_BANNER_TEXT (t_peer_ident t) (t_my_kexinit t) (t_peer_kexinit t)
    (blob pk) (server_public t) f (server_k t f).

(** The client once it has accepted a reply. *)
Definition client_switch (pk f : list Z) (t0 t : SshTransport) : SshTransport :=
  t <| t_tx_keys := Some (key_material (server_k t0 f) (client_hash t0 pk f) 67) |>
    <| t_pending_rx := Some (key_material (server_k t0 f) (client_hash t0 pk f) 68) |>
    <| t_exchange_h := client_hash t0 pk f |> <| t_session_id := Some (client_hash t0 pk f) |>
    <| t_state := NewKeys |>.

(** A reply is well formed. *)
Record reply_ok (pk f sig : list Z) : Prop := {
  ro_pk : is_bytes pk /\ length pk = 32%nat;
  ro_f : is_bytes f /\ length f = 32%nat /\ f <> replicate 32 0;
  ro_sig : is_bytes sig /\ length sig = 64%nat
}.

Definition reply_msg (pk f sig : list Z) : list Z := ecdh_reply (blob pk) f (blob sig).

Lemma length_reply_msg pk f sig : reply_ok pk f sig -> length (reply_msg pk f sig) = 179%nat.
Proof.
  intros [[_ H1] (_ & H2 & _) [_ H3]]. unfold reply_msg, ecdh_reply.
  rewrite !length_app, !length_ssh_string, !length_blob, H1, H2, H3. done.
Qed.

Lemma sendable_reply pk f sig : reply_ok pk f sig -> sendable (reply_msg pk f sig).
Proof.
  intros Hr. pose proof (length_reply_msg _ _ _ Hr) as Hl. destruct Hr as [[H1 _] (H2 & _) [H3 _]].
  split; [|unfold zlen; rewrite Hl; by cbv]. unfold reply_msg, ecdh_reply.
  apply is_bytes_app; split; [by apply is_bytes_check|].
  apply is_bytes_app; split; [by apply is_bytes_ssh_string, is_bytes_blob|].
  apply is_bytes_app; split; apply is_bytes_ssh_string; [done|by apply is_bytes_blob].
Qed.

Lemma drop_ssh_string l : drop 4 (ssh_string l) = l.
Proof. unfold ssh_string. apply drop_app_length'. unfold ssh_u32. by rewrite length_to_be_bytes. Qed.

Lemma client_hash_eq t pk f :
  wf t -> length pk = 32%nat -> length f = 32%nat ->
  kex.exchange_hash SERVER_BANNER_TEXT (t_peer_ident t) (t_my_kexinit t) (t_peer_kexinit t)
    (ssh_string (blob pk)) (server_public t) f (server_k t f) = client_hash t pk f.
Proof.
  intros Hw Hp Hf. rewrite exchange_hash_client; [done| | | | |apply length_X25519|done];
    destruct Hw; unfold is_string, zlen, KEXINIT_CAP, KEXINIT_MAX in *; first [lia | done].
Qed.

(** What the client makes of a well-formed reply. *)
Lemma reply_handled pk f sig rest t :
  let p := reply_msg pk f sig in
  wf (arrived p rest t) -> reply_ok pk f sig -> X25519 (t_x25519_seed t) f <> replicate 32 0 ->
  handle_ecdh_reply (info_of p t) (arrived p rest t) =
    (if ed_verify pk (client_hash t pk f) sig then
       emit_packet [SSH_MSG_NEWKEYS] ;; modify (client_switch pk f t) ;; ret Handled
     else fail_disconnect HostKeyNotVerifiable "host key signature verification failed") (arrived p rest t).
Proof.
  intros p Hw Hr Hz. pose proof (sendable_reply _ _ _ Hr) as Hsend. pose proof (length_reply_msg _ _ _ Hr) as Hlen.
  destruct Hr as [[Hpk Hpkl] (Hf & Hfl & Hfz) [Hsig Hsigl]].
  assert (Hbpk : length (blob pk) = 51%nat) by (by rewrite length_blob, Hpkl).
  assert (Hbs : length (blob sig) = 83%nat) by (by rewrite length_blob, Hsigl).
  destruct (parse_ecdh_reply_ok (blob pk) f (blob sig) ltac:(unfold is_string; lia) Hfl ltac:(unfold is_string; lia))
    as (q & Eq & Eqf & Ek & Es & H1 & H2 & H3 & H4). fold (reply_msg pk f sig) in Eq, Ek, Es. fold p in Eq, Ek, Es, Hsend, Hlen.
  rewrite Hbpk in *. rewrite Hbs in H4. destruct q as [[hk1 hk2] qf [s1 s2]].
  cbn [kex.f kex.host_key kex.sig fst snd] in Eqf, Ek, Es, H1, H2, H3, H4. subst hk1 hk2 s1 s2 qf.
  unfold handle_ecdh_reply. cbv zeta. rewrite info_start, info_len by done. unfold bind at 1.
  rewrite proc_range_arrived, Eq by done. cbn [kex.f kex.host_key kex.sig].
  unfold bind at 1, get.
  rewrite (index_arrived_part p rest t 1 _ 4 Hw Hsend) by lia. rewrite Ek, drop_ssh_string.
  cbn [lift]. unfold bind at 1, ret at 1. rewrite parse_host_key_blob_ok by done.
  change (t_x25519_seed (arrived p rest t)) with (t_x25519_seed t).
  rewrite shared_secret_spec by (done || apply Hw). rewrite decide_False by done.
  cbn [lift]. unfold bind at 1, ret at 1.
  rewrite (mpint_build _ (is_bytes_X25519 _ _) (length_X25519 _ _)). fold (server_k t f).
  unfold or_fail, bind at 1, ret at 1. rewrite x25519_public_rfc by apply Hw. fold (server_public t).
  cbn [lift]. unfold bind at 1, ret at 1.
  pose proof (index_arrived_part p rest t 1 (5 + 51) 0 Hw Hsend ltac:(lia) ltac:(lia)) as Ei.
  rewrite Nat.add_0_r, drop_0, Ek in Ei. rewrite Ei. cbn [lift]. unfold bind at 1, ret at 1.
  rewrite (index_arrived_part p rest t (41 + 51) _ 4 Hw Hsend) by lia. rewrite Es, drop_ssh_string.
  cbn [lift]. unfold bind at 1, ret at 1.
  change (server_public t) with (server_public (arrived p rest t)).
  change (server_k t f) with (server_k (arrived p rest t) f).
  rewrite (client_hash_eq (arrived p rest t) pk f Hw Hpkl Hfl).
  change (client_hash (arrived p rest t) pk f) with (client_hash t pk f).
  unfold hostkey.verify_exchange_signature. rewrite parse_signature_blob_ok by done.
  rewrite (verify_ok pk (client_hash t pk f) sig Hpk Hpkl Hsig Hsigl). cbn [mbind option_bind lift].
  unfold bind at 1, ret at 1. cbn [unwrap_or]. destruct (ed_verify pk (client_hash t pk f) sig); [|done].
  cbn [negb]. by rewrite session_keys_rfc.
Qed.

Lemma newkeys_ok : sendable [SSH_MSG_NEWKEYS].
Proof. split; [by apply is_bytes_check|by cbv]. Qed.

(** The client's round on the server's reply. *)
Lemma goes_on_reply pk f sig rest t :
  wf t -> t_role t = Client -> t_state t = KexReply -> phase (t_auth t) <> Pending ->
  reply_ok pk f sig -> X25519 (t_x25519_seed t) f <> replicate 32 0 ->
  ed_verify pk (client_hash t pk f) sig = true -> fits t [SSH_MSG_NEWKEYS] = true ->
  let p := reply_msg pk f sig in
  t_inbuf t = packet_wire (t_rx_keys t) (t_rx_seq t) p ++ rest ->
  goes_on t (client_switch pk f t (after_emit [SSH_MSG_NEWKEYS] (arrived p rest t))).
Proof.
  intros Hw Hr Hs Hp Hok Hz Hv Hf p Hi. pose proof (sendable_reply _ _ _ Hok) as Hsend. fold p in Hsend.
  assert (Hwa : wf (arrived p rest t)) by (by apply (evolves_arrived _ _ t)).
  apply (goes_on_packet p rest); [done|by rewrite Hs|done|done|done|].
  change p with (SSH_MSG_KEX_ECDH_REPLY :: tail p). rewrite dispatch_arrived, Hs by exact Hsend.
  change (SSH_MSG_KEX_ECDH_REPLY :: tail p) with p.
  unfold dispatch_kexreply. change (dispatch_pre_established SSH_MSG_KEX_ECDH_REPLY (info_of p t)) with (@None (M Dispatch)).
  unfold bind at 1, get. change (t_role (arrived p rest t)) with (t_role t). rewrite Hr.
  rewrite bool_decide_false, bool_decide_true by done. cbn [andb Z.eqb Pos.eqb SSH_MSG_KEX_ECDH_REPLY].
  subst p. rewrite reply_handled by done. rewrite Hv. unfold bind at 1. destruct newkeys_ok as [Hb _].
  rewrite emit_packet_spec by done.
  change (fits (arrived (reply_msg pk f sig) rest t)) with (fits t). by rewrite Hf.
Qed.

(** The round on the other side's NEWKEYS. *)
Lemma goes_on_newkeys keys rest t :
  wf t -> t_state t = NewKeys -> phase (t_auth t) <> Pending -> t_pending_rx t = Some keys ->
  t_inbuf t = packet_wire (t_rx_keys t) (t_rx_seq t) [SSH_MSG_NEWKEYS] ++ rest ->
  let t1 := arrived [SSH_MSG_NEWKEYS] rest t in
  goes_on t (t1 <| t_pending_rx := None |> <| t_rx_keys := Some keys |> <| t_state := Established |>).
Proof.
  intros Hw Hs Hp Hk Hi t1. pose proof newkeys_ok as Hsend.
  apply (goes_on_packet [SSH_MSG_NEWKEYS] rest); [done|by rewrite Hs|done|done|done|].
  rewrite dispatch_arrived, Hs by done. unfold dispatch_newkeys.
  change (dispatch_pre_established SSH_MSG_NEWKEYS (info_of [SSH_MSG_NEWKEYS] t)) with (@None (M Dispatch)).
  rewrite Z.eqb_refl. unfold bind at 1, get.
  change (t_pending_rx (arrived [SSH_MSG_NEWKEYS] rest t)) with (t_pending_rx t). by rewrite Hk.
Qed.

(** ** Whole handshakes *)

Lemma packet_wire_bound keys seqno p :
  zlen p <= MAX_PAYLOAD_LEN -> zlen (packet_wire keys seqno p) <= zlen p + 32.
Proof.
  intros Hl. destruct (packet_msg_ok keys p Hl) as (_ & _ & Hm & _). rewrite <- wire_of_packet. unfold zlen in *.
  rewrite length_wire_of. unfold overhead. destruct (is_some keys); lia.
Qed.

Lemma fits_small t p :
  zlen p <= MAX_PAYLOAD_LEN -> zlen (t_out t) + zlen p + 32 <= OUT_CAP -> fits t p = true.
Proof.
  intros Hl Ho. unfold fits. apply Z.leb_le. pose proof (packet_wire_bound (t_tx_keys t) (t_tx_seq t) p Hl). lia.
Qed.

(** Rounds that use up the input. *)
Lemma rounds_feed bytes t t' :
  wf t -> is_bytes bytes -> takes_in bytes t -> rounds (pushed bytes t) t' -> t_inbuf t' = [] ->
  feed bytes t = Some (Ok Progress, t') /\ wf t'.
Proof.
  intros Hw Hb Ht Hr Hi. assert (Hp : wf (pushed bytes t)) by (apply wf_pushed; [done..|apply Ht]).
  assert (H : loop_ends (pushed bytes t) (Ok Progress, t') /\ wf t').
  { clear Ht Hb Hw. remember (pushed bytes t) as t0 eqn:E0. clear E0.
    induction Hr as [t0|t0 t1 t2 Hg Hr IH].
    - split; [|done]. constructor. by apply feed_step_idle.
    - destruct (goes_on_spec t0 t1 Hp Hg) as [He _].
      destruct IH as [H1 H2]; [done|apply He|]. split; [by econstructor|done]. }
  split; [|apply H]. apply feed_ends; [done|done|done|apply H].
Qed.

(** The output of [a] is carried to [b]. *)
Definition hand_over (a b : SshTransport) : option (SshTransport * SshTransport) :=
  match feed (pending_output a) b with
  | Some (Ok Progress, b') => Some (consume_output (length (pending_output a)) a, b')
  | _ => None
  end.

(** A client and a server carry their output to each other, the client first. *)
Definition handshake (c s : SshTransport) : option (SshTransport * SshTransport) :=
  '(c, s) ← hand_over c s;
  '(s, c) ← hand_over s c;
  '(c, s) ← hand_over c s;
  '(s, c) ← hand_over s c;
  hand_over c s.

Lemma drained_eq t : consume_output (length (pending_output t)) t = t <| t_out := [] |>.
Proof.
  unfold consume_output, pending_output. cbv zeta. by rewrite Nat.min_id, drop_all.
Qed.

Lemma hand_over_rounds a b b' :
  wf b -> is_bytes (pending_output a) -> takes_in (pending_output a) b ->
  rounds (pushed (pending_output a) b) b' -> t_inbuf b' = [] ->
  hand_over a b = Some (a <| t_out := [] |>, b') /\ wf b'.
Proof.
  intros Hw Hb Ht Hr Hi. destruct (rounds_feed _ _ _ Hw Hb Ht Hr Hi) as [E Hw']. split; [|done].
  unfold hand_over. by rewrite E, drained_eq.
Qed.

(** A transport in the middle of a key exchange, in the clear, with nothing to
    read: its own offer and the peer's, its seed, its sequence numbers and its
    output. *)
Record in_kex (role : Role) (st : State) (mine theirs seed : list Z) (rx tx : Z) (out : list Z)
    (t : SshTransport) : Prop := {
  ik_wf : wf t;
  ik_role : t_role t = role;
  ik_state : t_state t = st;
  ik_phase : phase (t_auth t) <> Pending;
  ik_in : t_inbuf t = [];
  ik_keys : t_rx_keys t = None /\ t_tx_keys t = None;
  ik_rx : t_rx_seq t = rx;
  ik_tx : t_tx_seq t = tx;
  ik_ident : t_peer_ident t = SERVER_BANNER_TEXT;
  ik_mine : t_my_kexinit t = mine;
  ik_theirs : t_peer_kexinit t = theirs;
  ik_seed : t_x25519_seed t = seed;
  ik_out : t_out t = out
}.

(** A transport that has switched to new keys for sending, and knows those for
    receiving. *)
Record switched (rx tx : Z) (send recv : CipherKeys) (h out : list Z) (t : SshTransport) : Prop := {
  sw_wf : wf t;
  sw_state : t_state t = NewKeys;
  sw_phase : phase (t_auth t) <> Pending;
  sw_in : t_inbuf t = [];
  sw_rx_keys : t_rx_keys t = None;
  sw_pending : t_pending_rx t = Some recv;
  sw_tx_keys : t_tx_keys t = Some send;
  sw_rx : t_rx_seq t = rx;
  sw_tx : t_tx_seq t = tx;
  sw_session : t_session_id t = Some h;
  sw_out : t_out t = out
}.

(** A transport past the exchange. *)
Record secured (rx tx : Z) (send recv : CipherKeys) (h out : list Z) (t : SshTransport) : Prop := {
  se_ready : ready t;
  se_state : t_state t = Established;
  se_rx_keys : t_rx_keys t = Some recv;
  se_tx_keys : t_tx_keys t = Some send;
  se_rx : t_rx_seq t = rx;
  se_tx : t_tx_seq t = tx;
  se_session : t_session_id t = Some h;
  se_out : t_out t = out
}.

Lemma wf_drained t : wf t -> wf (t <| t_out := [] |>).
Proof. intros Hw. rewrite <- drained_eq. by apply evolves_drain. Qed.

Lemma in_kex_drained role st mine theirs seed rx tx out t :
  in_kex role st mine theirs seed rx tx out t -> in_kex role st mine theirs seed rx tx [] (t <| t_out := [] |>).
Proof. intros []. constructor; try assumption; [by apply wf_drained|reflexivity]. Qed.

Lemma switched_drained rx tx send recv h out t :
  switched rx tx send recv h out t -> switched rx tx send recv h [] (t <| t_out := [] |>).
Proof. intros []. constructor; try assumption; [by apply wf_drained|reflexivity]. Qed.

Lemma secured_drained rx tx send recv h out t :
  secured rx tx send recv h out t -> secured rx tx send recv h [] (t <| t_out := [] |>).
Proof. intros [[]]. constructor; try assumption; [|reflexivity]. constructor; try assumption. by apply wf_drained. Qed.

Section handshake.

Context (host_seed server_seed server_cookie client_seed client_cookie : list Z).

Hypothesis server_ok : seeds_ok host_seed server_seed server_cookie.
Hypothesis client_ok : seeds_ok (replicate 32 0) client_seed client_cookie.

Definition s_start : SshTransport := greeting Server host_seed server_seed server_cookie.

Definition c_start : SshTransport :=
  let t := greeting Client (replicate 32 0) client_seed client_cookie in
  after_emit (offer client_cookie) (t <| t_my_kexinit := offer client_cookie |>).

(** The first flight of either side. *)
Definition flight (cookie : list Z) : list Z := SERVER_BANNER ++ packet_wire None 0 (offer cookie).

Lemma flight_ok cookie : length cookie = 16%nat -> is_bytes cookie ->
  is_bytes (flight cookie) /\ zlen (flight cookie) <= 268.
Proof.
  intros Hl Hb. destruct (offer_ok cookie Hl Hb) as (H1 & H2 & _). split.
  - apply is_bytes_app. split; [apply is_bytes_banner|by apply is_bytes_packet_wire].
  - unfold flight. rewrite zlen_app. pose proof (packet_wire_bound None 0 (offer cookie) H2) as H3.
    unfold zlen at 2 in H3. unfold offer in H3 at 2. rewrite length_offered in H3 by done.
    change (zlen SERVER_BANNER) with 25. lia.
Qed.

Lemma zlen_offer cookie : length cookie = 16%nat -> zlen (offer cookie) = 211.
Proof. intros Hl. unfold zlen, offer. by rewrite length_offered. Qed.

Lemma first_flight :
  exists s, hand_over c_start s_start = Some (c_start <| t_out := [] |>, s) /\
    in_kex Server KexReply (offer server_cookie) (offer client_cookie) server_seed 1 1 (flight server_cookie) s /\
    t_host_seed s = host_seed /\ t_host_pub s = ed_public host_seed.
Proof.
  pose proof (greeting_initial Server _ _ _ server_ok) as (Hw & _). destruct client_ok as [_ _ [Hcl Hcb]].
  destruct server_ok as [_ _ [Hsl Hsb]]. destruct (flight_ok client_cookie Hcl Hcb) as [Hb Hl].
  assert (Ht : takes_in (flight client_cookie) s_start) by (split; [done|change (zlen (t_inbuf s_start)) with 0; unfold IN_CAP, MAX_WIRE_LEN, MAX_PACKET_LEN; lia]).
  set (s0 := pushed (flight client_cookie) s_start).
  assert (Hw0 : wf s0) by (apply wf_pushed; [done|done|apply Ht]).
  assert (G1 := goes_on_version_server (packet_wire None 0 (offer client_cookie)) s0 Hw0 eq_refl eq_refl
    ltac:(done) eq_refl ltac:(apply fits_small; change (t_cookie s0) with server_cookie; rewrite zlen_offer by done; done)).
  cbv zeta in G1. set (s1 := after_emit _ _) in G1. destruct (goes_on_spec _ _ Hw0 G1) as [He1 _].
  assert (G2 := goes_on_offer_server client_cookie [] s1 (ev_wf _ _ He1) eq_refl eq_refl ltac:(done) eq_refl Hcl Hcb
    (eq_sym (app_nil_r _))). cbv zeta in G2. set (s2 := set _ _ _) in G2.
  destruct (hand_over_rounds c_start s_start s2 Hw Hb Ht) as [E Hw2]; [|done|].
  - apply (rounds_next _ s1); [exact G1|]. apply (rounds_next _ s2); [exact G2|constructor].
  - exists s2. split_and!; [exact E|constructor; done|done|done].
Qed.

Lemma wf_offered m n t :
  wf t -> zlen m <= KEXINIT_CAP -> wf (t <| t_my_kexinit := m |> <| t_tx_seq := n |> <| t_out := [] |>).
Proof. intros [] Hm. constructor; try done. constructor. Qed.

(** The public keys, the shared secrets of the two sides, and the exchange hash
    for one of them. *)
Definition e_key : list Z := X25519 client_seed BASEPOINT_U.
Definition f_key : list Z := X25519 server_seed BASEPOINT_U.
Definition s_shared : list Z := X25519 server_seed e_key.
Definition c_shared : list Z := X25519 client_seed f_key.
Definition hash_of (shared : list Z) : list Z :=
  exchange_H SERVER_BANNER_TEXT SERVER_BANNER_TEXT (offer client_cookie) (offer server_cookie)
    (blob (ed_public host_seed)) e_key f_key (k_mpint_of shared).

Lemma second_flight s :
  t_out s = flight server_cookie ->
  exists c, hand_over s (c_start <| t_out := [] |>) = Some (s <| t_out := [] |>, c) /\
    in_kex Client KexReply (offer client_cookie) (offer server_cookie) client_seed 1 2
      (packet_wire None 1 (init_msg e_key)) c.
Proof.
  intros Ho. pose proof (greeting_initial Client _ _ _ client_ok) as (Hwg & _). destruct client_ok as [_ _ [Hcl Hcb]].
  destruct server_ok as [_ _ [Hsl Hsb]]. destruct (flight_ok server_cookie Hsl Hsb) as [Hb Hl].
  set (c0 := c_start <| t_out := [] |>).
  assert (Hw : wf c0) by exact (wf_offered _ 1 _ Hwg (proj2 (proj2 (offer_ok client_cookie Hcl Hcb)))).
  assert (Ht : takes_in (flight server_cookie) c0) by (split; [done|change (zlen (t_inbuf c0)) with 0; unfold IN_CAP, MAX_WIRE_LEN, MAX_PACKET_LEN; lia]).
  set (c0' := pushed (flight server_cookie) c0).
  assert (Hw0 : wf c0') by (apply wf_pushed; [done|done|apply Ht]).
  assert (G1 := goes_on_version_client (packet_wire None 0 (offer server_cookie)) c0' Hw0 eq_refl eq_refl ltac:(done) eq_refl).
  set (c1 := identified _ _ _) in G1. destruct (goes_on_spec _ _ Hw0 G1) as [He1 _].
  assert (Hf : fits c1 (init_msg (server_public c1)) = true).
  { assert (Hz : zlen (init_msg (server_public c1)) = 37)
      by (unfold init_msg, zlen; cbn [length]; rewrite length_ssh_string; unfold server_public; by rewrite length_X25519).
    apply fits_small; rewrite Hz; done. }
  assert (G2 := goes_on_offer_client server_cookie [] c1 (ev_wf _ _ He1) eq_refl eq_refl ltac:(done) eq_refl Hsl Hsb
    (eq_sym (app_nil_r _)) Hf). cbv zeta in G2. set (c2 := set _ _ _) in G2.
  destruct (hand_over_rounds s c0 c2 Hw) as [E Hw2]; [unfold pending_output; by rewrite Ho| | |done|].
  - unfold pending_output. by rewrite Ho.
  - unfold pending_output. rewrite Ho. apply (rounds_next _ c1); [exact G1|]. apply (rounds_next _ c2); [exact G2|constructor].
  - exists c2. split; [exact E|]. constructor; [exact Hw2|reflexivity|reflexivity|done|reflexivity|by split|
      reflexivity..|].
    reflexivity.
Qed.

Definition reply_of (shared : list Z) : list Z :=
  reply_msg (ed_public host_seed) f_key (ed_sign host_seed (hash_of shared)).

(** The two packets of the server's second flight. *)
Definition answer : list Z :=
  packet_wire None 1 (reply_of s_shared) ++ packet_wire None 2 [SSH_MSG_NEWKEYS].

(** What the exchange needs of the curve: no key and no secret is zero. *)
Definition keys_nonzero : Prop :=
  e_key <> replicate 32 0 /\ f_key <> replicate 32 0 /\
  s_shared <> replicate 32 0 /\ c_shared <> replicate 32 0.

Lemma reply_of_ok shared : keys_nonzero ->
  reply_ok (ed_public host_seed) f_key (ed_sign host_seed (hash_of shared)).
Proof.
  intros (_ & Hf & _). split.
  - pose proof (greeting_initial Server _ _ _ server_ok) as (Hw & _).
    exact (conj (wf_pub_bytes _ Hw) (wf_pub _ Hw)).
  - split_and!; [apply is_bytes_X25519|apply length_X25519|exact Hf].
  - split; [apply is_bytes_ed_sign|apply length_ed_sign].
Qed.

Lemma zlen_reply_of shared : keys_nonzero -> zlen (reply_of shared) = 179.
Proof. intros Hk. unfold zlen, reply_of. by rewrite (length_reply_msg _ _ _ (reply_of_ok shared Hk)). Qed.

Lemma init_flight_ok : let bytes := packet_wire None 1 (init_msg e_key) in is_bytes bytes /\ zlen bytes <= 100.
Proof.
  cbv zeta. assert (Hel : length e_key = 32%nat) by apply length_X25519.
  destruct (init_msg_ok e_key (is_bytes_X25519 _ _) Hel) as [Hib Hil]. split; [by apply is_bytes_packet_wire|].
  pose proof (packet_wire_bound None 1 (init_msg e_key) ltac:(lia)) as H. unfold zlen at 2 in H. unfold init_msg in H at 2.
  cbn [length] in H. rewrite length_ssh_string, Hel in H. lia.
Qed.

(** What the server computes from its fields. *)
Lemma server_values t :
  t_peer_ident t = SERVER_BANNER_TEXT -> t_my_kexinit t = offer server_cookie ->
  t_peer_kexinit t = offer client_cookie -> t_x25519_seed t = server_seed ->
  t_host_seed t = host_seed -> t_host_pub t = ed_public host_seed ->
  server_k t e_key = k_mpint_of s_shared /\ server_hash t e_key = hash_of s_shared /\
  server_reply t e_key = reply_of s_shared.
Proof.
  intros H1 H2 H3 H4 H5 H6. unfold server_reply, server_hash, server_k, server_public.
  rewrite H1, H2, H3, H4, H5, H6. split_and!; reflexivity.
Qed.

Lemma third_flight c s :
  keys_nonzero -> t_out c = packet_wire None 1 (init_msg e_key) ->
  in_kex Server KexReply (offer server_cookie) (offer client_cookie) server_seed 1 1 [] s ->
  t_host_seed s = host_seed -> t_host_pub s = ed_public host_seed ->
  let k := k_mpint_of s_shared in
  let h := hash_of s_shared in
  exists s', hand_over c s = Some (c <| t_out := [] |>, s') /\
    switched 2 3 (key_material k h 68) (key_material k h 67) h answer s'.
Proof.
  intros Hk Ho [Hw Hr Hst Hp Hi [Hrk Htk] Hrx Htx Hid Hm Hth Hsd Hout] Hhs Hhp k h. pose proof Hk as (He & _ & Hz & _).
  destruct init_flight_ok as [Hb Hbl]. set (bytes := packet_wire None 1 (init_msg e_key)) in *.
  assert (Ht : takes_in bytes s) by (split; [by rewrite Hst|rewrite Hi; unfold IN_CAP, MAX_WIRE_LEN, MAX_PACKET_LEN; change (zlen []) with 0; lia]).
  set (s0 := pushed bytes s). assert (Hw0 : wf s0) by (apply wf_pushed; [done|done|apply Ht]).
  destruct (server_values s0 Hid Hm Hth Hsd Hhs Hhp) as (Ek & Eh & Er).
  pose proof (zlen_reply_of s_shared Hk) as Hrl. set (t1 := with_exchange e_key (arrived (init_msg e_key) [] s0)).
  set (t2 := after_emit (server_reply s0 e_key) t1).
  assert (Hf1 : fits s0 (server_reply s0 e_key) = true)
    by (apply fits_small; rewrite Er, Hrl; [done|]; change (t_out s0) with (t_out s); rewrite Hout; done).
  assert (Eo : t_out t2 = packet_wire None 1 (reply_of s_shared)).
  { change (t_out t2) with (t_out s ++ packet_wire (t_tx_keys s) (t_tx_seq s) (server_reply s0 e_key)).
    by rewrite Hout, Htk, Htx, Er. }
  assert (Hf2 : fits t2 [SSH_MSG_NEWKEYS] = true).
  { apply fits_small; [done|]. rewrite Eo. pose proof (packet_wire_bound None 1 (reply_of s_shared)) as H.
    rewrite Hrl in H. specialize (H ltac:(done)). change (zlen [SSH_MSG_NEWKEYS]) with 1. unfold OUT_CAP. lia. }
  assert (Hi0 : t_inbuf s0 = packet_wire (t_rx_keys s0) (t_rx_seq s0) (init_msg e_key) ++ []).
  { change (t_inbuf s ++ bytes = packet_wire (t_rx_keys s) (t_rx_seq s) (init_msg e_key) ++ []).
    by rewrite Hi, Hrk, Hrx, app_nil_r. }
  assert (Hz0 : X25519 (t_x25519_seed s0) e_key <> replicate 32 0).
  { change (t_x25519_seed s0) with (t_x25519_seed s). rewrite Hsd. exact Hz. }
  assert (G := goes_on_init e_key [] s0 Hw0 Hr Hst Hp (is_bytes_X25519 _ _) (length_X25519 _ _) He Hz0 Hi0 Hf1 Hf2).
  set (s3 := server_switch _ _ _) in G.
  destruct (hand_over_rounds c s s3 Hw) as [E Hw3]; [unfold pending_output; by rewrite Ho|
    unfold pending_output; by rewrite Ho| |reflexivity|].
  { unfold pending_output. rewrite Ho. apply (rounds_next _ s3); [exact G|constructor]. }
  exists s3. split; [exact E|]. constructor; [exact Hw3|reflexivity|exact Hp|reflexivity|exact Hrk| | | | | |].
  - change (Some (key_material (server_k s0 e_key) (server_hash s0 e_key) 67) = Some (key_material k h 67)). by rewrite Ek, Eh.
  - change (Some (key_material (server_k s0 e_key) (server_hash s0 e_key) 68) = Some (key_material k h 68)). by rewrite Ek, Eh.
  - change (wrapping_add 32 (t_rx_seq s) 1 = 2). by rewrite Hrx.
  - change (wrapping_add 32 (wrapping_add 32 (t_tx_seq s) 1) 1 = 3). by rewrite Htx.
  - change (Some (server_hash s0 e_key) = Some h). by rewrite Eh.
  - transitivity (t_out t2 ++ packet_wire (t_tx_keys t2) (t_tx_seq t2) [SSH_MSG_NEWKEYS]); [reflexivity|].
    assert (E1 : t_tx_keys t2 = None) by exact Htk. assert (E2 : t_tx_seq t2 = wrapping_add 32 (t_tx_seq s) 1) by reflexivity.
    rewrite Eo, E1, E2, Htx. reflexivity.
Qed.

(** What the client computes from its fields. *)
Lemma client_values t :
  t_peer_ident t = SERVER_BANNER_TEXT -> t_my_kexinit t = offer client_cookie ->
  t_peer_kexinit t = offer server_cookie -> t_x25519_seed t = client_seed ->
  server_k t f_key = k_mpint_of c_shared /\ client_hash t (ed_public host_seed) f_key = hash_of c_shared.
Proof.
  intros H1 H2 H3 H4. unfold client_hash, server_k, server_public. rewrite H1, H2, H3, H4. split; reflexivity.
Qed.

Lemma answer_ok : keys_nonzero -> is_bytes answer /\ zlen answer <= 250.
Proof.
  intros Hk. destruct (sendable_reply _ _ _ (reply_of_ok s_shared Hk)) as [Hb Hl]. destruct newkeys_ok as [Hn _]. split.
  - apply is_bytes_app. split; by apply is_bytes_packet_wire.
  - unfold answer. rewrite zlen_app. pose proof (packet_wire_bound None 1 (reply_of s_shared)) as H1.
    pose proof (packet_wire_bound None 2 [SSH_MSG_NEWKEYS] ltac:(done)) as H2.
    rewrite (zlen_reply_of s_shared Hk) in H1. specialize (H1 ltac:(done)). change (zlen [SSH_MSG_NEWKEYS]) with 1 in H2. lia.
Qed.

(** The signature verifies, and the secrets agree. *)
Definition curve_agrees : Prop :=
  s_shared = c_shared /\
  ed_verify (ed_public host_seed) (hash_of s_shared) (ed_sign host_seed (hash_of s_shared)) = true.

Lemma fourth_flight c s :
  keys_nonzero -> curve_agrees -> t_out s = answer ->
  in_kex Client KexReply (offer client_cookie) (offer server_cookie) client_seed 1 2 [] c ->
  let k := k_mpint_of c_shared in
  let h := hash_of c_shared in
  exists c', hand_over s c = Some (s <| t_out := [] |>, c') /\
    secured 3 3 (key_material k h 67) (key_material k h 68) h (packet_wire None 2 [SSH_MSG_NEWKEYS]) c'.
Proof.
  intros Hk [Hag Hv] Ho [Hw Hr Hst Hp Hi [Hrk Htk] Hrx Htx Hid Hm Hth Hsd Hout] k h. pose proof Hk as (_ & _ & _ & Hz).
  destruct (answer_ok Hk) as [Hb Hbl]. rewrite Hag in Hv.
  assert (Ht : takes_in answer c) by (split; [by rewrite Hst|rewrite Hi; unfold IN_CAP, MAX_WIRE_LEN, MAX_PACKET_LEN; change (zlen []) with 0; lia]).
  set (c0 := pushed answer c). assert (Hw0 : wf c0) by (apply wf_pushed; [done|done|apply Ht]).
  destruct (client_values c0 Hid Hm Hth Hsd) as (Ek & Eh).
  assert (Hz0 : X25519 (t_x25519_seed c0) f_key <> replicate 32 0).
  { change (t_x25519_seed c0) with (t_x25519_seed c). rewrite Hsd. exact Hz. }
  assert (Hi0 : t_inbuf c0 = packet_wire (t_rx_keys c0) (t_rx_seq c0) (reply_of s_shared) ++ packet_wire None 2 [SSH_MSG_NEWKEYS]).
  { change (t_inbuf c ++ answer = packet_wire (t_rx_keys c) (t_rx_seq c) (reply_of s_shared) ++ packet_wire None 2 [SSH_MSG_NEWKEYS]).
    by rewrite Hi, Hrk, Hrx. }
  assert (Hf : fits c0 [SSH_MSG_NEWKEYS] = true) by (apply fits_small; [done|]; change (t_out c0) with (t_out c); by rewrite Hout).
  assert (Hv0 : ed_verify (ed_public host_seed) (client_hash c0 (ed_public host_seed) f_key) (ed_sign host_seed (hash_of s_shared)) = true)
    by (rewrite Eh, Hag; exact Hv).
  assert (G1 := goes_on_reply _ _ _ _ c0 Hw0 Hr Hst Hp (reply_of_ok s_shared Hk) Hz0 Hv0 Hf Hi0).
  set (c1 := client_switch _ _ _ _) in G1. destruct (goes_on_spec _ _ Hw0 G1) as [He1 _].
  assert (Hi1 : t_inbuf c1 = packet_wire (t_rx_keys c1) (t_rx_seq c1) [SSH_MSG_NEWKEYS] ++ []).
  { assert (E1 : t_rx_keys c1 = None) by exact Hrk.
    assert (E2 : t_rx_seq c1 = wrapping_add 32 (t_rx_seq c) 1) by reflexivity.
    rewrite E1, E2, Hrx, app_nil_r. reflexivity. }
  assert (G2 := goes_on_newkeys _ [] c1 (ev_wf _ _ He1) eq_refl Hp eq_refl Hi1). cbv zeta in G2. set (c2 := set _ _ _) in G2.
  destruct (hand_over_rounds s c c2 Hw) as [E Hw2]; [unfold pending_output; by rewrite Ho|
    unfold pending_output; by rewrite Ho| |reflexivity|].
  { unfold pending_output. rewrite Ho. apply (rounds_next _ c1); [exact G1|]. apply (rounds_next _ c2); [exact G2|constructor]. }
  assert (Es : t_state c2 = Established) by reflexivity.
  exists c2. split; [exact E|]. constructor; [constructor; [exact Hw2|rewrite Es; by split|exact Hp|reflexivity]|exact Es| | | | | |].
  - change (Some (key_material (server_k c0 f_key) (client_hash c0 (ed_public host_seed) f_key) 68) = Some (key_material k h 68)).
    by rewrite Ek, Eh.
  - change (Some (key_material (server_k c0 f_key) (client_hash c0 (ed_public host_seed) f_key) 67) = Some (key_material k h 67)).
    by rewrite Ek, Eh.
  - change (wrapping_add 32 (wrapping_add 32 (t_rx_seq c) 1) 1 = 3). by rewrite Hrx.
  - change (wrapping_add 32 (t_tx_seq c) 1 = 3). by rewrite Htx.
  - change (Some (client_hash c0 (ed_public host_seed) f_key) = Some h). by rewrite Eh.
  - transitivity (t_out c ++ packet_wire (t_tx_keys c) (t_tx_seq c) [SSH_MSG_NEWKEYS]); [reflexivity|].
    rewrite Hout, Htk, Htx. reflexivity.
Qed.

Lemma last_flight tx send recv h c s :
  t_out c = packet_wire None 2 [SSH_MSG_NEWKEYS] -> switched 2 tx send recv h [] s ->
  exists s', hand_over c s = Some (c <| t_out := [] |>, s') /\ secured 3 tx send recv h [] s'.
Proof.
  intros Ho [Hw Hst Hp Hi Hrk Hpr Htk Hrx Htx Hid Hout]. set (bytes := packet_wire None 2 [SSH_MSG_NEWKEYS]) in *.
  assert (Hb : is_bytes bytes) by (apply is_bytes_packet_wire, newkeys_ok).
  assert (Ht : takes_in bytes s).
  { split; [by rewrite Hst|]. rewrite Hi. pose proof (packet_wire_bound None 2 [SSH_MSG_NEWKEYS] ltac:(done)) as H.
    change (zlen [SSH_MSG_NEWKEYS]) with 1 in H. fold bytes in H. change (zlen []) with 0.
    unfold IN_CAP, MAX_WIRE_LEN, MAX_PACKET_LEN. lia. }
  set (s0 := pushed bytes s). assert (Hw0 : wf s0) by (apply wf_pushed; [done|done|apply Ht]).
  assert (Hi0 : t_inbuf s0 = packet_wire (t_rx_keys s0) (t_rx_seq s0) [SSH_MSG_NEWKEYS] ++ []).
  { change (t_inbuf s ++ bytes = packet_wire (t_rx_keys s) (t_rx_seq s) [SSH_MSG_NEWKEYS] ++ []).
    by rewrite Hi, Hrk, Hrx, app_nil_r. }
  assert (G := goes_on_newkeys recv [] s0 Hw0 Hst Hp Hpr Hi0). cbv zeta in G. set (s1 := set _ _ _) in G.
  destruct (hand_over_rounds c s s1 Hw) as [E Hw1]; [unfold pending_output; by rewrite Ho|
    unfold pending_output; by rewrite Ho| |reflexivity|].
  { unfold pending_output. rewrite Ho. apply (rounds_next _ s1); [exact G|constructor]. }
  assert (Es : t_state s1 = Established) by reflexivity.
  exists s1. split; [exact E|]. constructor; [constructor; [exact Hw1|rewrite Es; by split|exact Hp|reflexivity]|exact Es|reflexivity|
    exact Htk| |exact Htx|exact Hid|exact Hout].
  change (wrapping_add 32 (t_rx_seq s) 1 = 3). by rewrite Hrx.
Qed.

(** The exchange of flights ends with both sides holding the same session and
    each other's keys. *)
Lemma handshake_runs :
  keys_nonzero -> curve_agrees ->
  let k := k_mpint_of s_shared in
  let h := hash_of s_shared in
  exists c s, handshake c_start s_start = Some (c, s) /\
    secured 3 3 (key_material k h 67) (key_material k h 68) h [] c /\
    secured 3 3 (key_material k h 68) (key_material k h 67) h [] s.
Proof.
  intros Hk Hag k h. pose proof Hag as [Heq _].
  destruct first_flight as (s1 & E1 & K1 & Hhs & Hhp).
  destruct (second_flight s1 (ik_out _ _ _ _ _ _ _ _ _ K1)) as (c1 & E2 & K2).
  destruct (third_flight c1 (s1 <| t_out := [] |>) Hk (ik_out _ _ _ _ _ _ _ _ _ K2) (in_kex_drained _ _ _ _ _ _ _ _ _ K1) Hhs Hhp)
    as (s2 & E3 & K3).
  destruct (fourth_flight (c1 <| t_out := [] |>) s2 Hk Hag (sw_out _ _ _ _ _ _ _ K3) (in_kex_drained _ _ _ _ _ _ _ _ _ K2))
    as (c2 & E4 & K4). rewrite <- Heq in K4.
  destruct (last_flight _ _ _ _ c2 (s2 <| t_out := [] |>) (se_out _ _ _ _ _ _ _ K4) (switched_drained _ _ _ _ _ _ _ K3))
    as (s3 & E5 & K5).
  exists (c2 <| t_out := [] |>), s3. split_and!; [|exact (secured_drained _ _ _ _ _ _ _ K4)|exact K5].
  unfold handshake. rewrite E1. cbn [mbind option_bind]. rewrite E2. cbn [mbind option_bind]. rewrite E3.
  cbn [mbind option_bind]. rewrite E4. cbn [mbind option_bind]. exact E5.
Qed.

End handshake.

(** ** Theorems *)

(** C4: A client and a server that carry their output to each other complete the key
    exchange.  Two flights, whatever the seeds, bring both to the key exchange
    with each other's offer.  The remaining three end with both established, the
    same session identifier, and the sending keys of each the receiving keys of
    the other, with the sequence numbers in step; this needs the two properties
    of the curve that the exchange rests on: that X25519 agrees, without a zero
    key, and that a signature verifies. *)
Theorem handshake_agrees host_seed server_seed server_cookie client_seed client_cookie :
  seeds_ok host_seed server_seed server_cookie -> seeds_ok (replicate 32 0) client_seed client_cookie ->
  exists c0 s0, client client_seed client_cookie = Some c0 /\ server host_seed server_seed server_cookie = Some s0 /\
    (exists c s, hand_over c0 s0 = Some (c0 <| t_out := [] |>, s) /\
       hand_over s (c0 <| t_out := [] |>) = Some (s <| t_out := [] |>, c) /\
       in_kex Server KexReply (offer server_cookie) (offer client_cookie) server_seed 1 1 (flight server_cookie) s /\
       in_kex Client KexReply (offer client_cookie) (offer server_cookie) client_seed 1 2
         (packet_wire None 1 (init_msg (e_key client_seed))) c) /\
    (keys_nonzero server_seed client_seed ->
     curve_agrees host_seed server_seed server_cookie client_seed client_cookie ->
     let k := k_mpint_of (s_shared server_seed client_seed) in
     let h := hash_of host_seed server_seed server_cookie client_seed client_cookie (s_shared server_seed client_seed) in
     exists c s, handshake c0 s0 = Some (c, s) /\
       secured 3 3 (key_material k h 67) (key_material k h 68) h [] c /\
       secured 3 3 (key_material k h 68) (key_material k h 67) h [] s).
Proof.
  intros Hs Hc. exists (c_start client_seed client_cookie), (s_start host_seed server_seed server_cookie).
  split_and!; [exact (client_eq _ _ Hc)|apply server_eq| |].
  - destruct (first_flight _ _ _ _ _ Hs Hc) as (s & E1 & K1 & _).
    destruct (second_flight _ _ _ _ _ Hs Hc s (ik_out _ _ _ _ _ _ _ _ _ K1)) as (c & E2 & K2).
    exists c, s. split_and!; [exact E1|exact E2|exact K1|exact K2].
  - intros Hk Ha. exact (handshake_runs _ _ _ _ _ Hs Hc Hk Ha).
Qed.

Lemma handshake_agrees_witness :
  exists c0 s0, client (replicate 32 2) (replicate 16 3) = Some c0 /\
    server (replicate 32 1) (replicate 32 4) (replicate 16 5) = Some s0 /\
    exists c s, hand_over c0 s0 = Some (c0 <| t_out := [] |>, s) /\
      hand_over s (c0 <| t_out := [] |>) = Some (s <| t_out := [] |>, c).
Proof.
  destruct (handshake_agrees (replicate 32 1) (replicate 32 4) (replicate 16 5) (replicate 32 2) (replicate 16 3))
    as (c0 & s0 & Ec & Es & (c & s & E1 & E2 & _) & _).
  - split; split; (reflexivity || by apply is_bytes_check).
  - split; split; (reflexivity || by apply is_bytes_check).
  - exists c0, s0. exact (conj Ec (conj Es (ex_intro _ c (ex_intro _ s (conj E1 E2))))).
Defined.

Lemma zero_secret_closes e t :
  ready t -> t_role t = Server -> t_state t = KexReply -> is_bytes e -> length e = 32%nat -> e <> replicate 32 0 ->
  X25519 (t_x25519_seed t) e = replicate 32 0 ->
  exists t', feed (rx_wire (init_msg e) t) t =
      Some (Err (LocalDisconnect KeyExchangeFailed "all-zero X25519 shared secret"), t') /\ t_state t' = Closed.
Proof.
  intros Hr Hro Hs Hb Hl Hne Hz. pose proof (init_msg_ok e Hb Hl) as Hsend.
  pose proof (ev_wf _ _ (wf_arrived _ _ Hr Hsend)) as Hwa.
  destruct (disconnect_eq (A := Dispatch) KeyExchangeFailed "all-zero X25519 shared secret" (arrived (init_msg e) [] t))
    as (t' & Ed & _ & Hc).
  exists t'. split; [|exact Hc]. apply feed_refuses; [done|done|]. rewrite init_dispatched by done.
  unfold handle_ecdh_init. rewrite info_start, info_len by done. unfold bind at 1. rewrite proc_range_arrived by done.
  unfold init_msg at 1. rewrite parse_ecdh_init_ok by done. unfold bind at 1, get.
  change (t_x25519_seed (arrived (init_msg e) [] t)) with (t_x25519_seed t).
  pose proof (shared_secret_spec (t_x25519_seed t) e (wf_seed_bytes _ (rd_wf _ Hr)) (wf_seed _ (rd_wf _ Hr)) Hb Hl Hne) as Es.
  rewrite decide_True in Es by exact Hz. unfold bind at 1. rewrite Es. exact Ed.
Qed.

(** A server answers a client's key as RFC 8731 and RFC 4253 prescribe: the
    reply carries its host key, its public key and its signature of the exchange
    hash, NEWKEYS follows in the clear, and the keys of the two directions are
    derived from the shared secret and the hash with the letters C and D; a key
    that makes the secret zero closes the connection. *)
Theorem server_key_exchange e t :
  ready t -> t_role t = Server -> t_state t = KexReply -> t_out t = [] ->
  is_bytes e -> length e = 32%nat -> e <> replicate 32 0 ->
  if decide (X25519 (t_x25519_seed t) e = replicate 32 0) then
    exists t', feed (rx_wire (init_msg e) t) t =
        Some (Err (LocalDisconnect KeyExchangeFailed "all-zero X25519 shared secret"), t') /\ t_state t' = Closed
  else
    exists t', feed (rx_wire (init_msg e) t) t = Some (Ok Progress, t') /\ wf t' /\ t_state t' = NewKeys /\
      pending_output t' = packet_wire (t_tx_keys t) (t_tx_seq t) (server_reply t e) ++
        packet_wire (t_tx_keys t) (wrapping_add 32 (t_tx_seq t) 1) [SSH_MSG_NEWKEYS] /\
      t_session_id t' = Some (server_hash t e) /\
      t_pending_rx t' = Some (key_material (server_k t e) (server_hash t e) 67) /\
      t_tx_keys t' = Some (key_material (server_k t e) (server_hash t e) 68).
Proof.
  intros Hr Hro Hs Ho Hb Hl Hne. destruct (decide _) as [Hz|Hz]; [by apply zero_secret_closes|].
  pose proof (init_msg_ok e Hb Hl) as Hsend. destruct (rx_wire_fits _ _ Hr Hsend) as [Ht Hbw]. pose proof Hr as [Hw _ Hp Hi].
  set (t0 := pushed (rx_wire (init_msg e) t) t).
  assert (Hw0 : wf t0) by (apply wf_pushed; [done|done|apply Ht]).
  assert (Hi0 : t_inbuf t0 = packet_wire (t_rx_keys t0) (t_rx_seq t0) (init_msg e) ++ [])
    by (change (t_inbuf t ++ rx_wire (init_msg e) t = rx_wire (init_msg e) t ++ []); by rewrite Hi, app_nil_r).
  destruct (server_reply_ok t e Hw) as (_ & _ & Hrl).
  assert (Hf1 : fits t0 (server_reply t0 e) = true).
  { change (fits t (server_reply t e) = true). apply fits_small; rewrite Hrl; [done|]. by rewrite Ho. }
  set (t2 := after_emit (server_reply t0 e) (with_exchange e (arrived (init_msg e) [] t0))).
  assert (Eo : t_out t2 = packet_wire (t_tx_keys t) (t_tx_seq t) (server_reply t e)).
  { transitivity (t_out t ++ packet_wire (t_tx_keys t) (t_tx_seq t) (server_reply t e)); [reflexivity|by rewrite Ho]. }
  assert (Hf2 : fits t2 [SSH_MSG_NEWKEYS] = true).
  { apply fits_small; [done|]. rewrite Eo. pose proof (packet_wire_bound (t_tx_keys t) (t_tx_seq t) (server_reply t e)) as H.
    rewrite Hrl in H. specialize (H ltac:(done)). change (zlen [SSH_MSG_NEWKEYS]) with 1. unfold OUT_CAP. lia. }
  assert (G := goes_on_init e [] t0 Hw0 Hro Hs Hp Hb Hl Hne Hz Hi0 Hf1 Hf2). set (t3 := server_switch _ _ _) in G.
  destruct (rounds_feed _ _ t3 Hw Hbw Ht) as [E Hw3]; [by apply (rounds_next _ t3); [|constructor]|reflexivity|].
  exists t3. split_and!; [exact E|exact Hw3|reflexivity| |reflexivity|reflexivity|reflexivity].
  transitivity (t_out t2 ++ packet_wire (t_tx_keys t2) (t_tx_seq t2) [SSH_MSG_NEWKEYS]); [reflexivity|].
  rewrite Eo. reflexivity.
Qed.

Lemma server_key_exchange_witness :
  exists t, t_state t = KexReply /\
    if decide (X25519 (t_x25519_seed t) (replicate 32 9) = replicate 32 0) then
      exists t', feed (rx_wire (init_msg (replicate 32 9)) t) t =
        Some (Err (LocalDisconnect KeyExchangeFailed "all-zero X25519 shared secret"), t') /\ t_state t' = Closed
    else
      exists t', feed (rx_wire (init_msg (replicate 32 9)) t) t = Some (Ok Progress, t') /\ wf t' /\ t_state t' = NewKeys /\
        pending_output t' = packet_wire (t_tx_keys t) (t_tx_seq t) (server_reply t (replicate 32 9)) ++
          packet_wire (t_tx_keys t) (wrapping_add 32 (t_tx_seq t) 1) [SSH_MSG_NEWKEYS] /\
        t_session_id t' = Some (server_hash t (replicate 32 9)) /\
        t_pending_rx t' = Some (key_material (server_k t (replicate 32 9)) (server_hash t (replicate 32 9)) 67) /\
        t_tx_keys t' = Some (key_material (server_k t (replicate 32 9)) (server_hash t (replicate 32 9)) 68).
Proof.
  assert (Hs : seeds_ok (replicate 32 1) (replicate 32 4) (replicate 16 5))
    by (split; split; (reflexivity || by apply is_bytes_check)).
  assert (Hc : seeds_ok (replicate 32 0) (replicate 32 2) (replicate 16 3))
    by (split; split; (reflexivity || by apply is_bytes_check)).
  destruct (first_flight _ _ _ _ _ Hs Hc) as (s & _ & K & _). apply in_kex_drained in K.
  set (t := s <| t_out := [] |>) in K. destruct K as [Kw Kr Ks Kp Ki _ _ _ _ _ _ _ Ko].
  exists t. split; [exact Ks|]. apply (server_key_exchange (replicate 32 9) t).
  - constructor; [exact Kw|rewrite Ks; split; discriminate|exact Kp|exact Ki].
  - exact Kr.
  - exact Ks.
  - exact Ko.
  - by apply is_bytes_check.
  - reflexivity.
  - discriminate.
Defined.

(** ** The client's check *)

Lemma deliver_same info d t r t' : deliver info d t = Some (r, t') -> t' = t.
Proof.
  destruct d; cbn [deliver]; unfold bind, get, lift, ret, proc_range, bind, get, lift, ret.
  - by intros [= _ <-].
  - destruct (t_proc t !! _); [|done]. destruct (index_range _ _ _); [|done]. by intros [= _ <-].
  - by intros [= _ <-].
  - destruct (index_range _ _ _); [|done]. by intros [= _ <-].
Qed.

Lemma reply_unimplemented_ok seq : is_bytes [3; wrap 8 (Z.shiftr seq 24); wrap 8 (Z.shiftr seq 16);
    wrap 8 (Z.shiftr seq 8); wrap 8 seq].
Proof. repeat constructor; try apply wrap_word; lia. Qed.

(** Of the messages in the last step of the exchange, only a reply moves a client on. *)
Lemma client_moves_on msg info t d t' :
  wf t -> t_role t = Client -> t_state t = KexReply ->
  stage_of (panics := True) info -> dispatch_kexreply msg info t = Some (Ok d, t') ->
  t_state t' = KexReply \/ signed_exchange t t'.
Proof.
  intros Hw Hr Hs Hst. unfold dispatch_kexreply.
  destruct (dispatch_pre_established msg info) as [m|] eqn:Em.
  - intros E. left. revert Em E. unfold dispatch_pre_established.
    assert (Hp : forall t1, take_peer_disconnect info t = Some (Ok d, t1) -> False).
    { intros t1. unfold take_peer_disconnect, bind, get, lift, ret, modify, fail.
      destruct (index_range _ _ _); [|done]. by destruct (Reader.u32 _). }
    repeat (match goal with |- context [match ?x with _ => _ end] => is_var x; destruct x end; try done);
      intros [= <-] E; first [by injection E as <- <- | by apply disconnect_not_ok in E | by apply Hp in E].
  - unfold bind at 1, get. rewrite Hr, bool_decide_false, bool_decide_true by done. cbn [andb].
    destruct (_ =? _).
    + intros E. right. pose proof (runs_ecdh_reply (panics := True) info t Hst Hw Hs) as H. unfold runs in H.
      rewrite E in H. by eapply H.
    + destruct (unexpected_kex_message msg); [by intros E; apply disconnect_not_ok in E|].
      unfold unimplemented_here, bind at 1, get, reply_unimplemented, bind.
      rewrite emit_packet_spec by (apply reply_unimplemented_ok || by cbv). destruct (fits _ _); [|done].
      intros [= _ <-]. by left.
Qed.


