(* ===== verification/UserMessage.v ===== *)
(** * Messages at the system call boundary (shared/abi/src/core.rs)

    The message record that user programs send and receive, the limits that
    [channel_send] (kernel/core/src/syscall/handlers/ipc.rs) enforces on it, and
    the array accesses of the services that read and fill its words: reading or
    writing outside an array, or slicing past its end, is [None], a panic. *)

From S2P Require Import Prelude.
From stdpp Require Import base list option.
From Stdlib Require Import ZArith Lia.

#[local] Open Scope Z_scope.

Definition IPC_MAX_WORDS : nat := 16.
Definition IPC_MAX_HANDLES : nat := 8.
Definition INVALID_HANDLE : Z := 0.

(** The errors of the user runtime that its request builders return
    (userspace/programs/runtime/src/lib.rs). *)
Inductive Error : Type := InvalidArgument | BufferTooSmall.

Record RawMessage : Type := mkRawMessage {
  tag : Z; word_count : Z; handle_count : Z; flags : Z;
  words : list Z; handles : list Z; handle_rights : list Z
}.

Module RawMessage.

Definition empty (tag : Z) : RawMessage :=
  mkRawMessage tag 0 0 0 (replicate IPC_MAX_WORDS 0) (replicate IPC_MAX_HANDLES INVALID_HANDLE)
    (replicate IPC_MAX_HANDLES 0).

Definition with_tag (t : Z) (m : RawMessage) : RawMessage :=
  mkRawMessage t (word_count m) (handle_count m) (flags m) (words m) (handles m) (handle_rights m).

Definition with_words (n : Z) (ws : list Z) (m : RawMessage) : RawMessage :=
  mkRawMessage (tag m) n (handle_count m) (flags m) ws (handles m) (handle_rights m).

(** The first check of [handle_channel_send]: a message that claims more words
    or handles than a message holds is refused with [BufferTooSmall]. *)
Definition accepted (m : RawMessage) : bool :=
  negb ((Z.of_nat IPC_MAX_WORDS <? word_count m) || (Z.of_nat IPC_MAX_HANDLES <? handle_count m)).

(** What a received message satisfies: the kernel delivers at most
    [IPC_MAX_WORDS] words. *)
Definition received (m : RawMessage) : Prop :=
  length (words m) = IPC_MAX_WORDS /\ Forall is_u64 (words m) /\
  0 <= word_count m <= Z.of_nat IPC_MAX_WORDS.

End RawMessage.

(** ** Array accesses that can panic *)

(** [a[i] = x] *)
Definition store {A : Type} (l : list A) (i : nat) (x : A) : option (list A) :=
  if (i <? length l)%nat then Some (<[i := x]> l) else None.

(** [&a[..n]] *)
Definition slice_to {A : Type} (l : list A) (n : nat) : option (list A) :=
  if (n <=? length l)%nat then Some (take n l) else None.

(** [&a[m..n]] *)
Definition slice_range {A : Type} (l : list A) (m n : nat) : option (list A) :=
  if (m <=? n)%nat then drop m <$> slice_to l n else None.

(** Iterators over a predicate that can panic: [position] and [any]. *)
Fixpoint position {A : Type} (f : A -> option bool) (l : list A) : option (option nat) :=
  match l with
  | [] => Some None
  | x :: l => b ← f x; if b : bool then Some (Some 0%nat) else option_map (option_map S) (position f l)
  end.

Section accesses.
Context {A : Type}.
Implicit Types l : list A.

Lemma store_ok l i x : (i < length l)%nat -> store l i x = Some (<[i := x]> l).
Proof. intros ?. unfold store. by rewrite (proj2 (Nat.ltb_lt _ _)). Qed.

Lemma store_Some l i x k : store l i x = Some k -> (i < length l)%nat /\ k = <[i := x]> l.
Proof. unfold store. destruct (Nat.ltb_spec i (length l)); naive_solver. Qed.

Lemma store_None l i x : (length l <= i)%nat -> store l i x = None.
Proof. intros ?. unfold store. by rewrite (proj2 (Nat.ltb_ge _ _)). Qed.

Lemma store_app front a tail (x : A) i :
  i = length front -> store (front ++ a :: tail) i x = Some (front ++ x :: tail).
Proof.
  intros ->. rewrite store_ok by (rewrite length_app; simpl; lia).
  by rewrite insert_app_r_alt, Nat.sub_diag by lia.
Qed.

(** The same behind elements already written. *)
Lemma store_behind front mid a tail (x : A) i :
  i = (length front + length mid)%nat ->
  store (front ++ mid ++ a :: tail) i x = Some (front ++ mid ++ x :: tail).
Proof. intros ->. rewrite !app_assoc. apply store_app. by rewrite length_app. Qed.

Lemma slice_to_ok l n : (n <= length l)%nat -> slice_to l n = Some (take n l).
Proof. intros ?. unfold slice_to. by rewrite (proj2 (Nat.leb_le _ _)). Qed.

Lemma slice_range_ok l m n : (m <= n <= length l)%nat -> slice_range l m n = Some (drop m (take n l)).
Proof. intros ?. unfold slice_range. rewrite (proj2 (Nat.leb_le _ _)), slice_to_ok by lia. done. Qed.

Lemma slice_range_None l m n : (n < m)%nat -> slice_range l m n = None.
Proof. intros ?. unfold slice_range. by rewrite (proj2 (Nat.leb_gt _ _)) by lia. Qed.

(** [position] with a predicate that does not panic on the elements. *)
Lemma position_first (f : A -> option bool) (g : A -> bool) l :
  Forall (fun x => f x = Some (g x)) l ->
  match position f l with
  | None => False
  | Some None => Forall (fun x => g x = false) l
  | Some (Some i) =>
      exists x, l !! i = Some x /\ g x = true /\ Forall (fun y => g y = false) (take i l)
  end.
Proof.
  induction 1 as [|x l Hx _ IH]; simpl; [constructor|]. rewrite Hx. simpl.
  destruct (g x) eqn:Hg; [exists x; by repeat split|].
  destruct (position f l) as [[i|]|]; simpl; [|by constructor|done].
  destruct IH as (y & Hy & Hgy & Hl). exists y. repeat split; [done..|]. by constructor.
Qed.

End accesses.
