(* ===== verification/Firewall.v ===== *)
(** * The firewall table (userspace/programs/network-service/src/firewall.rs)

    Ordered rules with hit counters, address sets of CIDR entries, the default
    inbound policy, the decision, and the codecs of rules and entries.  An
    array is a list of its length; [None] is a panic (an index outside an
    array, or an underflow in a build with overflow checks). *)

From S2P Require Import Prelude Words UserMessage.
From stdpp Require Import base list option.
From Stdlib Require Import ZArith Lia.

#[local] Open Scope Z_scope.

Definition MAX_FIREWALL_RULES : nat := 6.
Definition MAX_FIREWALL_ADDR_SETS : nat := 8.
Definition MAX_FIREWALL_ADDR_SET_ENTRIES : nat := 4.

Inductive RemoteAddress : Type := RemoteV4 (a : list Z) | RemoteV6 (a : list Z).

Inductive CidrFamily : Type := V4 | V6.

Record Cidr : Type := mkCidr { family : CidrFamily; prefix : Z; address : list Z }.

Module Cidr.

Definition v4 (address : list Z) (prefix : Z) : option Cidr :=
  if 32 <? prefix then None else Some (mkCidr V4 prefix (take 4 address ++ replicate 12 0)).

Definition v6 (address : list Z) (prefix : Z) : option Cidr :=
  if 128 <? prefix then None else Some (mkCidr V6 prefix address).

(** [u32::MAX << (32 - prefix.min(32))], and the same at 128 bits *)
Definition mask (w prefix : Z) : Z :=
  if prefix =? 0 then 0 else shl w (2 ^ w - 1) (w - Z.min prefix w).

Definition contains (c : Cidr) (remote : RemoteAddress) : bool :=
  match family c, remote with
  | V4, RemoteV4 remote =>
      Z.land (from_be_bytes remote) (mask 32 (prefix c)) =?
      Z.land (from_be_bytes (take 4 (address c))) (mask 32 (prefix c))
  | V6, RemoteV6 remote =>
      Z.land (from_be_bytes remote) (mask 128 (prefix c)) =?
      Z.land (from_be_bytes (address c)) (mask 128 (prefix c))
  | _, _ => false
  end.

Definition to_words (c : Cidr) : list Z :=
  let fam := match family c with V4 => 0 | V6 => 1 end in
  let value := from_be_bytes (address c) in
  let '(word_a, word_b) :=
    match family c with
    | V4 => (wrap 64 (Z.shiftr value 96), 0)
    | V6 => (wrap 64 (Z.shiftr value 64), wrap 64 value)
    end in
  [Z.lor fam (shl 64 (prefix c) 8); word_a; word_b].

Definition from_words (w0 w1 w2 : Z) : option Cidr :=
  let code := Z.land w0 0xff in
  let prefix := wrap 8 (Z.land (Z.shiftr w0 8) 0xff) in
  if code =? 0 then
    if 32 <? prefix then None
    else v4 (to_be_bytes 4 (wrap 32 (Z.land w1 0xffffffff))) prefix
  else if code =? 1 then
    if 128 <? prefix then None
    else v6 (to_be_bytes 16 (Z.lor (shl 128 w1 64) w2)) prefix
  else None.

Definition EMPTY_SLOT : Cidr := mkCidr V4 0 (replicate 16 0).

End Cidr.

Record AddrSet : Type := mkAddrSet { defined : bool; entry_count : nat; entries : list Cidr }.

Module AddrSet.

Definition EMPTY : AddrSet :=
  mkAddrSet false 0 (replicate MAX_FIREWALL_ADDR_SET_ENTRIES Cidr.EMPTY_SLOT).

(** The slots past the new entries keep what they held. *)
Definition define (s : AddrSet) (cidrs : list Cidr) : bool * AddrSet :=
  if (MAX_FIREWALL_ADDR_SET_ENTRIES <? length cidrs)%nat then (false, s)
  else
    let n := Nat.min (length (entries s)) (length cidrs) in
    (true, mkAddrSet true (length cidrs) (take n cidrs ++ drop n (entries s))).

Definition contains (s : AddrSet) (remote : RemoteAddress) : option bool :=
  live ← slice_to (entries s) (entry_count s);
  Some (existsb (fun cidr => Cidr.contains cidr remote) live).

End AddrSet.

Inductive RuleAction : Type := Allow | Deny.
Inductive Proto : Type := Any | Tcp | Udp | Icmp.
Inductive Direction : Type := Inbound | Outbound.

#[export] Instance RuleAction_eq_dec : EqDecision RuleAction.
Proof. solve_decision. Defined.
#[export] Instance Proto_eq_dec : EqDecision Proto.
Proof. solve_decision. Defined.
#[export] Instance Direction_eq_dec : EqDecision Direction.
Proof. solve_decision. Defined.

Module RuleAction.

Definition from_word (value : Z) : option RuleAction :=
  if value =? 0 then Some Allow else if value =? 1 then Some Deny else None.

Definition word (a : RuleAction) : Z := match a with Allow => 0 | Deny => 1 end.

End RuleAction.

Module Proto.

Definition from_word (value : Z) : option Proto :=
  if value =? 0 then Some Any else if value =? 1 then Some Tcp
  else if value =? 2 then Some Udp else if value =? 3 then Some Icmp else None.

Definition word (p : Proto) : Z :=
  match p with Any => 0 | Tcp => 1 | Udp => 2 | Icmp => 3 end.

Definition matches (p other : Proto) : bool := bool_decide (p = Any) || bool_decide (p = other).

End Proto.

Module Direction.

Definition word (d : Direction) : Z := match d with Inbound => 0 | Outbound => 1 end.

Definition from_word (value : Z) : option Direction :=
  if value =? 0 then Some Inbound else if value =? 1 then Some Outbound else None.

End Direction.

Record FirewallRule : Type := mkFirewallRule {
  action : RuleAction; proto : Proto; direction : Direction; port : Z;
  interface : option Z; addr_set : option Z; enabled : bool; hits : Z
}.

Module FirewallRule.

Definition empty : FirewallRule := mkFirewallRule Allow Any Inbound 0 None None false 0.

Definition matches (r : FirewallRule) (dir : Direction) (prot : Proto)
    (local_port remote_port iface_index : Z) (remote : RemoteAddress) (addr_sets : list AddrSet) :
    option bool :=
  if negb (enabled r) || bool_decide (direction r <> dir) || negb (Proto.matches (proto r) prot)
     || match interface r with Some i => negb (i =? iface_index) | None => false end
  then Some false
  else
    member ← match addr_set r with
             | Some set_id =>
                 index ← chk 64 (set_id - 1);
                 match addr_sets !! Z.to_nat index with
                 | Some set => AddrSet.contains set remote
                 | None => Some false
                 end
             | None => Some true
             end;
    if negb member then Some false
    else
      let subject_port := match dir with Inbound => local_port | Outbound => remote_port end in
      Some ((port r =? 0) || (port r =? subject_port)).

Definition qualifier (addr_set interface : option Z) : Z :=
  match addr_set with
  | Some set => Z.lor 0x0100 set
  | None => match interface with Some i => i + 1 | None => 0 end
  end.

Definition pack (r : FirewallRule) : Z * Z :=
  (Z.lor (Z.lor (Z.lor (Z.lor (Z.lor (RuleAction.word (action r))
     (shl 64 (Proto.word (proto r)) 8)) (shl 64 (Direction.word (direction r)) 16))
     (shl 64 (Z.b2z (enabled r)) 24)) (shl 64 (port r) 32))
     (shl 64 (qualifier (addr_set r) (interface r)) 48),
   hits r).

Definition unpack (word : Z) (enabled : bool) : option FirewallRule :=
  let q := wrap 16 (Z.shiftr word 48) in
  '(interface, addr_set) ←
    (if q =? 0 then Some (None, None)
     else if (1 <=? q) && (q <=? 0x00ff) then Some (Some (q - 1), None)
     else if (0x0100 <=? q) && (q <=? 0x01ff) then Some (None, Some (wrap 8 (Z.land q 0xff)))
     else None);
  action ← RuleAction.from_word (Z.land word 0xff);
  proto ← Proto.from_word (Z.land (Z.shiftr word 8) 0xff);
  direction ← Direction.from_word (Z.land (Z.shiftr word 16) 0xff);
  Some (mkFirewallRule action proto direction (wrap 16 (Z.shiftr word 32)) interface addr_set
          enabled 0).

(** [rule.hits = rule.hits.saturating_add(1)] *)
Definition hit (r : FirewallRule) : FirewallRule :=
  mkFirewallRule (action r) (proto r) (direction r) (port r) (interface r) (addr_set r) (enabled r)
    (saturating_add U64_MAX (hits r) 1).

End FirewallRule.

Record FirewallState : Type := mkFirewallState {
  rules : list FirewallRule; rule_count : nat; addr_sets : list AddrSet;
  default_inbound_allow : bool; inbound_denied_total : Z; outbound_denied_total : Z
}.

Module FirewallState.

Definition new : FirewallState :=
  mkFirewallState (replicate MAX_FIREWALL_RULES FirewallRule.empty) 0
    (replicate MAX_FIREWALL_ADDR_SETS AddrSet.EMPTY) true 0 0.

Definition with_rules (rs : list FirewallRule) (n : nat) (f : FirewallState) : FirewallState :=
  mkFirewallState rs n (addr_sets f) (default_inbound_allow f) (inbound_denied_total f)
    (outbound_denied_total f).

Definition with_sets (sets : list AddrSet) (f : FirewallState) : FirewallState :=
  mkFirewallState (rules f) (rule_count f) sets (default_inbound_allow f) (inbound_denied_total f)
    (outbound_denied_total f).

Definition addr_set_defined (f : FirewallState) (id : Z) : bool :=
  if id <? 1 then false
  else match addr_sets f !! Z.to_nat (id - 1) with Some set => defined set | None => false end.

Definition define_addr_set (f : FirewallState) (id : Z) (cidrs : list Cidr) :
    option (bool * FirewallState) :=
  index ← chk 64 (id - 1);
  match addr_sets f !! Z.to_nat index with
  | None => Some (false, f)
  | Some slot =>
      let '(ok, slot) := AddrSet.define slot cidrs in
      Some (ok, with_sets (<[Z.to_nat index := slot]> (addr_sets f)) f)
  end.

Definition clear_addr_sets (f : FirewallState) : bool * FirewallState :=
  if existsb (fun r => bool_decide (is_Some (addr_set r))) (rules f) then (false, f)
  else (true, with_sets (replicate MAX_FIREWALL_ADDR_SETS AddrSet.EMPTY) f).

(** The counter of the direction of a refused connection. *)
Definition count_denied (dir : Direction) (f : FirewallState) : FirewallState :=
  match dir with
  | Inbound =>
      mkFirewallState (rules f) (rule_count f) (addr_sets f) (default_inbound_allow f)
        (saturating_add U64_MAX (inbound_denied_total f) 1) (outbound_denied_total f)
  | Outbound =>
      mkFirewallState (rules f) (rule_count f) (addr_sets f) (default_inbound_allow f)
        (inbound_denied_total f) (saturating_add U64_MAX (outbound_denied_total f) 1)
  end.

Definition decide (f : FirewallState) (dir : Direction) (prot : Proto)
    (local_port remote_port iface_index : Z) (remote : RemoteAddress) :
    option (bool * FirewallState) :=
  live ← slice_to (rules f) (rule_count f);
  index ← position (fun rule => FirewallRule.matches rule dir prot local_port remote_port iface_index
                                  remote (addr_sets f)) live;
  '(allowed, f) ←
    match index with
    | Some index =>
        rule ← rules f !! index;
        Some (bool_decide (action rule = Allow),
              with_rules (<[index := FirewallRule.hit rule]> (rules f)) (rule_count f) f)
    | None =>
        Some (match dir with Inbound => default_inbound_allow f | Outbound => true end, f)
    end;
  Some (allowed, if negb allowed then count_denied dir f else f).

Definition empty_slots (f : FirewallState) : list FirewallRule :=
  replicate (length (rules f)) FirewallRule.empty.

Definition clear_rules (f : FirewallState) : FirewallState := with_rules (empty_slots f) 0 f.

(** The loop over the records; a record that is refused leaves an empty table. *)
Fixpoint replace_loop (n index : nat) (words : list Z) (f : FirewallState) :
    option (bool * FirewallState) :=
  match n with
  | O => Some (true, f)
  | S n =>
      flag ← words !! (index * 2 + 1)%nat;
      word ← words !! (index * 2)%nat;
      match FirewallRule.unpack word (negb (flag =? 0)) with
      | None => Some (false, clear_rules f)
      | Some rule =>
          if match addr_set rule with Some id => negb (addr_set_defined f id) | None => false end
          then Some (false, clear_rules f)
          else
            rs ← store (rules f) index rule;
            replace_loop n (S index) words (with_rules rs (rule_count f) f)
      end
  end.

Definition replace_all (f : FirewallState) (words : list Z) (count : Z) :
    option (bool * FirewallState) :=
  if (Z.of_nat MAX_FIREWALL_RULES <? count) || (zlen words <? count * 2) then Some (false, f)
  else
    '(ok, f) ← replace_loop (Z.to_nat count) 0 words (with_rules (empty_slots f) (rule_count f) f);
    Some (ok, if ok : bool then with_rules (rules f) (Z.to_nat count) f else f).

Definition set_default_inbound_allow (f : FirewallState) (allow : bool) : FirewallState :=
  mkFirewallState (rules f) (rule_count f) (addr_sets f) allow (inbound_denied_total f)
    (outbound_denied_total f).

Fixpoint encode_rules (rs : list FirewallRule) (used : nat) (reply_words : list Z) :
    option (list Z * nat) :=
  match rs with
  | [] => Some (reply_words, used)
  | rule :: rs =>
      let '(word, hits) := FirewallRule.pack rule in
      reply_words ← store reply_words used word;
      reply_words ← store reply_words (used + 1) hits;
      encode_rules rs (used + 2) reply_words
  end.

Definition encode_reply (f : FirewallState) (reply_words : list Z) : option (list Z * nat) :=
  reply_words ← store reply_words 1 (Z.of_nat (rule_count f));
  reply_words ← store reply_words 2 (Z.b2z (default_inbound_allow f));
  reply_words ← store reply_words 3
    (Z.lor (shl 64 (Z.min (inbound_denied_total f) U32_MAX) 32)
       (Z.min (outbound_denied_total f) U32_MAX));
  live ← slice_to (rules f) (rule_count f);
  encode_rules live 4 reply_words.

End FirewallState.
