(* ===== verification/FirewallProps.v ===== *)
(** * What the firewall decides, and the invariant of its table

    Membership in an address set as agreement of the leading bits of two
    addresses, the rule that decides as the first one that applies, and the
    invariant that every operation of the table keeps: the counts are within
    the arrays, the slots past the rules are empty, and every rule that names
    an address set names one that is defined. *)

From Stdlib Require Import ZArith Lia.
From stdpp Require Import base option list.
From S2P Require Import Prelude Words UserMessage Firewall.

#[local] Open Scope Z_scope.

(** ** CIDR membership *)

(** The first [p] of [w] bits of [x] and [y] are the same. *)
Definition leading_bits_agree (w p x y : Z) : Prop :=
  forall i, w - p <= i < w -> Z.testbit x i = Z.testbit y i.

Definition in_cidr (c : Cidr) (remote : RemoteAddress) : Prop :=
  match family c, remote with
  | V4, RemoteV4 a =>
      leading_bits_agree 32 (prefix c) (from_be_bytes a) (from_be_bytes (take 4 (address c)))
  | V6, RemoteV6 a =>
      leading_bits_agree 128 (prefix c) (from_be_bytes a) (from_be_bytes (address c))
  | _, _ => False
  end.

Definition width_of (fam : CidrFamily) : Z := match fam with V4 => 32 | V6 => 128 end.

Definition cidr_wf (c : Cidr) : Prop :=
  length (address c) = 16%nat /\ is_bytes (address c) /\ 0 <= prefix c <= width_of (family c) /\
  (family c = V4 -> drop 4 (address c) = replicate 12 0).

Definition remote_wf (remote : RemoteAddress) : Prop :=
  match remote with
  | RemoteV4 a => length a = 4%nat /\ is_bytes a
  | RemoteV6 a => length a = 16%nat /\ is_bytes a
  end.

Lemma mask_testbit w p i :
  0 <= p <= w -> 0 <= i < w -> Z.testbit (Cidr.mask w p) i = (w - p <=? i).
Proof.
  intros Hp Hi. unfold Cidr.mask. destruct (Z.eqb_spec p 0) as [->|].
  { rewrite Z.bits_0. symmetry. apply Z.leb_gt. lia. }
  rewrite Z.min_l by lia. unfold shl, wrap. rewrite Z.mod_pow2_bits_low by lia.
  rewrite Z.sub_1_r, <- Z.ones_equiv.
  destruct (Z.leb_spec (w - p) i).
  - rewrite Z.shiftl_spec_high by lia. apply Z.ones_spec_low. lia.
  - by rewrite Z.shiftl_spec_low by lia.
Qed.

Lemma mask_high w p i : 0 <= p <= w -> w <= i -> Z.testbit (Cidr.mask w p) i = false.
Proof.
  intros Hp Hi. unfold Cidr.mask. destruct (p =? 0); [apply Z.bits_0|].
  unfold shl, wrap. by rewrite Z.mod_pow2_bits_high by lia.
Qed.

Lemma masked_eq_iff w p x y :
  0 <= p <= w ->
  Z.land x (Cidr.mask w p) = Z.land y (Cidr.mask w p) <-> leading_bits_agree w p x y.
Proof.
  intros Hp. split.
  - intros E i Hi. apply (f_equal (fun z => Z.testbit z i)) in E.
    rewrite !Z.land_spec, mask_testbit, (proj2 (Z.leb_le _ _)), !andb_true_r in E by lia. done.
  - intros H. apply Z.bits_inj'. intros i Hi. rewrite !Z.land_spec.
    destruct (Z.lt_ge_cases i w); [|rewrite mask_high by lia; by rewrite !andb_false_r].
    rewrite mask_testbit by lia. destruct (Z.leb_spec (w - p) i); [|by rewrite !andb_false_r].
    by rewrite H by lia.
Qed.

Lemma cidr_contains_iff c remote :
  cidr_wf c -> Cidr.contains c remote = true <-> in_cidr c remote.
Proof.
  intros (_ & _ & Hp & _). unfold Cidr.contains, in_cidr.
  destruct (family c), remote; simpl in Hp; try done; rewrite Z.eqb_eq; by apply masked_eq_iff.
Qed.

(** ** Address sets *)

Definition set_wf (s : AddrSet) : Prop :=
  length (entries s) = MAX_FIREWALL_ADDR_SET_ENTRIES /\
  (entry_count s <= MAX_FIREWALL_ADDR_SET_ENTRIES)%nat /\ Forall cidr_wf (entries s).

Definition in_set (s : AddrSet) (remote : RemoteAddress) : Prop :=
  Exists (fun c => in_cidr c remote) (take (entry_count s) (entries s)).

Lemma existsb_Exists {A : Type} (f : A -> bool) (P : A -> Prop) l :
  Forall (fun x => f x = true <-> P x) l -> existsb f l = true <-> Exists P l.
Proof.
  induction 1 as [|x l Hx _ IH]; simpl; [by rewrite Exists_nil|].
  rewrite orb_true_iff, Exists_cons. tauto.
Qed.

Lemma set_contains_spec s remote :
  set_wf s -> exists b, AddrSet.contains s remote = Some b /\ (b = true <-> in_set s remote).
Proof.
  intros (Hlen & Hn & Hwf). unfold AddrSet.contains. rewrite slice_to_ok by lia. simpl.
  eexists. split; [done|]. apply existsb_Exists. apply Forall_take.
  eapply Forall_impl; [exact Hwf|]. intros c Hc. by apply cidr_contains_iff.
Qed.

Lemma define_spec s cidrs :
  set_wf s -> Forall cidr_wf cidrs ->
  let '(ok, s') := AddrSet.define s cidrs in
  set_wf s' /\ ok = bool_decide (length cidrs <= MAX_FIREWALL_ADDR_SET_ENTRIES)%nat /\
  if ok then defined s' = true /\ take (entry_count s') (entries s') = cidrs else s' = s.
Proof.
  intros (Hlen & Hn & Hwf) Hc. unfold AddrSet.define.
  destruct (Nat.ltb_spec MAX_FIREWALL_ADDR_SET_ENTRIES (length cidrs)) as [Hlt|Hle].
  { rewrite bool_decide_eq_false_2 by lia. done. }
  rewrite bool_decide_eq_true_2 by lia. rewrite Hlen, Nat.min_r by lia.
  rewrite firstn_all. simpl. split; [|split; [done|split; [done|apply take_app_length]]].
  split; [|split]; simpl.
  - rewrite length_app, length_drop. lia.
  - done.
  - apply Forall_app. split; [done|]. by apply Forall_drop.
Qed.

Lemma set_wf_empty : set_wf AddrSet.EMPTY.
Proof.
  split; [done|split; [simpl; lia|]]. apply Forall_replicate. split; [done|]. split.
  { by apply Forall_replicate. }
  split; [simpl; lia|done].
Qed.

(** ** Rules *)

(** A connection as the table judges it. *)
Record Connection : Type := mkConnection {
  c_direction : Direction; c_proto : Proto; c_local_port : Z; c_remote_port : Z;
  c_interface : Z; c_remote : RemoteAddress
}.

Definition subject_port (c : Connection) : Z :=
  match c_direction c with Inbound => c_local_port c | Outbound => c_remote_port c end.

(** The rule speaks about the connection. *)
Definition applies (sets : list AddrSet) (c : Connection) (r : FirewallRule) : Prop :=
  enabled r = true /\ direction r = c_direction c /\ (proto r = Any \/ proto r = c_proto c) /\
  (forall i, interface r = Some i -> i = c_interface c) /\
  (forall id, addr_set r = Some id ->
     exists s, sets !! Z.to_nat (id - 1) = Some s /\ in_set s (c_remote c)) /\
  (port r = 0 \/ port r = subject_port c).

(** The first rule that applies decides; without one the default does. *)
Definition first_match (sets : list AddrSet) (c : Connection) (rs : list FirewallRule)
    (dflt allowed : bool) : Prop :=
  (exists pre r post, rs = pre ++ r :: post /\ Forall (fun r => ~ applies sets c r) pre /\
     applies sets c r /\ allowed = bool_decide (action r = Allow)) \/
  (Forall (fun r => ~ applies sets c r) rs /\ allowed = dflt).

Definition rule_wf (sets : list AddrSet) (r : FirewallRule) : Prop :=
  is_word 16 (port r) /\ is_u64 (hits r) /\ (forall i, interface r = Some i -> 0 <= i < 255) /\
  (interface r = None \/ addr_set r = None) /\
  (forall id, addr_set r = Some id ->
     1 <= id <= Z.of_nat MAX_FIREWALL_ADDR_SETS /\
     exists s, sets !! Z.to_nat (id - 1) = Some s /\ defined s = true).

Lemma rule_wf_empty sets : rule_wf sets FirewallRule.empty.
Proof. unfold rule_wf, is_word, is_u64. simpl. split_and!; try done; by left. Qed.

Definition matches_conn (c : Connection) (sets : list AddrSet) (r : FirewallRule) : option bool :=
  FirewallRule.matches r (c_direction c) (c_proto c) (c_local_port c) (c_remote_port c)
    (c_interface c) (c_remote c) sets.

Lemma proto_matches_iff p q : Proto.matches p q = true <-> p = Any \/ p = q.
Proof. unfold Proto.matches. by rewrite orb_true_iff, !bool_decide_eq_true. Qed.

(** The membership test of a rule returns, and decides membership. *)
Lemma member_spec sets r remote :
  rule_wf sets r -> Forall set_wf sets ->
  exists b,
    match addr_set r with
    | Some set_id =>
        index ← chk 64 (set_id - 1);
        match sets !! Z.to_nat index with
        | Some set => AddrSet.contains set remote
        | None => Some false
        end
    | None => Some true
    end = Some b /\
    (b = true <-> forall id, addr_set r = Some id ->
                   exists s, sets !! Z.to_nat (id - 1) = Some s /\ in_set s remote).
Proof.
  intros (_ & _ & _ & _ & Hset) Hsets. destruct (addr_set r) as [id|].
  - destruct (Hset id eq_refl) as (Hid & s & Hs & _). rewrite chk_ok by (unfold MAX_FIREWALL_ADDR_SETS in Hid; lia). simpl.
    rewrite Hs. destruct (set_contains_spec s remote) as (b & Hb & Hiff).
    { by eapply Forall_lookup_1. }
    exists b. split; [done|]. rewrite Hiff. naive_solver.
  - exists true. naive_solver.
Qed.

Lemma matches_spec sets c r :
  rule_wf sets r -> Forall set_wf sets ->
  exists b, matches_conn c sets r = Some b /\ (b = true <-> applies sets c r).
Proof.
  intros Hr Hsets. destruct (member_spec sets r (c_remote c) Hr Hsets) as (m & Hm & Hmem).
  unfold matches_conn, FirewallRule.matches, applies. rewrite Hm. clear Hm Hr Hsets.
  destruct (enabled r); simpl; [|exists false; naive_solver].
  case_bool_decide as Hd; simpl; [exists false; naive_solver|].
  destruct (Proto.matches (proto r) (c_proto c)) eqn:Hp; simpl.
  2: { exists false. split; [done|]. rewrite <- not_true_iff_false, proto_matches_iff in Hp. naive_solver. }
  apply proto_matches_iff in Hp.
  assert (match interface r with Some i => negb (i =? c_interface c) | None => false end = false <->
          forall i, interface r = Some i -> i = c_interface c) as Hi.
  { destruct (interface r) as [i|]; [|naive_solver].
    rewrite negb_false_iff, Z.eqb_eq. naive_solver. }
  destruct (match interface r with Some _ => _ | None => _ end).
  { exists false. naive_solver. }
  destruct m; simpl; [|exists false; naive_solver].
  eexists. split; [done|]. rewrite orb_true_iff, !Z.eqb_eq. unfold subject_port. naive_solver.
Qed.

(** A rule judges connections by everything but its hit counter. *)
Definition same_rule (r r' : FirewallRule) : Prop :=
  action r = action r' /\ proto r = proto r' /\ direction r = direction r' /\ port r = port r' /\
  interface r = interface r' /\ addr_set r = addr_set r' /\ enabled r = enabled r'.

#[export] Instance same_rule_equiv : Equivalence same_rule.
Proof. split; red; unfold same_rule; naive_solver congruence. Qed.

Lemma applies_same sets c r r' : same_rule r r' -> applies sets c r <-> applies sets c r'.
Proof.
  intros (_ & E1 & E2 & E3 & E4 & E5 & E6). unfold applies. by rewrite E1, E2, E3, E4, E5, E6.
Qed.

Lemma first_match_same sets c rs rs' dflt allowed :
  Forall2 same_rule rs rs' -> first_match sets c rs dflt allowed -> first_match sets c rs' dflt allowed.
Proof.
  intros HF [(pre & r & post & -> & Hpre & Hr & ->)|[Hall ->]].
  - apply Forall2_app_inv_l in HF as (pre' & l & HF1 & HF2 & ->).
    inversion HF2 as [|? r' ? post' Hsame]; subst. left. exists pre', r', post'.
    split; [done|]. split; [|split].
    + clear -Hpre HF1. induction HF1; inversion Hpre; subst; constructor; [|by auto].
      by rewrite <- applies_same.
    + by rewrite <- applies_same.
    + destruct Hsame as [-> _]. done.
  - right. split; [|done]. induction HF; inversion Hall; subst; constructor; [|by auto].
    by rewrite <- applies_same.
Qed.

(** ** The invariant of the table *)

Definition fw_wf (f : FirewallState) : Prop :=
  length (rules f) = MAX_FIREWALL_RULES /\ (rule_count f <= MAX_FIREWALL_RULES)%nat /\
  Forall (rule_wf (addr_sets f)) (rules f) /\
  drop (rule_count f) (rules f) =
    replicate (MAX_FIREWALL_RULES - rule_count f) FirewallRule.empty /\
  length (addr_sets f) = MAX_FIREWALL_ADDR_SETS /\ Forall set_wf (addr_sets f) /\
  is_u64 (inbound_denied_total f) /\ is_u64 (outbound_denied_total f).

(** The policy in force: the live rules. *)
Definition live (f : FirewallState) : list FirewallRule := take (rule_count f) (rules f).

Definition default_verdict (f : FirewallState) (c : Connection) : bool :=
  match c_direction c with Inbound => default_inbound_allow f | Outbound => true end.

Definition decide_conn (f : FirewallState) (c : Connection) : option (bool * FirewallState) :=
  FirewallState.decide f (c_direction c) (c_proto c) (c_local_port c) (c_remote_port c)
    (c_interface c) (c_remote c).

(** The two states judge every connection alike. *)
Definition same_policy (f f' : FirewallState) : Prop :=
  Forall2 same_rule (live f) (live f') /\ addr_sets f = addr_sets f' /\
  default_inbound_allow f = default_inbound_allow f'.

#[export] Instance same_policy_equiv : Equivalence same_policy.
Proof.
  split; red; unfold same_policy.
  - intros f. by repeat split.
  - intros f g (H & -> & ->). by repeat split.
  - intros f g h (H & -> & ->) (H' & -> & ->). repeat split. by etrans.
Qed.

Lemma fw_wf_new : fw_wf FirewallState.new.
Proof.
  split_and!; try done.
  - unfold MAX_FIREWALL_RULES. simpl. lia.
  - apply (Forall_replicate _ MAX_FIREWALL_RULES). apply rule_wf_empty.
  - apply (Forall_replicate _ MAX_FIREWALL_ADDR_SETS). apply set_wf_empty.
Qed.

Lemma rule_wf_hit sets r : rule_wf sets r -> rule_wf sets (FirewallRule.hit r).
Proof.
  intros (H1 & [H2 H2'] & H3). unfold rule_wf, FirewallRule.hit, saturating_add, is_u64 in *.
  simpl. split_and!; try done; try lia; apply H3.
Qed.

Lemma saturating_u64 n : is_u64 n -> is_u64 (saturating_add U64_MAX n 1).
Proof. unfold is_u64, saturating_add. lia. Qed.

Lemma fw_wf_count_denied dir f : fw_wf f -> fw_wf (FirewallState.count_denied dir f).
Proof.
  intros (?&?&?&?&?&?&?&?). destruct dir; split_and!; simpl; try done; by apply saturating_u64.
Qed.

Lemma fw_wf_hit f i r :
  fw_wf f -> live f !! i = Some r ->
  fw_wf (FirewallState.with_rules (<[i := FirewallRule.hit r]> (rules f)) (rule_count f) f).
Proof.
  intros (Hlen & Hn & Hr & Hd & H) Hi. apply lookup_take_Some in Hi as [Hi Hlt].
  split_and!; simpl; try apply H; try done.
  - by rewrite length_insert.
  - apply Forall_insert; [done|]. apply rule_wf_hit. by eapply Forall_lookup_1.
  - by rewrite drop_insert_lt.
Qed.

Lemma same_policy_hit f i r :
  live f !! i = Some r ->
  same_policy f (FirewallState.with_rules (<[i := FirewallRule.hit r]> (rules f)) (rule_count f) f).
Proof.
  intros Hi. split; [|done]. unfold live in *. simpl.
  pose proof Hi as [_ Hlt]%lookup_take_Some. rewrite take_insert_lt by done.
  rewrite <- (list_insert_id (take _ _) i r) at 1 by done.
  apply Forall2_insert; [done|]. by repeat split.
Qed.

Lemma same_policy_count_denied dir f : same_policy f (FirewallState.count_denied dir f).
Proof. by destruct dir. Qed.

Lemma first_match_unique sets c rs d a a' :
  first_match sets c rs d a -> first_match sets c rs d a' -> a = a'.
Proof.
  intros [(pre & r & post & -> & Hpre & Hr & ->)|[Hall ->]]
    [(pre' & r' & post' & E & Hpre' & Hr' & ->)|[Hall' ->]]; [| | |done].
  - revert pre' E Hpre'. induction Hpre as [|x pre Hx _ IH]; intros [|y pre'] E Hpre'; simplify_eq/=.
    + done.
    + by apply Forall_cons in Hpre' as [? _].
    + done.
    + apply Forall_cons in Hpre' as [_ ?]. by eapply IH.
  - apply Forall_app in Hall' as [_ [? _]%Forall_cons]. done.
  - subst rs. apply Forall_app in Hall as [_ [? _]%Forall_cons]. done.
Qed.

(** The scan of the rules returns the position of the first one that applies. *)
Lemma position_first_match f c (d : bool) :
  Forall (rule_wf (addr_sets f)) (live f) -> Forall set_wf (addr_sets f) ->
  match position (matches_conn c (addr_sets f)) (live f) with
  | None => False
  | Some None => first_match (addr_sets f) c (live f) d d
  | Some (Some i) => exists r, live f !! i = Some r /\
      first_match (addr_sets f) c (live f) d (bool_decide (action r = Allow))
  end.
Proof.
  intros Hr Hs.
  set (g := fun r => match matches_conn c (addr_sets f) r with Some b => b | None => false end).
  assert (Forall (fun r => matches_conn c (addr_sets f) r = Some (g r) /\
            (g r = true <-> applies (addr_sets f) c r)) (live f)) as [Hg1 Hg2]%Forall_and.
  { eapply Forall_impl; [exact Hr|]. intros r Hrw.
    destruct (matches_spec (addr_sets f) c r Hrw Hs) as (b & Hb & Hiff). unfold g. by rewrite Hb. }
  assert (forall l, l ⊆ live f -> Forall (fun r => g r = false) l ->
            Forall (fun r => ~ applies (addr_sets f) c r) l) as Hno.
  { intros l Hsub Hl. rewrite Forall_forall in *. intros r Hin Ha.
    apply Hg2 in Ha; [|by apply Hsub]. by rewrite (Hl r Hin) in Ha. }
  pose proof (position_first _ g _ Hg1) as Hpos.
  destruct (position _ _) as [[i|]|]; [| |done].
  - destruct Hpos as (r & Hi & Hgr & Hpre). exists r. split; [done|]. left.
    exists (take i (live f)), r, (drop (S i) (live f)). split; [symmetry; by apply take_drop_middle|].
    split; [apply Hno; [apply subseteq_take|done]|]. split; [|done].
    by apply (Forall_lookup_1 _ _ _ _ Hg2 Hi).
  - right. split; [|done]. by apply Hno.
Qed.

Lemma decide_spec f c :
  fw_wf f ->
  exists allowed f', decide_conn f c = Some (allowed, f') /\ fw_wf f' /\ same_policy f f' /\
            first_match (addr_sets f) c (live f) (default_verdict f c) allowed.
Proof.
  intros Hwf. pose proof Hwf as (Hlen & Hn & Hr & _ & _ & Hs & _).
  unfold decide_conn, FirewallState.decide. rewrite slice_to_ok by lia. simpl.
  change (take (rule_count f) (rules f)) with (live f).
  change (fun rule => FirewallRule.matches rule _ _ _ _ _ _ _) with (matches_conn c (addr_sets f)).
  pose proof (position_first_match f c (default_verdict f c) (Forall_take _ _ _ Hr) Hs) as Hpos.
  destruct (position _ _) as [[i|]|]; [| |done]; simpl.
  - destruct Hpos as (r & Hi & HF). pose proof Hi as [Hi' _]%lookup_take_Some. rewrite Hi'. simpl.
    eexists _, _. split; [done|].
    case_bool_decide; simpl; (split; [|split; [|done]]);
      eauto using fw_wf_hit, fw_wf_count_denied, same_policy_hit.
    etrans; [by apply same_policy_hit|]. apply same_policy_count_denied.
  - eexists _, _. split; [done|]. unfold default_verdict in *.
    destruct (match c_direction c with Inbound => _ | _ => _ end); simpl; [done|].
    split; [by apply fw_wf_count_denied|]. split; [apply same_policy_count_denied|done].
Qed.

(** ** Replacing the rules *)

(** What a rule record of a request decodes to: nothing when a field is out of
    range or the address set it names is not defined. *)
Definition record_rule (f : FirewallState) (word : Z) (flag : bool) : option FirewallRule :=
  rule ← FirewallRule.unpack word flag;
  if match addr_set rule with Some id => negb (FirewallState.addr_set_defined f id) | None => false end
  then None else Some rule.

Definition record_at (f : FirewallState) (words : list Z) (i : nat) : option FirewallRule :=
  record_rule f (words !!! (i * 2)%nat) (negb (words !!! (i * 2 + 1)%nat =? 0)).

Lemma clear_with_rules f rs n :
  length rs = length (rules f) ->
  FirewallState.clear_rules (FirewallState.with_rules rs n f) = FirewallState.clear_rules f.
Proof.
  intros Hlen. unfold FirewallState.clear_rules, FirewallState.with_rules, FirewallState.empty_slots.
  simpl. by rewrite Hlen.
Qed.

Lemma replace_loop_spec words n : forall index front f,
  rules f = front ++ replicate (MAX_FIREWALL_RULES - index) FirewallRule.empty ->
  length front = index -> (index + n <= MAX_FIREWALL_RULES)%nat ->
  ((index + n) * 2 <= length words)%nat ->
  FirewallState.replace_loop n index words f =
  match mapM (record_at f words) (seq index n) with
  | Some rs => Some (true, FirewallState.with_rules
      (front ++ rs ++ replicate (MAX_FIREWALL_RULES - (index + n)) FirewallRule.empty)
      (rule_count f) f)
  | None => Some (false, FirewallState.clear_rules f)
  end.
Proof.
  induction n as [|n IH]; intros index front f Hr Hf Hn Hw.
  - simpl. rewrite Nat.add_0_r, <- Hr. by destruct f.
  - cbn [FirewallState.replace_loop seq mapM].
    rewrite (list_lookup_lookup_total_lt words (index * 2 + 1)) by lia.
    rewrite (list_lookup_lookup_total_lt words (index * 2)) by lia. cbn [mbind option_bind].
    change (record_at f words index) with (record_rule f (words !!! (index * 2)%nat)
      (negb (words !!! (index * 2 + 1)%nat =? 0))). unfold record_rule at 1.
    destruct (FirewallRule.unpack _ _) as [rule|]; [|done]. cbn [mbind option_bind].
    destruct (match addr_set rule with Some _ => _ | None => _ end); [done|]. cbn [mbind option_bind].
    assert (length (rules f) = MAX_FIREWALL_RULES) as Hlen.
    { rewrite Hr, length_app, length_replicate. lia. }
    rewrite store_ok by lia. cbn [mbind option_bind].
    assert (<[index := rule]> (rules f) =
            (front ++ [rule]) ++ replicate (MAX_FIREWALL_RULES - S index) FirewallRule.empty) as Hrs.
    { rewrite Hr, insert_app_r_alt by lia. rewrite Hf, Nat.sub_diag.
      replace (MAX_FIREWALL_RULES - index)%nat with (S (MAX_FIREWALL_RULES - S index)) by lia.
      simpl. by rewrite <- app_assoc. }
    rewrite (IH (S index) (front ++ [rule])); [|done|rewrite length_app; simpl; lia|lia|lia].
    rewrite clear_with_rules by (by rewrite length_insert).
    change (record_at (FirewallState.with_rules _ _ f)) with (record_at f).
    destruct (mapM (record_at f words) (seq (S index) n)) as [rs|]; [|done].
    cbn [mbind option_bind]. unfold FirewallState.with_rules. simpl.
    by rewrite <- app_assoc, Nat.add_succ_r.
Qed.

(** Every branch of the replacement: too many rules, or fewer words than they
    need, change nothing; a record that does not decode leaves no rule at all;
    otherwise the records are the rules. *)
Lemma replace_all_spec f words count :
  length (rules f) = MAX_FIREWALL_RULES -> 0 <= count ->
  FirewallState.replace_all f words count =
  if (Z.of_nat MAX_FIREWALL_RULES <? count) || (zlen words <? count * 2) then Some (false, f)
  else match mapM (record_at f words) (seq 0 (Z.to_nat count)) with
       | None => Some (false, FirewallState.clear_rules f)
       | Some rs => Some (true, FirewallState.with_rules
           (rs ++ replicate (MAX_FIREWALL_RULES - Z.to_nat count) FirewallRule.empty)
           (Z.to_nat count) f)
       end.
Proof.
  intros Hlen Hc. unfold FirewallState.replace_all.
  destruct (Z.ltb_spec (Z.of_nat MAX_FIREWALL_RULES) count); [done|].
  destruct (Z.ltb_spec (zlen words) (count * 2)); [done|]. simpl orb. cbv iota.
  rewrite (replace_loop_spec words _ 0 []);
    [|simpl; unfold FirewallState.empty_slots; by rewrite Hlen|done|lia|unfold zlen in *; lia].
  change (record_at (FirewallState.with_rules _ _ f)) with (record_at f).
  destruct (mapM _ _) as [rs|]; [done|]. cbn [mbind option_bind]. rewrite clear_with_rules; [done|].
  apply length_replicate.
Qed.

Lemma unpack_wf word flag rule :
  FirewallRule.unpack word flag = Some rule ->
  is_word 16 (port rule) /\ hits rule = 0 /\ enabled rule = flag /\
  (forall i, interface rule = Some i -> 0 <= i < 255) /\
  (interface rule = None \/ addr_set rule = None).
Proof.
  unfold FirewallRule.unpack. generalize (wrap 16 (Z.shiftr word 48)) as q. intros q H.
  apply bind_Some in H as ([i s] & Hq & H).
  apply bind_Some in H as (a & _ & H). apply bind_Some in H as (p & _ & H).
  apply bind_Some in H as (d & _ & H). injection H as <-. cbn [port hits enabled interface addr_set].
  split; [by apply wrap_word|]. split; [done|]. split; [done|].
  destruct (q =? 0); [|destruct ((1 <=? q) && (q <=? 255)) eqn:E;
    [|destruct ((256 <=? q) && (q <=? 511))]]; [..|done]; injection Hq as <- <-.
  - naive_solver.
  - apply andb_true_iff in E. naive_solver lia.
  - naive_solver.
Qed.

Lemma addr_set_defined_iff f id :
  length (addr_sets f) = MAX_FIREWALL_ADDR_SETS ->
  FirewallState.addr_set_defined f id = true <->
  1 <= id <= Z.of_nat MAX_FIREWALL_ADDR_SETS /\
  exists s, addr_sets f !! Z.to_nat (id - 1) = Some s /\ defined s = true.
Proof.
  intros Hlen. unfold FirewallState.addr_set_defined.
  destruct (Z.ltb_spec id 1); [naive_solver lia|].
  destruct (addr_sets f !! Z.to_nat (id - 1)) as [s|] eqn:Hs; [|naive_solver].
  apply lookup_lt_Some in Hs. rewrite Hlen in Hs. naive_solver lia.
Qed.

Lemma record_rule_wf f word flag rule :
  length (addr_sets f) = MAX_FIREWALL_ADDR_SETS ->
  record_rule f word flag = Some rule -> rule_wf (addr_sets f) rule.
Proof.
  intros Hlen. unfold record_rule.
  destruct (FirewallRule.unpack word flag) as [r|] eqn:Hu; [|done]. simpl.
  intros H. destruct (match addr_set r with Some _ => _ | None => _ end) eqn:Hd; simplify_eq.
  apply unpack_wf in Hu as (Hp & Hh & _ & Hi & Hx). split; [done|]. split; [by rewrite Hh|].
  split; [done|]. split; [done|]. intros id Hid. rewrite Hid in Hd.
  apply addr_set_defined_iff; [done|]. by apply negb_false_iff.
Qed.

(** ** The operations keep the invariant *)

Lemma fw_wf_with_rules f rs n :
  fw_wf f -> (n <= MAX_FIREWALL_RULES)%nat -> length rs = n -> Forall (rule_wf (addr_sets f)) rs ->
  fw_wf (FirewallState.with_rules
    (rs ++ replicate (MAX_FIREWALL_RULES - n) FirewallRule.empty) n f).
Proof.
  intros (Hlen & Hn & Hr & Hd & H) Hle Hrs Hw. split_and!; simpl; try apply H.
  - rewrite length_app, length_replicate. lia.
  - lia.
  - apply Forall_app. split; [done|]. apply Forall_replicate. apply rule_wf_empty.
  - by rewrite <- Hrs, drop_app_length.
Qed.

Lemma fw_wf_clear_rules f : fw_wf f -> fw_wf (FirewallState.clear_rules f).
Proof.
  intros Hwf. unfold FirewallState.clear_rules, FirewallState.empty_slots.
  rewrite (proj1 Hwf). apply (fw_wf_with_rules f [] 0); [done|lia|done|constructor].
Qed.

Lemma mapM_record_wf f words l rs :
  length (addr_sets f) = MAX_FIREWALL_ADDR_SETS ->
  mapM (record_at f words) l = Some rs -> length rs = length l /\ Forall (rule_wf (addr_sets f)) rs.
Proof.
  intros Hlen H%mapM_Some_1. split; [symmetry; by eapply Forall2_length|].
  induction H as [|i r l rs Hr _ IH]; constructor; [|done]. by eapply record_rule_wf.
Qed.

Lemma fw_wf_replace_all f words count :
  fw_wf f -> 0 <= count ->
  exists ok f', FirewallState.replace_all f words count = Some (ok, f') /\ fw_wf f'.
Proof.
  intros Hwf Hc. pose proof Hwf as (Hlen & _ & _ & _ & Hsets & _).
  rewrite replace_all_spec by done.
  destruct (Z.ltb_spec (Z.of_nat MAX_FIREWALL_RULES) count); [by eexists _, _|].
  destruct (zlen words <? count * 2); [by eexists _, _|]. simpl orb. cbv iota.
  destruct (mapM _ _) as [rs|] eqn:Hm; (eexists _, _; split; [done|]); [|by apply fw_wf_clear_rules].
  apply mapM_record_wf in Hm as [Hl Hrs]; [|done]. rewrite length_seq in Hl.
  apply fw_wf_with_rules; [done|lia|done|done].
Qed.

Lemma rule_wf_mono sets sets' r :
  (forall i s, sets !! i = Some s -> defined s = true ->
     exists s', sets' !! i = Some s' /\ defined s' = true) ->
  rule_wf sets r -> rule_wf sets' r.
Proof.
  intros Hmono (H1 & H2 & H3 & H4 & H5). split_and!; try done. intros id Hid.
  destruct (H5 id Hid) as (Hb & s & Hs & Hd). naive_solver.
Qed.

Lemma fw_wf_with_sets f sets :
  fw_wf f -> length sets = MAX_FIREWALL_ADDR_SETS -> Forall set_wf sets ->
  Forall (rule_wf sets) (rules f) -> fw_wf (FirewallState.with_sets sets f).
Proof. intros (?&?&_&?&_&_&?&?) Hlen Hsets Hr. by split_and!. Qed.

(** A definition succeeds within the capacities, and then the entries of the
    set are those given; the other sets stay. *)
Lemma define_addr_set_spec f id cidrs :
  fw_wf f -> 1 <= id < 256 -> Forall cidr_wf cidrs ->
  exists ok f', FirewallState.define_addr_set f id cidrs = Some (ok, f') /\ fw_wf f' /\
    rules f' = rules f /\ rule_count f' = rule_count f /\
    default_inbound_allow f' = default_inbound_allow f /\
    ok = (id <=? Z.of_nat MAX_FIREWALL_ADDR_SETS) &&
         bool_decide (length cidrs <= MAX_FIREWALL_ADDR_SET_ENTRIES)%nat /\
    if ok then exists s, addr_sets f' = <[Z.to_nat (id - 1) := s]> (addr_sets f) /\
                 defined s = true /\ take (entry_count s) (entries s) = cidrs
    else f' = f.
Proof.
  intros Hwf Hid Hc. pose proof Hwf as (_ & _ & Hr & _ & Hlen & Hs & _).
  unfold FirewallState.define_addr_set. rewrite chk_ok by lia. cbn [mbind option_bind].
  destruct (addr_sets f !! Z.to_nat (id - 1)) as [slot|] eqn:Hslot.
  - pose proof (lookup_lt_Some _ _ _ Hslot) as Hlt. rewrite Hlen in Hlt.
    pose proof (define_spec slot cidrs (Forall_lookup_1 _ _ _ _ Hs Hslot) Hc) as Hdef.
    destruct (AddrSet.define slot cidrs) as [ok s']. destruct Hdef as (Hs' & -> & Hok).
    rewrite (proj2 (Z.leb_le id _)) by lia. simpl andb.
    eexists _, _. split; [done|]. case_bool_decide.
    2: { subst s'. rewrite list_insert_id by done. destruct f. by split_and!. }
    destruct Hok as [Hd Ht]. split; [|split_and!; try done; by exists s'].
    apply fw_wf_with_sets; [done|by rewrite length_insert|by apply Forall_insert|].
    eapply Forall_impl; [exact Hr|]. intros r. apply rule_wf_mono. intros i s Hi Hds.
    destruct (decide (i = Z.to_nat (id - 1))) as [->|Hne].
    + exists s'. by rewrite list_lookup_insert_eq by lia.
    + exists s. by rewrite list_lookup_insert_ne by done.
  - apply lookup_ge_None in Hslot. rewrite Hlen in Hslot.
    exists false, f. by rewrite (proj2 (Z.leb_gt id _)) by lia.
Qed.

Lemma clear_addr_sets_spec f :
  fw_wf f ->
  let '(ok, f') := FirewallState.clear_addr_sets f in
  fw_wf f' /\ rules f' = rules f /\ rule_count f' = rule_count f /\
  (ok = true <-> Forall (fun r => addr_set r = None) (rules f)) /\
  addr_sets f' = if ok then replicate MAX_FIREWALL_ADDR_SETS AddrSet.EMPTY else addr_sets f.
Proof.
  intros Hwf. unfold FirewallState.clear_addr_sets.
  destruct (existsb _ (rules f)) eqn:He.
  - split_and!; try done; try apply Hwf. split; [done|]. intros Hall. exfalso.
    apply existsb_exists in He as (r & Hin & Hs). apply bool_decide_eq_true in Hs as [id Hs].
    rewrite Forall_forall in Hall. rewrite Hall in Hs; [done|]. by apply list_elem_of_In.
  - assert (Forall (fun r => addr_set r = None) (rules f)) as Hall.
    { apply Forall_forall. intros r Hin. apply eq_None_not_Some. intros Hs.
      apply not_true_iff_false in He. apply He, existsb_exists. exists r.
      split; [by apply list_elem_of_In|]. by apply bool_decide_eq_true. }
    split; [|by split_and!]. apply fw_wf_with_sets; [done|done| |].
    + apply Forall_replicate. apply set_wf_empty.
    + pose proof Hwf as (_ & _ & Hr & _). rewrite Forall_forall in *. intros r Hin.
      destruct (Hr r Hin) as (?&?&?&?&_). split_and!; try done. intros id.
      rewrite (Hall r Hin). done.
Qed.
