(* ===== verification/FirewallWire.v ===== *)
(** * The firewall's requests, from the client to the decision

    The client's side of the firewall messages
    (userspace/programs/runtime/src/network.rs) and the three arms of the
    network service's dispatcher that serve them
    (userspace/programs/network-service/src/protocol/public.rs).  A handler
    returns the table and the reply it hands to [channel_send]; [None] is a
    panic of the service, and no reply is a request without a reply handle. *)

From Stdlib Require Import ZArith Lia.
From stdpp Require Import base option list.
From S2P Require Import Prelude Words UserMessage Firewall FirewallProps.

#[local] Open Scope Z_scope.

Module NetworkTag.
Definition FirewallRulesSetRequest : Z := 0x80e.
Definition FirewallRulesReply : Z := 0x80f.
Definition FirewallRulesGetRequest : Z := 0x810.
Definition FirewallAddrSetDefineRequest : Z := 0x834.
Definition FirewallAddrSetReply : Z := 0x835.
End NetworkTag.

Module NetworkStatus.
Definition Ok : Z := 0.
Definition InvalidTarget : Z := 3.
End NetworkStatus.

(** ** The client *)

Inductive NetworkFirewallProto : Type := ProtoAny | ProtoTcp | ProtoUdp | ProtoIcmp.
Inductive NetworkFirewallDirection : Type := DirInbound | DirOutbound.

(** [proto as u64] and [direction as u64] *)
Definition proto_code (p : NetworkFirewallProto) : Z :=
  match p with ProtoAny => 0 | ProtoTcp => 1 | ProtoUdp => 2 | ProtoIcmp => 3 end.
Definition direction_code (d : NetworkFirewallDirection) : Z :=
  match d with DirInbound => 0 | DirOutbound => 1 end.

Record NetworkFirewallRule : Type := mkNetworkFirewallRule {
  nf_deny : bool; nf_proto : NetworkFirewallProto; nf_direction : NetworkFirewallDirection;
  nf_port : Z; nf_interface : option Z; nf_addr_set : option Z; nf_enabled : bool
}.

Definition pack_firewall_rule_word (rule : NetworkFirewallRule) : Z :=
  let qualifier :=
    match nf_addr_set rule with
    | Some set_id => Z.lor 0x0100 set_id
    | None => match nf_interface rule with Some index => index + 1 | None => 0 end
    end in
  Z.lor (Z.lor (Z.lor (Z.lor (Z.lor (Z.b2z (nf_deny rule)) (shl 64 (proto_code (nf_proto rule)) 8))
    (shl 64 (direction_code (nf_direction rule)) 16)) (shl 64 (Z.b2z (nf_enabled rule)) 24))
    (shl 64 (nf_port rule) 32)) (shl 64 qualifier 48).

Fixpoint fill_records (rules : list NetworkFirewallRule) (base : nat) (ws : list Z) :
    option (list Z) :=
  match rules with
  | [] => Some ws
  | rule :: rules =>
      ws ← store ws base (pack_firewall_rule_word rule);
      ws ← store ws (base + 1) (Z.b2z (nf_enabled rule));
      fill_records rules (base + 2) ws
  end.

Definition firewall_replace_request (rules : list NetworkFirewallRule) :
    option (result RawMessage Error) :=
  if (IPC_MAX_WORDS <? 2 + length rules * 2)%nat then Some (Err BufferTooSmall)
  else
    let request := RawMessage.empty NetworkTag.FirewallRulesSetRequest in
    ws ← store (words request) 0 0;
    ws ← store ws 1 (zlen rules);
    ws ← fill_records rules 2 ws;
    Some (Ok (RawMessage.with_words (2 + zlen rules * 2) ws request)).

Definition MAX_NETWORK_FIREWALL_ADDR_SETS : Z := 8.
Definition MAX_NETWORK_FIREWALL_ADDR_SET_ENTRIES : nat := 4.

Record NetworkFirewallAddrSetEntry : Type := mkNetworkFirewallAddrSetEntry {
  ne_address : RemoteAddress; ne_prefix : Z
}.

(** [NetworkFirewallAddr] has the constructors of [RemoteAddress]. *)
Fixpoint fill_entries (entries : list NetworkFirewallAddrSetEntry) (base : nat) (ws : list Z) :
    option (result (list Z) Error) :=
  match entries with
  | [] => Some (Ok ws)
  | entry :: entries =>
      let '(family, prefix_max) :=
        match ne_address entry with RemoteV4 _ => (0, 32) | RemoteV6 _ => (1, 128) end in
      if prefix_max <? ne_prefix entry then Some (Err InvalidArgument)
      else
        let '(word_a, word_b) :=
          match ne_address entry with
          | RemoteV4 octets => (from_be_bytes octets, 0)
          | RemoteV6 octets =>
              let value := from_be_bytes octets in (wrap 64 (Z.shiftr value 64), wrap 64 value)
          end in
        ws ← store ws base (Z.lor family (shl 64 (ne_prefix entry) 8));
        ws ← store ws (base + 1) word_a;
        ws ← store ws (base + 2) word_b;
        fill_entries entries (base + 3) ws
  end.

Definition firewall_addr_set_define_request (set_id : Z)
    (entries : list NetworkFirewallAddrSetEntry) : option (result RawMessage Error) :=
  if (MAX_NETWORK_FIREWALL_ADDR_SETS <? set_id)
     || (MAX_NETWORK_FIREWALL_ADDR_SET_ENTRIES <? length entries)%nat
     || (IPC_MAX_WORDS <? 2 + length entries * 3)%nat
  then Some (Err BufferTooSmall)
  else
    let request := RawMessage.empty NetworkTag.FirewallAddrSetDefineRequest in
    ws ← store (words request) 0 set_id;
    ws ← store ws 1 (zlen entries);
    filled ← fill_entries entries 2 ws;
    match filled with
    | Err e => Some (Err e)
    | Ok ws => Some (Ok (RawMessage.with_words (2 + zlen entries * 3) ws request))
    end.

Record NetworkFirewallSummary : Type := mkNetworkFirewallSummary {
  ns_rule_count : Z; ns_default_inbound_allow : bool;
  ns_inbound_denied_total : Z; ns_outbound_denied_total : Z
}.

(** The statuses other than [Ok] are errors of [network_status_error]. *)
Definition network_firewall_summary_parse_reply (response : RawMessage) :
    option NetworkFirewallSummary :=
  if negb (tag response =? NetworkTag.FirewallRulesReply) || (word_count response <? 4) then None
  else if negb (default 0 (words response !! 0%nat) =? NetworkStatus.Ok) then None
  else
    let w i := default 0 (words response !! i) in
    Some (mkNetworkFirewallSummary (wrap 32 (w 1%nat)) (negb (w 2%nat =? 0))
            (wrap 32 (Z.shiftr (w 3%nat) 32)) (wrap 32 (Z.land (w 3%nat) 0xffffffff))).

(** ** The service *)

(** A fresh reply whose first word is the status. *)
Definition fresh_reply (t status : Z) : RawMessage :=
  RawMessage.with_words 0 (<[0%nat := status]> (words (RawMessage.empty t))) (RawMessage.empty t).

Definition table_reply (f : FirewallState) : option RawMessage :=
  let reply := fresh_reply NetworkTag.FirewallRulesReply NetworkStatus.Ok in
  '(ws, used) ← FirewallState.encode_reply f (words reply);
  Some (RawMessage.with_words (Z.of_nat used + 1) ws reply).

Definition handle_rules_set (f : FirewallState) (request : RawMessage) :
    option (FirewallState * option RawMessage) :=
  if handle_count request <? 1 then Some (f, None)
  else
    let op := default U64_MAX (words request !! 0%nat) in
    '(applied, f) ←
      (if op =? 0 then
         let count := default 0 (words request !! 1%nat) in
         fields ← slice_range (words request) 2 (Z.to_nat (word_count request));
         FirewallState.replace_all f fields count
       else if op =? 1 then
         Some (true, FirewallState.set_default_inbound_allow f
                       (negb (default 1 (words request !! 1%nat) =? 0)))
       else if op =? 2 then Some (true, FirewallState.clear_rules f)
       else Some (false, f));
    if applied : bool then
      reply ← table_reply f;
      Some (f, Some reply)
    else
      let reply := fresh_reply NetworkTag.FirewallRulesReply NetworkStatus.InvalidTarget in
      Some (f, Some (RawMessage.with_words 1 (words reply) reply)).

Definition handle_rules_get (f : FirewallState) (request : RawMessage) :
    option (FirewallState * option RawMessage) :=
  if handle_count request <? 1 then Some (f, None)
  else reply ← table_reply f; Some (f, Some reply).

(** The loop over the entries; it stops at the first malformed entry and at the
    first one that is not in the payload. *)
Fixpoint parse_entries (n index parsed : nat) (payload : list Z) (cidrs : list Cidr)
    (well_formed : bool) : option (list Cidr * nat * bool) :=
  match n with
  | O => Some (cidrs, parsed, well_formed)
  | S n =>
      let base := (index * 3)%nat in
      if (length payload <? base + 3)%nat then Some (cidrs, parsed, false)
      else
        w0 ← payload !! base; w1 ← payload !! (base + 1)%nat; w2 ← payload !! (base + 2)%nat;
        match Cidr.from_words w0 w1 w2 with
        | Some cidr =>
            cidrs ← store cidrs parsed cidr;
            parse_entries n (S index) (S parsed) payload cidrs well_formed
        | None => Some (cidrs, parsed, false)
        end
  end.

(** [0..count] is cut at one more than the words of the payload: the loop has
    stopped by then. *)
Definition handle_addr_set_define (f : FirewallState) (request : RawMessage) :
    option (FirewallState * option RawMessage) :=
  if handle_count request <? 1 then Some (f, None)
  else
    let set_id := default U64_MAX (words request !! 0%nat) in
    let count := default 0 (words request !! 1%nat) in
    let payload := drop 2 (words request) in
    '(applied, f) ←
      (if set_id =? 0 then
         if count =? 0 then Some (FirewallState.clear_addr_sets f) else Some (false, f)
       else
         let well_formed :=
           (set_id <=? Z.of_nat MAX_FIREWALL_ADDR_SETS)
           && (count <=? Z.of_nat MAX_FIREWALL_ADDR_SET_ENTRIES)
           && (count * 3 <=? zlen payload) in
         '(cidrs, parsed, well_formed) ←
           parse_entries (Z.to_nat (Z.min count (zlen payload + 1))) 0 0 payload
             (replicate MAX_FIREWALL_ADDR_SET_ENTRIES Cidr.EMPTY_SLOT) well_formed;
         if well_formed : bool then
           live ← slice_to cidrs parsed;
           FirewallState.define_addr_set f (wrap 8 set_id) live
         else Some (false, f));
    let reply := fresh_reply NetworkTag.FirewallAddrSetReply
      (if applied : bool then NetworkStatus.Ok else NetworkStatus.InvalidTarget) in
    Some (f, Some (RawMessage.with_words 1 (words reply) reply)).

(** ** Rule words *)

Lemma lor_field a b n :
  0 <= n <= 64 -> 0 <= a < 2 ^ n -> Z.lor a (shl 64 b n) = a + b mod 2 ^ (64 - n) * 2 ^ n.
Proof.
  intros Hn Ha. rewrite shl_mul by lia. replace (2 ^ 64) with (2 ^ (64 - n) * 2 ^ n).
  - rewrite Z.mul_mod_distr_r by lia. apply lor_low; lia.
  - rewrite <- Z.pow_add_r by lia. f_equal. lia.
Qed.

(** The word that packs its fields, as a sum. *)
Lemma rule_word_sum a p d e prt q :
  0 <= a < 256 -> 0 <= p < 256 -> 0 <= d < 256 -> 0 <= e < 256 -> 0 <= prt < 65536 ->
  Z.lor (Z.lor (Z.lor (Z.lor (Z.lor a (shl 64 p 8)) (shl 64 d 16)) (shl 64 e 24))
    (shl 64 prt 32)) (shl 64 q 48) =
  a + p * 2 ^ 8 + d * 2 ^ 16 + e * 2 ^ 24 + prt * 2 ^ 32 + q mod 65536 * 2 ^ 48.
Proof.
  intros Ha Hp Hd He Hprt.
  rewrite (lor_field a p 8), (Z.mod_small p) by lia.
  rewrite (lor_field _ d 16), (Z.mod_small d) by lia.
  rewrite (lor_field _ e 24), (Z.mod_small e) by lia.
  rewrite (lor_field _ prt 32), (Z.mod_small prt) by lia.
  by rewrite (lor_field _ q 48) by lia.
Qed.

(** Reading the fields of that sum back. *)
Lemma rule_word_fields a p d e prt q w :
  0 <= a < 256 -> 0 <= p < 256 -> 0 <= d < 256 -> 0 <= e < 256 -> 0 <= prt < 65536 ->
  w = a + p * 2 ^ 8 + d * 2 ^ 16 + e * 2 ^ 24 + prt * 2 ^ 32 + q mod 65536 * 2 ^ 48 ->
  Z.land w 0xff = a /\ Z.land (Z.shiftr w 8) 0xff = p /\ Z.land (Z.shiftr w 16) 0xff = d /\
  wrap 16 (Z.shiftr w 32) = prt /\ wrap 16 (Z.shiftr w 48) = q mod 65536.
Proof.
  intros Ha Hp Hd He Hprt ->. change 0xff with (2 ^ 8 - 1).
  pose proof (Z.mod_pos_bound q 65536 eq_refl) as Hq. revert Hq. generalize (q mod 65536) as r. intros r Hr.
  unfold wrap. rewrite !land_mask, !shiftr_div by lia.
  split_and!; Z.to_euclidean_division_equations; lia.
Qed.

(** The qualifier field, decoded. *)
Definition decode_qualifier (q : Z) : option (option Z * option Z) :=
  if q =? 0 then Some (None, None)
  else if (1 <=? q) && (q <=? 0x00ff) then Some (Some (q - 1), None)
  else if (0x0100 <=? q) && (q <=? 0x01ff) then Some (None, Some (wrap 8 (Z.land q 0xff)))
  else None.

Definition proto_of (p : NetworkFirewallProto) : Proto :=
  match p with ProtoAny => Any | ProtoTcp => Tcp | ProtoUdp => Udp | ProtoIcmp => Icmp end.
Definition direction_of (d : NetworkFirewallDirection) : Direction :=
  match d with DirInbound => Inbound | DirOutbound => Outbound end.

Definition client_qualifier (r : NetworkFirewallRule) : Z :=
  match nf_addr_set r with
  | Some set_id => Z.lor 0x0100 set_id
  | None => match nf_interface r with Some index => index + 1 | None => 0 end
  end.

Lemma unpack_client_word r flag :
  is_word 16 (nf_port r) ->
  FirewallRule.unpack (pack_firewall_rule_word r) flag =
  '(interface, addr_set) ← decode_qualifier (client_qualifier r mod 65536);
  Some (mkFirewallRule (if nf_deny r then Deny else Allow) (proto_of (nf_proto r))
          (direction_of (nf_direction r)) (nf_port r) interface addr_set flag 0).
Proof.
  unfold is_word. intros Hp. unfold FirewallRule.unpack, pack_firewall_rule_word.
  fold (client_qualifier r).
  assert (0 <= Z.b2z (nf_deny r) < 256) as Ha by (destruct (nf_deny r); simpl; lia).
  assert (0 <= Z.b2z (nf_enabled r) < 256) as He by (destruct (nf_enabled r); simpl; lia).
  assert (0 <= proto_code (nf_proto r) < 256) as Hc by (destruct (nf_proto r); simpl; lia).
  assert (0 <= direction_code (nf_direction r) < 256) as Hd by (destruct (nf_direction r); simpl; lia).
  pose proof (rule_word_sum _ _ _ _ _ (client_qualifier r) Ha Hc Hd He Hp) as Hw.
  apply rule_word_fields in Hw as (-> & -> & -> & -> & ->); [|done..].
  fold (decode_qualifier (client_qualifier r mod 65536)).
  destruct (decode_qualifier _) as [[i s]|]; [|done]. cbn [mbind option_bind].
  by destruct (nf_deny r), (nf_proto r), (nf_direction r).
Qed.

(** The rule that the service installs for a client's rule. *)
Definition decoded (r : NetworkFirewallRule) : FirewallRule :=
  mkFirewallRule (if nf_deny r then Deny else Allow) (proto_of (nf_proto r))
    (direction_of (nf_direction r)) (nf_port r) (nf_interface r) (nf_addr_set r) (nf_enabled r) 0.

(** A rule that the wire format can express: at most one qualifier, and an
    interface whose index fits the field. *)
Definition expressible (r : NetworkFirewallRule) : Prop :=
  is_word 16 (nf_port r) /\ (nf_interface r = None \/ nf_addr_set r = None) /\
  (forall i, nf_interface r = Some i -> 0 <= i < 255) /\
  (forall id, nf_addr_set r = Some id -> is_word 8 id).

Lemma lor_set_id id : is_word 8 id -> Z.lor 0x0100 id = 256 + id.
Proof.
  intros Hid. rewrite Z.lor_comm. change 0x0100 with (1 * 2 ^ 8). rewrite lor_low; [lia|lia|done].
Qed.

Lemma unpack_expressible r :
  expressible r -> FirewallRule.unpack (pack_firewall_rule_word r) (nf_enabled r) = Some (decoded r).
Proof.
  intros (Hp & Hx & Hi & Hs). rewrite unpack_client_word by done. unfold client_qualifier, decoded.
  destruct (nf_addr_set r) as [id|].
  - destruct Hx as [->|]; [|done]. specialize (Hs id eq_refl). unfold is_word in Hs.
    rewrite lor_set_id, Z.mod_small by (unfold is_word; lia). unfold decode_qualifier.
    rewrite (proj2 (Z.eqb_neq _ _)), (proj2 (Z.leb_le 1 _)), (proj2 (Z.leb_gt _ 255)) by lia.
    rewrite (proj2 (Z.leb_le 256 _)), (proj2 (Z.leb_le _ 511)) by lia. simpl andb. cbv iota.
    change 0xff with (2 ^ 8 - 1). rewrite land_mask by lia.
    replace ((256 + id) mod 2 ^ 8) with id by (Z.to_euclidean_division_equations; lia).
    by rewrite wrap_small.
  - destruct (nf_interface r) as [i|]; [|done]. specialize (Hi i eq_refl).
    rewrite Z.mod_small by lia. unfold decode_qualifier.
    rewrite (proj2 (Z.eqb_neq _ _)), (proj2 (Z.leb_le 1 _)), (proj2 (Z.leb_le _ 255)) by lia.
    simpl. do 4 f_equal. lia.
Qed.

(** ** From the client's rules to the table *)

Definition rule_record (r : NetworkFirewallRule) : list Z :=
  [pack_firewall_rule_word r; Z.b2z (nf_enabled r)].
Definition records (rs : list NetworkFirewallRule) : list Z := mjoin (rule_record <$> rs).

Lemma length_records rs : length (records rs) = (2 * length rs)%nat.
Proof.
  induction rs as [|r rs IH]; [done|].
  change (records (r :: rs)) with (rule_record r ++ records rs). rewrite length_app, IH. simpl. lia.
Qed.

Lemma fill_records_app rs : forall front old tail,
  length old = (2 * length rs)%nat ->
  fill_records rs (length front) (front ++ old ++ tail) = Some (front ++ records rs ++ tail).
Proof.
  induction rs as [|r rs IH]; intros front old tail Hold; simpl in Hold.
  { by apply nil_length_inv in Hold as ->. }
  destruct old as [|x [|y old]]; simpl in Hold; [lia..|]. cbn [fill_records app].
  rewrite store_app by done. cbn [mbind option_bind].
  rewrite (store_behind front [pack_firewall_rule_word r] y (old ++ tail)) by done.
  cbn [mbind option_bind].
  change ([pack_firewall_rule_word r] ++ Z.b2z (nf_enabled r) :: old ++ tail)
    with (rule_record r ++ old ++ tail). rewrite (app_assoc front).
  replace (length front + 2)%nat with (length (front ++ rule_record r)) by (by rewrite length_app).
  rewrite IH by lia. by rewrite <- app_assoc.
Qed.

Lemma replace_request_words rs :
  (length rs <= 7)%nat ->
  firewall_replace_request rs =
  Some (Ok (RawMessage.with_words (2 + zlen rs * 2)
    ([0; zlen rs] ++ records rs ++ replicate (IPC_MAX_WORDS - 2 - 2 * length rs) 0)
    (RawMessage.empty NetworkTag.FirewallRulesSetRequest))).
Proof.
  intros Hle. unfold firewall_replace_request, IPC_MAX_WORDS.
  rewrite (proj2 (Nat.ltb_ge _ _)) by lia.
  change (store (words _) 0 0) with (Some (0 :: replicate 15 0)). cbn [mbind option_bind].
  change (store _ 1 (zlen rs)) with (Some ([0; zlen rs] ++ replicate 14 0)). cbn [mbind option_bind].
  change 2%nat with (length [0; zlen rs]) at 1.
  replace 14%nat with (2 * length rs + (16 - 2 - 2 * length rs))%nat at 1 by lia.
  rewrite replicate_add, fill_records_app by apply length_replicate. done.
Qed.

Lemma record_at_records f tail rs : forall front i,
  length front = (i * 2)%nat ->
  mapM (record_at f (front ++ records rs ++ tail)) (seq i (length rs)) =
  mapM (fun r => record_rule f (pack_firewall_rule_word r) (nf_enabled r)) rs.
Proof.
  induction rs as [|r rs IH]; intros front i Hf; [done|]. cbn [length seq mapM].
  assert (record_at f (front ++ records (r :: rs) ++ tail) i =
          record_rule f (pack_firewall_rule_word r) (nf_enabled r)) as ->.
  { unfold record_at. 
    rewrite (lookup_total_app_r front _ (i * 2)), (lookup_total_app_r front _ (i * 2 + 1)) by lia.
    replace (i * 2 - length front)%nat with 0%nat by lia.
    replace (i * 2 + 1 - length front)%nat with 1%nat by lia.
    change (record_rule f (pack_firewall_rule_word r) (negb (Z.b2z (nf_enabled r) =? 0)) =
            record_rule f (pack_firewall_rule_word r) (nf_enabled r)).
    f_equal. by destruct (nf_enabled r). }
  specialize (IH (front ++ rule_record r) (S i)). rewrite <- app_assoc in IH.
  change (records (r :: rs) ++ tail) with ((rule_record r ++ records rs) ++ tail).
  rewrite <- (app_assoc (rule_record r)), IH; [done|]. rewrite length_app. simpl. lia.
Qed.

(** The address set a rule names, if any, is defined. *)
Definition refers (f : FirewallState) (r : NetworkFirewallRule) : Prop :=
  forall id, nf_addr_set r = Some id -> FirewallState.addr_set_defined f id = true.

Lemma record_expressible f r :
  expressible r -> refers f r ->
  record_rule f (pack_firewall_rule_word r) (nf_enabled r) = Some (decoded r).
Proof.
  intros He Hr. unfold record_rule. rewrite unpack_expressible by done. simpl. unfold refers in Hr.
  destruct (nf_addr_set r) as [id|]; [|done]. by rewrite Hr.
Qed.

Lemma replace_records f rs tail :
  fw_wf f -> (length rs <= MAX_FIREWALL_RULES)%nat -> Forall expressible rs -> Forall (refers f) rs ->
  FirewallState.replace_all f (records rs ++ tail) (zlen rs) =
  Some (true, FirewallState.with_rules
    ((decoded <$> rs) ++ replicate (MAX_FIREWALL_RULES - length rs) FirewallRule.empty) (length rs) f).
Proof.
  intros Hwf Hle He Hr. rewrite replace_all_spec; [|apply Hwf|unfold zlen; lia].
  rewrite (proj2 (Z.ltb_ge _ _)) by (unfold zlen; lia).
  rewrite zlen_app. unfold zlen at 1. rewrite length_records.
  rewrite (proj2 (Z.ltb_ge _ _)) by (unfold zlen; lia). simpl orb. cbv iota.
  unfold zlen. rewrite Nat2Z.id.
  pose proof (record_at_records f tail rs [] 0 eq_refl) as Hm. simpl app in Hm. rewrite Hm. clear Hm.
  rewrite (proj2 (mapM_Some _ rs (decoded <$> rs))); [done|].
  apply Forall2_fmap_r. apply Forall_Forall2_diag. rewrite Forall_forall in *. eauto using record_expressible.
Qed.

(** ** The replies *)

Definition reply_record (r : FirewallRule) : list Z := [(FirewallRule.pack r).1; (FirewallRule.pack r).2].
Definition reply_records (rs : list FirewallRule) : list Z := mjoin (reply_record <$> rs).

Lemma encode_rules_app rs : forall front old tail,
  length old = (2 * length rs)%nat ->
  FirewallState.encode_rules rs (length front) (front ++ old ++ tail) =
  Some (front ++ reply_records rs ++ tail, (length front + 2 * length rs)%nat).
Proof.
  induction rs as [|r rs IH]; intros front old tail Hold; simpl in Hold.
  { apply nil_length_inv in Hold as ->. by rewrite Nat.add_0_r. }
  destruct old as [|x [|y old]]; simpl in Hold; [lia..|]. cbn [FirewallState.encode_rules app].
  rewrite (surjective_pairing (FirewallRule.pack r)).
  rewrite store_app by done. cbn [mbind option_bind].
  rewrite (store_behind front [(FirewallRule.pack r).1] y (old ++ tail)) by done.
  cbn [mbind option_bind].
  change ([(FirewallRule.pack r).1] ++ (FirewallRule.pack r).2 :: old ++ tail)
    with (reply_record r ++ old ++ tail). rewrite (app_assoc front).
  replace (length front + 2)%nat with (length (front ++ reply_record r)) by (by rewrite length_app).
  rewrite IH by lia. rewrite <- app_assoc, length_app. simpl. do 2 f_equal. lia.
Qed.

Definition summary_words (f : FirewallState) : list Z :=
  [NetworkStatus.Ok; Z.of_nat (rule_count f); Z.b2z (default_inbound_allow f);
   Z.lor (shl 64 (Z.min (inbound_denied_total f) U32_MAX) 32)
     (Z.min (outbound_denied_total f) U32_MAX)].

Lemma length_live_rules f : fw_wf f -> length (live f) = rule_count f.
Proof. intros (Hlen & Hn & _). unfold live. rewrite length_take. lia. Qed.

Lemma table_reply_spec f :
  fw_wf f ->
  table_reply f = Some (RawMessage.with_words (5 + 2 * Z.of_nat (rule_count f))
    (summary_words f ++ reply_records (live f) ++
       replicate (IPC_MAX_WORDS - 4 - 2 * rule_count f) 0)
    (RawMessage.empty NetworkTag.FirewallRulesReply)).
Proof.
  intros Hwf. pose proof Hwf as (Hlen & Hn & _). unfold table_reply, FirewallState.encode_reply.
  change (words (fresh_reply _ _)) with (0 :: replicate 15 0).
  change (store _ 1 (Z.of_nat (rule_count f))) with
    (Some (0 :: Z.of_nat (rule_count f) :: replicate 14 0)). cbn [mbind option_bind].
  change (store _ 2 (Z.b2z (default_inbound_allow f))) with
    (Some (take 3 (summary_words f) ++ replicate 13 0)). cbn [mbind option_bind].
  rewrite (store_app (take 3 (summary_words f)) 0 (replicate 12 0)) by done. cbn [mbind option_bind].
  rewrite slice_to_ok by lia. cbn [mbind option_bind]. fold (live f).
  change (take 3 (summary_words f) ++ _ :: replicate 12 0) with (summary_words f ++ replicate 12 0).
  change 4%nat with (length (summary_words f)) at 1. unfold MAX_FIREWALL_RULES in *.
  replace 12%nat with (2 * rule_count f + (16 - 4 - 2 * rule_count f))%nat at 1 by lia.
  rewrite replicate_add, encode_rules_app by (rewrite length_replicate, length_live_rules; [done|done]).
  cbn [mbind option_bind]. rewrite length_live_rules by done.
  unfold RawMessage.with_words, fresh_reply. cbn -[Z.add Z.mul Z.of_nat Nat.mul]. do 2 f_equal. lia.
Qed.
