(* ===== verification/FirewallService.v ===== *)
(** * The firewall as a service: policy, address sets, requests and replies

    What a client's calls make the network service decide, over the requests as
    the kernel delivers them: the installed rules are the client's policy, an
    address set is membership by leading bits, the service keeps the invariant
    of its table, and which requests make it panic or leave it without a reply. *)

From Stdlib Require Import ZArith Lia.
From stdpp Require Import base option list.
From S2P Require Import Prelude Words UserMessage Firewall FirewallProps FirewallWire.

#[local] Open Scope Z_scope.

(** [channel_call] adds a reply handle to the request; the kernel carries the
    tag, the words and their count. *)
Definition delivers (sent got : RawMessage) : Prop :=
  tag got = tag sent /\ words got = words sent /\ word_count got = word_count sent /\
  1 <= handle_count got.

(** Judging connections one after another. *)
Fixpoint decide_all (f : FirewallState) (cs : list Connection) :
    option (list bool * FirewallState) :=
  match cs with
  | [] => Some ([], f)
  | c :: cs =>
      '(allowed, f) ← decide_conn f c;
      '(rest, f) ← decide_all f cs;
      Some (allowed :: rest, f)
  end.

Lemma default_verdict_same f f' c : same_policy f f' -> default_verdict f c = default_verdict f' c.
Proof. intros (_ & _ & E). unfold default_verdict. by rewrite E. Qed.

Lemma decide_all_spec cs : forall f,
  fw_wf f ->
  exists verdicts f', decide_all f cs = Some (verdicts, f') /\ fw_wf f' /\ same_policy f f' /\
    Forall2 (fun c v => first_match (addr_sets f) c (live f) (default_verdict f c) v) cs verdicts.
Proof.
  induction cs as [|c cs IH]; intros f Hwf; simpl.
  { exists [], f. by split_and!. }
  destruct (decide_spec f c Hwf) as (v & f1 & -> & Hwf1 & Hsame & Hv). cbn [mbind option_bind].
  destruct (IH f1 Hwf1) as (vs & f2 & -> & Hwf2 & Hsame2 & Hvs). cbn [mbind option_bind].
  exists (v :: vs), f2. split; [done|]. split; [done|]. split; [by etrans|]. constructor; [done|].
  eapply Forall2_impl; [exact Hvs|]. intros c' v' Hv'. simpl in Hv'.
  destruct Hsame as (HF & Hsets & Hd). rewrite (default_verdict_same f f1) by by split_and!.
  rewrite Hsets. eapply first_match_same; [|exact Hv'].
  apply Forall2_flip. eapply Forall2_impl; [exact HF|]. intros r r' Hr.
  exact (symmetry (R := same_rule) Hr).
Qed.

(** ** The entries of an address set *)

Definition entry_family (e : NetworkFirewallAddrSetEntry) : CidrFamily :=
  match ne_address e with RemoteV4 _ => V4 | RemoteV6 _ => V6 end.

Definition entry_wf (e : NetworkFirewallAddrSetEntry) : Prop :=
  remote_wf (ne_address e) /\ 0 <= ne_prefix e <= width_of (entry_family e).

Definition entry_words (e : NetworkFirewallAddrSetEntry) : list Z :=
  [Z.lor (match entry_family e with V4 => 0 | V6 => 1 end) (shl 64 (ne_prefix e) 8);
   match ne_address e with
   | RemoteV4 a => from_be_bytes a
   | RemoteV6 a => wrap 64 (Z.shiftr (from_be_bytes a) 64)
   end;
   match ne_address e with RemoteV4 _ => 0 | RemoteV6 a => wrap 64 (from_be_bytes a) end].
Definition entries_words (es : list NetworkFirewallAddrSetEntry) : list Z := mjoin (entry_words <$> es).

Definition entry_cidr (e : NetworkFirewallAddrSetEntry) : Cidr :=
  mkCidr (entry_family e) (ne_prefix e)
    match ne_address e with RemoteV4 a => a ++ replicate 12 0 | RemoteV6 a => a end.

(** The address [remote] has the family of the entry's and its first bits. *)
Definition entry_covers (e : NetworkFirewallAddrSetEntry) (remote : RemoteAddress) : Prop :=
  match ne_address e, remote with
  | RemoteV4 a, RemoteV4 b => leading_bits_agree 32 (ne_prefix e) (from_be_bytes b) (from_be_bytes a)
  | RemoteV6 a, RemoteV6 b => leading_bits_agree 128 (ne_prefix e) (from_be_bytes b) (from_be_bytes a)
  | _, _ => False
  end.

Lemma in_entry_cidr e remote :
  entry_wf e -> in_cidr (entry_cidr e) remote <-> entry_covers e remote.
Proof.
  intros [Hr _]. unfold in_cidr, entry_covers, entry_cidr, entry_family.
  destruct (ne_address e) as [a|a], remote as [b|b]; simpl in *; try done.
  by rewrite take_app_length' by lia.
Qed.

Lemma entry_cidr_wf e : entry_wf e -> cidr_wf (entry_cidr e).
Proof.
  intros [Hr Hp]. unfold cidr_wf, entry_cidr, entry_family in *.
  destruct (ne_address e) as [a|a]; simpl in *; destruct Hr as [Hl Hb]; split_and!; try done; try lia.
  - rewrite length_app. simpl. lia.
  - apply is_bytes_app. split; [done|]. by apply (Forall_replicate _ 12 0).
  - intros _. by rewrite drop_app_length' by lia.
Qed.

Lemma be_bytes_bound a : is_bytes a -> 0 <= from_be_bytes a < 2 ^ (8 * Z.of_nat (length a)).
Proof.
  intros H. unfold from_be_bytes. rewrite <- (length_reverse a). apply from_le_bound.
  by apply Forall_reverse.
Qed.

(** The header word of an entry gives the family and the prefix back. *)
Lemma entry_header fam p w :
  0 <= fam < 256 -> is_word 8 p -> w = Z.lor fam (shl 64 p 8) ->
  Z.land w 0xff = fam /\ wrap 8 (Z.land (Z.shiftr w 8) 0xff) = p.
Proof.
  unfold is_word. intros Hf Hp ->. rewrite lor_field, (Z.mod_small p) by lia.
  change 0xff with (2 ^ 8 - 1). rewrite !land_mask, shiftr_div by lia.
  split; [|unfold wrap]; Z.to_euclidean_division_equations; lia.
Qed.

Lemma halves_join v : is_word 128 v -> Z.lor (shl 128 (wrap 64 (Z.shiftr v 64)) 64) (wrap 64 v) = v.
Proof.
  unfold is_word. intros Hv. rewrite Z.lor_comm, shl_mul, shiftr_div by lia. unfold wrap.
  rewrite (Z.mod_small (v / 2 ^ 64)) by (Z.to_euclidean_division_equations; lia).
  rewrite (Z.mod_small (v / 2 ^ 64 * 2 ^ 64)) by (Z.to_euclidean_division_equations; lia).
  rewrite lor_low by (Z.to_euclidean_division_equations; lia).
  Z.to_euclidean_division_equations; lia.
Qed.

Lemma from_words_entry e :
  entry_wf e ->
  match entry_words e with
  | [w0; w1; w2] => Cidr.from_words w0 w1 w2 = Some (entry_cidr e)
  | _ => False
  end.
Proof.
  intros [Hr Hp]. unfold entry_words, entry_cidr, Cidr.from_words, entry_family in *.
  destruct (ne_address e) as [a|a]; simpl in Hr, Hp; destruct Hr as [Hl Hb].
  - destruct (entry_header 0 (ne_prefix e) _ ltac:(lia) ltac:(unfold is_word; lia) eq_refl) as [-> ->].
    simpl Z.eqb. cbv iota. rewrite (proj2 (Z.ltb_ge _ _)) by lia. unfold Cidr.v4.
    rewrite (proj2 (Z.ltb_ge _ _)) by lia.
    pose proof (be_bytes_bound a Hb) as Hbound. rewrite Hl in Hbound. simpl in Hbound.
    change 0xffffffff with (2 ^ 32 - 1). rewrite land_mask by lia. unfold wrap.
    pose proof (to_from_be a Hb) as Ha. rewrite Hl in Ha.
    rewrite Z.mod_mod, Z.mod_small, Ha by lia. by rewrite firstn_all2 by lia.
  - destruct (entry_header 1 (ne_prefix e) _ ltac:(lia) ltac:(unfold is_word; lia) eq_refl) as [-> ->].
    simpl Z.eqb. cbv iota. rewrite (proj2 (Z.ltb_ge _ _)) by lia. unfold Cidr.v6.
    rewrite (proj2 (Z.ltb_ge _ _)) by lia.
    pose proof (be_bytes_bound a Hb) as Hbound. rewrite Hl in Hbound. simpl in Hbound.
    pose proof (to_from_be a Hb) as Ha. rewrite Hl in Ha. by rewrite halves_join, Ha.
Qed.

Lemma length_entries_words es : length (entries_words es) = (3 * length es)%nat.
Proof.
  induction es as [|e es IH]; [done|].
  change (entries_words (e :: es)) with (entry_words e ++ entries_words es).
  rewrite length_app, IH. simpl. lia.
Qed.

Lemma fill_entries_app es : forall front old tail,
  Forall entry_wf es -> length old = (3 * length es)%nat ->
  fill_entries es (length front) (front ++ old ++ tail) = Some (Ok (front ++ entries_words es ++ tail)).
Proof.
  induction es as [|e es IH]; intros front old tail Hes Hold; simpl in Hold.
  { by apply nil_length_inv in Hold as ->. }
  apply Forall_cons in Hes as [He Hes]. pose proof He as [_ Hp].
  destruct old as [|x [|y [|z old]]]; simpl in Hold; [lia..|].
  assert (forall w0 w1 w2, entry_words e = [w0; w1; w2] ->
    (ws ← store (front ++ (x :: y :: z :: old) ++ tail) (length front) w0;
     ws ← store ws (length front + 1) w1;
     ws ← store ws (length front + 2) w2;
     fill_entries es (length front + 3) ws) =
    Some (Ok (front ++ entries_words (e :: es) ++ tail))) as Hstep.
  { intros w0 w1 w2 Hw. cbn [app]. rewrite store_app by done. cbn [mbind option_bind].
    rewrite (store_behind front [w0] y (z :: old ++ tail)) by done. cbn [mbind option_bind].
    rewrite (store_behind front [w0; w1] z (old ++ tail)) by done. cbn [mbind option_bind].
    change ([w0; w1] ++ w2 :: old ++ tail) with ([w0; w1; w2] ++ old ++ tail).
    rewrite <- Hw, (app_assoc front).
    replace (length front + 3)%nat with (length (front ++ entry_words e)) by (by rewrite length_app).
    rewrite IH by (done || lia). by rewrite <- app_assoc. }
  cbn [fill_entries]. unfold entry_family, entry_words, entry_family in *.
  destruct (ne_address e); simpl in Hp; rewrite (proj2 (Z.ltb_ge _ _)) by lia; by apply Hstep.
Qed.

Lemma define_request_words id es :
  0 <= id <= 8 -> (length es <= 4)%nat -> Forall entry_wf es ->
  firewall_addr_set_define_request id es =
  Some (Ok (RawMessage.with_words (2 + zlen es * 3)
    ([id; zlen es] ++ entries_words es ++ replicate (14 - 3 * length es) 0)
    (RawMessage.empty NetworkTag.FirewallAddrSetDefineRequest))).
Proof.
  intros Hid Hle Hes. unfold firewall_addr_set_define_request, MAX_NETWORK_FIREWALL_ADDR_SETS,
    MAX_NETWORK_FIREWALL_ADDR_SET_ENTRIES, IPC_MAX_WORDS.
  rewrite (proj2 (Z.ltb_ge _ _)), !(proj2 (Nat.ltb_ge _ _)) by lia. simpl orb. cbv iota zeta.
  change (store (words _) 0 id) with (Some (id :: replicate 15 0)). cbn [mbind option_bind].
  change (store _ 1 (zlen es)) with (Some ([id; zlen es] ++ replicate 14 0)). cbn [mbind option_bind].
  change 2%nat with (length [id; zlen es]) at 1.
  replace 14%nat with (3 * length es + (14 - 3 * length es))%nat at 1 by lia.
  rewrite replicate_add, fill_entries_app; [done|done|apply length_replicate].
Qed.

Lemma parse_entries_client tail es : forall front done index wf,
  Forall entry_wf es -> length front = (index * 3)%nat -> length done = index ->
  (index + length es <= MAX_FIREWALL_ADDR_SET_ENTRIES)%nat ->
  parse_entries (length es) index index (front ++ entries_words es ++ tail)
    (done ++ replicate (MAX_FIREWALL_ADDR_SET_ENTRIES - index) Cidr.EMPTY_SLOT) wf =
  Some (done ++ (entry_cidr <$> es) ++
          replicate (MAX_FIREWALL_ADDR_SET_ENTRIES - (index + length es)) Cidr.EMPTY_SLOT,
        (index + length es)%nat, wf).
Proof.
  induction es as [|e es IH]; intros front done index wf Hes Hf Hd Hle.
  { simpl. by rewrite Nat.add_0_r. }
  apply Forall_cons in Hes as [He Hes]. cbn [length] in Hle. cbn [length parse_entries].
  change (entries_words (e :: es)) with (entry_words e ++ entries_words es).
  pose proof (from_words_entry e He) as Hw. rewrite <- (app_assoc (entry_words e)).
  destruct (entry_words e) as [|w0 [|w1 [|w2 [|]]]] eqn:Ew; try done.
  rewrite (proj2 (Nat.ltb_ge _ _)) by (rewrite length_app; simpl; lia).
  rewrite (lookup_app_r front _ (index * 3)), (lookup_app_r front _ (index * 3 + 1)),
    (lookup_app_r front _ (index * 3 + 2)), Hf by lia.
  replace (index * 3 - index * 3)%nat with 0%nat by lia.
  replace (index * 3 + 1 - index * 3)%nat with 1%nat by lia.
  replace (index * 3 + 2 - index * 3)%nat with 2%nat by lia.
  change (([w0; w1; w2] ++ entries_words es ++ tail) !! 0%nat) with (Some w0).
  change (([w0; w1; w2] ++ entries_words es ++ tail) !! 1%nat) with (Some w1).
  change (([w0; w1; w2] ++ entries_words es ++ tail) !! 2%nat) with (Some w2).
  cbn [mbind option_bind]. rewrite Hw.
  replace (MAX_FIREWALL_ADDR_SET_ENTRIES - index)%nat
    with (S (MAX_FIREWALL_ADDR_SET_ENTRIES - S index)) by lia.
  cbn [replicate]. rewrite store_app by done. cbn [mbind option_bind].
  specialize (IH (front ++ [w0; w1; w2]) (done ++ [entry_cidr e]) (S index) wf Hes).
  rewrite <- !app_assoc in IH. cbn [app] in IH |- *. rewrite IH by (rewrite ?length_app; simpl; lia).
  by rewrite Nat.add_succ_r.
Qed.

Corollary parse_entries_all tail es wf :
  Forall entry_wf es -> (length es <= MAX_FIREWALL_ADDR_SET_ENTRIES)%nat ->
  parse_entries (length es) 0 0 (entries_words es ++ tail)
    (replicate MAX_FIREWALL_ADDR_SET_ENTRIES Cidr.EMPTY_SLOT) wf =
  Some ((entry_cidr <$> es) ++
          replicate (MAX_FIREWALL_ADDR_SET_ENTRIES - length es) Cidr.EMPTY_SLOT, length es, wf).
Proof. intros Hes Hle. exact (parse_entries_client tail es [] [] 0 wf Hes eq_refl eq_refl Hle). Qed.

Lemma from_words_wf w0 w1 w2 c : Cidr.from_words w0 w1 w2 = Some c -> cidr_wf c.
Proof.
  unfold Cidr.from_words, Cidr.v4, Cidr.v6.
  pose proof (wrap_word 8 (Z.land (Z.shiftr w0 8) 0xff) ltac:(lia)) as Hp. revert Hp.
  generalize (wrap 8 (Z.land (Z.shiftr w0 8) 0xff)) as p. unfold is_word. intros p Hp.
  destruct (_ =? 0); [|destruct (_ =? 1); [|done]]; zcases; intros; simplify_eq.
  - assert (take 4 (to_be_bytes 4 (wrap 32 (Z.land w1 0xffffffff))) =
            to_be_bytes 4 (wrap 32 (Z.land w1 0xffffffff))) as ->
      by (apply firstn_all2; by rewrite length_to_be_bytes).
    unfold cidr_wf. cbn [address family prefix width_of]. split_and!; try lia.
    + by rewrite length_app, length_to_be_bytes.
    + apply is_bytes_app. split; [apply is_bytes_to_be|by apply (Forall_replicate _ 12 0)].
    + intros _. by rewrite drop_app_length' by (by rewrite length_to_be_bytes).
  - unfold cidr_wf. cbn [address family prefix width_of].
    split_and!; [apply length_to_be_bytes|apply is_bytes_to_be|lia..|done].
Qed.

(** Whatever the payload of a message, the loop fills no slot it does not have. *)
Lemma parse_entries_total payload n : forall index cidrs wf,
  length payload = 14%nat -> length cidrs = MAX_FIREWALL_ADDR_SET_ENTRIES ->
  (index <= MAX_FIREWALL_ADDR_SET_ENTRIES)%nat -> Forall cidr_wf cidrs ->
  exists cidrs' parsed wf', parse_entries n index index payload cidrs wf = Some (cidrs', parsed, wf') /\
    length cidrs' = MAX_FIREWALL_ADDR_SET_ENTRIES /\ (parsed <= MAX_FIREWALL_ADDR_SET_ENTRIES)%nat /\
    Forall cidr_wf cidrs' /\ (wf' = true -> wf = true).
Proof.
  unfold MAX_FIREWALL_ADDR_SET_ENTRIES.
  induction n as [|n IH]; intros index cidrs wf Hp Hc Hi Hwf; cbn [parse_entries]; [by eexists _, _, _|].
  destruct (Nat.ltb_spec (length payload) (index * 3 + 3)); [by eexists _, _, _|].
  rewrite !list_lookup_lookup_total_lt by lia. cbn [mbind option_bind].
  destruct (Cidr.from_words _ _ _) as [c|] eqn:Hw; [|by eexists _, _, _].
  rewrite store_ok by lia. cbn [mbind option_bind]. apply IH; [done|by rewrite length_insert|lia|].
  apply Forall_insert; [done|]. by eapply from_words_wf.
Qed.

(** ** Serving requests *)

(** The arms of [handle_public_request] that serve the firewall's tags; the
    other arms reach the table only through its decision. *)
Definition serve (f : FirewallState) (m : RawMessage) : option (FirewallState * option RawMessage) :=
  if tag m =? NetworkTag.FirewallRulesSetRequest then handle_rules_set f m
  else if tag m =? NetworkTag.FirewallRulesGetRequest then handle_rules_get f m
  else if tag m =? NetworkTag.FirewallAddrSetDefineRequest then handle_addr_set_define f m
  else Some (f, None).

(** The table over the life of the service. *)
Inductive reachable : FirewallState -> Prop :=
| reach_new : reachable FirewallState.new
| reach_serve f m f' reply :
    reachable f -> RawMessage.received m -> serve f m = Some (f', reply) -> reachable f'
| reach_decide f c allowed f' :
    reachable f -> decide_conn f c = Some (allowed, f') -> reachable f'.

(** A request to replace the rules that is too short to carry a count. *)
Definition short_replace (m : RawMessage) : Prop :=
  tag m = NetworkTag.FirewallRulesSetRequest /\ 1 <= handle_count m /\
  words m !! 0%nat = Some 0 /\ word_count m < 2.

Lemma received_word m i : RawMessage.received m -> (i < IPC_MAX_WORDS)%nat ->
  exists w, words m !! i = Some w /\ is_u64 w.
Proof.
  intros (Hlen & Hu & _) Hi. destruct (lookup_lt_is_Some_2 (words m) i) as [w Hw]; [lia|].
  exists w. split; [done|]. by eapply Forall_lookup_1.
Qed.

Lemma serve_set_spec f m :
  fw_wf f -> RawMessage.received m -> tag m = NetworkTag.FirewallRulesSetRequest ->
  (short_replace m /\ handle_rules_set f m = None) \/
  (~ short_replace m /\ exists f' reply, handle_rules_set f m = Some (f', reply) /\ fw_wf f').
Proof.
  intros Hwf Hm Htag. destruct (received_word m 0 Hm) as (op & Hop & _); [unfold IPC_MAX_WORDS; lia|].
  destruct (received_word m 1 Hm) as (count & Hcount & [Hc _]); [unfold IPC_MAX_WORDS; lia|].
  destruct Hm as (Hlen & _ & Hwc). unfold handle_rules_set, short_replace. rewrite Hop, Hcount. simpl default.
  destruct (Z.ltb_spec (handle_count m) 1).
  { right. split; [lia|]. by eexists _, _. }
  destruct (Z.eqb_spec op 0) as [->|Hop0].
  - destruct (Z.lt_ge_cases (word_count m) 2).
    + left. split; [by split_and!|]. by rewrite slice_range_None by lia.
    + right. split; [lia|]. rewrite slice_range_ok by lia. cbn [mbind option_bind].
      edestruct (fw_wf_replace_all f) as (ok & f' & -> & Hwf'); [done|exact Hc|]. cbn [mbind option_bind].
      destruct ok; [|by eexists _, _]. rewrite table_reply_spec by done. by eexists _, _.
  - right. split; [naive_solver|].
    destruct (op =? 1); [|destruct (op =? 2); [|by eexists _, _]]; cbn [mbind option_bind];
      rewrite table_reply_spec by (done || by apply fw_wf_clear_rules); eexists _, _; (split; [done|]).
    + done.
    + by apply fw_wf_clear_rules.
Qed.

Lemma serve_define_spec f m :
  fw_wf f -> RawMessage.received m ->
  exists f' reply, handle_addr_set_define f m = Some (f', reply) /\ fw_wf f'.
Proof.
  intros Hwf Hm. destruct (received_word m 0 Hm) as (id & Hid & [Hid0 _]); [unfold IPC_MAX_WORDS; lia|].
  destruct (received_word m 1 Hm) as (count & Hcount & _); [unfold IPC_MAX_WORDS; lia|].
  destruct Hm as (Hlen & _ & _). unfold handle_addr_set_define. rewrite Hid, Hcount. simpl default.
  destruct (handle_count m <? 1); [by eexists _, _|].
  destruct (Z.eqb_spec id 0) as [->|Hne].
  { pose proof (clear_addr_sets_spec f Hwf) as Hclear.
    destruct (count =? 0); [|by eexists _, _]. destruct (FirewallState.clear_addr_sets f).
    eexists _, _. split; [done|]. apply Hclear. }
  edestruct (parse_entries_total (drop 2 (words m))) as (cidrs & parsed & wf & -> & Hl & Hp & Hc & Hw).
  { rewrite length_drop. unfold IPC_MAX_WORDS in Hlen. lia. }
  { apply (length_replicate MAX_FIREWALL_ADDR_SET_ENTRIES). }
  { unfold MAX_FIREWALL_ADDR_SET_ENTRIES. lia. }
  { apply Forall_replicate. apply (Forall_lookup_1 cidr_wf (entries AddrSet.EMPTY) 0); [|done].
    apply set_wf_empty. }
  cbn [mbind option_bind]. destruct wf; [|by eexists _, _]. rewrite slice_to_ok by lia.
  specialize (Hw eq_refl). apply andb_true_iff in Hw as [[Hle _]%andb_true_iff _].
  apply Z.leb_le in Hle. unfold MAX_FIREWALL_ADDR_SETS in Hle.
  cbn [mbind option_bind]. rewrite wrap_small by lia.
  destruct (define_addr_set_spec f id (take parsed cidrs)) as (ok & f' & -> & Hwf' & _);
    [done|lia|by apply Forall_take|]. by eexists _, _.
Qed.

Lemma serve_spec f m :
  fw_wf f -> RawMessage.received m ->
  (short_replace m /\ serve f m = None) \/
  (~ short_replace m /\ exists f' reply, serve f m = Some (f', reply) /\ fw_wf f').
Proof.
  intros Hwf Hm. unfold serve. destruct (Z.eqb_spec (tag m) NetworkTag.FirewallRulesSetRequest).
  { by apply serve_set_spec. }
  right. split; [by intros [? _]|]. destruct (tag m =? _).
  { unfold handle_rules_get. destruct (handle_count m <? 1); [by eexists _, _|].
    rewrite table_reply_spec by done. by eexists _, _. }
  destruct (tag m =? _); [by apply serve_define_spec|by eexists _, _].
Qed.

Lemma reachable_wf f : reachable f -> fw_wf f.
Proof.
  induction 1 as [|f m f' reply _ IH Hm Hs|f c allowed f' _ IH Hd].
  - apply fw_wf_new.
  - destruct (serve_spec f m IH Hm) as [[_ E]|(_ & g & r & E & Hg)]; congruence.
  - destruct (decide_spec f c IH) as (a & g & E & Hg & _). congruence.
Qed.

(** ** Properties *)


(** C30: A set that a client defines holds exactly the addresses that agree with one
    of the client's entries in family and in as many leading bits as its
    prefix says; the other sets and the rules stay. *)
Theorem address_set_is_prefix_membership f id es :
  reachable f -> 1 <= id <= Z.of_nat MAX_FIREWALL_ADDR_SETS ->
  (length es <= MAX_FIREWALL_ADDR_SET_ENTRIES)%nat -> Forall entry_wf es ->
  exists sent, firewall_addr_set_define_request id es = Some (Ok sent) /\
    forall got, delivers sent got ->
    exists f' reply s,
      serve f got = Some (f', Some reply) /\ rules f' = rules f /\
      FirewallState.addr_set_defined f' id = true /\
      addr_sets f' = <[Z.to_nat (id - 1) := s]> (addr_sets f) /\
      forall remote, exists b, AddrSet.contains s remote = Some b /\
        (b = true <-> Exists (fun e => entry_covers e remote) es).
Proof.
  unfold MAX_FIREWALL_ADDR_SETS, MAX_FIREWALL_ADDR_SET_ENTRIES. intros Hf Hid Hle Hes.
  apply reachable_wf in Hf as Hwf. eexists. split; [apply define_request_words; done || lia|].
  intros got (Htag & Hw & _ & Hh). unfold serve. rewrite Htag. simpl Z.eqb. cbv iota.
  unfold handle_addr_set_define. rewrite (proj2 (Z.ltb_ge _ _)), Hw by lia.
  cbn [RawMessage.with_words words].
  change (default U64_MAX (([id; zlen es] ++ _) !! 0%nat)) with id.
  change (default 0 (([id; zlen es] ++ _) !! 1%nat)) with (zlen es).
  change (drop 2 ([id; zlen es] ++ ?l)) with l. cbv zeta.
  rewrite (proj2 (Z.eqb_neq id 0)) by lia.
  assert (zlen (entries_words es ++ replicate (14 - 3 * length es) 0) = 14) as Hz.
  { unfold zlen. rewrite length_app, length_entries_words, length_replicate. lia. }
  rewrite Hz, Z.min_l by (unfold zlen; lia). unfold zlen, MAX_FIREWALL_ADDR_SETS.
  rewrite Nat2Z.id, !(proj2 (Z.leb_le _ _)) by (unfold MAX_FIREWALL_ADDR_SET_ENTRIES; lia).
  simpl andb. rewrite parse_entries_all by done.
  cbn [mbind option_bind].
  rewrite slice_to_ok by (rewrite length_app, length_fmap; lia).
  rewrite take_app_length' by (by rewrite length_fmap). cbn [mbind option_bind].
  rewrite wrap_small by lia.
  assert (Forall cidr_wf (entry_cidr <$> es)) as Hc.
  { apply Forall_fmap. eapply Forall_impl; [exact Hes|]. intros e. apply entry_cidr_wf. }
  destruct (define_addr_set_spec f id (entry_cidr <$> es)) as
    (ok & f' & -> & Hwf' & Hrules & _ & _ & Heq & Hok); [done|lia|done|].
  rewrite (proj2 (Z.leb_le _ _)), bool_decide_eq_true_2 in Heq
    by (rewrite ?length_fmap; unfold MAX_FIREWALL_ADDR_SETS, MAX_FIREWALL_ADDR_SET_ENTRIES; lia).
  subst ok. destruct Hok as (s & Hs & Hdef & Ht). pose proof Hwf as (_ & _ & _ & _ & Hlen & _).
  pose proof Hwf' as (_ & _ & _ & _ & Hlen' & Hsets' & _). unfold MAX_FIREWALL_ADDR_SETS in Hlen.
  assert (addr_sets f' !! Z.to_nat (id - 1) = Some s) as Hlook.
  { rewrite Hs. apply list_lookup_insert_eq. lia. }
  eexists f', _, s. split; [done|]. split; [done|]. split; [|split; [done|]].
  { apply addr_set_defined_iff; [done|]. split; [unfold MAX_FIREWALL_ADDR_SETS; lia|by exists s]. }
  intros remote. destruct (set_contains_spec s remote) as (b & Hb & Hiff).
  { by eapply Forall_lookup_1. }
  exists b. split; [done|]. rewrite Hiff. unfold in_set. rewrite Ht, Exists_fmap.
  rewrite !Exists_exists. rewrite Forall_forall in Hes. unfold compose.
  split; intros (e & Hin & He); exists e; (split; [done|]); by apply (in_entry_cidr e remote (Hes e Hin)).
Qed.

(** C31: The service survives every request except one that asks to replace the
    rules and is too short to carry a count: that one makes it panic, from every
    state.  Decisions never panic, and every rule in force that names an address
    set names one that is defined. *)
Theorem firewall_panics_only_on_short_replace f m c :
  reachable f -> RawMessage.received m ->
  (serve f m = None <-> short_replace m) /\ (exists d, decide_conn f c = Some d) /\
  (rule_count f <= MAX_FIREWALL_RULES)%nat /\
  Forall (fun r => forall id, addr_set r = Some id -> FirewallState.addr_set_defined f id = true) (rules f).
Proof.
  intros Hf Hm. apply reachable_wf in Hf as Hwf. split.
  { destruct (serve_spec f m Hwf Hm) as [[Hs ->]|(Hs & f' & r & -> & _)]; naive_solver. }
  destruct (decide_spec f c Hwf) as (a & f' & Hd & _). split; [by eexists|].
  pose proof Hwf as (_ & Hn & Hr & _ & Hlen & _). split; [done|].
  eapply Forall_impl; [exact Hr|]. intros r (_ & _ & _ & _ & Hset) id Hid.
  apply addr_set_defined_iff; [done|]. by apply Hset.
Qed.

Lemma denied_totals a b :
  is_u64 a -> is_u64 b ->
  let w := Z.lor (shl 64 (Z.min a U32_MAX) 32) (Z.min b U32_MAX) in
  wrap 32 (Z.shiftr w 32) = Z.min a U32_MAX /\ wrap 32 (Z.land w 0xffffffff) = Z.min b U32_MAX.
Proof.
  unfold is_u64, U32_MAX. intros Ha Hb. cbv zeta. rewrite Z.lor_comm, lor_field by lia.
  rewrite Z.mod_small by lia. change 0xffffffff with (2 ^ 32 - 1). unfold wrap.
  rewrite shiftr_div, land_mask by lia. split; Z.to_euclidean_division_equations; lia.
Qed.

(** C39: The reply that carries the table counts one word more than it holds: the
    kernel takes it, and the client reads the counts back from it, only while
    the table is not full.  With a full table the reply is refused. *)
Theorem full_table_reply_is_refused f m :
  reachable f -> tag m = NetworkTag.FirewallRulesGetRequest -> 1 <= handle_count m ->
  exists reply, serve f m = Some (f, Some reply) /\
    (RawMessage.accepted reply = true <-> (rule_count f < MAX_FIREWALL_RULES)%nat) /\
    network_firewall_summary_parse_reply reply =
      Some (mkNetworkFirewallSummary (Z.of_nat (rule_count f)) (default_inbound_allow f)
              (Z.min (inbound_denied_total f) U32_MAX) (Z.min (outbound_denied_total f) U32_MAX)).
Proof.
  intros Hf Htag Hh. apply reachable_wf in Hf as Hwf. unfold serve. rewrite Htag. simpl Z.eqb. cbv iota.
  unfold handle_rules_get. rewrite (proj2 (Z.ltb_ge _ _)) by lia.
  rewrite table_reply_spec by done. cbn [mbind option_bind]. eexists. split; [done|].
  pose proof Hwf as (_ & Hn & _ & _ & _ & _ & Hi & Ho). split.
  - unfold RawMessage.accepted. cbn [RawMessage.with_words RawMessage.empty word_count handle_count].
    unfold MAX_FIREWALL_RULES, IPC_MAX_WORDS, IPC_MAX_HANDLES in *. zcases; simpl; naive_solver lia.
  - unfold network_firewall_summary_parse_reply.
    cbn [RawMessage.with_words RawMessage.empty tag word_count words].
    rewrite (proj2 (Z.ltb_ge _ 4)) by lia. simpl orb. cbv iota.
    set (w := Z.lor (shl 64 (Z.min (inbound_denied_total f) U32_MAX) 32)
                (Z.min (outbound_denied_total f) U32_MAX)).
    change (Some (mkNetworkFirewallSummary (wrap 32 (Z.of_nat (rule_count f)))
      (negb (Z.b2z (default_inbound_allow f) =? 0)) (wrap 32 (Z.shiftr w 32))
      (wrap 32 (Z.land w 0xffffffff))) = Some (mkNetworkFirewallSummary (Z.of_nat (rule_count f))
      (default_inbound_allow f) (Z.min (inbound_denied_total f) U32_MAX)
      (Z.min (outbound_denied_total f) U32_MAX))).
    destruct (denied_totals _ _ Hi Ho) as [E1 E2]. fold w in E1, E2. rewrite E1, E2.
    unfold MAX_FIREWALL_RULES in Hn. rewrite wrap_small by lia. by destruct (default_inbound_allow f).
Qed.

(** A rule pinned to an interface whose index does not fit the qualifier field
    changes its meaning on the way: from 255 on it names an address set, beyond
    510 it is rejected, and the last index of all leaves a rule that matches
    every interface. *)
Theorem wide_interface_pin_changes_meaning r index flag :
  is_word 16 (nf_port r) -> nf_addr_set r = None -> nf_interface r = Some index -> is_word 16 index ->
  option_map (fun rule => (interface rule, addr_set rule))
    (FirewallRule.unpack (pack_firewall_rule_word r) flag) =
  if index <? 255 then Some (Some index, None)
  else if index <=? 510 then Some (None, Some (index - 255))
  else if index =? 65535 then Some (None, None) else None.
Proof.
  unfold is_word. intros Hp Hs Hi Hw. rewrite unpack_client_word by done.
  unfold client_qualifier. rewrite Hs, Hi.
  destruct (Z.eqb_spec index 65535) as [->|Hne]; [done|]. rewrite Z.mod_small by lia.
  unfold decode_qualifier. rewrite (proj2 (Z.eqb_neq (index + 1) 0)) by lia.
  destruct (Z.ltb_spec index 255).
  { rewrite (proj2 (Z.leb_le 1 _)), (proj2 (Z.leb_le _ 255)) by lia. simpl. do 3 f_equal. lia. }
  rewrite (proj2 (Z.leb_gt _ 255)), andb_false_r, (proj2 (Z.leb_le 256 _)) by lia. simpl andb.
  destruct (Z.leb_spec index 510); [|by rewrite (proj2 (Z.leb_gt _ 511)) by lia].
  rewrite (proj2 (Z.leb_le _ 511)) by lia. simpl option_map.
  change 0xff with (2 ^ 8 - 1). rewrite land_mask by lia. unfold wrap. do 3 f_equal.
  Z.to_euclidean_division_equations; lia.
Qed.

(** ** Witnesses *)

(** Refuse the secure shell on the boot interface. *)
Definition refuse_ssh : NetworkFirewallRule :=
  mkNetworkFirewallRule true ProtoTcp DirInbound 22 (Some 0) None true.

Definition loopback_ssh : Connection :=
  mkConnection Inbound Tcp 22 40000 0 (RemoteV4 [127; 0; 0; 1]).


Definition private_net : NetworkFirewallAddrSetEntry :=
  mkNetworkFirewallAddrSetEntry (RemoteV4 [10; 0; 0; 0]) 8.

Lemma address_set_is_prefix_membership_witness :
  exists sent, firewall_addr_set_define_request 1 [private_net] = Some (Ok sent) /\
    forall got, delivers sent got ->
    exists f' reply s,
      serve FirewallState.new got = Some (f', Some reply) /\ rules f' = rules FirewallState.new /\
      FirewallState.addr_set_defined f' 1 = true /\
      addr_sets f' = <[Z.to_nat (1 - 1) := s]> (addr_sets FirewallState.new) /\
      forall remote, exists b, AddrSet.contains s remote = Some b /\
        (b = true <-> Exists (fun e => entry_covers e remote) [private_net]).
Proof.
  apply (address_set_is_prefix_membership FirewallState.new 1 [private_net]).
  - constructor.
  - unfold MAX_FIREWALL_ADDR_SETS. lia.
  - unfold MAX_FIREWALL_ADDR_SET_ENTRIES. simpl. lia.
  - repeat constructor; unfold is_word; simpl; lia.
Defined.

(** A message of one handle with the given words in front. *)
Definition message (t n : Z) (ws : list Z) : RawMessage :=
  mkRawMessage t n 1 0 (ws ++ replicate (IPC_MAX_WORDS - length ws) 0)
    (replicate IPC_MAX_HANDLES 0) (replicate IPC_MAX_HANDLES 0).

Lemma firewall_panics_only_on_short_replace_witness :
  serve FirewallState.new (message NetworkTag.FirewallRulesSetRequest 1 [0]) = None.
Proof.
  apply (proj1 (firewall_panics_only_on_short_replace FirewallState.new
    (message NetworkTag.FirewallRulesSetRequest 1 [0]) loopback_ssh reach_new
    ltac:(repeat constructor; vm_compute; discriminate))).
  by split_and!.
Defined.

(** The table after a request with six rules. *)
Definition full_table : FirewallState :=
  match serve FirewallState.new (message NetworkTag.FirewallRulesSetRequest 14 [0; 6]) with
  | Some (f, _) => f
  | None => FirewallState.new
  end.

Lemma reachable_full_table : reachable full_table.
Proof.
  eapply reach_serve with (m := message NetworkTag.FirewallRulesSetRequest 14 [0; 6]).
  - apply reach_new.
  - repeat constructor; vm_compute; discriminate.
  - vm_compute. reflexivity.
Qed.

Lemma full_table_reply_is_refused_witness :
  exists reply,
    serve full_table (message NetworkTag.FirewallRulesGetRequest 0 []) = Some (full_table, Some reply) /\
    RawMessage.accepted reply = false.
Proof.
  destruct (full_table_reply_is_refused full_table (message NetworkTag.FirewallRulesGetRequest 0 [])
    reachable_full_table eq_refl ltac:(simpl; lia)) as (reply & Hs & Hacc & _).
  exists reply. split; [exact Hs|]. apply not_true_iff_false. rewrite Hacc. apply Nat.lt_irrefl.
Defined.

Lemma wide_interface_pin_changes_meaning_witness :
  option_map (fun rule => (interface rule, addr_set rule))
    (FirewallRule.unpack (pack_firewall_rule_word
       (mkNetworkFirewallRule true ProtoAny DirInbound 0 (Some 65535) None true)) true) =
  Some (None, None).
Proof.
  exact (wide_interface_pin_changes_meaning
    (mkNetworkFirewallRule true ProtoAny DirInbound 0 (Some 65535) None true) 65535 true
    ltac:(unfold is_word; simpl; lia) eq_refl eq_refl ltac:(unfold is_word; lia)).
Defined.
