(* ===== verification/Accounts.v ===== *)
(** * Accounts and logins (userspace/programs/account-service/src/lib.rs)

    The account table, the two credential algorithms, the single login claim
    and the sessions an account owns.  Operations return the result and the
    store they leave, since some change it before they fail; [None] is a panic:
    an index or a slice outside an array, or an overflow in a build that checks.
    Names, displays and secrets are byte strings.  The bytes that the kernel's
    entropy call yields when it fills the whole salt are an argument of the
    operations that draw a salt. *)

From Stdlib Require Import ZArith Lia.
From stdpp Require Import base option list.
From S2P Require Import Prelude Words ChaCha Sha2 Hmac UserMessage.

#[local] Open Scope Z_scope.

Definition MAX_ACCOUNTS : nat := 8.
Definition MAX_NAME : nat := 32.
Definition MAX_DISPLAY : nat := 48.
Definition MAX_OWNED_SESSIONS : nat := 4.
Definition KDF_ROUNDS : nat := 8.
Definition KDF_LEGACY_FNV : Z := 0.
Definition KDF_PBKDF2_SHA512 : Z := 1.
Definition PBKDF2_SALT_BYTES : nat := 16.
Definition PBKDF2_HASH_BYTES : nat := 64.
Definition PBKDF2_LOGIN_ITERATIONS : Z := 100000.

(** The grants, as the bits [1 << 0] to [1 << 6] in the order of the source. *)
Module capability.
Definition ADMIN_DEFAULT : Z := 127.
Definition OPERATOR_DEFAULT : Z := 21.
End capability.

Definition default_capabilities (is_admin : bool) : Z :=
  if is_admin then capability.ADMIN_DEFAULT else capability.OPERATOR_DEFAULT.

Inductive AccountError : Type :=
| InvalidArgument | CapacityExceeded | DuplicateName | UnknownAccount | BadCredentials
| NotLoggedIn | AlreadyLoggedIn | SessionAlreadyClaimed | StoreCorrupt.

Module AccountError.
Definition to_code (e : AccountError) : Z :=
  match e with
  | InvalidArgument => 1 | CapacityExceeded => 2 | DuplicateName => 3 | UnknownAccount => 4
  | BadCredentials => 5 | NotLoggedIn => 6 | AlreadyLoggedIn => 7 | SessionAlreadyClaimed => 8
  | StoreCorrupt => 9
  end.
End AccountError.

Record Account : Type := mkAccount {
  id : Z; name_len : nat; name : list Z; display_len : nat; display : list Z;
  salt : Z; auth_hash : Z; capabilities : Z; owned_sessions : list Z; owned_count : nat;
  kdf : Z; kdf_iters : Z; record_salt : list Z; record_hash : list Z
}.

Record Claim : Type := mkClaim { account_id : Z; session_id : Z }.

Record SwitchRecord : Type := mkSwitchRecord {
  switched_account : Z; from_session : Z; to_session : Z
}.

Definition EMPTY_ACCOUNT : Account :=
  mkAccount 0 0 (replicate MAX_NAME 0) 0 (replicate MAX_DISPLAY 0) 0 0 0
    (replicate MAX_OWNED_SESSIONS 0) 0 KDF_LEGACY_FNV 0 (replicate PBKDF2_SALT_BYTES 0)
    (replicate PBKDF2_HASH_BYTES 0).

(** ** Derivations *)

Definition FNV_OFFSET : Z := 0xcbf29ce484222325.
Definition FNV_PRIME : Z := 0x00000100000001b3.

Definition fnv_step (hash byte : Z) : Z := wrap 64 (Z.lxor hash byte * FNV_PRIME).

Definition fnv1a64 (bytes : list Z) : Z := foldl fnv_step FNV_OFFSET bytes.

Definition derive_auth_hash (salt : Z) (secret : list Z) : Z :=
  let hash := foldl (fun hash round => fnv_step (foldl fnv_step hash secret) (Z.of_nat round))
                (fnv1a64 (to_le_bytes 8 salt)) (seq 0 KDF_ROUNDS) in
  Z.lxor hash (fnv1a64 (to_le_bytes 8 (wrap 64 (salt * 0x9e3779b97f4a7c15)))).

(** The bytes of ["account-service/pbkdf2-salt"]. *)
Definition SALT_DOMAIN : list Z :=
  [97; 99; 99; 111; 117; 110; 116; 45; 115; 101; 114; 118; 105; 99; 101; 47; 112; 98; 107; 100; 102;
   50; 45; 115; 97; 108; 116].

(** The block is the counter, the tick, the id and at most 32 bytes of the
    name, in 64 bytes. *)
Definition pbkdf2_salt (name : list Z) (tick counter id : Z) : list Z :=
  let name := take 32 name in
  let block := to_le_bytes 8 counter ++ to_le_bytes 8 tick ++ to_le_bytes 4 id ++ name ++
               replicate (64 - 20 - length name) 0 in
  take PBKDF2_SALT_BYTES (sha512.digest [SALT_DOMAIN; block]).

Definition fresh_salt (entropy : option (list Z)) (name : list Z) (tick counter id : Z) : list Z :=
  match entropy with
  | Some kernel_salt => kernel_salt
  | None => pbkdf2_salt name tick counter id
  end.

Definition pbkdf2_derive (salt : list Z) (iterations : Z) (secret : list Z) : list Z :=
  pbkdf2_hmac_sha512 secret salt iterations.

(** ** The store *)

Record AccountStore : Type := mkAccountStore {
  accounts : list Account; count : nat; next_id : Z; active : option Claim;
  salt_counter : Z; salt_tick : Z
}.

(** [copy_field]: the source in front of an array of zeros. *)
Definition copy_field (n : nat) (source : list Z) : option (list Z) :=
  if (n <? length source)%nat then None else Some (source ++ replicate (n - length source) 0).

(** [(0..n).find(...)] over the elements of an array. *)
Fixpoint find_index {A : Type} (f : A -> option bool) (l : list A) (n i : nat) :
    option (option nat) :=
  match n with
  | O => Some None
  | S n =>
      x ← l !! i;
      b ← f x;
      if b : bool then Some (Some i) else find_index f l n (S i)
  end.

Module AccountStore.

Definition new : AccountStore :=
  mkAccountStore (replicate MAX_ACCOUNTS EMPTY_ACCOUNT) 0 1 None 0 0.

Definition put (st : AccountStore) (index : nat) (a : Account) : AccountStore :=
  mkAccountStore (<[index := a]> (accounts st)) (count st) (next_id st) (active st)
    (salt_counter st) (salt_tick st).

Definition with_active (st : AccountStore) (claim : option Claim) : AccountStore :=
  mkAccountStore (accounts st) (count st) (next_id st) claim (salt_counter st) (salt_tick st).

Definition with_counter (st : AccountStore) (n : Z) : AccountStore :=
  mkAccountStore (accounts st) (count st) (next_id st) (active st) n (salt_tick st).

(** [store.salt_tick = now] of the service's start *)
Definition with_tick (st : AccountStore) (now : Z) : AccountStore :=
  mkAccountStore (accounts st) (count st) (next_id st) (active st) (salt_counter st) now.

(** A new account in the next slot. *)
Definition append (st : AccountStore) (a : Account) : option AccountStore :=
  accs ← store (accounts st) (count st) a;
  next ← chk 32 (next_id st + 1);
  Some (mkAccountStore accs (S (count st)) next (active st) (salt_counter st) (salt_tick st)).

Definition has_name (wanted : list Z) (a : Account) : option bool :=
  if (name_len a =? length wanted)%nat
  then stored ← slice_to (name a) (length wanted); Some (bool_decide (stored = wanted))
  else Some false.

Definition account_index (st : AccountStore) (wanted : list Z) : option (option nat) :=
  find_index (has_name wanted) (accounts st) (count st) 0.

Definition account_index_of_id (st : AccountStore) (wanted : Z) : option (option nat) :=
  find_index (fun a => Some (id a =? wanted)) (accounts st) (count st) 0.

(** The checks that both ways of making an account start with. *)
Definition creation_error (st : AccountStore) (nm disp secret : list Z) :
    option (option AccountError) :=
  if (length nm =? 0)%nat || (MAX_NAME <? length nm)%nat || (MAX_DISPLAY <? length disp)%nat
  then Some (Some InvalidArgument)
  else if (length secret =? 0)%nat then Some (Some InvalidArgument)
  else if (MAX_ACCOUNTS <=? count st)%nat then Some (Some CapacityExceeded)
  else
    found ← account_index st nm;
    Some (match found with Some _ => Some DuplicateName | None => None end).

Definition create_account (st : AccountStore) (entropy : option (list Z)) (nm disp secret : list Z)
    (is_admin : bool) : option (result Z AccountError * AccountStore) :=
  rejected ← creation_error st nm disp secret;
  match rejected with
  | Some e => Some (Err e, st)
  | None =>
      let new_id := next_id st in
      let new_salt := fresh_salt entropy nm (salt_tick st) (salt_counter st) new_id in
      counter ← chk 64 (salt_counter st + 1);
      name_field ← copy_field MAX_NAME nm;
      display_field ← copy_field MAX_DISPLAY disp;
      st ← append (with_counter st counter)
        (mkAccount new_id (length nm) name_field (length disp) display_field 0 0
           (default_capabilities is_admin) (replicate MAX_OWNED_SESSIONS 0) 0
           KDF_PBKDF2_SHA512 PBKDF2_LOGIN_ITERATIONS new_salt
           (pbkdf2_derive new_salt PBKDF2_LOGIN_ITERATIONS secret));
      Some (Ok new_id, st)
  end.

(** The bytes of ["account-service/salt"]. *)
Definition LEGACY_DOMAIN : list Z :=
  [97; 99; 99; 111; 117; 110; 116; 45; 115; 101; 114; 118; 105; 99; 101; 47; 115; 97; 108; 116].

Definition seed_legacy_account (st : AccountStore) (nm disp secret : list Z) (is_admin : bool) :
    option (result Z AccountError * AccountStore) :=
  rejected ← creation_error st nm disp secret;
  match rejected with
  | Some e => Some (Err e, st)
  | None =>
      let new_id := next_id st in
      let new_salt := Z.lxor (Z.lxor (fnv1a64 LEGACY_DOMAIN) (fnv1a64 nm)) new_id in
      name_field ← copy_field MAX_NAME nm;
      display_field ← copy_field MAX_DISPLAY disp;
      st ← append st
        (mkAccount new_id (length nm) name_field (length disp) display_field new_salt
           (derive_auth_hash new_salt secret) (default_capabilities is_admin)
           (replicate MAX_OWNED_SESSIONS 0) 0 KDF_LEGACY_FNV 0 (replicate PBKDF2_SALT_BYTES 0)
           (replicate PBKDF2_HASH_BYTES 0));
      Some (Ok new_id, st)
  end.

(** The bytes of ["admin"], ["Administrator"], ["operator"] and ["Operator"]. *)
Definition ADMIN : list Z := [97; 100; 109; 105; 110].
Definition ADMINISTRATOR : list Z := [65; 100; 109; 105; 110; 105; 115; 116; 114; 97; 116; 111; 114].
Definition OPERATOR : list Z := [111; 112; 101; 114; 97; 116; 111; 114].
Definition OPERATOR_DISPLAY : list Z := [79; 112; 101; 114; 97; 116; 111; 114].

Definition seed_defaults (entropy1 entropy2 : option (list Z)) : option AccountStore :=
  '(_, st) ← create_account new entropy1 ADMIN ADMINISTRATOR ADMIN true;
  '(_, st) ← create_account st entropy2 OPERATOR OPERATOR_DISPLAY OPERATOR false;
  Some st.

Definition verify (st : AccountStore) (index : nat) (secret : list Z) : option bool :=
  a ← accounts st !! index;
  Some (if kdf a =? KDF_PBKDF2_SHA512
        then ct_eq (pbkdf2_derive (record_salt a) (kdf_iters a) secret) (record_hash a)
        else derive_auth_hash (salt a) secret =? auth_hash a).

Definition rederive_pbkdf2 (st : AccountStore) (entropy : option (list Z)) (index : nat)
    (secret : list Z) : option AccountStore :=
  a ← accounts st !! index;
  nm ← slice_to (name a) (name_len a);
  let new_salt := fresh_salt entropy nm (salt_tick st) (salt_counter st) (id a) in
  counter ← chk 64 (salt_counter st + 1);
  Some (put (with_counter st counter) index
    (mkAccount (id a) (name_len a) (name a) (display_len a) (display a) 0 0 (capabilities a)
       (owned_sessions a) (owned_count a) KDF_PBKDF2_SHA512 PBKDF2_LOGIN_ITERATIONS new_salt
       (pbkdf2_derive new_salt PBKDF2_LOGIN_ITERATIONS secret))).

Definition check_credentials (st : AccountStore) (nm secret : list Z) :
    option (result nat AccountError) :=
  found ← account_index st nm;
  match found with
  | None => Some (Err UnknownAccount)
  | Some index =>
      ok ← verify st index secret;
      Some (if ok : bool then Ok index else Err BadCredentials)
  end.

Definition set_password (st : AccountStore) (entropy : option (list Z))
    (nm old_secret new_secret : list Z) : option (result nat AccountError * AccountStore) :=
  if (length new_secret =? 0)%nat then Some (Err InvalidArgument, st)
  else
    checked ← check_credentials st nm old_secret;
    match checked with
    | Err e => Some (Err e, st)
    | Ok index => st ← rederive_pbkdf2 st entropy index new_secret; Some (Ok index, st)
    end.

Definition with_sessions (a : Account) (sessions : list Z) (n : nat) : Account :=
  mkAccount (id a) (name_len a) (name a) (display_len a) (display a) (salt a) (auth_hash a)
    (capabilities a) sessions n (kdf a) (kdf_iters a) (record_salt a) (record_hash a).

Definition record_ownership (st : AccountStore) (index : nat) (session : Z) :
    option (result unit AccountError * AccountStore) :=
  a ← accounts st !! index;
  if (MAX_OWNED_SESSIONS <=? owned_count a)%nat then Some (Err CapacityExceeded, st)
  else
    owned ← slice_to (owned_sessions a) (owned_count a);
    if bool_decide (session ∈ owned) then Some (Err SessionAlreadyClaimed, st)
    else
      sessions ← store (owned_sessions a) (owned_count a) session;
      Some (Ok tt, put st index (with_sessions a sessions (S (owned_count a)))).

(** The released entry is replaced by the last one. *)
Definition release_ownership (st : AccountStore) (index : nat) (session : Z) :
    option AccountStore :=
  a ← accounts st !! index;
  owned ← slice_to (owned_sessions a) (owned_count a);
  found ← position (fun owned => Some (owned =? session)) owned;
  match found with
  | None => Some st
  | Some position =>
      last ← owned_sessions a !! (owned_count a - 1)%nat;
      sessions ← store (owned_sessions a) position last;
      Some (put st index (with_sessions a sessions (owned_count a - 1)))
  end.

Definition login (st : AccountStore) (entropy : option (list Z)) (nm secret : list Z) (session : Z) :
    option (result (Claim * bool) AccountError * AccountStore) :=
  if session =? 0 then Some (Err InvalidArgument, st)
  else if bool_decide (is_Some (active st)) then Some (Err AlreadyLoggedIn, st)
  else
    checked ← check_credentials st nm secret;
    match checked with
    | Err e => Some (Err e, st)
    | Ok index =>
        a ← accounts st !! index;
        let upgraded := kdf a =? KDF_LEGACY_FNV in
        st ← (if upgraded then rederive_pbkdf2 st entropy index secret else Some st);
        a ← accounts st !! index;
        let claim := mkClaim (id a) session in
        '(recorded, st) ← record_ownership st index session;
        match recorded with
        | Err e => Some (Err e, st)
        | Ok _ => Some (Ok (claim, upgraded), with_active st (Some claim))
        end
    end.

Definition logout (st : AccountStore) (session : Z) :
    option (result Claim AccountError * AccountStore) :=
  match active st with
  | None => Some (Err NotLoggedIn, st)
  | Some claim =>
      if negb (session_id claim =? session) then Some (Err SessionAlreadyClaimed, st)
      else
        found ← account_index_of_id st (account_id claim);
        match found with
        | None => Some (Err UnknownAccount, st)
        | Some index =>
            st ← release_ownership st index session;
            Some (Ok claim, with_active st None)
        end
  end.

Definition switch_user (st : AccountStore) (target : Z) :
    option (result SwitchRecord AccountError * AccountStore) :=
  if target =? 0 then Some (Err InvalidArgument, st)
  else
    match active st with
    | None => Some (Err NotLoggedIn, st)
    | Some claim =>
        if session_id claim =? target then Some (Err SessionAlreadyClaimed, st)
        else
          found ← account_index_of_id st (account_id claim);
          match found with
          | None => Some (Err UnknownAccount, st)
          | Some index =>
              st ← release_ownership st index (session_id claim);
              '(recorded, st) ← record_ownership st index target;
              match recorded with
              | Err e => Some (Err e, st)
              | Ok _ =>
                  Some (Ok (mkSwitchRecord (account_id claim) (session_id claim) target),
                        with_active st (Some (mkClaim (account_id claim) target)))
              end
          end
    end.

Definition capabilities_of (st : AccountStore) (wanted : Z) : option (result Z AccountError) :=
  found ← account_index_of_id st wanted;
  match found with
  | None => Some (Err UnknownAccount)
  | Some index => a ← accounts st !! index; Some (Ok (capabilities a))
  end.

Definition active_capabilities (st : AccountStore) : option (result Z AccountError) :=
  match active st with
  | None => Some (Err NotLoggedIn)
  | Some claim => capabilities_of st (account_id claim)
  end.

End AccountStore.
