(* ===== verification/AccountInv.v ===== *)
(** * The invariant of the account store

    Fields within their arrays and zero behind their lengths, names and ids that
    are unique, the next id above all of them, and the sessions that accounts
    own: none, but the one of the active claim.  Every operation keeps it and
    does not panic while its counters are below their maxima. *)

From Stdlib Require Import ZArith Lia.
From stdpp Require Import base option list.
From S2P Require Import Prelude Words ChaCha Sha2 Hmac UserMessage Accounts.

#[local] Open Scope Z_scope.

(** ** Searching *)

Lemma find_index_spec {A : Type} (f : A -> option bool) (g : A -> bool) l n : forall i,
  (i + n <= length l)%nat -> Forall (fun x => f x = Some (g x)) (take n (drop i l)) ->
  match find_index f l n i with
  | None => False
  | Some None => Forall (fun x => g x = false) (take n (drop i l))
  | Some (Some j) => (i <= j < i + n)%nat /\ exists x, l !! j = Some x /\ g x = true /\
      Forall (fun x => g x = false) (take (j - i) (drop i l))
  end.
Proof.
  induction n as [|n IH]; intros i Hle Hf; [constructor|].
  destruct (lookup_lt_is_Some_2 l i) as [x Hx]; [lia|]. rewrite (drop_S _ _ _ Hx) in *.
  cbn [take] in Hf. apply Forall_cons in Hf as [Hfx Hf].
  cbn [find_index take]. rewrite Hx. cbn [mbind option_bind]. rewrite Hfx. cbn [mbind option_bind].
  destruct (g x) eqn:Hg.
  { split; [lia|]. exists x. rewrite Nat.sub_diag. by repeat split. }
  specialize (IH (S i) ltac:(lia) Hf). destruct (find_index f l n (S i)) as [[j|]|]; [| |done].
  - destruct IH as (Hj & y & Hy & Hgy & Hb). split; [lia|]. exists y.
    replace (j - i)%nat with (S (j - S i)) by lia. split_and!; [done|done|]. by constructor.
  - by constructor.
Qed.

(** Over the live elements, with the answer as a fact about them. *)
Lemma find_live {A : Type} (f : A -> option bool) (P : A -> Prop) `{forall x, Decision (P x)} l n :
  (n <= length l)%nat -> Forall (fun x => f x = Some (bool_decide (P x))) (take n l) ->
  match find_index f l n 0 with
  | None => False
  | Some None => Forall (fun x => ~ P x) (take n l)
  | Some (Some j) => exists x, take n l !! j = Some x /\ P x
  end.
Proof.
  intros Hn Hf. pose proof (find_index_spec f (fun x => bool_decide (P x)) l n 0) as Hs.
  rewrite drop_0 in Hs. specialize (Hs Hn Hf). destruct (find_index f l n 0) as [[j|]|]; [| |done].
  - destruct Hs as (Hj & x & Hx & HP & _). exists x. apply bool_decide_eq_true in HP.
    split; [|done]. by rewrite lookup_take_lt by lia.
  - eapply Forall_impl; [exact Hs|]. intros x Hx. by apply bool_decide_eq_false in Hx.
Qed.

(** ** Derived credentials have the size of their field *)

Definition is_block (n : nat) (l : list Z) : Prop := length l = n /\ is_bytes l.

Lemma is_block_xor n a b : is_block n a -> is_block n b -> is_block n (xor_bytes a b).
Proof.
  intros [La Ba] [Lb Bb]. split; [|by apply is_bytes_xor]. rewrite length_xor_bytes. lia.
Qed.

Lemma is_block_HMAC k t : is_block 64 (HMAC k t).
Proof. split; [apply length_SHA512|apply is_bytes_SHA512]. Qed.

Lemma is_block_zeros n : is_block n (replicate n 0).
Proof. split; [apply length_replicate|by apply Forall_replicate]. Qed.

Lemma is_block_pbkdf2 salt iterations secret :
  is_block PBKDF2_HASH_BYTES (pbkdf2_derive salt iterations secret).
Proof.
  unfold pbkdf2_derive, PBKDF2_HASH_BYTES. unfold pbkdf2_hmac_sha512.
  destruct (iterations =? 0); [apply is_block_zeros|]. rewrite hmac_two.
  change (HMAC secret _) with (PBKDF2_U secret salt 0). rewrite pbkdf2_rounds. cbn [snd].
  unfold PBKDF2_F.
  assert (forall l acc, is_block 64 acc -> is_block 64 (foldl xor_bytes acc (map (PBKDF2_U secret salt) l)))
    as Hl.
  { induction l as [|i l IH]; intros acc Hacc; [done|]. cbn [map foldl]. apply IH.
    apply is_block_xor; [done|]. destruct i; apply is_block_HMAC. }
  apply Hl, is_block_HMAC.
Qed.

Definition entropy_ok (entropy : option (list Z)) : Prop :=
  forall s, entropy = Some s -> is_block PBKDF2_SALT_BYTES s.

Lemma is_block_fresh_salt entropy nm tick counter n :
  entropy_ok entropy -> is_block PBKDF2_SALT_BYTES (fresh_salt entropy nm tick counter n).
Proof.
  intros He. destruct entropy as [s|]; [by apply He|]. cbn [fresh_salt]. unfold pbkdf2_salt.
  generalize [SALT_DOMAIN; to_le_bytes 8 counter ++ to_le_bytes 8 tick ++ to_le_bytes 4 n ++ take 32 nm ++
    replicate (64 - 20 - length (take 32 nm)) 0] as parts. intros parts.
  rewrite sha512_digest_spec. fold (SHA512 (concat parts)). split.
  - by rewrite length_take, length_SHA512.
  - apply Forall_take. apply is_bytes_SHA512.
Qed.

Lemma PBKDF2_iterations_word : is_word 32 PBKDF2_LOGIN_ITERATIONS.
Proof. done. Qed.

(** The derivations are never unfolded from here on. *)
#[global] Opaque pbkdf2_derive fresh_salt derive_auth_hash PBKDF2_LOGIN_ITERATIONS.

(** ** The invariant *)

(** A byte string of [len] bytes in front of an array of [n], zeros behind it. *)
Definition field (n len : nat) (arr : list Z) : Prop :=
  (len <= n)%nat /\ length arr = n /\ is_bytes arr /\ drop len arr = replicate (n - len) 0.

Definition stored_name (a : Account) : list Z := take (name_len a) (name a).
Definition stored_display (a : Account) : list Z := take (display_len a) (display a).
Definition owned (a : Account) : list Z := take (owned_count a) (owned_sessions a).

(** The record of the algorithm in use; the fields of the other one are zero. *)
Definition record_ok (a : Account) : Prop :=
  (kdf a = KDF_PBKDF2_SHA512 /\ salt a = 0 /\ auth_hash a = 0) \/
  (kdf a = KDF_LEGACY_FNV /\ kdf_iters a = 0 /\ record_salt a = replicate PBKDF2_SALT_BYTES 0 /\
   record_hash a = replicate PBKDF2_HASH_BYTES 0).

Record account_wf (a : Account) : Prop := {
  wf_name : field MAX_NAME (name_len a) (name a);
  wf_name_pos : (0 < name_len a)%nat;
  wf_display : field MAX_DISPLAY (display_len a) (display a);
  wf_id : is_word 32 (id a);
  wf_salt : is_word 64 (salt a);
  wf_auth_hash : is_word 64 (auth_hash a);
  wf_capabilities : is_word 32 (capabilities a);
  wf_iters : is_word 32 (kdf_iters a);
  wf_record_salt : is_block PBKDF2_SALT_BYTES (record_salt a);
  wf_record_hash : is_block PBKDF2_HASH_BYTES (record_hash a);
  wf_owned : length (owned_sessions a) = MAX_OWNED_SESSIONS /\ (owned_count a <= MAX_OWNED_SESSIONS)%nat;
  wf_record : record_ok a
}.

Definition live (st : AccountStore) : list Account := take (count st) (accounts st).

(** The id above those of the accounts, as [parse_store] recomputes it. *)
Definition above (n : Z) (a : Account) : Z := if n <=? id a then id a + 1 else n.
Definition next_after (l : list Account) : Z := foldl above 1 l.

Record store_wf (st : AccountStore) : Prop := {
  wf_length : length (accounts st) = MAX_ACCOUNTS;
  wf_count : (count st <= MAX_ACCOUNTS)%nat;
  wf_live : Forall account_wf (live st);
  wf_rest : drop (count st) (accounts st) = replicate (MAX_ACCOUNTS - count st) EMPTY_ACCOUNT;
  wf_names : NoDup (stored_name <$> live st);
  wf_ids : NoDup (id <$> live st);
  wf_next : next_id st = next_after (live st);
  wf_next_word : is_word 32 (next_id st);
  wf_counter : is_word 64 (salt_counter st)
}.

(** The sessions an account owns are those of the claim on it. *)
Definition claimed (st : AccountStore) (a : Account) : list Z :=
  match active st with
  | Some c => if account_id c =? id a then [session_id c] else []
  | None => []
  end.

Definition sessions_ok (st : AccountStore) : Prop :=
  Forall (fun a => owned a = claimed st a) (live st) /\
  (forall c, active st = Some c -> account_id c ∈ (id <$> live st) /\ session_id c <> 0).

Lemma length_live_accounts st : store_wf st -> length (live st) = count st.
Proof. intros W. unfold live. rewrite length_take, (wf_length st W). pose proof (wf_count st W). lia. Qed.

Lemma live_lookup st i a :
  live st !! i = Some a -> accounts st !! i = Some a /\ (i < count st)%nat.
Proof. intros H%lookup_take_Some. done. Qed.

Lemma has_name_wf nm a : account_wf a -> AccountStore.has_name nm a = Some (bool_decide (stored_name a = nm)).
Proof.
  intros W. destruct (wf_name a W) as (Hle & Hlen & _). unfold AccountStore.has_name, stored_name.
  destruct (Nat.eqb_spec (name_len a) (length nm)) as [E|E].
  - rewrite slice_to_ok by lia. cbn [mbind option_bind]. by rewrite <- E.
  - rewrite bool_decide_eq_false_2; [done|]. intros <-. rewrite length_take in E. lia.
Qed.

(** Lookup by name and by id. *)
Lemma account_index_spec st nm :
  store_wf st ->
  match AccountStore.account_index st nm with
  | None => False
  | Some None => Forall (fun a => stored_name a <> nm) (live st)
  | Some (Some i) => exists a, live st !! i = Some a /\ stored_name a = nm
  end.
Proof.
  intros W. pose proof (wf_count st W). unfold AccountStore.account_index.
  apply (find_live _ (fun a => stored_name a = nm)); [rewrite (wf_length st W); lia|].
  eapply Forall_impl; [exact (wf_live st W)|]. intros a. apply has_name_wf.
Qed.

Lemma account_index_of_id_spec st n :
  store_wf st ->
  match AccountStore.account_index_of_id st n with
  | None => False
  | Some None => Forall (fun a => id a <> n) (live st)
  | Some (Some i) => exists a, live st !! i = Some a /\ id a = n
  end.
Proof.
  intros W. pose proof (wf_count st W). unfold AccountStore.account_index_of_id.
  apply (find_live _ (fun a => id a = n)); [rewrite (wf_length st W); lia|].
  apply Forall_forall. intros a _. f_equal. apply eq_true_iff_eq. by rewrite Z.eqb_eq, bool_decide_eq_true.
Qed.

Lemma fmap_same_key {B : Type} (f : Account -> B) (l : list Account) i (a a' : Account) :
  l !! i = Some a -> f a' = f a -> f <$> <[i := a']> l = f <$> l.
Proof.
  intros Hi Hf. rewrite list_fmap_insert, Hf. apply list_insert_id. by rewrite list_lookup_fmap, Hi.
Qed.

Lemma live_put st i a : (i < count st)%nat -> live (AccountStore.put st i a) = <[i := a]> (live st).
Proof. intros Hi. unfold live, AccountStore.put. cbn. by apply take_insert_lt. Qed.

Lemma next_after_ids l l' : id <$> l = id <$> l' -> next_after l = next_after l'.
Proof.
  unfold next_after. generalize 1 as n. revert l'.
  induction l as [|a l IH]; intros [|a' l'] n H; try done. injection H as Hid H. cbn [foldl].
  unfold above at 2 4. rewrite Hid. by apply IH.
Qed.

(** Replacing an account by one of the same name and id. *)
Lemma put_wf st i a a' :
  store_wf st -> live st !! i = Some a -> account_wf a' -> id a' = id a ->
  stored_name a' = stored_name a -> store_wf (AccountStore.put st i a').
Proof.
  intros W Hi Ha Hid Hn. pose proof (live_lookup _ _ _ Hi) as [_ Hlt].
  pose proof (wf_length st W). pose proof (wf_count st W).
  constructor; rewrite ?live_put by done; cbn [AccountStore.put accounts count next_id salt_counter].
  - by rewrite length_insert.
  - done.
  - apply Forall_insert; [apply W|done].
  - rewrite drop_insert_lt by done. apply W.
  - rewrite (fmap_same_key stored_name _ _ a) by done. apply W.
  - rewrite (fmap_same_key id _ _ a) by done. apply W.
  - rewrite (wf_next st W). apply next_after_ids. by rewrite (fmap_same_key id _ _ a).
  - apply W.
  - apply W.
Qed.

(** ** Making an account *)

Lemma above_ge n a : n <= above n a /\ id a < above n a.
Proof. unfold above. destruct (Z.leb_spec n (id a)); lia. Qed.

Lemma foldl_above_ge l : forall n, n <= foldl above n l.
Proof.
  induction l as [|a l IH]; intros n; simpl; [lia|]. pose proof (above_ge n a).
  specialize (IH (above n a)). lia.
Qed.

Lemma next_after_above l : Forall (fun a => id a < next_after l) l.
Proof.
  unfold next_after. generalize 1 as n. induction l as [|a l IH]; intros n; constructor; simpl; [|apply IH].
  pose proof (above_ge n a). pose proof (foldl_above_ge l (above n a)). lia.
Qed.

(** Room for one more draw of a salt and one more id. *)
Definition counters_ok (st : AccountStore) : Prop :=
  salt_counter st + 1 < 2 ^ 64 /\ next_id st + 1 < 2 ^ 32.

Lemma append_wf st a :
  store_wf st -> (count st < MAX_ACCOUNTS)%nat -> next_id st + 1 < 2 ^ 32 -> account_wf a ->
  id a = next_id st -> Forall (fun b => stored_name b <> stored_name a) (live st) ->
  exists st', AccountStore.append st a = Some st' /\ store_wf st' /\ live st' = live st ++ [a] /\
    active st' = active st /\ salt_counter st' = salt_counter st /\ salt_tick st' = salt_tick st.
Proof.
  intros W Hc Hn Wa Hid Hnew. pose proof (wf_length st W) as Hl. pose proof (wf_next_word st W) as Hw.
  unfold is_word in Hw. unfold AccountStore.append. rewrite store_ok by lia. cbn [mbind option_bind].
  rewrite chk_ok by lia. cbn [mbind option_bind]. eexists. split; [done|].
  assert (forall x y z w, live (mkAccountStore (<[count st := a]> (accounts st)) (S (count st)) x y z w) =
            live st ++ [a]) as Hlive.
  { intros. unfold live. cbn [accounts count].
    rewrite (take_S_r _ _ a) by (by rewrite list_lookup_insert_eq by lia). by rewrite take_insert_ge. }
  split; [|by rewrite Hlive]. constructor; rewrite ?Hlive, ?fmap_app; cbn [accounts count next_id salt_counter].
  - by rewrite length_insert.
  - lia.
  - apply Forall_app. split; [apply W|by constructor].
  - rewrite drop_insert_lt by lia. pose proof (wf_rest st W) as Hr.
    replace (MAX_ACCOUNTS - count st)%nat with (S (MAX_ACCOUNTS - S (count st))) in Hr by lia.
    destruct (lookup_lt_is_Some_2 (accounts st) (count st)) as [x Hx]; [lia|].
    rewrite (drop_S _ _ _ Hx) in Hr. by injection Hr.
  - apply NoDup_app. split; [apply W|]. split; [|apply NoDup_singleton].
    intros n Hin1 Hin2%list_elem_of_singleton. apply list_elem_of_fmap in Hin1 as (b & -> & Hb).
    rewrite Forall_forall in Hnew. by apply (Hnew b Hb).
  - apply NoDup_app. split; [apply W|]. split; [|apply NoDup_singleton].
    intros n Hin1 Hin2%list_elem_of_singleton. apply list_elem_of_fmap in Hin1 as (b & -> & Hb).
    pose proof (next_after_above (live st)) as Ha. rewrite Forall_forall in Ha. specialize (Ha b Hb).
    rewrite <- (wf_next st W) in Ha. lia.
  - unfold next_after. rewrite foldl_app. fold (next_after (live st)). rewrite <- (wf_next st W).
    cbn [foldl]. unfold above. rewrite Hid, Z.leb_refl. done.
  - unfold is_word. lia.
  - apply W.
Qed.

Lemma copy_field_ok n source :
  (length source <= n)%nat -> is_bytes source ->
  exists arr, copy_field n source = Some arr /\ field n (length source) arr /\
    take (length source) arr = source.
Proof.
  intros Hle Hb. unfold copy_field. rewrite (proj2 (Nat.ltb_ge _ _)) by lia. eexists. split; [done|].
  split; [|apply take_app_length]. split_and!; [done| | |].
  - rewrite length_app, length_replicate. lia.
  - apply is_bytes_app. split; [done|]. by apply Forall_replicate.
  - by rewrite drop_app_length.
Qed.

(** The outcome of the checks: the arguments are accepted exactly when they are
    within their bounds, there is room, and no account has the name. *)
Lemma creation_error_spec st nm disp secret :
  store_wf st ->
  exists r, AccountStore.creation_error st nm disp secret = Some r /\
    (r = None <-> (0 < length nm <= MAX_NAME)%nat /\ (length disp <= MAX_DISPLAY)%nat /\
       (0 < length secret)%nat /\ (count st < MAX_ACCOUNTS)%nat /\
       Forall (fun a => stored_name a <> nm) (live st)).
Proof.
  intros W. unfold AccountStore.creation_error.
  destruct (Nat.eqb_spec (length nm) 0); [eexists; split; [done|]; split; [done|lia]|].
  destruct (Nat.ltb_spec MAX_NAME (length nm)); [eexists; split; [done|]; split; [done|lia]|].
  destruct (Nat.ltb_spec MAX_DISPLAY (length disp)); [eexists; split; [done|]; split; [done|lia]|].
  destruct (Nat.eqb_spec (length secret) 0); [eexists; split; [done|]; split; [done|lia]|].
  destruct (Nat.leb_spec MAX_ACCOUNTS (count st)); [eexists; split; [done|]; split; [done|lia]|].
  simpl orb. cbv iota. pose proof (account_index_spec st nm W) as Hf.
  destruct (AccountStore.account_index st nm) as [[i|]|]; [| |done]; eexists; (split; [done|]).
  - split; [done|]. intros (_ & _ & _ & _ & Hall). destruct Hf as (a & Ha & <-).
    by eapply Forall_lookup_1 in Hall.
  - split; [|done]. intros _. by split_and!; try lia.
Qed.

Lemma default_capabilities_word b : is_word 32 (default_capabilities b).
Proof. by destruct b. Qed.

Lemma new_account_wf n nm_len nf d_len df is_admin s h :
  (0 < nm_len)%nat -> field MAX_NAME nm_len nf -> field MAX_DISPLAY d_len df -> is_word 32 n ->
  is_block PBKDF2_SALT_BYTES s -> is_block PBKDF2_HASH_BYTES h ->
  account_wf (mkAccount n nm_len nf d_len df 0 0 (default_capabilities is_admin)
    (replicate MAX_OWNED_SESSIONS 0) 0 KDF_PBKDF2_SHA512 PBKDF2_LOGIN_ITERATIONS s h).
Proof.
  intros. constructor; cbn; try done; [apply default_capabilities_word|split; [done|apply Nat.le_0_l]|by left].
Qed.

(** A new account: its fields as given, its credential derived from the secret,
    no session; on an error nothing changes. *)
Lemma create_account_spec st entropy nm disp secret is_admin :
  store_wf st -> counters_ok st -> entropy_ok entropy -> is_bytes nm -> is_bytes disp ->
  exists r st', AccountStore.create_account st entropy nm disp secret is_admin = Some (r, st') /\
    store_wf st' /\ active st' = active st /\
    match r with
    | Err _ => st' = st
    | Ok n => n = next_id st /\ exists a, live st' = live st ++ [a] /\ id a = n /\
        stored_name a = nm /\ stored_display a = disp /\
        capabilities a = default_capabilities is_admin /\ owned a = [] /\
        kdf a = KDF_PBKDF2_SHA512 /\ kdf_iters a = PBKDF2_LOGIN_ITERATIONS /\
        record_hash a = pbkdf2_derive (record_salt a) PBKDF2_LOGIN_ITERATIONS secret
    end /\
    (is_ok r = true <-> (0 < length nm <= MAX_NAME)%nat /\ (length disp <= MAX_DISPLAY)%nat /\
       (0 < length secret)%nat /\ (count st < MAX_ACCOUNTS)%nat /\
       Forall (fun a => stored_name a <> nm) (live st)).
Proof.
  intros W [Hc Hn] He Bn Bd. pose proof (wf_counter st W) as [Hc0 _].
  unfold AccountStore.create_account.
  destruct (creation_error_spec st nm disp secret W) as (r & -> & Hr). cbn [mbind option_bind].
  destruct r as [e|]; [exists (Err e), st; split_and!; try done; simpl; naive_solver|].
  destruct (proj1 Hr eq_refl) as (Hnm & Hd & Hs & Hcount & Hnew).
  rewrite chk_ok by lia. cbn [mbind option_bind].
  destruct (copy_field_ok MAX_NAME nm) as (nf & -> & Hnf & Tn); [lia|done|].
  destruct (copy_field_ok MAX_DISPLAY disp) as (df & -> & Hdf & Td); [lia|done|]. cbn [mbind option_bind].
  pose proof (is_block_fresh_salt entropy nm (salt_tick st) (salt_counter st) (next_id st) He) as Bs.
  revert Bs. generalize (fresh_salt entropy nm (salt_tick st) (salt_counter st) (next_id st)) as s.
  intros s Bs. set (a := mkAccount _ _ _ _ _ _ _ _ _ _ _ _ _ _).
  assert (account_wf a) as Wa.
  { apply new_account_wf; [lia|exact Hnf|exact Hdf|apply W|exact Bs|apply is_block_pbkdf2]. }
  assert (store_wf (AccountStore.with_counter st (salt_counter st + 1))) as W1.
  { clear Wa a. destruct W. constructor; try done. unfold is_word. cbn. lia. }
  destruct (append_wf _ a W1 Hcount Hn Wa eq_refl) as (st' & -> & W' & Hl & Hact & _).
  { eapply Forall_impl; [exact Hnew|]. intros b Hb. unfold stored_name at 2. cbn. by rewrite Tn. }
  cbn [mbind option_bind]. eexists _, st'. split; [reflexivity|]. split; [exact W'|].
  split; [exact Hact|]. split.
  - split; [reflexivity|]. exists a. repeat split; [exact Hl|exact Tn|exact Td].
  - split; [intros _; exact (proj1 Hr eq_refl)|reflexivity].
Qed.

(** ** Credentials *)

(** The secret that an account's record accepts. *)
Definition accepts (a : Account) (secret : list Z) : Prop :=
  if kdf a =? KDF_PBKDF2_SHA512
  then pbkdf2_derive (record_salt a) (kdf_iters a) secret = record_hash a
  else derive_auth_hash (salt a) secret = auth_hash a.

Lemma verify_spec st i a secret :
  live st !! i = Some a ->
  exists b, AccountStore.verify st i secret = Some b /\ (b = true <-> accepts a secret).
Proof.
  intros [Hi _]%live_lookup. unfold AccountStore.verify, accepts. rewrite Hi. cbn [mbind option_bind].
  eexists. split; [reflexivity|]. destruct (kdf a =? KDF_PBKDF2_SHA512); [apply ct_eq_true|apply Z.eqb_eq].
Qed.

(** The account of that name, and whether its record accepts the secret. *)
Lemma check_credentials_spec st nm secret :
  store_wf st ->
  exists r, AccountStore.check_credentials st nm secret = Some r /\
    match r with
    | Ok i => exists a, live st !! i = Some a /\ stored_name a = nm /\ accepts a secret
    | Err UnknownAccount => Forall (fun a => stored_name a <> nm) (live st)
    | Err BadCredentials => exists i a, live st !! i = Some a /\ stored_name a = nm /\ ~ accepts a secret
    | Err _ => False
    end.
Proof.
  intros W. unfold AccountStore.check_credentials. pose proof (account_index_spec st nm W) as Hf.
  destruct (AccountStore.account_index st nm) as [[i|]|]; [| |done]; cbn [mbind option_bind].
  - destruct Hf as (a & Hi & Hn). destruct (verify_spec st i a secret Hi) as (b & -> & Hb).
    cbn [mbind option_bind]. destruct b; eexists; (split; [reflexivity|]).
    + exists a. split; [exact Hi|]. split; [exact Hn|]. by apply Hb.
    + exists i, a. split; [exact Hi|]. split; [exact Hn|]. intros Ha. by apply Hb in Ha.
  - eexists. split; [reflexivity|]. exact Hf.
Qed.

(** The account with its credential replaced. *)
Definition with_credential (a : Account) (s h : list Z) : Account :=
  mkAccount (id a) (name_len a) (name a) (display_len a) (display a) 0 0 (capabilities a)
    (owned_sessions a) (owned_count a) KDF_PBKDF2_SHA512 PBKDF2_LOGIN_ITERATIONS s h.

Lemma with_credential_wf a s h :
  account_wf a -> is_block PBKDF2_SALT_BYTES s -> is_block PBKDF2_HASH_BYTES h ->
  account_wf (with_credential a s h).
Proof. intros W Hs Hh. destruct W. constructor; cbn; try done. by left. Qed.

Lemma rederive_spec st entropy i a secret :
  store_wf st -> salt_counter st + 1 < 2 ^ 64 -> entropy_ok entropy -> live st !! i = Some a ->
  exists st' s, AccountStore.rederive_pbkdf2 st entropy i secret = Some st' /\ store_wf st' /\
    live st' = <[i := with_credential a s (pbkdf2_derive s PBKDF2_LOGIN_ITERATIONS secret)]> (live st) /\
    active st' = active st /\ next_id st' = next_id st /\ count st' = count st /\
    salt_counter st' = salt_counter st + 1.
Proof.
  intros W Hc He Hi. pose proof (live_lookup _ _ _ Hi) as [Hai Hlt].
  assert (account_wf a) as Wa by (eapply Forall_lookup_1; [apply W|exact Hi]).
  pose proof (wf_counter st W) as [Hc0 _]. destruct (wf_name a Wa) as (Hle & Hlen & _).
  unfold AccountStore.rederive_pbkdf2. rewrite Hai. cbn [mbind option_bind].
  rewrite slice_to_ok by lia. cbn [mbind option_bind]. rewrite chk_ok by lia. cbn [mbind option_bind].
  pose proof (is_block_fresh_salt entropy (take (name_len a) (name a)) (salt_tick st) (salt_counter st)
    (id a) He) as Bs. revert Bs.
  generalize (fresh_salt entropy (take (name_len a) (name a)) (salt_tick st) (salt_counter st) (id a)) as s.
  intros s Bs. pose proof (is_block_pbkdf2 s PBKDF2_LOGIN_ITERATIONS secret) as Bh.
  eexists _, s. split; [reflexivity|].
  assert (store_wf (AccountStore.with_counter st (salt_counter st + 1))) as W1.
  { clear Bh. destruct W. constructor; try done. unfold is_word. cbn. lia. }
  split; [|split; [|split; [|split; [|split]]]]; [|by apply (live_put (AccountStore.with_counter st _))|reflexivity..].
  exact (put_wf _ i a _ W1 Hi (with_credential_wf a s _ Wa Bs Bh) eq_refl eq_refl).
Qed.

(** ** Sessions *)

Lemma with_sessions_wf a l n :
  account_wf a -> length l = MAX_OWNED_SESSIONS -> (n <= MAX_OWNED_SESSIONS)%nat ->
  account_wf (AccountStore.with_sessions a l n).
Proof. intros W Hl Hn. destruct W. by constructor. Qed.

(** An account without a session takes one; the account is otherwise as it was. *)
Lemma record_spec st i a session :
  store_wf st -> live st !! i = Some a -> owned a = [] ->
  exists a', AccountStore.record_ownership st i session =
      Some (Ok tt, AccountStore.put st i a') /\
    store_wf (AccountStore.put st i a') /\ id a' = id a /\ owned a' = [session].
Proof.
  intros W Hi Ho. pose proof (live_lookup _ _ _ Hi) as [Hai Hlt].
  assert (account_wf a) as Wa by (eapply Forall_lookup_1; [apply W|exact Hi]).
  destruct (wf_owned a Wa) as [Hl Hn].
  assert (owned_count a = 0%nat) as E0.
  { apply (f_equal length) in Ho. unfold owned in Ho. rewrite length_take in Ho. simpl in Ho. lia. }
  unfold AccountStore.record_ownership. rewrite Hai. cbn [mbind option_bind]. rewrite E0.
  unfold MAX_OWNED_SESSIONS in *. rewrite slice_to_ok by lia. cbn [mbind option_bind take].
  rewrite store_ok by lia. cbn [mbind option_bind Nat.leb].
  rewrite bool_decide_eq_false_2 by apply not_elem_of_nil.
  eexists. split; [reflexivity|].
  assert (account_wf (AccountStore.with_sessions a (<[0%nat := session]> (owned_sessions a)) 1)) as Wa'.
  { apply with_sessions_wf; [done|by rewrite length_insert|unfold MAX_OWNED_SESSIONS; lia]. }
  split; [by apply (put_wf st i a)|]. split; [reflexivity|].
  unfold owned. cbn. destruct (owned_sessions a); [done|]. done.
Qed.

(** An account that owns just that session gives it up. *)
Lemma release_spec st i a session :
  store_wf st -> live st !! i = Some a -> owned a = [session] ->
  exists a', AccountStore.release_ownership st i session = Some (AccountStore.put st i a') /\
    store_wf (AccountStore.put st i a') /\ id a' = id a /\ owned a' = [].
Proof.
  intros W Hi Ho. pose proof (live_lookup _ _ _ Hi) as [Hai Hlt].
  assert (account_wf a) as Wa by (eapply Forall_lookup_1; [apply W|exact Hi]).
  destruct (wf_owned a Wa) as [Hl Hn].
  assert (owned_count a = 1%nat) as E1.
  { apply (f_equal length) in Ho. unfold owned in Ho. rewrite length_take in Ho. simpl in Ho. lia. }
  unfold owned in Ho. unfold AccountStore.release_ownership. rewrite Hai. cbn [mbind option_bind].
  rewrite slice_to_ok, Ho, E1 by lia. cbn [mbind option_bind position Nat.sub]. rewrite Z.eqb_refl.
  unfold MAX_OWNED_SESSIONS in *.
  destruct (lookup_lt_is_Some_2 (owned_sessions a) 0) as [x Hx]; [lia|]. rewrite Hx. cbn [mbind option_bind].
  rewrite store_ok by lia. cbn [mbind option_bind]. eexists. split; [reflexivity|].
  split; [|split; reflexivity]. apply (put_wf st i a); [done|done| |done|done].
  apply with_sessions_wf; [done|by rewrite length_insert|unfold MAX_OWNED_SESSIONS; lia].
Qed.
