(* ===== verification/AccountOps.v ===== *)
(** * Logging in, logging out, switching sessions and changing passwords

    Each operation on a store that satisfies the invariant: its result on every
    branch, what it leaves, and that the invariant holds again; then the states
    that any sequence of operations reaches. *)

From Stdlib Require Import ZArith Lia.
From stdpp Require Import base option list.
From S2P Require Import Prelude Words UserMessage Accounts AccountInv.

#[local] Open Scope Z_scope.

(** The whole invariant. *)
Definition good (st : AccountStore) : Prop := store_wf st /\ sessions_ok st.

Lemma store_wf_with_active st c : store_wf st -> store_wf (AccountStore.with_active st c).
Proof. intros W. destruct W. by constructor. Qed.

Lemma same_id_same_index st i j a b :
  store_wf st -> live st !! i = Some a -> live st !! j = Some b -> id a = id b -> i = j.
Proof.
  intros W Hi Hj Hid. apply (NoDup_lookup (id <$> live st) i j (id a)); [apply W| |];
    rewrite list_lookup_fmap; [by rewrite Hi|by rewrite Hj, Hid].
Qed.

Lemma same_name_same_account st i j a b :
  store_wf st -> live st !! i = Some a -> live st !! j = Some b -> stored_name a = stored_name b -> a = b.
Proof.
  intros W Hi Hj Hn. assert (i = j) as ->; [|congruence].
  apply (NoDup_lookup (stored_name <$> live st) i j (stored_name a)); [apply W| |];
    rewrite list_lookup_fmap; [by rewrite Hi|by rewrite Hj, Hn].
Qed.

(** Sessions after an account has been replaced and the claim changed with it. *)
Lemma sessions_put st i a a' c :
  good st -> live st !! i = Some a -> id a' = id a ->
  owned a' = match c with Some s => [s] | None => [] end ->
  (forall s, c = Some s -> s <> 0) ->
  (forall k, active st = Some k -> account_id k = id a) ->
  sessions_ok (AccountStore.with_active (AccountStore.put st i a')
    (option_map (mkClaim (id a)) c)).
Proof.
  intros [W [Ho _]] Hi Hid Ha Hs Hact. pose proof (live_lookup _ _ _ Hi) as [_ Hlt].
  assert (live (AccountStore.with_active (AccountStore.put st i a') (option_map (mkClaim (id a)) c)) =
          <[i := a']> (live st)) as Hl by by apply live_put.
  split; rewrite Hl.
  - apply Forall_lookup. intros j b Hj. unfold claimed. cbn [active AccountStore.with_active].
    apply list_lookup_insert_Some in Hj as [(<- & <- & _)|[Hne Hb]].
    + rewrite Ha, Hid. destruct c; simpl; [by rewrite Z.eqb_refl|done].
    + assert (id a <> id b) as Hidb by (intros E; apply Hne; by eapply same_id_same_index).
      rewrite (Forall_lookup_1 _ _ _ _ Ho Hb). unfold claimed.
      assert (match active st with Some k => if account_id k =? id b then [session_id k] else [] | None => [] end = []) as ->.
      { destruct (active st) as [k|] eqn:Hk; [|done]. rewrite (Hact k eq_refl).
        by rewrite (proj2 (Z.eqb_neq _ _)). }
      destruct c; simpl; [|done]. by rewrite (proj2 (Z.eqb_neq _ _)).
  - intros k. cbn [active AccountStore.with_active]. destruct c as [s|]; [|done]. simpl. intros [= <-].
    split; [|by apply Hs]. rewrite (fmap_same_key id _ _ a) by done.
    apply list_elem_of_fmap. exists a. split; [done|]. by eapply list_elem_of_lookup_2.
Qed.

(** The account of the claim, found by its id. *)
Lemma claim_account st c :
  good st -> active st = Some c ->
  exists i a, AccountStore.account_index_of_id st (account_id c) = Some (Some i) /\
    live st !! i = Some a /\ id a = account_id c /\ owned a = [session_id c].
Proof.
  intros [W [Ho Hc]] Hact. destruct (Hc c Hact) as [Hin _].
  pose proof (account_index_of_id_spec st (account_id c) W) as Hf.
  destruct (AccountStore.account_index_of_id st (account_id c)) as [[i|]|]; [| |done].
  - destruct Hf as (a & Hi & Hid). exists i, a. split_and!; try done.
    rewrite (Forall_lookup_1 _ _ _ _ Ho Hi). unfold claimed. by rewrite Hact, Hid, Z.eqb_refl.
  - exfalso. apply list_elem_of_fmap in Hin as (a & Hid & Ha). rewrite Forall_forall in Hf.
    by apply (Hf a Ha).
Qed.

Lemma no_claim_no_session st i a :
  good st -> active st = None -> live st !! i = Some a -> owned a = [].
Proof.
  intros [_ [Ho _]] Hact Hi. rewrite (Forall_lookup_1 _ _ _ _ Ho Hi). unfold claimed. by rewrite Hact.
Qed.

(** Whether a name and a secret are accepted, without the search. *)
Lemma check_credentials_iff st nm secret :
  store_wf st ->
  exists r, AccountStore.check_credentials st nm secret = Some r /\
    (is_ok r = true <-> exists a, a ∈ live st /\ stored_name a = nm /\ accepts a secret) /\
    (forall e, r = Err e -> e = UnknownAccount \/ e = BadCredentials).
Proof.
  intros W. destruct (check_credentials_spec st nm secret W) as (r & -> & Hr). exists r.
  split; [reflexivity|]. destruct r as [i|e]; cbn [is_ok].
  - destruct Hr as (a & Hi & Hn & Ha). split; [|done]. split; [|done]. intros _. exists a.
    split; [by eapply list_elem_of_lookup_2|]. by split.
  - split; [|intros ? [= <-]; destruct e; (by left) || (by right) || done]. split; [done|].
    intros (b & [j Hj]%list_elem_of_lookup_1 & Hb & Hacc). exfalso. destruct e; try done.
    + rewrite Forall_forall in Hr. by apply (Hr b); [eapply list_elem_of_lookup_2|].
    + destruct Hr as (i & a & Hi & Hn & Hna). apply Hna.
      by rewrite (same_name_same_account st i j a b W Hi Hj) by congruence.
Qed.

(** ** Logging out and switching *)

Lemma logout_spec st session :
  good st ->
  exists r st', AccountStore.logout st session = Some (r, st') /\ good st' /\
    match r with
    | Ok c => active st = Some c /\ session_id c = session /\ active st' = None
    | Err NotLoggedIn => active st = None /\ st' = st
    | Err SessionAlreadyClaimed => (exists c, active st = Some c /\ session_id c <> session) /\ st' = st
    | Err _ => False
    end.
Proof.
  intros G. unfold AccountStore.logout. destruct (active st) as [c|] eqn:Hact.
  2: { by eexists _, st. }
  destruct (Z.eqb_spec (session_id c) session) as [Hs|Hs]; cbn [negb].
  2: { eexists _, st. split; [done|]. split; [done|]. split; [by exists c|done]. }
  destruct (claim_account st c G Hact) as (i & a & -> & Hi & Hid & Ho). cbn [mbind option_bind].
  destruct (release_spec st i a session (proj1 G) Hi) as (a' & -> & W' & Hid' & Ho'); [by rewrite Ho, Hs|].
  cbn [mbind option_bind]. eexists _, _. split; [done|]. split; [|by split_and!].
  split; [by apply store_wf_with_active|]. apply (sessions_put st i a a' None); try done.
  intros k Hk. rewrite Hact in Hk. by injection Hk as <-.
Qed.

Lemma switch_user_spec st target :
  good st ->
  exists r st', AccountStore.switch_user st target = Some (r, st') /\ good st' /\
    match r with
    | Ok s => target <> 0 /\ exists c, active st = Some c /\ session_id c <> target /\
        s = mkSwitchRecord (account_id c) (session_id c) target /\
        active st' = Some (mkClaim (account_id c) target)
    | Err InvalidArgument => target = 0 /\ st' = st
    | Err NotLoggedIn => active st = None /\ st' = st
    | Err SessionAlreadyClaimed => (exists c, active st = Some c /\ session_id c = target) /\ st' = st
    | Err _ => False
    end.
Proof.
  intros G. unfold AccountStore.switch_user. destruct (Z.eqb_spec target 0) as [->|Ht]; [by eexists _, st|].
  destruct (active st) as [c|] eqn:Hact; [|by eexists _, st].
  destruct (Z.eqb_spec (session_id c) target) as [Hs|Hs].
  { eexists _, st. split; [done|]. split; [done|]. split; [by exists c|done]. }
  destruct (claim_account st c G Hact) as (i & a & -> & Hi & Hid & Ho). cbn [mbind option_bind].
  destruct (release_spec st i a (session_id c) (proj1 G) Hi Ho) as (a1 & -> & W1 & Hid1 & Ho1).
  cbn [mbind option_bind]. pose proof (live_lookup _ _ _ Hi) as [_ Hlt].
  assert (live (AccountStore.put st i a1) !! i = Some a1) as Hi1.
  { rewrite live_put by done. apply list_lookup_insert_eq. by eapply lookup_lt_Some. }
  destruct (record_spec _ i a1 target W1 Hi1 Ho1) as (a2 & -> & W2 & Hid2 & Ho2). cbn [mbind option_bind].
  eexists _, _. split; [done|].
  assert (AccountStore.put (AccountStore.put st i a1) i a2 = AccountStore.put st i a2) as Hput.
  { unfold AccountStore.put. cbn. by rewrite list_insert_insert_eq. }
  rewrite Hput in *. split.
  - split; [by apply store_wf_with_active|]. rewrite <- Hid.
    apply (sessions_put st i a a2 (Some target)); try done; [congruence|naive_solver|].
    intros k Hk. rewrite Hact in Hk. by injection Hk as <-.
  - split; [done|]. exists c. by split_and!.
Qed.

(** ** Changing a credential *)

Lemma sessions_same st st' :
  sessions_ok st -> active st' = active st -> id <$> live st' = id <$> live st ->
  owned <$> live st' = owned <$> live st -> sessions_ok st'.
Proof.
  intros [Ho Hc] Hact Hids Hown. split.
  - apply Forall_lookup. intros j b Hj.
    assert ((owned <$> live st') !! j = Some (owned b)) as E by (by rewrite list_lookup_fmap, Hj).
    assert ((id <$> live st') !! j = Some (id b)) as F by (by rewrite list_lookup_fmap, Hj).
    rewrite Hown, list_lookup_fmap in E. rewrite Hids, list_lookup_fmap in F.
    destruct (live st !! j) as [a|] eqn:Ha; [|done]. injection E as <-. injection F as F.
    rewrite (Forall_lookup_1 _ _ _ _ Ho Ha). unfold claimed. by rewrite Hact, F.
  - intros c. rewrite Hact, Hids. apply Hc.
Qed.

Lemma good_rederive st entropy i a secret :
  good st -> salt_counter st + 1 < 2 ^ 64 -> entropy_ok entropy -> live st !! i = Some a ->
  exists st' s, AccountStore.rederive_pbkdf2 st entropy i secret = Some st' /\ good st' /\
    live st' = <[i := with_credential a s (pbkdf2_derive s PBKDF2_LOGIN_ITERATIONS secret)]> (live st) /\
    active st' = active st.
Proof.
  intros [W S] Hc He Hi.
  destruct (rederive_spec st entropy i a secret W Hc He Hi) as (st' & s & E & W' & Hl & Hact & _).
  exists st', s. split; [exact E|]. split; [|split; [exact Hl|exact Hact]]. split; [exact W'|].
  apply (sessions_same st); [exact S|exact Hact| |]; rewrite Hl;
    (rewrite (fmap_same_key _ _ _ a); [reflexivity|exact Hi|reflexivity]).
Qed.

Lemma set_password_spec st entropy nm old_secret new_secret :
  good st -> salt_counter st + 1 < 2 ^ 64 -> entropy_ok entropy ->
  exists r st', AccountStore.set_password st entropy nm old_secret new_secret = Some (r, st') /\
    good st' /\ active st' = active st /\
    match r with
    | Ok i => new_secret <> [] /\ exists a s, live st !! i = Some a /\ stored_name a = nm /\
        accepts a old_secret /\
        live st' = <[i := with_credential a s (pbkdf2_derive s PBKDF2_LOGIN_ITERATIONS new_secret)]>
                     (live st)
    | Err InvalidArgument => new_secret = [] /\ st' = st
    | Err UnknownAccount => Forall (fun a => stored_name a <> nm) (live st) /\ st' = st
    | Err BadCredentials => (exists i a, live st !! i = Some a /\ stored_name a = nm /\
        ~ accepts a old_secret) /\ st' = st
    | Err _ => False
    end.
Proof.
  intros G Hc He. unfold AccountStore.set_password. destruct new_secret as [|x l]; [by eexists _, st|].
  cbn [length Nat.eqb]. destruct (check_credentials_spec st nm old_secret (proj1 G)) as (r & -> & Hr).
  cbn [mbind option_bind]. destruct r as [i|e].
  - destruct Hr as (a & Hi & Hn & Ha).
    destruct (good_rederive st entropy i a (x :: l) G Hc He Hi) as (st' & s & -> & G' & Hl & Hact).
    cbn [mbind option_bind]. eexists _, st'. split; [reflexivity|]. split; [exact G'|].
    split; [exact Hact|]. split; [discriminate|]. exists a, s.
    split; [exact Hi|]. split; [exact Hn|]. split; [exact Ha|exact Hl].
  - exists (Err e), st. split; [reflexivity|]. split; [exact G|]. split; [reflexivity|].
    destruct e; try contradiction; split; [exact Hr|reflexivity|exact Hr|reflexivity].
Qed.

(** ** Logging in *)

Lemma login_spec st entropy nm secret session :
  good st -> salt_counter st + 1 < 2 ^ 64 -> entropy_ok entropy ->
  exists r st', AccountStore.login st entropy nm secret session = Some (r, st') /\ good st' /\
    match r with
    | Ok (c, upgraded) => session <> 0 /\ active st = None /\ active st' = Some c /\
        session_id c = session /\ exists i a a',
        live st !! i = Some a /\ stored_name a = nm /\ accepts a secret /\ account_id c = id a /\
        upgraded = (kdf a =? KDF_LEGACY_FNV) /\ live st' = <[i := a']> (live st) /\
        id a' = id a /\ owned a' = [session]
    | Err e => st' = st /\ (session = 0 \/ is_Some (active st) \/
        ~ exists a, a ∈ live st /\ stored_name a = nm /\ accepts a secret)
    end.
Proof.
  intros G Hc He. unfold AccountStore.login. destruct (Z.eqb_spec session 0) as [->|Hs]; [by eexists _, st; split; [reflexivity|]; split; [exact G|]; split; [reflexivity|left]|].
  destruct (active st) as [k|] eqn:Hact; [by eexists _, st; split; [reflexivity|]; split; [exact G|]; split; [reflexivity|right; left]|].
  rewrite bool_decide_eq_false_2 by (by intros [? ?]).
  destruct (check_credentials_iff st nm secret (proj1 G)) as (r' & E' & Hiff & _).
  destruct (check_credentials_spec st nm secret (proj1 G)) as (r & E & Hr). rewrite E in E' |- *.
  injection E' as <-. cbn [mbind option_bind]. destruct r as [i|e].
  2: { exists (Err e), st. split; [reflexivity|]. split; [exact G|]. split; [reflexivity|].
       right; right. intros Hx. apply Hiff in Hx. discriminate. }
  destruct Hr as (a & Hi & Hn & Ha). pose proof (live_lookup _ _ _ Hi) as [Hai Hlt]. rewrite Hai.
  cbn [mbind option_bind]. pose proof (no_claim_no_session st i a G Hact Hi) as Ho.
  assert (exists st1 a1, (if kdf a =? KDF_LEGACY_FNV
            then AccountStore.rederive_pbkdf2 st entropy i secret else Some st) = Some st1 /\ good st1 /\
            active st1 = None /\ live st1 = <[i := a1]> (live st) /\ id a1 = id a /\ owned a1 = []) as H1.
  { destruct (kdf a =? KDF_LEGACY_FNV).
    - destruct (good_rederive st entropy i a secret G Hc He Hi) as (st1 & s & -> & G1 & Hl & Ha1).
      eexists st1, _. split; [reflexivity|]. split; [exact G1|]. split; [by rewrite Ha1|].
      split; [exact Hl|]. split; [reflexivity|exact Ho].
    - exists st, a. split; [reflexivity|]. split; [exact G|]. split; [exact Hact|].
      split; [by rewrite list_insert_id|]. split; [reflexivity|exact Ho]. }
  destruct H1 as (st1 & a1 & -> & G1 & Hact1 & Hl1 & Hid1 & Ho1). cbn [mbind option_bind].
  assert (live st1 !! i = Some a1) as Hi1.
  { rewrite Hl1. apply list_lookup_insert_eq. by eapply lookup_lt_Some. }
  pose proof (live_lookup _ _ _ Hi1) as [Hai1 Hlt1]. rewrite Hai1. cbn [mbind option_bind].
  destruct (record_spec st1 i a1 session (proj1 G1) Hi1 Ho1) as (a2 & -> & W2 & Hid2 & Ho2).
  cbn [mbind option_bind]. eexists _, _. split; [reflexivity|]. split.
  - split; [by apply store_wf_with_active|].
    apply (sessions_put st1 i a1 a2 (Some session)); [exact G1|exact Hi1|exact Hid2|exact Ho2|naive_solver|].
    intros k Hk. by rewrite Hact1 in Hk.
  - split; [exact Hs|]. split; [reflexivity|]. split; [reflexivity|]. split; [reflexivity|].
    exists i, a, a2. split; [exact Hi|]. split; [exact Hn|]. split; [exact Ha|]. split; [exact Hid1|].
    split; [reflexivity|]. split; [|split; [congruence|exact Ho2]].
    change (live (AccountStore.with_active (AccountStore.put st1 i a2) _)) with (live (AccountStore.put st1 i a2)).
    by rewrite live_put, Hl1, list_insert_insert_eq.
Qed.

(** ** Making an account *)

Lemma good_create st entropy nm disp secret is_admin :
  good st -> counters_ok st -> entropy_ok entropy -> is_bytes nm -> is_bytes disp ->
  exists r st', AccountStore.create_account st entropy nm disp secret is_admin = Some (r, st') /\ good st' /\
    active st' = active st /\
    match r with
    | Err _ => st' = st
    | Ok n => n = next_id st /\ exists a, live st' = live st ++ [a] /\ id a = n /\ stored_name a = nm /\
        stored_display a = disp /\ capabilities a = default_capabilities is_admin /\ accepts a secret
    end.
Proof.
  intros [W S] Hc He Bn Bd.
  destruct (create_account_spec st entropy nm disp secret is_admin W Hc He Bn Bd)
    as (r & st' & E & W' & Hact & Hr & _).
  exists r, st'. split; [exact E|]. destruct r as [n|e]; [|subst st'; split; [by split|by split]].
  destruct Hr as (-> & a & Hl & Hid & Hn & Hd & Hcap & Ho & Hk & Hit & Hh).
  split; [|split; [exact Hact|]].
  - clear Hh. split; [exact W'|]. destruct S as [Hown Hcl]. split; rewrite Hl.
    + apply Forall_app. split.
      * eapply Forall_impl; [exact Hown|]. intros b Hb. unfold claimed in *. by rewrite Hact.
      * constructor; [|constructor]. rewrite Ho. unfold claimed. rewrite Hact.
        destruct (active st) as [c|] eqn:Hk'; [|done]. destruct (Hcl c eq_refl) as [Hin _].
        rewrite (proj2 (Z.eqb_neq _ _)); [done|]. intros E'. rewrite Hid in E'.
        apply list_elem_of_fmap in Hin as (b & Hb & Hin). pose proof (next_after_above (live st)) as Ha.
        rewrite Forall_forall in Ha. specialize (Ha b Hin). rewrite <- (wf_next st W) in Ha. lia.
    + intros c. rewrite Hact, fmap_app. intros Hc'. destruct (Hcl c Hc') as [Hin Hz].
      split; [|exact Hz]. apply elem_of_app. by left.
  - split; [reflexivity|]. exists a. split; [exact Hl|]. split; [exact Hid|]. split; [exact Hn|].
    split; [exact Hd|]. split; [exact Hcap|]. unfold accepts. rewrite Hk, Hit. simpl Z.eqb. by symmetry.
Qed.

(** When a new account is made. *)
Lemma create_succeeds st entropy nm disp secret is_admin :
  good st -> counters_ok st -> entropy_ok entropy -> is_bytes nm -> is_bytes disp ->
  (0 < length nm <= MAX_NAME)%nat -> (length disp <= MAX_DISPLAY)%nat -> (0 < length secret)%nat ->
  (count st < MAX_ACCOUNTS)%nat -> Forall (fun a => stored_name a <> nm) (live st) ->
  exists st' a, AccountStore.create_account st entropy nm disp secret is_admin = Some (Ok (next_id st), st') /\
    good st' /\ active st' = active st /\ live st' = live st ++ [a] /\ id a = next_id st /\
    stored_name a = nm /\ stored_display a = disp /\ kdf a = KDF_PBKDF2_SHA512 /\
    capabilities a = default_capabilities is_admin /\ accepts a secret.
Proof.
  intros G Hc He Bn Bd Hn Hd Hs Hcount Hnew.
  destruct (create_account_spec st entropy nm disp secret is_admin (proj1 G) Hc He Bn Bd)
    as (r & st' & E & _ & Hact & Hr & Hok).
  destruct (good_create st entropy nm disp secret is_admin G Hc He Bn Bd) as (r' & st1 & E' & G' & _).
  rewrite E in E'. injection E' as <- <-.
  assert (is_ok r = true) as Hr1 by (apply Hok; exact (conj Hn (conj Hd (conj Hs (conj Hcount Hnew))))). destruct r as [n|]; [|discriminate].
  destruct Hr as (-> & a & Hl & Hid & Hnm & Hds & Hcap & _ & Hk & Hit & Hh).
  exists st', a. split; [exact E|]. split; [exact G'|]. split; [exact Hact|]. split; [exact Hl|].
  split; [exact Hid|]. split; [exact Hnm|]. split; [exact Hds|]. split; [exact Hk|]. split; [exact Hcap|].
  unfold accepts. rewrite Hk, Hit. simpl Z.eqb. exact (eq_sym Hh).
Qed.

(** ** What the service reaches *)

Inductive Command : Type :=
| Create (entropy : option (list Z)) (nm disp secret : list Z) (is_admin : bool)
| SetPassword (entropy : option (list Z)) (nm old_secret new_secret : list Z)
| Login (entropy : option (list Z)) (nm secret : list Z) (session : Z)
| Logout (session : Z)
| SwitchUser (target : Z)
| SetTick (now : Z).

Definition command_ok (c : Command) : Prop :=
  match c with
  | Create entropy nm disp _ _ => entropy_ok entropy /\ is_bytes nm /\ is_bytes disp
  | SetPassword entropy _ _ _ | Login entropy _ _ _ => entropy_ok entropy
  | Logout _ | SwitchUser _ | SetTick _ => True
  end.

(** The store after a command, whatever its result. *)
Definition run_command (st : AccountStore) (c : Command) : option AccountStore :=
  match c with
  | Create entropy nm disp secret is_admin =>
      snd <$> AccountStore.create_account st entropy nm disp secret is_admin
  | SetPassword entropy nm old_secret new_secret =>
      snd <$> AccountStore.set_password st entropy nm old_secret new_secret
  | Login entropy nm secret session => snd <$> AccountStore.login st entropy nm secret session
  | Logout session => snd <$> AccountStore.logout st session
  | SwitchUser target => snd <$> AccountStore.switch_user st target
  | SetTick now => Some (AccountStore.with_tick st now)
  end.

(** The commands so far, and the store they lead to from the empty one. *)
Inductive history : list Command -> AccountStore -> Prop :=
| history_new : history [] AccountStore.new
| history_step h st c st' :
    history h st -> command_ok c -> run_command st c = Some st' -> history (h ++ [c]) st'.

Lemma good_new : good AccountStore.new.
Proof.
  split; [|split; [constructor|done]]. constructor; try done; try constructor.
  unfold MAX_ACCOUNTS. simpl. lia.
Qed.

Lemma run_command_good st c :
  good st -> counters_ok st -> command_ok c ->
  exists st', run_command st c = Some st' /\ good st'.
Proof.
  intros G Hc Hok. pose proof Hc as [Hc1 _]. destruct c; cbn [run_command command_ok] in *.
  - destruct Hok as (He & Bn & Bd).
    destruct (good_create st _ _ _ secret is_admin G Hc He Bn Bd) as (r & st' & -> & G' & _). by exists st'.
  - destruct (set_password_spec st _ nm old_secret new_secret G Hc1 Hok) as (r & st' & -> & G' & _). by exists st'.
  - destruct (login_spec st _ nm secret session G Hc1 Hok) as (r & st' & -> & G' & _). by exists st'.
  - destruct (logout_spec st session G) as (r & st' & -> & G' & _). by exists st'.
  - destruct (switch_user_spec st target G) as (r & st' & -> & G' & _). by exists st'.
  - eexists. split; [reflexivity|]. destruct G as [[] S]. by split; [constructor|].
Qed.

(** Who an account is and what it may do. *)
Definition profile (a : Account) : Z * list Z * Z := (id a, stored_name a, capabilities a).

(** The same accounts in the same slots, up to credentials and sessions. *)
Definition same_profiles (st st' : AccountStore) : Prop :=
  count st' = count st /\ profile <$> accounts st' = profile <$> accounts st /\ next_id st' = next_id st.

(** A command draws at most one salt and one id, and adds at most one account. *)
Definition advances (st st' : AccountStore) : Prop :=
  salt_counter st <= salt_counter st' <= salt_counter st + 1 /\
  next_id st <= next_id st' <= next_id st + 1 /\
  exists l, profile <$> live st' = (profile <$> live st) ++ l.

Lemma advances_same st st' :
  same_profiles st st' -> salt_counter st <= salt_counter st' <= salt_counter st + 1 -> advances st st'.
Proof.
  intros (Hc & Hp & Hn) Hs. unfold advances. split; [done|]. split; [lia|]. exists [].
  unfold live. by rewrite app_nil_r, !fmap_take, Hp, Hc.
Qed.

Lemma advances_refl st : advances st st.
Proof. apply advances_same; [done|lia]. Qed.

Lemma same_profiles_put st i a a' :
  accounts st !! i = Some a -> profile a' = profile a -> same_profiles st (AccountStore.put st i a').
Proof. intros Hi Hp. split; [done|]. split; [|done]. by apply (fmap_same_key profile _ _ a). Qed.

(** A result that leaves the store as it was. *)
Ltac unchanged H := injection H as _ <-; apply advances_refl.

(** Recording and releasing a session touch the sessions of one account. *)
Lemma record_put st i s r st' :
  AccountStore.record_ownership st i s = Some (r, st') ->
  st' = st \/ exists a l n, accounts st !! i = Some a /\
    st' = AccountStore.put st i (AccountStore.with_sessions a l n).
Proof.
  unfold AccountStore.record_ownership. intros (a & Ha & H)%bind_Some.
  destruct (_ <=? _)%nat; [simplify_eq; by left|]. apply bind_Some in H as (l & _ & H).
  case_bool_decide; [simplify_eq; by left|]. apply bind_Some in H as (l' & _ & H). simplify_eq.
  right. eauto.
Qed.

Lemma release_put st i s st' :
  AccountStore.release_ownership st i s = Some st' ->
  st' = st \/ exists a l n, accounts st !! i = Some a /\
    st' = AccountStore.put st i (AccountStore.with_sessions a l n).
Proof.
  unfold AccountStore.release_ownership. intros (a & Ha & H)%bind_Some.
  apply bind_Some in H as (l & _ & H). apply bind_Some in H as ([p|] & _ & H); [|simplify_eq; by left].
  apply bind_Some in H as (x & _ & H). apply bind_Some in H as (y & _ & H). simplify_eq. right. eauto.
Qed.

Lemma record_same st i s r st' :
  AccountStore.record_ownership st i s = Some (r, st') ->
  same_profiles st st' /\ salt_counter st' = salt_counter st.
Proof.
  intros [->|(a & l & n & Ha & ->)]%record_put; [done|].
  split; [by apply (same_profiles_put st i a)|done].
Qed.

Lemma release_same st i s st' :
  AccountStore.release_ownership st i s = Some st' ->
  same_profiles st st' /\ salt_counter st' = salt_counter st.
Proof.
  intros [->|(a & l & n & Ha & ->)]%release_put; [done|].
  split; [by apply (same_profiles_put st i a)|done].
Qed.

Lemma rederive_same st e i s st' :
  AccountStore.rederive_pbkdf2 st e i s = Some st' ->
  same_profiles st st' /\ salt_counter st' = salt_counter st + 1.
Proof.
  unfold AccountStore.rederive_pbkdf2. intros (a & Ha & H)%bind_Some.
  apply bind_Some in H as (l & _ & H). apply bind_Some in H as (c & Hc & H).
  unfold chk in Hc. destruct (_ && _); [|done]. injection Hc as <-. injection H as <-. split; [|reflexivity].
  apply (same_profiles_put (AccountStore.with_counter st (salt_counter st + 1)) i a); [exact Ha|reflexivity].
Qed.

Lemma create_advances st entropy nm disp secret is_admin r st' :
  AccountStore.create_account st entropy nm disp secret is_admin = Some (r, st') -> advances st st'.
Proof.
  unfold AccountStore.create_account. intros ([e|] & _ & H)%bind_Some; [unchanged H|].
  apply bind_Some in H as (n & Hn & H). apply bind_Some in H as (x & _ & H).
  apply bind_Some in H as (y & _ & H). apply bind_Some in H as (st2 & Ha & H). injection H as _ <-.
  unfold AccountStore.append in Ha. apply bind_Some in Ha as (l & Hl & Ha).
  apply bind_Some in Ha as (m & Hm & Ha). injection Ha as <-.
  cbn [salt_counter next_id accounts count AccountStore.with_counter] in *.
  unfold chk in Hn, Hm. destruct (_ && _) in Hn; [|done]. destruct (_ && _) in Hm; [|done].
  injection Hn as <-. injection Hm as <-. apply store_Some in Hl as [Hlt ->].
  unfold advances. cbn [salt_counter next_id]. split; [lia|]. split; [lia|]. eexists [_].
  unfold live. cbn [accounts count]. erewrite take_S_r by (by apply list_lookup_insert_eq).
  rewrite fmap_app, take_insert_ge by done. reflexivity.
Qed.

Lemma login_advances st entropy nm secret session r st' :
  AccountStore.login st entropy nm secret session = Some (r, st') -> advances st st'.
Proof.
  unfold AccountStore.login. intros H. destruct (_ =? 0); [unchanged H|].
  case_bool_decide; [unchanged H|]. apply bind_Some in H as ([i|e] & _ & H); [|unchanged H].
  apply bind_Some in H as (a & _ & H). apply bind_Some in H as (st2 & H2 & H).
  apply bind_Some in H as (a2 & _ & H). apply bind_Some in H as ([r2 st3] & H3 & H).
  apply record_same in H3 as ((C3 & P3 & N3) & S3).
  assert (same_profiles st st2 /\ salt_counter st <= salt_counter st2 <= salt_counter st + 1) as [(C2 & P2 & N2) S2].
  { destruct (kdf a =? KDF_LEGACY_FNV).
    - apply rederive_same in H2 as [? ?]. split; [done|lia].
    - injection H2 as <-. split; [done|lia]. }
  apply advances_same; destruct r2; injection H as _ <-; unfold same_profiles; cbn; split_and!; congruence || lia.
Qed.

Lemma run_command_advances st c st' : run_command st c = Some st' -> advances st st'.
Proof.
  intros H0. destruct c; cbn [run_command] in H0;
    try (apply fmap_Some in H0 as ([r st1] & H & E); cbn in E; subst st1).
  - by eapply create_advances.
  - unfold AccountStore.set_password in H. destruct (_ =? _)%nat; [unchanged H|].
    apply bind_Some in H as ([i|e] & _ & H); [|unchanged H].
    apply bind_Some in H as (st2 & Hr & H). injection H as _ <-. apply rederive_same in Hr as [? ?].
    apply advances_same; [done|lia].
  - by eapply login_advances.
  - unfold AccountStore.logout in H. destruct (active st) as [k|]; [|unchanged H].
    destruct (negb _); [unchanged H|]. apply bind_Some in H as ([i|] & _ & H); [|unchanged H].
    apply bind_Some in H as (st2 & Hr & H). apply release_same in Hr as [Hs Hc]. injection H as _ <-.
    apply advances_same; [done|cbn; lia].
  - unfold AccountStore.switch_user in H. destruct (_ =? 0); [unchanged H|].
    destruct (active st) as [k|]; [|unchanged H]. destruct (_ =? _); [unchanged H|].
    apply bind_Some in H as ([i|] & _ & H); [|unchanged H].
    apply bind_Some in H as (st2 & Hr & H). apply release_same in Hr as [(C1 & P1 & N1) S1].
    apply bind_Some in H as ([r2 st3] & H3 & H). apply record_same in H3 as [(C2 & P2 & N2) S2].
    apply advances_same; destruct r2; injection H as _ <-; unfold same_profiles; cbn; split_and!; congruence || lia.
  - injection H0 as <-. by apply advances_same; [|cbn; lia].
Qed.

(** Histories shorter than the counters reach. *)
Definition bounded (h : list Command) : Prop := Z.of_nat (length h) + 2 < 2 ^ 32.

Lemma bounded_app h h' : bounded (h ++ h') -> bounded h.
Proof. unfold bounded. rewrite length_app. lia. Qed.

Lemma history_counters h st :
  history h st -> salt_counter st <= Z.of_nat (length h) /\ next_id st <= 1 + Z.of_nat (length h).
Proof.
  induction 1 as [|h st c st' _ IH _ Hr]; [cbn; lia|]. apply run_command_advances in Hr.
  unfold advances in Hr. rewrite length_app. simpl. lia.
Qed.

Lemma bounded_counters h st : history h st -> bounded h -> counters_ok st.
Proof. intros [H1 H2]%history_counters Hb. unfold counters_ok, bounded in *. lia. Qed.

Lemma history_good h st : history h st -> bounded h -> good st.
Proof.
  induction 1 as [|h st c st' Hh IH Hok Hr]; intros Hb; [apply good_new|]. apply bounded_app in Hb.
  destruct (run_command_good st c) as (st1 & E & G); [auto|by eapply bounded_counters|done|]. congruence.
Qed.

(** A store with one account, for examples. *)
Lemma one_account nm disp secret is_admin :
  is_bytes nm -> is_bytes disp -> (0 < length nm <= MAX_NAME)%nat -> (length disp <= MAX_DISPLAY)%nat ->
  (0 < length secret)%nat ->
  exists st a, history [Create None nm disp secret is_admin] st /\ good st /\ counters_ok st /\
    live st = [a] /\ active st = None /\ id a = 1 /\ stored_name a = nm /\ stored_display a = disp /\
    kdf a = KDF_PBKDF2_SHA512 /\ capabilities a = default_capabilities is_admin /\ accepts a secret.
Proof.
  intros Bn Bd Hn Hd Hs. set (c := Create None nm disp secret is_admin).
  destruct (create_succeeds AccountStore.new None nm disp secret is_admin good_new)
    as (st & a & E & G & Hact & Hl & Hid & Hr); try done; [unfold MAX_ACCOUNTS; cbn; lia|].
  assert (history [c] st) as Hh.
  { apply (history_step [] AccountStore.new c st); [constructor|done|]. cbn [run_command c]. rewrite E. reflexivity. }
  exists st, a. split; [exact Hh|]. split; [exact G|].
  split; [eapply bounded_counters; [exact Hh|reflexivity]|]. split; [exact Hl|]. split; [exact Hact|].
  split; [exact Hid|exact Hr].
Qed.
