(* ===== verification/AccountText.v ===== *)
(** * The text form of the account store

    [format_store] and [parse_store] of
    userspace/programs/account-service/src/lib.rs, with what they use of the
    standard library's [str] ([lines], [trim], [from_utf8]) on UTF-8 bytes, and
    the saving and loading of the store around them in main.rs.  [None] is a
    panic; storage is the bytes that its reads deliver and the writes it is
    asked for. *)

From Stdlib Require Import ZArith Lia.
From stdpp Require Import base option list.
From S2P Require Import Prelude Words UserMessage Accounts.

#[local] Open Scope Z_scope.

(** ** Writing *)

Record FormatBuf : Type := mkFormatBuf { bytes : list Z; len : nat; overflowed : bool }.

Module FormatBuf.

Definition new (bytes : list Z) : FormatBuf := mkFormatBuf bytes 0 false.

Definition push (b : FormatBuf) (byte : Z) : FormatBuf :=
  if (len b <? length (bytes b))%nat
  then mkFormatBuf (<[len b := byte]> (bytes b)) (S (len b)) (overflowed b)
  else mkFormatBuf (bytes b) (len b) true.

Definition push_bytes (b : FormatBuf) (extra : list Z) : FormatBuf := foldl push b extra.

End FormatBuf.

(** ["0123456789abcdef"] *)
Definition HEX : list Z := [48; 49; 50; 51; 52; 53; 54; 55; 56; 57; 97; 98; 99; 100; 101; 102].
(** ["account="] *)
Definition ACCOUNT_PREFIX : list Z := [97; 99; 99; 111; 117; 110; 116; 61].
(** ["pbkdf2-sha512"] *)
Definition KDF_PBKDF2_SHA512_NAME : list Z := [112; 98; 107; 100; 102; 50; 45; 115; 104; 97; 53; 49; 50].
Definition COMMA : Z := 44.
Definition NEWLINE : Z := 10.

Definition push_hex (b : FormatBuf) (nibble : Z) : FormatBuf :=
  FormatBuf.push b (HEX !!! Z.to_nat nibble).

Definition push_hex_bytes (b : FormatBuf) (data : list Z) : FormatBuf :=
  foldl (fun b byte => push_hex (push_hex b (Z.shiftr byte 4)) (Z.land byte 0xF)) b data.

(** The digits, least significant first; the array of the source holds 20. *)
Fixpoint decimal_digits (room : nat) (value : Z) : option (list Z) :=
  match room with
  | O => None
  | S room =>
      let digit := 48 + value mod 10 in
      let value := value / 10 in
      if value =? 0 then Some [digit] else cons digit <$> decimal_digits room value
  end.

Definition write_decimal (b : FormatBuf) (value : Z) : option FormatBuf :=
  digits ← decimal_digits 20 value;
  Some (FormatBuf.push_bytes b (reverse digits)).

Definition write_hex (b : FormatBuf) (value : Z) (width : nat) : FormatBuf :=
  foldl (fun b shift => push_hex b (Z.land (Z.shiftr value (Z.of_nat shift * 4)) 0xF)) b
    (reverse (seq 0 width)).

Definition format_account (b : FormatBuf) (a : Account) : option FormatBuf :=
  let comma b := FormatBuf.push b COMMA in
  b ← write_decimal (FormatBuf.push_bytes b ACCOUNT_PREFIX) (id a);
  nm ← slice_to (name a) (name_len a);
  disp ← slice_to (display a) (display_len a);
  let b := comma (FormatBuf.push_bytes (comma (FormatBuf.push_bytes (comma b) nm)) disp) in
  b ← (if kdf a =? KDF_PBKDF2_SHA512 then
         let b := comma (write_hex (comma (write_hex b 0 16)) 0 16) in
         let b := comma (write_hex b (capabilities a) 8) in
         b ← write_decimal (comma (FormatBuf.push_bytes b KDF_PBKDF2_SHA512_NAME)) (kdf_iters a);
         Some (push_hex_bytes (comma (push_hex_bytes (comma b) (record_salt a))) (record_hash a))
       else
         let b := comma (write_hex (comma (write_hex b (salt a) 16)) (auth_hash a) 16) in
         Some (write_hex b (capabilities a) 8));
  Some (FormatBuf.push b NEWLINE).

Fixpoint format_loop (b : FormatBuf) (l : list Account) : option FormatBuf :=
  match l with
  | [] => Some b
  | a :: l => b ← format_account b a; format_loop b l
  end.

Definition format_store (st : AccountStore) (buffer : list Z) :
    option (result nat AccountError * list Z) :=
  accs ← slice_to (accounts st) (count st);
  b ← format_loop (FormatBuf.new buffer) accs;
  Some (if overflowed b then Err CapacityExceeded else Ok (len b), bytes b).

(** ** Reading *)

Definition hex_digit (byte : Z) : option Z :=
  if (48 <=? byte) && (byte <=? 57) then Some (byte - 48)
  else if (97 <=? byte) && (byte <=? 102) then Some (byte - 97 + 10)
  else None.

Fixpoint parse_hex_loop (text : list Z) (value : Z) : result Z AccountError :=
  match text with
  | [] => Ok value
  | byte :: text =>
      match hex_digit byte with
      | None => Err StoreCorrupt
      | Some digit =>
          match chk 64 (value * 16) with
          | None => Err StoreCorrupt
          | Some v =>
              match chk 64 (v + digit) with
              | None => Err StoreCorrupt
              | Some v => parse_hex_loop text v
              end
          end
      end
  end.

Definition parse_hex (text : list Z) : result Z AccountError := parse_hex_loop text 0.

Fixpoint parse_hex_pairs (text : list Z) : option (list Z) :=
  match text with
  | h :: l :: text =>
      high ← hex_digit h;
      low ← hex_digit l;
      rest ← parse_hex_pairs text;
      Some (Z.lor (shl 8 high 4) low :: rest)
  | _ => Some []
  end.

Definition parse_hex_into (n : nat) (text : list Z) : result (list Z) AccountError :=
  if (length text =? n * 2)%nat
  then match parse_hex_pairs text with Some l => Ok l | None => Err StoreCorrupt end
  else Err StoreCorrupt.

(** The multiplication and the addition are not checked ones. *)
Fixpoint parse_u32_loop (text : list Z) (value : Z) : option (result Z AccountError) :=
  match text with
  | [] => Some (Ok value)
  | byte :: text =>
      if (48 <=? byte) && (byte <=? 57) then
        v ← chk 64 (value * 10);
        v ← chk 64 (v + (byte - 48));
        parse_u32_loop text v
      else Some (Err StoreCorrupt)
  end.

Definition parse_u32 (text : list Z) : option (result Z AccountError) :=
  if (length text =? 0)%nat then Some (Err StoreCorrupt)
  else
    r ← parse_u32_loop text 0;
    Some (match r with
          | Err e => Err e
          | Ok value => if value <=? U32_MAX then Ok value else Err StoreCorrupt
          end).

Definition LEGACY_FIELD_COUNT : nat := 6.
Definition MAX_FIELDS : nat := 10.

(** The loop over the bytes with their positions; [None] is [StoreCorrupt]. *)
Fixpoint split_loop (body rest : list Z) (position count start : nat) (fields : list (list Z)) :
    option (nat * nat * list (list Z)) :=
  match rest with
  | [] => Some (count, start, fields)
  | byte :: rest =>
      if byte =? COMMA then
        if (MAX_FIELDS <=? count)%nat then None
        else split_loop body rest (S position) (S count) (S position)
               (<[count := take (position - start) (drop start body)]> fields)
      else split_loop body rest (S position) count start fields
  end.

Definition split_fields (body : list Z) : result (nat * list (list Z)) AccountError :=
  match split_loop body body 0 0 0 (replicate MAX_FIELDS []) with
  | None => Err StoreCorrupt
  | Some (count, start, fields) =>
      if (MAX_FIELDS <=? count)%nat then Err StoreCorrupt
      else Ok (S count, <[count := drop start body]> fields)
  end.

(** The trailing fields of a record, by its algorithm. *)
Definition parse_record (field_count : nat) (fields : list (list Z)) :
    option (result (Z * Z * list Z * list Z) AccountError) :=
  let f i := fields !!! i in
  if (field_count =? LEGACY_FIELD_COUNT)%nat then
    Some (Ok (KDF_LEGACY_FNV, 0, replicate PBKDF2_SALT_BYTES 0, replicate PBKDF2_HASH_BYTES 0))
  else if (field_count =? MAX_FIELDS)%nat && bool_decide (f 6%nat = KDF_PBKDF2_SHA512_NAME) then
    iters ← parse_u32 (f 7%nat);
    Some (match iters, parse_hex_into PBKDF2_SALT_BYTES (f 8%nat),
                parse_hex_into PBKDF2_HASH_BYTES (f 9%nat) with
          | Ok iters, Ok s, Ok h => Ok (KDF_PBKDF2_SHA512, iters, s, h)
          | _, _, _ => Err StoreCorrupt
          end)
  else Some (Err StoreCorrupt).

(** One line behind its prefix, into the next slot of the store. *)
Definition parse_account (st : AccountStore) (body : list Z) :
    option (result AccountStore AccountError) :=
  match split_fields body with
  | Err _ => Some (Err StoreCorrupt)
  | Ok (field_count, fields) =>
      let f i := fields !!! i in
      parsed_id ← parse_u32 (f 0%nat);
      match parsed_id with
      | Err _ => Some (Err StoreCorrupt)
      | Ok new_id =>
          if (length (f 1%nat) =? 0)%nat || (MAX_NAME <? length (f 1%nat))%nat
             || (MAX_DISPLAY <? length (f 2%nat))%nat
          then Some (Err StoreCorrupt)
          else if (MAX_ACCOUNTS <=? count st)%nat then Some (Err CapacityExceeded)
          else
            name_field ← copy_field MAX_NAME (f 1%nat);
            display_field ← copy_field MAX_DISPLAY (f 2%nat);
            match parse_hex (f 3%nat), parse_hex (f 4%nat), parse_hex (f 5%nat) with
            | Ok s, Ok h, Ok caps =>
                record ← parse_record field_count fields;
                match record with
                | Err e => Some (Err e)
                | Ok (algorithm, iters, rs, rh) =>
                    accs ← store (accounts st) (count st)
                      (mkAccount new_id (length (f 1%nat)) name_field (length (f 2%nat)) display_field
                         s h (wrap 32 caps) (replicate MAX_OWNED_SESSIONS 0) 0 algorithm iters rs rh);
                    next ← (if next_id st <=? new_id then chk 32 (new_id + 1) else Some (next_id st));
                    Some (Ok (mkAccountStore accs (S (count st)) next (active st) (salt_counter st)
                                (salt_tick st)))
                end
            | _, _, _ => Some (Err StoreCorrupt)
            end
      end
  end.

(** ** Strings *)

(** The length of the UTF-8 form of a White_Space character that starts, or
    read backwards ends, a string. *)
Definition space_at_start (l : list Z) : option nat :=
  match l with
  | b :: l =>
      if ((9 <=? b) && (b <=? 13)) || (b =? 32) then Some 1%nat
      else
        match l with
        | c :: l =>
            if (b =? 0xC2) && ((c =? 0x85) || (c =? 0xA0)) then Some 2%nat
            else
              match l with
              | d :: _ =>
                  if ((b =? 0xE1) && (c =? 0x9A) && (d =? 0x80))
                     || ((b =? 0xE2) && (c =? 0x80) &&
                         (((0x80 <=? d) && (d <=? 0x8A)) || (d =? 0xA8) || (d =? 0xA9) || (d =? 0xAF)))
                     || ((b =? 0xE2) && (c =? 0x81) && (d =? 0x9F))
                     || ((b =? 0xE3) && (c =? 0x80) && (d =? 0x80))
                  then Some 3%nat else None
              | [] => None
              end
        | [] => None
        end
  | [] => None
  end.

Definition space_at_end (l : list Z) : option nat :=
  let n := length l in
  match space_at_start (drop (n - 1) l), space_at_start (drop (n - 2) l),
        space_at_start (drop (n - 3) l) with
  | Some 1%nat, _, _ => Some 1%nat
  | _, Some 2%nat, _ => Some 2%nat
  | _, _, Some 3%nat => Some 3%nat
  | _, _, _ => None
  end.

Fixpoint trim_start (fuel : nat) (l : list Z) : list Z :=
  match fuel, space_at_start l with
  | S fuel, Some n => trim_start fuel (drop n l)
  | _, _ => l
  end.

Fixpoint trim_end (fuel : nat) (l : list Z) : list Z :=
  match fuel, space_at_end l with
  | S fuel, Some n => trim_end fuel (take (length l - n) l)
  | _, _ => l
  end.

Definition trim (l : list Z) : list Z := trim_end (length l) (trim_start (length l) l).

(** [lines]: cut behind each newline; the newline goes, and a carriage return
    in front of it. *)
Fixpoint raw_lines (text current : list Z) : list (list Z * bool) :=
  match text with
  | [] => match current with [] => [] | _ => [(reverse current, false)] end
  | c :: text =>
      if c =? NEWLINE then (reverse current, true) :: raw_lines text []
      else raw_lines text (c :: current)
  end.

Definition strip_return (line : list Z * bool) : list Z :=
  let '(l, ended) := line in
  match ended, last l with
  | true, Some 13 => take (length l - 1) l
  | _, _ => l
  end.

Definition lines (text : list Z) : list (list Z) := strip_return <$> raw_lines text [].

Definition strip_prefix (p l : list Z) : option (list Z) :=
  if bool_decide (take (length p) l = p) then Some (drop (length p) l) else None.

Fixpoint parse_lines (ls : list (list Z)) (st : AccountStore) :
    option (result AccountStore AccountError) :=
  match ls with
  | [] => Some (Ok st)
  | l :: ls =>
      match strip_prefix ACCOUNT_PREFIX l with
      | None => parse_lines ls st
      | Some body =>
          r ← parse_account st body;
          match r with
          | Err e => Some (Err e)
          | Ok st => parse_lines ls st
          end
      end
  end.

Definition parse_store (text : list Z) : option (result AccountStore AccountError) :=
  parse_lines (filter (fun l => l <> []) (trim <$> lines text)) AccountStore.new.

(** ** Saving and loading (main.rs) *)

Definition MAX_STORE_BYTES : nat := 4096.

Definition continuation (b : Z) : bool := (0x80 <=? b) && (b <=? 0xBF).

(** [from_utf8(...).is_ok()] *)
Fixpoint utf8_valid (l : list Z) : bool :=
  match l with
  | [] => true
  | b :: l =>
      if b <? 0x80 then utf8_valid l
      else
        match l with
        | [] => false
        | c :: l =>
            if (0xC2 <=? b) && (b <=? 0xDF) then continuation c && utf8_valid l
            else
              match l with
              | [] => false
              | d :: l =>
                  if (0xE0 <=? b) && (b <=? 0xEF) then
                    (if b =? 0xE0 then (0xA0 <=? c) && (c <=? 0xBF)
                     else if b =? 0xED then (0x80 <=? c) && (c <=? 0x9F) else continuation c)
                    && continuation d && utf8_valid l
                  else
                    match l with
                    | [] => false
                    | e :: l =>
                        (if b =? 0xF0 then (0x90 <=? c) && (c <=? 0xBF)
                         else if b =? 0xF4 then (0x80 <=? c) && (c <=? 0x8F)
                         else (0xF1 <=? b) && (b <=? 0xF3) && continuation c)
                        && continuation d && continuation e && utf8_valid l
                    end
              end
        end
  end.

(** [trim_end_matches('\0')] *)
Fixpoint trim_zeros (l : list Z) : list Z :=
  match l with
  | [] => []
  | b :: l => match trim_zeros l with [] => if b =? 0 then [] else [b] | k => b :: k end
  end.

(** [fetched] is what the storage exchange yields: nothing when it failed, the
    bytes that were read otherwise, none when there is no file. *)
Definition load_store (has_storage : bool) (fetched : option (list Z))
    (entropy1 entropy2 : option (list Z)) : option (option AccountStore) :=
  if negb has_storage then Some <$> AccountStore.seed_defaults entropy1 entropy2
  else
    match fetched with
    | None => Some None
    | Some contents =>
        let contents := take MAX_STORE_BYTES contents in
        let buffer := contents ++ replicate (MAX_STORE_BYTES - length contents) 0 in
        if forallb (fun b => b =? 0) buffer then Some <$> AccountStore.seed_defaults entropy1 entropy2
        else if negb (utf8_valid buffer) then Some None
        else
          r ← parse_store (trim_zeros buffer);
          Some (match r with Ok st => Some st | Err _ => None end)
    end.

(** The store the service starts with, and whether it keeps the storage handle;
    a store that cannot be loaded is replaced by the defaults, in memory. *)
Definition startup_store (has_storage : bool) (fetched : option (list Z))
    (entropy1 entropy2 : option (list Z)) (now : Z) : option (AccountStore * bool) :=
  loaded ← load_store has_storage fetched entropy1 entropy2;
  '(st, storage) ← match loaded with
                   | Some st => Some (st, has_storage)
                   | None => st ← AccountStore.seed_defaults entropy1 entropy2; Some (st, false)
                   end;
  Some (AccountStore.with_tick st now, storage).

(** The writes of [persist_store], each with its offset: [(IPC_MAX_WORDS - 3) * 8]
    bytes at a time, nothing when the text does not fit. *)
Fixpoint write_loop (fuel : nat) (buffer : list Z) (offset total : nat) : list (nat * list Z) :=
  match fuel with
  | O => []
  | S fuel =>
      if (offset <? total)%nat then
        let chunk_len := Nat.min (total - offset) ((IPC_MAX_WORDS - 3) * 8) in
        (offset, take chunk_len (drop offset buffer)) :: write_loop fuel buffer (offset + chunk_len) total
      else []
  end.

Definition persist_store (st : AccountStore) : option (list (nat * list Z)) :=
  '(r, buffer) ← format_store st (replicate MAX_STORE_BYTES 0);
  let total := match r with Ok n => n | Err _ => 0%nat end in
  Some (write_loop total buffer 0 total).
