(* ===== verification/AccountCodec.v ===== *)
(** * What is written is read back

    The text of a store as a list of lines of comma-separated fields, that
    [format_store] writes it and when it fits, and that [parse_store] reads each
    field, line and store back. *)

From Stdlib Require Import ZArith Lia.
From stdpp Require Import base option list.
From S2P Require Import Prelude Words UserMessage Accounts AccountInv AccountText.

#[local] Open Scope Z_scope.

(** ** The text *)

Definition hex_char (nibble : Z) : Z := HEX !!! Z.to_nat nibble.

Definition hex_text (value : Z) (width : nat) : list Z :=
  (fun shift => hex_char (Z.land (Z.shiftr value (Z.of_nat shift * 4)) 0xF)) <$> reverse (seq 0 width).

Definition hex_bytes (data : list Z) : list Z :=
  data ≫= fun byte => [hex_char (Z.shiftr byte 4); hex_char (Z.land byte 0xF)].

Definition decimal_text (value : Z) : list Z :=
  match decimal_digits 20 value with Some digits => reverse digits | None => [] end.

(** The fields of an account's line. *)
Definition record_fields (a : Account) : list (list Z) :=
  if kdf a =? KDF_PBKDF2_SHA512
  then [hex_text 0 16; hex_text 0 16; hex_text (capabilities a) 8; KDF_PBKDF2_SHA512_NAME;
        decimal_text (kdf_iters a); hex_bytes (record_salt a); hex_bytes (record_hash a)]
  else [hex_text (salt a) 16; hex_text (auth_hash a) 16; hex_text (capabilities a) 8].

Definition account_fields (a : Account) : list (list Z) :=
  decimal_text (id a) :: stored_name a :: stored_display a :: record_fields a.

(** Fields with a comma between them. *)
Fixpoint join (fields : list (list Z)) : list Z :=
  match fields with
  | [] => []
  | [f] => f
  | f :: fields => f ++ [COMMA] ++ join fields
  end.

Definition account_body (a : Account) : list Z := ACCOUNT_PREFIX ++ join (account_fields a).
Definition account_line (a : Account) : list Z := account_body a ++ [NEWLINE].
Definition store_text (st : AccountStore) : list Z := mjoin (account_line <$> live st).

(** ** Writing *)

Lemma push_bytes_app b l k : FormatBuf.push_bytes b (l ++ k) = FormatBuf.push_bytes (FormatBuf.push_bytes b l) k.
Proof. apply foldl_app. Qed.

Lemma push_one b x : FormatBuf.push b x = FormatBuf.push_bytes b [x].
Proof. done. Qed.

Lemma write_hex_text b v w : write_hex b v w = FormatBuf.push_bytes b (hex_text v w).
Proof.
  unfold write_hex, hex_text, FormatBuf.push_bytes. revert b.
  induction (reverse (seq 0 w)) as [|i l IH]; intros b; [done|]. cbn [foldl fmap list_fmap]. apply IH.
Qed.

Lemma push_hex_bytes_text b data : push_hex_bytes b data = FormatBuf.push_bytes b (hex_bytes data).
Proof.
  unfold push_hex_bytes, hex_bytes, FormatBuf.push_bytes. revert b.
  induction data as [|x l IH]; intros b; [done|]. cbn [foldl mbind list_bind app]. apply IH.
Qed.

Lemma decimal_digits_ok room v : 0 <= v < 10 ^ Z.of_nat room -> (0 < room)%nat ->
  exists ds, decimal_digits room v = Some ds /\ (0 < length ds <= room)%nat /\
    Forall (fun d => 48 <= d <= 57) ds.
Proof.
  revert v. induction room as [|room IH]; intros v Hv Hr; [lia|]. cbn [decimal_digits].
  pose proof (Z.mod_pos_bound v 10 ltac:(lia)). destruct (Z.eqb_spec (v / 10) 0) as [E|E].
  { exists [48 + v mod 10]. split; [done|]. simpl. split; [lia|]. constructor; [lia|done]. }
  rewrite Nat2Z.inj_succ, Z.pow_succ_r in Hv by lia.
  destruct room as [|room]; [simpl in Hv; Z.to_euclidean_division_equations; lia|].
  destruct (IH (v / 10)) as (ds & -> & Hl & Hd); [Z.to_euclidean_division_equations; lia|lia|].
  exists ((48 + v mod 10) :: ds). split; [done|]. simpl. split; [lia|]. constructor; [lia|done].
Qed.

Lemma decimal_digits_more r r' v ds :
  (r <= r')%nat -> decimal_digits r v = Some ds -> decimal_digits r' v = Some ds.
Proof.
  revert r' v ds. induction r as [|r IH]; intros r' v ds Hle H; [done|].
  destruct r' as [|r']; [lia|]. cbn [decimal_digits] in *. destruct (v / 10 =? 0); [done|].
  apply fmap_Some in H as (k & Hk & ->).
  apply fmap_Some. exists k. split; [|done]. apply IH; [lia|exact Hk].
Qed.

(** Numbers of 32 bits have at most ten digits. *)
Lemma decimal_text_u32 v :
  is_word 32 v -> exists ds, decimal_digits 20 v = Some ds /\ decimal_text v = reverse ds /\
    (0 < length ds <= 10)%nat /\ Forall (fun d => 48 <= d <= 57) ds.
Proof.
  intros Hv. destruct (decimal_digits_ok 10 v) as (ds & H & Hl & Hd).
  { unfold is_word in Hv. simpl. lia. }
  { lia. }
  apply (decimal_digits_more 10 20) in H; [|lia]. exists ds. unfold decimal_text. by rewrite H.
Qed.

Lemma write_decimal_text b v :
  is_word 32 v -> write_decimal b v = Some (FormatBuf.push_bytes b (decimal_text v)).
Proof.
  intros (ds & E & Et & _)%decimal_text_u32. unfold write_decimal. rewrite E, Et. done.
Qed.

Lemma format_account_text b a :
  account_wf a -> format_account b a = Some (FormatBuf.push_bytes b (account_line a)).
Proof.
  intros W. destruct (wf_name a W) as (Hn & Hnl & _). destruct (wf_display a W) as (Hd & Hdl & _).
  unfold format_account. rewrite write_decimal_text by apply W. cbn [mbind option_bind].
  rewrite !slice_to_ok by lia. cbn [mbind option_bind]. fold (stored_name a) (stored_display a).
  unfold account_line, account_body, account_fields, record_fields.
  rewrite !push_one, !write_hex_text, <- !push_bytes_app.
  destruct (kdf a =? KDF_PBKDF2_SHA512); cbn [join].
  - rewrite write_decimal_text by apply W. cbn [mbind option_bind].
    rewrite !push_hex_bytes_text, !push_one, <- !push_bytes_app, <- !app_assoc.
    done.
  - cbn [mbind option_bind]. rewrite !push_one, <- !push_bytes_app, <- !app_assoc. done.
Qed.

Lemma format_loop_text l : forall b,
  Forall account_wf l -> format_loop b l = Some (FormatBuf.push_bytes b (mjoin (account_line <$> l))).
Proof.
  induction l as [|a l IH]; intros b Hl; [done|]. apply Forall_cons in Hl as [Ha Hl].
  cbn [format_loop]. rewrite format_account_text by done. cbn [mbind option_bind].
  rewrite IH by done. by rewrite <- push_bytes_app.
Qed.

Lemma push_room text y rest x :
  FormatBuf.push (mkFormatBuf (text ++ y :: rest) (length text) false) x =
  mkFormatBuf ((text ++ [x]) ++ rest) (length (text ++ [x])) false.
Proof.
  unfold FormatBuf.push. cbn [len bytes overflowed].
  rewrite !length_app, (proj2 (Nat.ltb_lt _ _)) by (simpl; lia).
  rewrite insert_app_r_alt, Nat.sub_diag, <- app_assoc by lia. cbn. f_equal. lia.
Qed.

Lemma push_overflowed b x : overflowed b = true -> overflowed (FormatBuf.push b x) = true.
Proof. intros Hb. unfold FormatBuf.push. by destruct (_ <? _)%nat. Qed.

Lemma push_full text x : overflowed (FormatBuf.push (mkFormatBuf text (length text) false) x) = true.
Proof. unfold FormatBuf.push. cbn [len bytes]. by rewrite Nat.ltb_irrefl. Qed.

(** What pushing leaves in a buffer. *)
Lemma push_bytes_spec extra : forall text rest,
  let b := FormatBuf.push_bytes (mkFormatBuf (text ++ rest) (length text) false) extra in
  if (length extra <=? length rest)%nat
  then b = mkFormatBuf (text ++ extra ++ drop (length extra) rest) (length (text ++ extra)) false
  else overflowed b = true.
Proof.
  unfold FormatBuf.push_bytes. induction extra as [|x extra IH]; intros text rest; cbv zeta.
  { simpl. by rewrite app_nil_r. }
  cbn [foldl]. destruct rest as [|y rest].
  - rewrite app_nil_r. cbn [length Nat.leb]. pose proof (push_full text x) as Hb. revert Hb. clear IH.
    generalize (FormatBuf.push (mkFormatBuf text (length text) false) x).
    induction extra as [|z l IHl]; intros b Hb; [done|]. cbn [foldl]. apply IHl. by apply push_overflowed.
  - rewrite push_room. specialize (IH (text ++ [x]) rest). cbv zeta in IH. cbn [length Nat.leb drop].
    destruct (length extra <=? length rest)%nat; [|exact IH]. rewrite IH.
    by rewrite <- !app_assoc.
Qed.

Lemma format_store_text st n :
  store_wf st ->
  exists r buffer, format_store st (replicate n 0) = Some (r, buffer) /\
    if (length (store_text st) <=? n)%nat
    then r = Ok (length (store_text st)) /\
         buffer = store_text st ++ replicate (n - length (store_text st)) 0
    else r = Err CapacityExceeded.
Proof.
  intros W. unfold format_store. pose proof (wf_length st W). pose proof (wf_count st W).
  rewrite slice_to_ok by lia. cbn [mbind option_bind]. fold (live st).
  rewrite format_loop_text by apply W. cbn [mbind option_bind]. fold (store_text st).
  pose proof (push_bytes_spec (store_text st) [] (replicate n 0)) as Hp. cbn [app length] in Hp.
  rewrite length_replicate in Hp. unfold FormatBuf.new. eexists _, _. split; [done|].
  destruct (length (store_text st) <=? n)%nat; [|by rewrite Hp].
  rewrite Hp. cbn. by rewrite drop_replicate.
Qed.

(** ** The length of the text *)

Lemma length_hex_text v w : length (hex_text v w) = w.
Proof. unfold hex_text. by rewrite length_fmap, length_reverse, length_seq. Qed.

Lemma length_hex_bytes data : length (hex_bytes data) = (2 * length data)%nat.
Proof.
  induction data as [|x l IH]; [done|].
  change (hex_bytes (x :: l)) with ([hex_char (Z.shiftr x 4); hex_char (Z.land x 0xF)] ++ hex_bytes l).
  rewrite length_app, IH. cbn [length]. lia.
Qed.

Lemma length_decimal_text v : is_word 32 v -> (0 < length (decimal_text v) <= 10)%nat.
Proof. intros (ds & _ & -> & Hl & _)%decimal_text_u32. by rewrite length_reverse. Qed.

Lemma length_account_line a : account_wf a -> (length (account_line a) <= 331)%nat.
Proof.
  intros W. destruct (wf_name a W) as (Hn & Hnl & _). destruct (wf_display a W) as (Hd & Hdl & _).
  destruct (wf_record_salt a W) as [Hs _]. destruct (wf_record_hash a W) as [Hh _].
  pose proof (length_decimal_text _ (wf_id a W)). pose proof (length_decimal_text _ (wf_iters a W)).
  unfold MAX_NAME, MAX_DISPLAY, PBKDF2_SALT_BYTES, PBKDF2_HASH_BYTES in *.
  unfold account_line, account_body, account_fields, record_fields, stored_name, stored_display.
  destruct (kdf a =? KDF_PBKDF2_SHA512); cbn [join];
    repeat rewrite ?length_app, ?length_hex_text, ?length_hex_bytes, ?length_take; rewrite ?Hs, ?Hh;
    simpl length; lia.
Qed.

Lemma length_store_text st : store_wf st -> (length (store_text st) <= 331 * count st)%nat.
Proof.
  intros W. rewrite <- (length_live_accounts st W). unfold store_text.
  induction (wf_live st W) as [|a l Ha _ IH]; [done|].
  change (mjoin (account_line <$> a :: l)) with (account_line a ++ mjoin (account_line <$> l)).
  rewrite length_app. pose proof (length_account_line a Ha). cbn [length]. lia.
Qed.

(** ** Reading numbers *)

Lemma hex_digit_char n : 0 <= n < 16 -> hex_digit (hex_char n) = Some n.
Proof.
  intros Hn. assert (Forall (fun n => hex_digit (hex_char n) = Some n) (Z.of_nat <$> seq 0 16)) as H.
  { repeat constructor. }
  rewrite Forall_forall in H. apply H, list_elem_of_fmap. exists (Z.to_nat n).
  split; [lia|]. apply elem_of_seq. lia.
Qed.

Lemma hex_char_plain n : 0 <= n < 16 -> 48 <= hex_char n <= 102.
Proof.
  intros Hn. pose proof (hex_digit_char n Hn) as H. unfold hex_digit in H. zcases; simplify_eq/=; lia.
Qed.

Lemma nibble_bound v : 0 <= Z.land v 0xF < 16.
Proof. change 0xF with (2 ^ 4 - 1). rewrite land_mask by lia. apply Z.mod_pos_bound. lia. Qed.

Lemma hex_text_S v w :
  hex_text v (S w) = hex_char (Z.land (Z.shiftr v (Z.of_nat w * 4)) 0xF) :: hex_text v w.
Proof. unfold hex_text. by rewrite seq_S, reverse_snoc. Qed.

Lemma parse_hex_text v w : forall acc,
  0 <= v -> 0 <= acc -> acc * 16 ^ Z.of_nat w + v mod 16 ^ Z.of_nat w < 2 ^ 64 ->
  parse_hex_loop (hex_text v w) acc = Ok (acc * 16 ^ Z.of_nat w + v mod 16 ^ Z.of_nat w).
Proof.
  induction w as [|w IH]; intros acc Hv Ha Hb.
  { cbn. rewrite Z.mod_1_r. do 2 f_equal. lia. }
  rewrite hex_text_S. cbn [parse_hex_loop]. rewrite hex_digit_char by apply nibble_bound.
  change 0xF with (2 ^ 4 - 1). rewrite land_mask, shiftr_div by lia.
  rewrite (Z.mul_comm (Z.of_nat w) 4), Z.pow_mul_r by lia. change (2 ^ 4) with 16.
  rewrite Nat2Z.inj_succ, Z.pow_succ_r in * by lia.
  set (p := 16 ^ Z.of_nat w) in *. assert (0 < p) as Hp by (apply Z.pow_pos_nonneg; lia).
  assert (v mod (16 * p) = v / p mod 16 * p + v mod p) as E.
  { rewrite (Z.mul_comm 16 p), Z.rem_mul_r by lia. lia. }
  rewrite E in *. pose proof (Z.mod_pos_bound (v / p) 16 ltac:(lia)). pose proof (Z.mod_pos_bound v p Hp).
  rewrite !chk_ok by nia. rewrite IH; [f_equal; lia|lia|lia|]. fold p. lia.
Qed.

Lemma parse_hex_word v w :
  0 <= v < 16 ^ Z.of_nat w -> v < 2 ^ 64 -> parse_hex (hex_text v w) = Ok v.
Proof.
  intros Hv Hb. unfold parse_hex. rewrite parse_hex_text by (rewrite ?Z.mod_small; lia).
  f_equal. by rewrite Z.mod_small by lia.
Qed.

Lemma parse_hex_pairs_bytes data : is_bytes data -> parse_hex_pairs (hex_bytes data) = Some data.
Proof.
  induction 1 as [|x l Hx _ IH]; [done|]. unfold is_word in Hx.
  change (hex_bytes (x :: l)) with (hex_char (Z.shiftr x 4) :: hex_char (Z.land x 0xF) :: hex_bytes l).
  cbn [parse_hex_pairs]. rewrite shiftr_div by lia.
  rewrite !hex_digit_char by (apply nibble_bound || (Z.to_euclidean_division_equations; lia)).
  cbn [mbind option_bind]. rewrite IH. cbn [mbind option_bind]. do 2 f_equal.
  change 0xF with (2 ^ 4 - 1). rewrite land_mask, shl_mul, Z.lor_comm by lia.
  rewrite (Z.mod_small (x / 2 ^ 4 * 2 ^ 4)) by (Z.to_euclidean_division_equations; lia).
  rewrite lor_low by (Z.to_euclidean_division_equations; lia). Z.to_euclidean_division_equations; lia.
Qed.

Lemma parse_hex_into_bytes n data : is_block n data -> parse_hex_into n (hex_bytes data) = Ok data.
Proof.
  intros [Hl Hb]. unfold parse_hex_into. rewrite length_hex_bytes, Hl, Nat.mul_comm, Nat.eqb_refl.
  by rewrite parse_hex_pairs_bytes.
Qed.

Lemma parse_u32_loop_app l k acc :
  parse_u32_loop (l ++ k) acc =
  r ← parse_u32_loop l acc;
  match r with Ok v => parse_u32_loop k v | Err e => Some (Err e) end.
Proof.
  revert acc. induction l as [|x l IH]; intros acc; [done|]. cbn [parse_u32_loop app].
  destruct (_ && _); [|done]. destruct (chk 64 (acc * 10)) as [v|]; [|done]. cbn [mbind option_bind].
  destruct (chk 64 (v + (x - 48))) as [v'|]; [|done]. cbn [mbind option_bind]. apply IH.
Qed.

Lemma parse_u32_digits room : forall v ds,
  0 <= v < 2 ^ 64 -> decimal_digits room v = Some ds -> parse_u32_loop (reverse ds) 0 = Some (Ok v).
Proof.
  induction room as [|room IH]; intros v ds Hv H; [done|]. cbn [decimal_digits] in H.
  pose proof (Z.mod_pos_bound v 10 ltac:(lia)) as Hm.
  assert (forall k, 0 <= k -> k = v / 10 -> parse_u32_loop [48 + v mod 10] k = Some (Ok v)) as Hlast.
  { intros k Hk ->. cbn [parse_u32_loop].
    rewrite (proj2 (Z.leb_le 48 _)), (proj2 (Z.leb_le _ 57)) by lia. cbn [andb].
    rewrite chk_ok by (Z.to_euclidean_division_equations; lia). cbn [mbind option_bind].
    rewrite chk_ok by (Z.to_euclidean_division_equations; lia). cbn [mbind option_bind].
    do 2 f_equal. Z.to_euclidean_division_equations; lia. }
  destruct (Z.eqb_spec (v / 10) 0) as [E|E].
  - injection H as <-. apply Hlast; lia.
  - apply fmap_Some in H as (k & Hk & ->). rewrite reverse_cons, parse_u32_loop_app.
    rewrite (IH (v / 10) k) by (done || (Z.to_euclidean_division_equations; lia)). cbn [mbind option_bind].
    apply Hlast; [|done]. apply Z.div_pos; lia.
Qed.

Lemma parse_u32_decimal v : is_word 32 v -> parse_u32 (decimal_text v) = Some (Ok v).
Proof.
  intros Hv. pose proof Hv as (ds & E & Et & Hl & _)%decimal_text_u32. unfold parse_u32. rewrite Et.
  rewrite length_reverse, (proj2 (Nat.eqb_neq _ _)) by lia. unfold is_word in Hv.
  rewrite (parse_u32_digits 20 v ds) by (done || lia). cbn [mbind option_bind].
  rewrite (proj2 (Z.leb_le _ _)); [done|]. unfold U32_MAX. lia.
Qed.

(** ** Splitting at commas *)

(** The pieces between the commas, with what precedes the first of them. *)
Fixpoint pieces_after (current rest : list Z) : list (list Z) :=
  match rest with
  | [] => [current]
  | c :: rest => if c =? COMMA then current :: pieces_after [] rest else pieces_after (current ++ [c]) rest
  end.
Definition pieces (body : list Z) : list (list Z) := pieces_after [] body.

Lemma pieces_after_pos current rest : (0 < length (pieces_after current rest))%nat.
Proof.
  revert current. induction rest as [|c rest IH]; intros current; simpl; [lia|].
  destruct (c =? COMMA); simpl; [lia|apply IH].
Qed.

(** The last step of [split_fields]. *)
Definition finish (body : list Z) (r : option (nat * nat * list (list Z))) :
    result (nat * list (list Z)) AccountError :=
  match r with
  | None => Err StoreCorrupt
  | Some (count, start, fields) =>
      if (MAX_FIELDS <=? count)%nat then Err StoreCorrupt
      else Ok (S count, <[count := drop start body]> fields)
  end.

Lemma split_loop_pieces body rest : forall position count start front,
  rest = drop position body -> (start <= position)%nat ->
  length front = count -> (count <= MAX_FIELDS)%nat ->
  finish body (split_loop body rest position count start (front ++ replicate (MAX_FIELDS - count) [])) =
  let ps := pieces_after (take (position - start) (drop start body)) rest in
  if (count + length ps <=? MAX_FIELDS)%nat
  then Ok ((count + length ps)%nat, front ++ ps ++ replicate (MAX_FIELDS - (count + length ps)) [])
  else Err StoreCorrupt.
Proof.
  assert (forall (front : list (list Z)) count x, length front = count -> (count < MAX_FIELDS)%nat ->
    <[count := x]> (front ++ replicate (MAX_FIELDS - count) []) =
    (front ++ [x]) ++ replicate (MAX_FIELDS - S count) []) as Hins.
  { intros front count x Hf Hc. replace (MAX_FIELDS - count)%nat with (S (MAX_FIELDS - S count)) by lia.
    rewrite insert_app_r_alt, Hf, Nat.sub_diag, <- app_assoc by lia. done. }
  induction rest as [|c rest IH]; intros position count start front Hr Hs Hf Hc; cbn [split_loop].
  - cbn [finish pieces_after length]. cbv zeta. rewrite Nat.add_1_r.
    assert (take (position - start) (drop start body) = drop start body) as ->.
    { apply firstn_all2. rewrite length_drop. apply (f_equal length) in Hr.
      rewrite length_drop in Hr. simpl in Hr. lia. }
    destruct (Nat.leb_spec MAX_FIELDS count), (Nat.leb_spec (S count) MAX_FIELDS); try lia; [done|].
    by rewrite Hins, <- app_assoc.
  - assert (drop (S position) body = rest) as Hr' by (by rewrite <- Nat.add_1_r, <- drop_drop, <- Hr).
    cbn [pieces_after]. destruct (c =? COMMA).
    + pose proof (pieces_after_pos [] rest). cbv zeta. cbn [length].
      destruct (Nat.leb_spec MAX_FIELDS count).
      { cbn [finish]. by rewrite (proj2 (Nat.leb_gt _ _)) by lia. }
      rewrite Hins by done.
      rewrite IH; [|done|lia|rewrite length_app; simpl; lia|lia]. rewrite Nat.sub_diag, take_0. cbv zeta.
      rewrite Nat.add_succ_r. destruct (_ <=? _)%nat; [|done]. by rewrite <- app_assoc.
    + rewrite IH by (done || lia).
      assert (take (S position - start) (drop start body) = take (position - start) (drop start body) ++ [c]) as ->;
        [|done].
      rewrite Nat.sub_succ_l by done. apply take_S_r. rewrite lookup_drop.
      replace (start + (position - start))%nat with position by lia.
      rewrite <- (Nat.add_0_r position), <- lookup_drop, <- Hr. done.
Qed.

Lemma split_fields_pieces body :
  split_fields body =
  if (length (pieces body) <=? MAX_FIELDS)%nat
  then Ok (length (pieces body), pieces body ++ replicate (MAX_FIELDS - length (pieces body)) [])
  else Err StoreCorrupt.
Proof.
  change (split_fields body) with
    (finish body (split_loop body body 0 0 0 ([] ++ replicate (MAX_FIELDS - 0) []))).
  rewrite split_loop_pieces; [done|by rewrite drop_0|lia|done|unfold MAX_FIELDS; lia].
Qed.

Definition comma_free (f : list Z) : Prop := COMMA ∉ f.

Lemma pieces_after_free current f rest :
  comma_free f -> pieces_after current (f ++ rest) = pieces_after (current ++ f) rest.
Proof.
  revert current. induction f as [|c f IH]; intros current Hf; [by rewrite app_nil_r|].
  apply not_elem_of_cons in Hf as [Hc Hf]. cbn [app pieces_after].
  rewrite (proj2 (Z.eqb_neq c COMMA)) by done. rewrite IH by done. by rewrite <- app_assoc.
Qed.

Lemma pieces_join f fields : Forall comma_free (f :: fields) -> pieces (join (f :: fields)) = f :: fields.
Proof.
  unfold pieces. revert f. induction fields as [|g fields IH]; intros f Hf; apply Forall_cons in Hf as [Hf Hg].
  - cbn [join]. rewrite <- (app_nil_r f) at 1. by rewrite pieces_after_free.
  - change (join (f :: g :: fields)) with (f ++ [COMMA] ++ join (g :: fields)).
    rewrite pieces_after_free by done. cbn [app pieces_after]. rewrite Z.eqb_refl. f_equal. by apply IH.
Qed.

(** A comma inside a field makes one more piece. *)
Lemma length_pieces_after current rest :
  length (pieces_after current rest) = S (length (filter (fun c => c = COMMA) rest)).
Proof.
  revert current. induction rest as [|c rest IH]; intros current; [done|]. cbn [pieces_after].
  rewrite filter_cons. destruct (Z.eqb_spec c COMMA) as [->|Hc].
  - rewrite decide_True by done. cbn [length]. by rewrite IH.
  - by rewrite decide_False, IH.
Qed.

(** ** Reading an account *)

(** What of an account is in its line: everything but its sessions. *)
Definition persisted (a : Account) : Account :=
  AccountStore.with_sessions a (replicate MAX_OWNED_SESSIONS 0) 0.

Lemma plain_comma_free f : Forall (fun c => 45 <= c) f -> comma_free f.
Proof. intros H Hin. rewrite Forall_forall in H. specialize (H _ Hin). unfold COMMA in H. lia. Qed.

Lemma hex_text_plain v w : Forall (fun c => 48 <= c <= 102) (hex_text v w).
Proof.
  unfold hex_text. apply Forall_fmap, Forall_forall. intros i _. simpl.
  apply hex_char_plain, nibble_bound.
Qed.

Lemma hex_bytes_plain data : is_bytes data -> Forall (fun c => 48 <= c <= 102) (hex_bytes data).
Proof.
  induction 1 as [|x l Hx _ IH]; [constructor|]. unfold is_word in Hx.
  change (hex_bytes (x :: l)) with (hex_char (Z.shiftr x 4) :: hex_char (Z.land x 0xF) :: hex_bytes l).
  repeat constructor; try apply IH; apply hex_char_plain; try apply nibble_bound.
  all: rewrite shiftr_div by lia; Z.to_euclidean_division_equations; lia.
Qed.

Lemma decimal_plain v : is_word 32 v -> Forall (fun c => 48 <= c <= 102) (decimal_text v).
Proof.
  intros (ds & _ & -> & _ & Hd)%decimal_text_u32. apply Forall_reverse.
  eapply Forall_impl; [exact Hd|]. simpl. lia.
Qed.

Lemma record_fields_plain a : account_wf a -> Forall (Forall (fun c => 45 <= c <= 127)) (record_fields a).
Proof.
  intros W. unfold record_fields.
  assert (forall f, Forall (fun c => 48 <= c <= 102) f -> Forall (fun c => 45 <= c <= 127) f) as H.
  { intros f Hf. eapply Forall_impl; [exact Hf|]. simpl. lia. }
  assert (Forall (fun c => 45 <= c <= 127) KDF_PBKDF2_SHA512_NAME) as Hm by (repeat constructor; lia).
  pose proof (H _ (decimal_plain _ (wf_iters a W))).
  pose proof (H _ (hex_bytes_plain _ (proj2 (wf_record_salt a W)))).
  pose proof (H _ (hex_bytes_plain _ (proj2 (wf_record_hash a W)))).
  destruct (kdf a =? KDF_PBKDF2_SHA512); rewrite !Forall_cons; split_and!;
    by (apply H, hex_text_plain || done).
Qed.

Lemma account_fields_comma_free a :
  account_wf a -> comma_free (stored_name a) -> comma_free (stored_display a) ->
  Forall comma_free (account_fields a).
Proof.
  intros W Hn Hd. constructor; [|constructor; [done|constructor; [done|]]].
  - apply plain_comma_free. eapply Forall_impl; [apply decimal_plain, W|]. simpl. lia.
  - eapply Forall_impl; [by apply record_fields_plain|]. intros f Hf. apply plain_comma_free.
    eapply Forall_impl; [exact Hf|]. simpl. lia.
Qed.

Lemma field_copy n l arr : field n l arr -> copy_field n (take l arr) = Some arr.
Proof.
  intros (Hle & Hlen & _ & Hd). unfold copy_field. rewrite length_take, Nat.min_l by lia.
  rewrite (proj2 (Nat.ltb_ge _ _)), <- Hd, take_drop by lia. done.
Qed.

Lemma length_stored_name a : account_wf a -> length (stored_name a) = name_len a.
Proof. intros W. destruct (wf_name a W) as (Hle & Hlen & _). unfold stored_name. rewrite length_take. lia. Qed.

Lemma length_stored_display a : account_wf a -> length (stored_display a) = display_len a.
Proof. intros W. destruct (wf_display a W) as (Hle & Hlen & _). unfold stored_display. rewrite length_take. lia. Qed.

(** The fields of the record give its algorithm and its material back. *)
Lemma parse_record_fields a :
  account_wf a ->
  let fields := account_fields a ++ replicate (MAX_FIELDS - length (account_fields a)) [] in
  parse_hex (fields !!! 3%nat) = Ok (salt a) /\ parse_hex (fields !!! 4%nat) = Ok (auth_hash a) /\
  parse_hex (fields !!! 5%nat) = Ok (capabilities a) /\
  parse_record (length (account_fields a)) fields =
    Some (Ok (kdf a, kdf_iters a, record_salt a, record_hash a)).
Proof.
  intros W. pose proof (wf_salt a W). pose proof (wf_auth_hash a W). pose proof (wf_capabilities a W) as Hc.
  unfold is_word in *. unfold account_fields, record_fields.
  assert (parse_hex (hex_text (capabilities a) 8) = Ok (capabilities a)) as Ec by (apply parse_hex_word; simpl; lia).
  destruct (wf_record a W) as [(Ek & Es & Eh)|(Ek & Ei & Es & Eh)]; rewrite Ek; cbn -[parse_hex parse_record hex_text].
  - rewrite Es, Eh, Ec. split; [done|]. split; [done|]. split; [done|]. unfold parse_record.
    cbn -[parse_u32 parse_hex_into hex_text hex_bytes decimal_text bool_decide].
    rewrite bool_decide_eq_true_2 by done. rewrite parse_u32_decimal by apply W. cbn [mbind option_bind].
    rewrite !parse_hex_into_bytes by apply W. done.
  - rewrite Ec, Ei, Es, Eh. split; [apply parse_hex_word; simpl; lia|].
    split; [apply parse_hex_word; simpl; lia|]. done.
Qed.

Lemma length_account_fields a : (length (account_fields a) <= MAX_FIELDS)%nat.
Proof. unfold account_fields, record_fields, MAX_FIELDS. destruct (_ =? _); simpl; lia. Qed.

Lemma parse_account_line st a :
  account_wf a -> comma_free (stored_name a) -> comma_free (stored_display a) ->
  (count st < MAX_ACCOUNTS)%nat -> length (accounts st) = MAX_ACCOUNTS -> id a + 1 < 2 ^ 32 ->
  parse_account st (join (account_fields a)) =
  Some (Ok (mkAccountStore (<[count st := persisted a]> (accounts st)) (S (count st))
              (above (next_id st) a) (active st) (salt_counter st) (salt_tick st))).
Proof.
  intros W Hn Hd Hc Hl Hid. pose proof (wf_id a W) as Hw. unfold is_word in Hw.
  unfold parse_account. rewrite split_fields_pieces.
  assert (pieces (join (account_fields a)) = account_fields a) as ->
    by (by apply pieces_join, account_fields_comma_free).
  rewrite (proj2 (Nat.leb_le _ _)) by apply length_account_fields.
  destruct (parse_record_fields a W) as (-> & -> & -> & ->).
  set (fields := account_fields a ++ _).
  change (fields !!! 0%nat) with (decimal_text (id a)). change (fields !!! 1%nat) with (stored_name a).
  change (fields !!! 2%nat) with (stored_display a). rewrite parse_u32_decimal by apply W.
  cbn [mbind option_bind]. rewrite length_stored_name, length_stored_display by done.
  pose proof (wf_name_pos a W). destruct (wf_name a W) as (Hnl & _). destruct (wf_display a W) as (Hdl & _).
  rewrite (proj2 (Nat.eqb_neq _ _)), !(proj2 (Nat.ltb_ge _ _)), (proj2 (Nat.leb_gt _ _)) by lia.
  cbn [orb]. unfold stored_name, stored_display. rewrite (field_copy _ _ _ (wf_name a W)).
  rewrite (field_copy _ _ _ (wf_display a W)). cbn [mbind option_bind]. rewrite store_ok by lia.
  cbn [mbind option_bind]. rewrite wrap_small by apply W. unfold above.
  destruct (Z.leb_spec (next_id st) (id a)); [rewrite chk_ok by lia|]; done.
Qed.

(** ** Reading lines *)

Definition newline_free (f : list Z) : Prop := NEWLINE ∉ f.

(** The text that the store's lines can carry. *)
Definition separable (a : Account) : Prop := newline_free (stored_name a) /\ newline_free (stored_display a).

Lemma raw_lines_line body rest : forall current,
  newline_free body ->
  raw_lines (body ++ NEWLINE :: rest) current = (reverse current ++ body, true) :: raw_lines rest [].
Proof.
  induction body as [|c body IH]; intros current Hb; cbn [app raw_lines].
  { by rewrite Z.eqb_refl, app_nil_r. }
  apply not_elem_of_cons in Hb as [Hc Hb]. rewrite (proj2 (Z.eqb_neq _ _)) by done.
  rewrite IH by done. by rewrite reverse_cons, <- app_assoc.
Qed.

(** A printable ASCII character. *)
Definition plain (c : Z) : Prop := 33 <= c < 127.

Lemma plain_not_space c : plain c -> ((9 <=? c) && (c <=? 13)) || (c =? 32) = false.
Proof. unfold plain. intros. apply not_true_iff_false. zcases; simpl; lia. Qed.

Lemma space_at_start_plain c l : plain c -> space_at_start (c :: l) = None.
Proof.
  intros Hc. cbn [space_at_start]. rewrite plain_not_space by done. unfold plain in Hc.
  destruct l as [|d l]; [done|]. rewrite (proj2 (Z.eqb_neq c 0xC2)) by lia. simpl.
  destruct l as [|e l]; [done|].
  by rewrite (proj2 (Z.eqb_neq c 0xE1)), (proj2 (Z.eqb_neq c 0xE2)), (proj2 (Z.eqb_neq c 0xE3)) by lia.
Qed.

Lemma space_at_start_two b c : plain c -> space_at_start [b; c] <> Some 2%nat.
Proof.
  unfold plain. intros Hc. cbn [space_at_start]. destruct (_ || _); [done|].
  by rewrite (proj2 (Z.eqb_neq c 0x85)), (proj2 (Z.eqb_neq c 0xA0)), andb_false_r by lia.
Qed.

Lemma space_at_start_three a b c : plain c -> space_at_start [a; b; c] <> Some 3%nat.
Proof.
  unfold plain. intros Hc. cbn [space_at_start]. destruct (_ || _); [done|]. destruct (_ && _); [done|].
  rewrite (proj2 (Z.eqb_neq c 0x80)), (proj2 (Z.leb_gt 0x80 c)), (proj2 (Z.eqb_neq c 0xA8)),
    (proj2 (Z.eqb_neq c 0xA9)), (proj2 (Z.eqb_neq c 0xAF)), (proj2 (Z.eqb_neq c 0x9F)) by lia.
  cbn [andb orb]. by rewrite !andb_false_r.
Qed.

Lemma space_at_end_plain l c : plain c -> space_at_end (l ++ [c]) = None.
Proof.
  intros Hc. unfold space_at_end. rewrite length_app. cbn [length].
  replace (length l + 1 - 1)%nat with (length l) by lia. rewrite drop_app_length.
  rewrite space_at_start_plain by done.
  assert (space_at_start (drop (length l + 1 - 2) (l ++ [c])) <> Some 2%nat) as H2.
  { destruct l as [|b l _] using rev_ind;
      [change (space_at_start [c] <> Some 2%nat); by rewrite space_at_start_plain|].
    rewrite length_app, <- app_assoc, drop_app_length' by (simpl; lia). by apply space_at_start_two. }
  assert (space_at_start (drop (length l + 1 - 3) (l ++ [c])) <> Some 3%nat) as H3.
  { destruct l as [|b l _] using rev_ind;
      [change (space_at_start [c] <> Some 3%nat); by rewrite space_at_start_plain|].
    destruct l as [|b' l _] using rev_ind.
    { change (space_at_start [b; c] <> Some 3%nat). cbn [space_at_start].
      destruct (_ || _); [done|]. by destruct (_ && _). }
    rewrite !length_app, <- !app_assoc, drop_app_length' by (simpl; lia). by apply space_at_start_three. }
  destruct (space_at_start (drop (length l + 1 - 2) _)) as [[|[|[|]]]|]; try done;
    destruct (space_at_start (drop (length l + 1 - 3) _)) as [[|[|[|[|]]]]|]; done.
Qed.

Lemma trim_plain c l d : plain c -> plain d -> trim (c :: l ++ [d]) = c :: l ++ [d].
Proof.
  intros Hc Hd. unfold trim.
  assert (forall n, trim_start n (c :: l ++ [d]) = c :: l ++ [d]) as -> by (intros []; [done|]; cbn [trim_start]; by rewrite space_at_start_plain).
  rewrite app_comm_cons. generalize (length ((c :: l) ++ [d])). intros []; [done|]. cbn [trim_end].
  by rewrite space_at_end_plain.
Qed.

(** A line starts with its prefix and ends with a digit. *)
Lemma join_snoc fields f : fields <> [] -> join (fields ++ [f]) = join fields ++ [COMMA] ++ f.
Proof.
  induction fields as [|g [|h fields] IH]; intros Hne; [done|done|].
  change (join ((g :: h :: fields) ++ [f])) with (g ++ [COMMA] ++ join ((h :: fields) ++ [f])).
  rewrite IH by done. change (join (g :: h :: fields)) with (g ++ [COMMA] ++ join (h :: fields)).
  by rewrite <- !app_assoc.
Qed.

Lemma account_body_shape a :
  account_wf a -> exists l d, account_body a = 97 :: l ++ [d] /\ plain d.
Proof.
  intros W. assert (exists fields f, account_fields a = fields ++ [f] /\ fields <> [] /\ f <> [] /\
    Forall (fun c => 48 <= c <= 102) f) as (fields & f & E & Hne & Hf & Hp).
  { unfold account_fields, record_fields. destruct (kdf a =? KDF_PBKDF2_SHA512).
    - eexists [_; _; _; _; _; _; _; _; _], (hex_bytes (record_hash a)). split; [done|]. split; [done|].
      split; [|apply hex_bytes_plain, (wf_record_hash a W)].
      intros E%(f_equal length). rewrite length_hex_bytes in E. destruct (wf_record_hash a W) as [Hl _].
      rewrite Hl in E. done.
    - eexists [_; _; _; _; _], (hex_text (capabilities a) 8). split; [done|]. split; [done|].
      split; [|apply hex_text_plain]. intros E%(f_equal length). by rewrite length_hex_text in E. }
  unfold account_body. rewrite E, join_snoc by done.
  destruct f as [|d f _] using rev_ind; [done|]. apply Forall_app in Hp as [_ [Hd _]%Forall_cons].
  eexists (tail ACCOUNT_PREFIX ++ join fields ++ [COMMA] ++ f), d.
  split; [by rewrite <- !app_assoc|]. unfold plain. simpl in Hd. lia.
Qed.

Lemma newline_free_app a b : newline_free (a ++ b) <-> newline_free a /\ newline_free b.
Proof. unfold newline_free. rewrite elem_of_app. naive_solver. Qed.

Lemma plain_newline_free f : Forall (fun c => 44 <= c) f -> newline_free f.
Proof. intros H Hin. rewrite Forall_forall in H. specialize (H _ Hin). unfold NEWLINE in H. lia. Qed.

Lemma newline_free_join fields : Forall newline_free fields -> newline_free (join fields).
Proof.
  induction 1 as [|f fields Hf Hfs IH]; [apply not_elem_of_nil|].
  destruct fields as [|g fields]; [done|].
  change (join (f :: g :: fields)) with (f ++ [COMMA] ++ join (g :: fields)).
  rewrite !newline_free_app. split_and!; [done| |done]. apply plain_newline_free. by constructor.
Qed.

Lemma newline_free_body a : account_wf a -> separable a -> newline_free (account_body a).
Proof.
  intros W [Hn Hd]. unfold account_body. apply newline_free_app. split.
  { apply plain_newline_free. repeat constructor; lia. }
  apply newline_free_join. constructor; [|constructor; [done|constructor; [done|]]].
  - apply plain_newline_free. eapply Forall_impl; [apply decimal_plain, W|]. simpl. lia.
  - eapply Forall_impl; [by apply record_fields_plain|]. intros f Hf. apply plain_newline_free.
    eapply Forall_impl; [exact Hf|]. simpl. lia.
Qed.

(** The lines of the text, trimmed: one per account. *)
Lemma lines_text l :
  Forall account_wf l -> Forall separable l ->
  filter (fun l => l <> []) (trim <$> lines (mjoin (account_line <$> l))) = account_body <$> l.
Proof.
  unfold lines. induction l as [|a l IH]; intros Hw Hs; [done|].
  apply Forall_cons in Hw as [Wa Hw]. apply Forall_cons in Hs as [Sa Hs].
  change (mjoin (account_line <$> a :: l)) with (account_line a ++ mjoin (account_line <$> l)).
  unfold account_line at 1. rewrite <- app_assoc. cbn [app].
  rewrite raw_lines_line by by apply newline_free_body. cbn [fmap list_fmap reverse app].
  destruct (account_body_shape a Wa) as (k & d & E & Hd).
  assert (strip_return (account_body a, true) = account_body a) as E1.
  { unfold strip_return. rewrite E, app_comm_cons, last_snoc. unfold plain in Hd.
    destruct d as [|d|]; [lia| |lia]. do 4 (destruct d as [d|d|]; try done; try lia). }
  change (reverse [] ++ account_body a) with (account_body a). rewrite E1.
  assert (trim (account_body a) = account_body a) as -> by (rewrite E; by apply trim_plain).
  rewrite filter_cons_True by (by rewrite E). f_equal. by apply IH.
Qed.

Lemma strip_account_prefix a : strip_prefix ACCOUNT_PREFIX (account_body a) = Some (join (account_fields a)).
Proof.
  unfold strip_prefix, account_body. by rewrite take_app_length, bool_decide_eq_true_2, drop_app_length.
Qed.

(** Reading a run of lines into a store that has room for them. *)
Lemma parse_lines_accounts l : forall st front,
  Forall account_wf l -> Forall (fun a => comma_free (stored_name a) /\ comma_free (stored_display a)) l ->
  Forall (fun a => id a + 1 < 2 ^ 32) l ->
  accounts st = front ++ replicate (MAX_ACCOUNTS - count st) EMPTY_ACCOUNT -> length front = count st ->
  (count st + length l <= MAX_ACCOUNTS)%nat ->
  parse_lines (account_body <$> l) st =
  Some (Ok (mkAccountStore
    (front ++ (persisted <$> l) ++ replicate (MAX_ACCOUNTS - (count st + length l)) EMPTY_ACCOUNT)
    (count st + length l) (foldl above (next_id st) l) (active st) (salt_counter st) (salt_tick st))).
Proof.
  induction l as [|a l IH]; intros st front Hw Hf Hid Hacc Hl Hc.
  { cbn [fmap list_fmap parse_lines foldl length app]. rewrite Nat.add_0_r, <- Hacc. by destruct st. }
  apply Forall_cons in Hw as [Wa Hw]. apply Forall_cons in Hf as [[Fn Fd] Hf].
  apply Forall_cons in Hid as [Ia Hid]. cbn [length] in Hc. cbn [fmap list_fmap parse_lines].
  rewrite strip_account_prefix, parse_account_line; try done; [|lia|].
  2: { rewrite Hacc, length_app, length_replicate. lia. }
  cbn [mbind option_bind]. set (st1 := mkAccountStore _ _ _ _ _ _).
  rewrite (IH st1 (front ++ [persisted a])); try done.
  - cbn [count next_id active salt_counter salt_tick st1 foldl]. rewrite <- app_assoc.
    by rewrite Nat.add_succ_comm.
  - cbn [accounts count st1]. rewrite Hacc, insert_app_r_alt, Hl, Nat.sub_diag by lia.
    replace (MAX_ACCOUNTS - count st)%nat with (S (MAX_ACCOUNTS - S (count st))) by lia.
    cbn [replicate insert list_insert]. by rewrite <- app_assoc.
  - rewrite length_app. cbn [length count st1]. lia.
  - cbn [count st1]. lia.
Qed.

(** The store as it comes back: the accounts without their sessions, nobody
    logged in, and fresh salt counters. *)
Definition reloaded (st : AccountStore) : AccountStore :=
  mkAccountStore ((persisted <$> live st) ++ replicate (MAX_ACCOUNTS - count st) EMPTY_ACCOUNT)
    (count st) (next_id st) None 0 0.

Lemma parse_store_text st :
  store_wf st -> Forall separable (live st) ->
  Forall (fun a => comma_free (stored_name a) /\ comma_free (stored_display a)) (live st) ->
  parse_store (store_text st) = Some (Ok (reloaded st)).
Proof.
  intros W Hs Hf. unfold parse_store, store_text. rewrite lines_text by (done || apply W).
  rewrite (parse_lines_accounts _ AccountStore.new []); try done; [|apply W| |].
  - cbn [AccountStore.new count next_id active salt_counter salt_tick]. unfold reloaded.
    rewrite length_live_accounts, (wf_next st W) by done. done.
  - pose proof (next_after_above (live st)) as Ha. rewrite <- (wf_next st W) in Ha.
    pose proof (wf_next_word st W) as Hn. unfold is_word in Hn.
    eapply Forall_impl; [exact Ha|]. simpl. lia.
  - rewrite length_live_accounts by done. apply W.
Qed.
