(* ===== verification/AccountReload.v ===== *)
(** * Saving the accounts and starting again

    Every store fits the buffer it is saved through; what is saved comes back
    when no name and no display holds a comma, with the credentials and grants
    as they were; a comma in one of them loses the whole store. *)

From Stdlib Require Import ZArith Lia.
From stdpp Require Import base option list.
From S2P Require Import Prelude Words UserMessage Accounts AccountInv AccountOps AccountText AccountCodec.

#[local] Open Scope Z_scope.

(** ** Commas in fields *)

Definition commas (f : list Z) : nat := length (filter (fun c => c = COMMA) f).

Lemma commas_app f g : commas (f ++ g) = (commas f + commas g)%nat.
Proof. unfold commas. by rewrite filter_app, length_app. Qed.

Lemma commas_pos f : ~ comma_free f -> (0 < commas f)%nat.
Proof.
  intros Hf. unfold commas. destruct (filter (fun c => c = COMMA) f) as [|x l] eqn:E; [|simpl; lia].
  exfalso. apply Hf. intros Hin. assert (COMMA ∈ filter (fun c => c = COMMA) f) as H.
  { by apply list_elem_of_filter. }
  rewrite E in H. by apply not_elem_of_nil in H.
Qed.

Lemma commas_join f fields :
  S (commas (join (f :: fields))) = sum_list_with (fun g => S (commas g)) (f :: fields).
Proof.
  revert f. induction fields as [|g fields IH]; intros f.
  { cbn [join sum_list_with]. lia. }
  change (join (f :: g :: fields)) with (f ++ [COMMA] ++ join (g :: fields)).
  rewrite !commas_app. specialize (IH g). change (commas [COMMA]) with 1%nat.
  cbn [sum_list_with] in *. lia.
Qed.

(** The two fields of a user's choosing. *)
Definition comma_free_account (a : Account) : Prop :=
  comma_free (stored_name a) /\ comma_free (stored_display a).

#[export] Instance comma_free_account_dec a : Decision (comma_free_account a).
Proof. unfold comma_free_account, comma_free. apply _. Defined.

Lemma parse_account_comma st a :
  kdf a = KDF_PBKDF2_SHA512 -> ~ comma_free_account a ->
  parse_account st (join (account_fields a)) = Some (Err StoreCorrupt).
Proof.
  intros Hk Hc. unfold parse_account. rewrite split_fields_pieces.
  rewrite (proj2 (Nat.leb_gt _ _)); [done|]. unfold pieces. rewrite length_pieces_after.
  fold (commas (join (account_fields a))). unfold account_fields at 1. rewrite commas_join.
  assert (0 < commas (stored_name a) + commas (stored_display a))%nat as Hpos.
  { destruct (decide (comma_free (stored_name a))) as [Hn|Hn%commas_pos]; [|lia].
    destruct (decide (comma_free (stored_display a))) as [Hd|Hd%commas_pos]; [|lia].
    by destruct Hc. }
  unfold record_fields. rewrite Hk. cbn [Z.eqb KDF_PBKDF2_SHA512 Pos.eqb sum_list_with].
  unfold MAX_FIELDS. lia.
Qed.

Lemma parse_lines_comma l : forall st front,
  Forall account_wf l -> Forall (fun a => kdf a = KDF_PBKDF2_SHA512) l ->
  Forall (fun a => id a + 1 < 2 ^ 32) l -> ~ Forall comma_free_account l ->
  accounts st = front ++ replicate (MAX_ACCOUNTS - count st) EMPTY_ACCOUNT -> length front = count st ->
  (count st + length l <= MAX_ACCOUNTS)%nat ->
  parse_lines (account_body <$> l) st = Some (Err StoreCorrupt).
Proof.
  induction l as [|a l IH]; intros st front Hw Hk Hid Hc Hacc Hl Hle; [by destruct Hc|].
  apply Forall_cons in Hw as [Wa Hw]. apply Forall_cons in Hk as [Ka Hk].
  apply Forall_cons in Hid as [Ia Hid]. cbn [length] in Hle. cbn [fmap list_fmap parse_lines].
  rewrite strip_account_prefix. destruct (decide (comma_free_account a)) as [[Fn Fd]|Fa].
  2: { by rewrite parse_account_comma. }
  rewrite parse_account_line; try done; [|lia|rewrite Hacc, length_app, length_replicate; lia].
  cbn [mbind option_bind]. apply (IH _ (front ++ [persisted a])); try done; cbn [accounts count].
  - intros Hf. apply Hc. by constructor.
  - rewrite Hacc, insert_app_r_alt, Hl, Nat.sub_diag by lia.
    replace (MAX_ACCOUNTS - count st)%nat with (S (MAX_ACCOUNTS - S (count st))) by lia.
    cbn [replicate insert list_insert]. by rewrite <- app_assoc.
  - rewrite length_app. cbn [length]. lia.
  - lia.
Qed.

Lemma ids_below st : store_wf st -> Forall (fun a => id a + 1 < 2 ^ 32) (live st).
Proof.
  intros W. pose proof (next_after_above (live st)) as Ha. rewrite <- (wf_next st W) in Ha.
  pose proof (wf_next_word st W) as Hn. unfold is_word in Hn. eapply Forall_impl; [exact Ha|]. simpl. lia.
Qed.

Lemma parse_store_comma st :
  store_wf st -> Forall separable (live st) -> Forall (fun a => kdf a = KDF_PBKDF2_SHA512) (live st) ->
  ~ Forall comma_free_account (live st) -> parse_store (store_text st) = Some (Err StoreCorrupt).
Proof.
  intros W Hs Hk Hc. unfold parse_store, store_text. rewrite lines_text by (done || apply W).
  apply (parse_lines_comma _ AccountStore.new []); try done; [apply W|by apply ids_below|].
  rewrite length_live_accounts by done. apply W.
Qed.

(** ** UTF-8 *)

Lemma utf8_valid_app a b : utf8_valid a = true -> utf8_valid (a ++ b) = utf8_valid b.
Proof.
  induction a as [a IH] using (induction_ltof1 _ (@length Z)). unfold ltof in IH.
  destruct a as [|x a]; [done|]. cbn [app utf8_valid]. destruct (x <? 0x80); [intros H; apply IH; [simpl; lia|done]|].
  destruct a as [|y a]; [done|]. cbn [app]. destruct ((0xC2 <=? x) && (x <=? 0xDF)).
  { intros [Hy H]%andb_true_iff. rewrite Hy, IH by (done || (simpl; lia)). done. }
  destruct a as [|z a]; [done|]. cbn [app]. destruct ((0xE0 <=? x) && (x <=? 0xEF)).
  { intros [H1 H]%andb_true_iff. rewrite H1, IH by (done || (simpl; lia)). done. }
  destruct a as [|w a]; [done|]. cbn [app].
  intros [H1 H]%andb_true_iff. rewrite H1, IH by (done || (simpl; lia)). done.
Qed.

Lemma utf8_valid_ascii l : Forall (fun c => 0 <= c < 0x80) l -> utf8_valid l = true.
Proof. induction 1 as [|c l Hc _ IH]; [done|]. cbn [utf8_valid]. by rewrite (proj2 (Z.ltb_lt _ _)) by lia. Qed.

Lemma utf8_valid_join fields : Forall (fun f => utf8_valid f = true) fields -> utf8_valid (join fields) = true.
Proof.
  induction 1 as [|f fields Hf _ IH]; [done|]. destruct fields as [|g fields]; [done|].
  change (join (f :: g :: fields)) with (f ++ [COMMA] ++ join (g :: fields)).
  rewrite utf8_valid_app by done. by rewrite utf8_valid_app.
Qed.

(** Names and displays come from strings. *)
Definition utf8_account (a : Account) : Prop :=
  utf8_valid (stored_name a) = true /\ utf8_valid (stored_display a) = true.

Lemma utf8_valid_line a : account_wf a -> utf8_account a -> utf8_valid (account_line a) = true.
Proof.
  intros W [Hn Hd]. unfold account_line, account_body. rewrite <- app_assoc.
  rewrite utf8_valid_app by done. rewrite utf8_valid_app; [done|]. apply utf8_valid_join.
  constructor; [|constructor; [done|constructor; [done|]]].
  - apply utf8_valid_ascii. eapply Forall_impl; [apply decimal_plain, W|]. simpl. lia.
  - eapply Forall_impl; [by apply record_fields_plain|]. intros f Hf. apply utf8_valid_ascii.
    eapply Forall_impl; [exact Hf|]. simpl. lia.
Qed.

Lemma utf8_valid_store st n :
  store_wf st -> Forall utf8_account (live st) -> utf8_valid (store_text st ++ replicate n 0) = true.
Proof.
  intros W Hu. rewrite utf8_valid_app.
  { apply utf8_valid_ascii. apply Forall_replicate. lia. }
  unfold store_text. pose proof (wf_live st W) as Hw.
  induction Hw as [|a l Wa _ IH]; [done|]. apply Forall_cons in Hu as [Ua Hu].
  change (mjoin (account_line <$> a :: l)) with (account_line a ++ mjoin (account_line <$> l)).
  rewrite utf8_valid_app by by apply utf8_valid_line. by apply IH.
Qed.

(** ** Saving *)

Definition chunk_bytes : nat := (IPC_MAX_WORDS - 3) * 8.

Lemma write_loop_spec buffer total fuel : forall offset,
  (total <= length buffer)%nat -> (total - offset <= fuel)%nat -> (offset <= total)%nat ->
  let ws := write_loop fuel buffer offset total in
  mjoin ws.*2 = take (total - offset) (drop offset buffer) /\
  forall i o c, ws !! i = Some (o, c) ->
    o = (offset + length (mjoin (take i ws).*2))%nat /\ (0 < length c <= chunk_bytes)%nat.
Proof.
  induction fuel as [|fuel IH]; intros offset Hb Hf Ho; cbv zeta; cbn [write_loop].
  { replace (total - offset)%nat with 0%nat by lia. by split. }
  destruct (Nat.ltb_spec offset total).
  2: { replace (total - offset)%nat with 0%nat by lia. by split. }
  fold chunk_bytes. assert (chunk_bytes = 104%nat) as Hk by done.
  set (n := Nat.min (total - offset) chunk_bytes). set (c := take n (drop offset buffer)).
  assert (length c = n) as Hc by (unfold c; rewrite length_take, length_drop; lia).
  destruct (IH (offset + n)%nat Hb) as [Hj Hi]; [lia|lia|].
  set (ws := write_loop fuel buffer (offset + n) total) in *. split.
  - change (mjoin ((offset, c) :: ws).*2) with (c ++ mjoin ws.*2). rewrite Hj. unfold c.
    rewrite <- (drop_drop buffer n offset), take_take_drop. f_equal. lia.
  - intros [|i] o d Hw; simpl in Hw.
    + injection Hw as <- <-. simpl. lia.
    + destruct (Hi i o d Hw) as [-> Hd]. split; [|exact Hd].
      change (mjoin (take (S i) ((offset, c) :: ws)).*2) with (c ++ mjoin (take i ws).*2).
      rewrite length_app. lia.
Qed.

Lemma persist_store_spec st :
  store_wf st ->
  exists ws, persist_store st = Some ws /\ mjoin ws.*2 = store_text st /\
    forall i o c, ws !! i = Some (o, c) ->
      o = length (mjoin (take i ws).*2) /\ (0 < length c <= chunk_bytes)%nat.
Proof.
  intros W. unfold persist_store. pose proof (length_store_text st W) as Hl. pose proof (wf_count st W) as Hc.
  unfold MAX_ACCOUNTS in Hc.
  destruct (format_store_text st MAX_STORE_BYTES W) as (r & buffer & -> & Hr). cbn [mbind option_bind].
  rewrite (proj2 (Nat.leb_le _ _)) in Hr by (change MAX_STORE_BYTES with (8 * 512)%nat; lia).
  destruct Hr as [-> ->]. eexists. split; [reflexivity|].
  destruct (write_loop_spec (store_text st ++ replicate (MAX_STORE_BYTES - length (store_text st)) 0)
    (length (store_text st)) (length (store_text st)) 0) as [Hj Hi]; [rewrite length_app; lia|lia|lia|].
  split; [|exact Hi]. rewrite Hj, drop_0, Nat.sub_0_r. apply take_app_length.
Qed.

(** ** Loading *)

Lemma trim_zeros_replicate n : trim_zeros (replicate n 0) = [].
Proof. induction n as [|n IH]; [done|]. cbn [replicate trim_zeros]. by rewrite IH. Qed.

Lemma trim_zeros_app l n : trim_zeros (l ++ replicate n 0) = trim_zeros l.
Proof. induction l as [|x l IH]; [apply trim_zeros_replicate|]. cbn [app trim_zeros]. by rewrite IH. Qed.

Lemma trim_zeros_snoc l c : c <> 0 -> trim_zeros (l ++ [c]) = l ++ [c].
Proof.
  intros Hc. induction l as [|x l IH]; simpl.
  { by rewrite (proj2 (Z.eqb_neq c 0) Hc). }
  rewrite IH. by destruct l.
Qed.

Lemma store_text_snoc st : live st <> [] -> exists k, store_text st = k ++ [NEWLINE].
Proof.
  unfold store_text. intros Hne. destruct (live st) as [|a l _] using rev_ind; [done|].
  exists (mjoin (account_line <$> l) ++ account_body a).
  rewrite fmap_app, join_app. change (mjoin (account_line <$> [a])) with (account_line a ++ []).
  by rewrite app_nil_r, <- app_assoc.
Qed.

Lemma load_store_text st e1 e2 :
  store_wf st -> live st <> [] -> Forall utf8_account (live st) ->
  load_store true (Some (store_text st)) e1 e2 =
  r ← parse_store (store_text st); Some (match r with Ok st => Some st | Err _ => None end).
Proof.
  intros W Hne Hu. unfold load_store. cbn [negb]. destruct (store_text_snoc st Hne) as [k Hk].
  pose proof (length_store_text st W) as Hl. pose proof (wf_count st W) as Hc. unfold MAX_ACCOUNTS in Hc.
  rewrite firstn_all2 by (change MAX_STORE_BYTES with (8 * 512)%nat; lia).
  assert (forallb (fun b => b =? 0) (store_text st ++
            replicate (MAX_STORE_BYTES - length (store_text st)) 0) = false) as ->.
  { apply not_true_iff_false. rewrite Hk, !forallb_app. simpl. by rewrite !andb_false_r. }
  rewrite utf8_valid_store by done. cbn [negb]. rewrite trim_zeros_app, Hk, trim_zeros_snoc by done. done.
Qed.

(** Lookups see only the names. *)
Lemma find_index_ext {A : Type} (f : A -> option bool) l l' n : forall i,
  (forall j, (i <= j < i + n)%nat -> (l !! j ≫= f) = (l' !! j ≫= f)) ->
  find_index f l n i = find_index f l' n i.
Proof.
  induction n as [|n IH]; intros i H; [done|]. cbn [find_index].
  pose proof (H i ltac:(lia)) as Hi. rewrite (IH (S i)) by (intros j Hj; apply H; lia).
  destruct (l !! i) as [x|], (l' !! i) as [y|]; cbn [mbind option_bind] in *.
  - by rewrite Hi.
  - by rewrite Hi.
  - by rewrite <- Hi.
  - done.
Qed.

Lemma reloaded_lookup st j :
  store_wf st -> (j < count st)%nat -> accounts (reloaded st) !! j = persisted <$> accounts st !! j.
Proof.
  intros W Hj. pose proof (length_live_accounts st W). unfold reloaded. cbn [accounts].
  rewrite lookup_app_l by (rewrite length_fmap; lia). rewrite list_lookup_fmap. unfold live.
  by rewrite lookup_take_lt.
Qed.

(** Who may log in is unchanged. *)
Lemma check_credentials_reloaded st now nm secret :
  store_wf st ->
  AccountStore.check_credentials
    (mkAccountStore (accounts (reloaded st)) (count st) (next_id st) None 0 now) nm secret =
  AccountStore.check_credentials st nm secret.
Proof.
  intros W. unfold AccountStore.check_credentials.
  assert (AccountStore.account_index
    (mkAccountStore (accounts (reloaded st)) (count st) (next_id st) None 0 now) nm =
    AccountStore.account_index st nm) as ->.
  { apply find_index_ext. intros j Hj. cbn [accounts count] in *. rewrite reloaded_lookup by (done || lia). by destruct (accounts st !! j). }
  pose proof (account_index_spec st nm W) as Hf.
  destruct (AccountStore.account_index st nm) as [[i|]|]; [|reflexivity|reflexivity].
  destruct Hf as (a & Hi & _). apply live_lookup in Hi as [Hi Hlt].
  cbn [mbind option_bind]. unfold AccountStore.verify. cbn [accounts].
  rewrite reloaded_lookup by done. rewrite Hi. reflexivity.
Qed.
