(* ===== verification/AccountProtocol.v ===== *)
(** * The account service's requests
    (userspace/programs/account-service/src/protocol.rs)

    The byte packing of lib.rs, the decoding of a request's strings into the
    scratch buffers, and the handler of every tag.  A handler returns the store,
    the reply and whether the store is to be saved; [None] is a panic of the
    service. *)

From Stdlib Require Import ZArith Lia.
From stdpp Require Import base option list.
From S2P Require Import Prelude Words UserMessage Accounts AccountText.

#[local] Open Scope Z_scope.

Module account_tag.
Definition CREATE_REQUEST : Z := 0x211.
Definition CREATE_REPLY : Z := 0x212.
Definition LOGIN_REQUEST : Z := 0x213.
Definition LOGIN_REPLY : Z := 0x214.
Definition LOGOUT_REQUEST : Z := 0x215.
Definition LOGOUT_REPLY : Z := 0x216.
Definition SWITCH_REQUEST : Z := 0x217.
Definition SWITCH_REPLY : Z := 0x218.
Definition POLICY_GET_REQUEST : Z := 0x219.
Definition POLICY_GET_REPLY : Z := 0x21A.
Definition LIST_REQUEST : Z := 0x21B.
Definition LIST_REPLY : Z := 0x21C.
Definition SET_PASSWORD_REQUEST : Z := 0x21D.
Definition SET_PASSWORD_REPLY : Z := 0x21E.
Definition VERIFY_PASSWORD_REQUEST : Z := 0x21F.
Definition VERIFY_PASSWORD_REPLY : Z := 0x220.
End account_tag.

(** ** Bytes in words (lib.rs) *)

(** Eight bytes, big-endian, zeros behind the end. *)
Definition pack_word (data : list Z) (index : nat) : Z :=
  foldl (fun value slot =>
    Z.lor value (shl 64 (default 0 (data !! (index * 8 + slot)%nat)) (56 - Z.of_nat slot * 8)))
    0 (seq 0 8).

Definition word_len (n : nat) : nat := (n + 7) / 8.

Definition pack_bytes (out data : list Z) : list Z * nat :=
  let n := word_len (length data) in
  (imap (fun index word => if (index <? n)%nat then pack_word data index else word) out, n).

Definition unpack_byte (ws : list Z) (position : nat) : Z :=
  Z.land (Z.shiftr (ws !!! (position / 8)%nat) (56 - Z.of_nat (position mod 8) * 8)) 0xFF.

(** Into the front of [out], as long as [byte_len]. *)
Definition unpack_bytes (ws : list Z) (byte_len : Z) (out_len : nat) : result (list Z) AccountError :=
  if (Z.of_nat out_len <? byte_len) || (zlen ws * 8 <? byte_len) then Err InvalidArgument
  else Ok (unpack_byte ws <$> seq 0 (Z.to_nat byte_len)).

(** ** Requests *)

Definition MAX_SECRET : nat := 64.

(** The words a string of [len] bytes takes. *)
Definition string_words (len : Z) : Z := div_ceil len 8.

Definition field_at (request : RawMessage) (offset : nat) : result (Z * nat) AccountError :=
  match words request !! offset with
  | None => Err InvalidArgument
  | Some len =>
      if word_count request <? Z.of_nat (offset + 1) + string_words len then Err InvalidArgument
      else Ok (len, (offset + 1)%nat)
  end.

(** [out_len] is the length of the scratch buffer: slicing it to the decoded
    length panics when it is shorter. *)
Definition decode_str (request : RawMessage) (offset max_len out_len : nat) :
    option (result (list Z) AccountError) :=
  match field_at request offset with
  | Err e => Some (Err e)
  | Ok (len, start_word) =>
      if Z.of_nat max_len <? len then Some (Err InvalidArgument)
      else if Z.of_nat out_len <? len then None
      else Some (unpack_bytes (drop start_word (words request)) len (Z.to_nat len))
  end.

(** [from_utf8(..).unwrap_or(..)], empty when the bytes are not UTF-8 *)
Definition str_field (data : list Z) : list Z := if utf8_valid data then data else [].

(** The offset behind a string of that length. *)
Definition after (offset len : nat) : nat := (offset + 1 + word_len len)%nat.

Definition reply_with (t : Z) (ws : list Z) : RawMessage :=
  RawMessage.with_words (zlen ws) (ws ++ replicate (IPC_MAX_WORDS - length ws) 0) (RawMessage.empty t).

Definition fail (t : Z) (e : AccountError) : RawMessage := reply_with t [AccountError.to_code e].

(** What handling a request leaves: the store, the reply, the dirty flag. *)
Definition Handled : Type := AccountStore * RawMessage * bool.

Definition handle_create (st : AccountStore) (entropy : option (list Z)) (request : RawMessage) :
    option Handled :=
  let t := account_tag.CREATE_REPLY in
  nm ← decode_str request 0 MAX_NAME MAX_NAME;
  match nm with Err e => Some (st, fail t e, false) | Ok nm =>
  let display_offset := after 0 (length nm) in
  disp ← decode_str request display_offset MAX_DISPLAY MAX_DISPLAY;
  match disp with Err e => Some (st, fail t e, false) | Ok disp =>
  let secret_offset := after display_offset (length disp) in
  secret ← decode_str request secret_offset MAX_SECRET MAX_SECRET;
  match secret with Err e => Some (st, fail t e, false) | Ok secret =>
  let admin := negb (default 0 (words request !! after secret_offset (length secret)) =? 0) in
  '(r, st) ← AccountStore.create_account st entropy (str_field nm) (str_field disp) secret admin;
  match r with
  | Ok n => Some (st, reply_with t [0; n], true)
  | Err e => Some (st, fail t e, false)
  end end end end.

Definition handle_login (st : AccountStore) (entropy : option (list Z)) (request : RawMessage) :
    option Handled :=
  let t := account_tag.LOGIN_REPLY in
  nm ← decode_str request 0 MAX_NAME MAX_NAME;
  match nm with Err e => Some (st, fail t e, false) | Ok nm =>
  let secret_offset := after 0 (length nm) in
  secret ← decode_str request secret_offset MAX_SECRET MAX_SECRET;
  match secret with Err e => Some (st, fail t e, false) | Ok secret =>
  match words request !! after secret_offset (length secret) with
  | None => Some (st, fail t InvalidArgument, false)
  | Some session =>
      '(r, st) ← AccountStore.login st entropy (str_field nm) secret (wrap 32 session);
      match r with
      | Ok (claim, upgraded) =>
          caps ← AccountStore.active_capabilities st;
          let caps := match caps with Ok caps => caps | Err _ => 0 end in
          Some (st, reply_with t [0; account_id claim; session_id claim; caps], upgraded)
      | Err e => Some (st, fail t e, false)
      end
  end end end.

(** The new secret is decoded into the buffer of the display. *)
Definition handle_set_password (st : AccountStore) (entropy : option (list Z)) (request : RawMessage) :
    option Handled :=
  let t := account_tag.SET_PASSWORD_REPLY in
  nm ← decode_str request 0 MAX_NAME MAX_NAME;
  match nm with Err e => Some (st, fail t e, false) | Ok nm =>
  let old_offset := after 0 (length nm) in
  old ← decode_str request old_offset MAX_SECRET MAX_SECRET;
  match old with Err e => Some (st, fail t e, false) | Ok old =>
  let new_offset := after old_offset (length old) in
  new ← decode_str request new_offset MAX_SECRET MAX_DISPLAY;
  match new with Err e => Some (st, fail t e, false) | Ok new =>
  '(r, st) ← AccountStore.set_password st entropy (str_field nm) old new;
  match r with
  | Ok index => a ← accounts st !! index; Some (st, reply_with t [0; id a], true)
  | Err e => Some (st, fail t e, false)
  end end end end.

Definition handle_logout (st : AccountStore) (request : RawMessage) : option Handled :=
  let t := account_tag.LOGOUT_REPLY in
  match words request !! 0%nat with
  | None => Some (st, fail t InvalidArgument, false)
  | Some session =>
      '(r, st) ← AccountStore.logout st (wrap 32 session);
      match r with
      | Ok claim => Some (st, reply_with t [0; account_id claim], false)
      | Err e => Some (st, fail t e, false)
      end
  end.

Definition handle_switch (st : AccountStore) (request : RawMessage) : option Handled :=
  let t := account_tag.SWITCH_REPLY in
  match words request !! 0%nat with
  | None => Some (st, fail t InvalidArgument, false)
  | Some target =>
      '(r, st) ← AccountStore.switch_user st (wrap 32 target);
      match r with
      | Ok s => Some (st, reply_with t [0; switched_account s; from_session s; to_session s], false)
      | Err e => Some (st, fail t e, false)
      end
  end.

Definition handle_policy_get (st : AccountStore) (request : RawMessage) : option Handled :=
  let t := account_tag.POLICY_GET_REPLY in
  let wanted := default 0 (words request !! 0%nat) in
  r ← (if wanted =? 0 then AccountStore.active_capabilities st
       else AccountStore.capabilities_of st (wrap 32 wanted));
  Some (st, match r with Ok caps => reply_with t [0; caps] | Err e => fail t e end, false).

Fixpoint list_loop (l : list Account) (index : nat) (ws : list Z) : option (list Z) :=
  match l with
  | [] => Some ws
  | a :: l =>
      ws ← store ws (2 + index * 2) (id a);
      ws ← store ws (3 + index * 2) (capabilities a);
      list_loop l (S index) ws
  end.

Definition handle_list (st : AccountStore) : option Handled :=
  let reply := reply_with account_tag.LIST_REPLY [0; Z.of_nat (count st)] in
  accs ← slice_to (accounts st) (count st);
  ws ← list_loop accs 0 (words reply);
  Some (st, RawMessage.with_words (2 + Z.of_nat (count st) * 2) ws reply, false).

Definition handle_verify_password (st : AccountStore) (request : RawMessage) : option Handled :=
  let t := account_tag.VERIFY_PASSWORD_REPLY in
  nm ← decode_str request 0 MAX_NAME MAX_NAME;
  match nm with Err e => Some (st, fail t e, false) | Ok nm =>
  secret ← decode_str request (after 0 (length nm)) MAX_SECRET MAX_SECRET;
  match secret with Err e => Some (st, fail t e, false) | Ok secret =>
  r ← AccountStore.check_credentials st (str_field nm) secret;
  Some (st,
        match r with
        | Ok _ => reply_with t [0; 1]
        | Err BadCredentials | Err UnknownAccount => reply_with t [0; 0]
        | Err e => fail t e
        end, false)
  end end.

Definition handle_request (st : AccountStore) (entropy : option (list Z)) (request : RawMessage) :
    option Handled :=
  if tag request =? account_tag.CREATE_REQUEST then handle_create st entropy request
  else if tag request =? account_tag.LOGIN_REQUEST then handle_login st entropy request
  else if tag request =? account_tag.SET_PASSWORD_REQUEST then handle_set_password st entropy request
  else if tag request =? account_tag.LOGOUT_REQUEST then handle_logout st request
  else if tag request =? account_tag.SWITCH_REQUEST then handle_switch st request
  else if tag request =? account_tag.POLICY_GET_REQUEST then handle_policy_get st request
  else if tag request =? account_tag.LIST_REQUEST then handle_list st
  else if tag request =? account_tag.VERIFY_PASSWORD_REQUEST then handle_verify_password st request
  else Some (st, RawMessage.empty 0, false).
