(* ===== verification/AccountClient.v ===== *)
(** * The shell's requests to the account service
    (userspace/programs/shell-service/src/commands/account.rs)

    How the shell packs a name and a secret, the requests it builds from them,
    and how it reads the replies; then the packing against the decoder of the
    service. *)

From Stdlib Require Import ZArith Lia.
From stdpp Require Import base option list.
From S2P Require Import Prelude Words UserMessage Accounts AccountText AccountProtocol.

#[local] Open Scope Z_scope.

Inductive AccountFlow : Type := Unavailable | Rejected (status : Z) | Transport.

(** The words behind [words[0]] on, and how many of them the field takes. *)
Definition pack_field (data ws : list Z) : result (list Z * nat) AccountFlow :=
  let required := (word_len (length data) + 1)%nat in
  if (length ws <? required)%nat then Err (Rejected 1)
  else
    let '(rest, packed) := pack_bytes (drop 1 ws) data in
    Ok (zlen data :: rest, (packed + 1)%nat).

(** A name and a secret from the first word on, as [login] and
    [verify_password] pack them. *)
Definition pack_credentials (nm secret : list Z) : result (list Z * nat) AccountFlow :=
  match pack_field nm (replicate IPC_MAX_WORDS 0) with
  | Err e => Err e
  | Ok (ws, n) =>
      match pack_field secret (drop n ws) with
      | Err e => Err e
      | Ok (rest, m) => Ok (take n ws ++ rest, (n + m)%nat)
      end
  end.

Definition too_long (nm secret : list Z) : bool :=
  (MAX_NAME <? length nm)%nat || (MAX_SECRET <? length secret)%nat.

Definition login_request (nm secret : list Z) (session : Z) : result RawMessage AccountFlow :=
  if too_long nm secret then Err (Rejected 1)
  else
    match pack_credentials nm secret with
    | Err e => Err e
    | Ok (ws, n) =>
        match store ws n session with
        | None => Err Transport
        | Some ws =>
            Ok (RawMessage.with_words (Z.of_nat (n + 1)) ws (RawMessage.empty account_tag.LOGIN_REQUEST))
        end
    end.

(** [account_call] behind the exchange. *)
Definition account_call (response : RawMessage) : result RawMessage AccountFlow :=
  if word_count response <? 1 then Err Transport else Ok response.

Definition login_reply (response : RawMessage) : result (Z * Z) AccountFlow :=
  match account_call response with
  | Err e => Err e
  | Ok response =>
      let status := words response !!! 0%nat in
      if negb (status =? 0) then Err (Rejected status)
      else
        match words response !! 1%nat with
        | None => Err Transport
        | Some n => Ok (wrap 32 n, default 0 (words response !! 3%nat))
        end
  end.

(** No request is sent for credentials that are too long: the answer is no. *)
Definition verify_password_request (nm secret : list Z) : result (option RawMessage) AccountFlow :=
  if too_long nm secret then Ok None
  else
    match pack_credentials nm secret with
    | Err e => Err e
    | Ok (ws, n) =>
        Ok (Some (RawMessage.with_words (Z.of_nat n) ws
                    (RawMessage.empty account_tag.VERIFY_PASSWORD_REQUEST)))
    end.

Definition verify_password_reply (response : RawMessage) : result bool AccountFlow :=
  match account_call response with
  | Err e => Err e
  | Ok response =>
      if (word_count response <? 2) || negb (words response !!! 0%nat =? 0) then Err Transport
      else Ok (words response !!! 1%nat =? 1)
  end.

(** ** Packing and unpacking *)

(** One byte of a word that holds one byte elsewhere. *)
Lemma slot_of_byte b k s :
  is_word 8 b -> (k < 8)%nat -> (s < 8)%nat ->
  Z.land (Z.shiftr (shl 64 b (56 - Z.of_nat k * 8)) (56 - Z.of_nat s * 8)) 0xFF =
  if (s =? k)%nat then b else 0.
Proof.
  unfold is_word. intros Hb Hk Hs. change 0xFF with (2 ^ 8 - 1).
  rewrite land_mask, shiftr_div, shl_mul by lia.
  rewrite (Z.mod_small _ (2 ^ 64)).
  2: { split; [lia|]. assert (2 ^ (56 - Z.of_nat k * 8) <= 2 ^ 56) by (apply Z.pow_le_mono_r; lia).
       change (2 ^ 64) with (2 ^ 8 * 2 ^ 56). nia. }
  destruct (Nat.eqb_spec s k) as [->|Hne].
  { rewrite Z.div_mul by lia. by apply Z.mod_small. }
  destruct (decide (k < s)%nat).
  - replace (56 - Z.of_nat k * 8) with (8 + Z.of_nat (s - k - 1) * 8 + (56 - Z.of_nat s * 8)) by lia.
    rewrite !Z.pow_add_r by lia. rewrite Z.mul_assoc, Z.div_mul by lia.
    rewrite (Z.mul_comm (2 ^ 8)), Z.mul_assoc. apply Z.mod_mul. lia.
  - rewrite Z.div_small; [done|]. split; [lia|].
    replace (56 - Z.of_nat s * 8) with (8 + Z.of_nat (k - s - 1) * 8 + (56 - Z.of_nat k * 8)) by lia.
    rewrite !Z.pow_add_r by lia. assert (0 < 2 ^ (Z.of_nat (k - s - 1) * 8)) by lia.
    assert (0 < 2 ^ (56 - Z.of_nat k * 8)) by lia. nia.
Qed.

Lemma slot_of_pack (f : nat -> Z) s n :
  (forall i, is_word 8 (f i)) -> (s < 8)%nat -> (n <= 8)%nat ->
  Z.land (Z.shiftr (foldl (fun value slot => Z.lor value (shl 64 (f slot) (56 - Z.of_nat slot * 8)))
    0 (seq 0 n)) (56 - Z.of_nat s * 8)) 0xFF = if (s <? n)%nat then f s else 0.
Proof.
  intros Hf Hs. induction n as [|n IH]; intros Hn; [by rewrite Z.shiftr_0_l|].
  rewrite seq_S, foldl_app, Nat.add_0_l. cbn [foldl]. rewrite Z.shiftr_lor, Z.land_lor_distr_l.
  rewrite IH, slot_of_byte by (done || lia).
  destruct (Nat.ltb_spec s n), (Nat.ltb_spec s (S n)), (Nat.eqb_spec s n); subst; try lia;
    by rewrite ?Z.lor_0_r.
Qed.

Lemma unpack_pack_byte data out i :
  is_bytes data -> (i < length data)%nat -> (word_len (length data) <= length out)%nat ->
  Some (unpack_byte (pack_bytes out data).1 i) = data !! i.
Proof.
  intros Hb Hi Ho. unfold unpack_byte, pack_bytes. cbn [fst].
  assert (i / 8 < word_len (length data))%nat as Hw.
  { unfold word_len. pose proof (Nat.div_mod_eq i 8). pose proof (Nat.mod_upper_bound i 8 ltac:(lia)).
    apply Nat.Div0.div_lt_upper_bound. pose proof (Nat.div_mod_eq (length data + 7) 8).
    pose proof (Nat.mod_upper_bound (length data + 7) 8 ltac:(lia)). lia. }
  destruct (lookup_lt_is_Some_2 out (i / 8)) as [w Hout]; [lia|].
  erewrite list_lookup_total_correct by (rewrite list_lookup_imap, Hout; reflexivity).
  rewrite (proj2 (Nat.ltb_lt _ _)) by done. unfold pack_word.
  rewrite (slot_of_pack (fun slot => default 0 (data !! (i / 8 * 8 + slot)%nat))).
  - rewrite (proj2 (Nat.ltb_lt _ _)) by (apply Nat.mod_upper_bound; lia).
    replace (i / 8 * 8 + i mod 8)%nat with i by (pose proof (Nat.div_mod_eq i 8); lia).
    destruct (lookup_lt_is_Some_2 data i Hi) as [b Hdb]. by rewrite Hdb.
  - intros j. destruct (data !! _) eqn:E; [by eapply Forall_lookup_1|done].
  - apply Nat.mod_upper_bound. lia.
  - lia.
Qed.

(** Words whose front is what packing wrote. *)
Definition holds_packed (ws data : list Z) : Prop :=
  exists out, (word_len (length data) <= length out)%nat /\ (word_len (length data) <= length ws)%nat /\
    take (word_len (length data)) ws = take (word_len (length data)) (pack_bytes out data).1.

Lemma word_len_bound n : (n <= word_len n * 8 < n + 8)%nat.
Proof.
  unfold word_len. pose proof (Nat.div_mod_eq (n + 7) 8).
  pose proof (Nat.mod_upper_bound (n + 7) 8 ltac:(lia)). lia.
Qed.

Lemma string_words_len n : string_words (Z.of_nat n) = Z.of_nat (word_len n).
Proof.
  unfold string_words, div_ceil, word_len. rewrite Nat2Z.inj_div, Nat2Z.inj_add. f_equal. lia.
Qed.

Lemma unpack_packed ws data :
  is_bytes data -> holds_packed ws data -> unpack_bytes ws (zlen data) (length data) = Ok data.
Proof.
  intros Hb (out & Ho & Hw & Ht). unfold unpack_bytes, zlen. pose proof (word_len_bound (length data)).
  rewrite (proj2 (Z.ltb_ge _ _)), (proj2 (Z.ltb_ge _ _)) by lia. cbn [orb]. f_equal. rewrite Nat2Z.id.
  apply list_eq. intros i. rewrite list_lookup_fmap. destruct (decide (i < length data)%nat) as [Hi|Hi].
  2: { rewrite (lookup_ge_None_2 (seq _ _)), lookup_ge_None_2 by (rewrite ?length_seq; lia). done. }
  rewrite lookup_seq_lt by lia. cbn [fmap option_fmap option_map]. rewrite Nat.add_0_l.
  rewrite <- (unpack_pack_byte data out i) by done. unfold unpack_byte.
  assert (i / 8 < word_len (length data))%nat as Hk by (apply Nat.Div0.div_lt_upper_bound; lia).
  do 3 f_equal. rewrite !list_lookup_total_alt. f_equal.
  rewrite <- (lookup_take_lt ws _ _ Hk), <- (lookup_take_lt (pack_bytes out data).1 _ _ Hk). by rewrite Ht.
Qed.

Lemma decode_packed request offset data max_len out_len :
  is_bytes data -> words request !! offset = Some (zlen data) ->
  holds_packed (drop (S offset) (words request)) data ->
  Z.of_nat (after offset (length data)) <= word_count request ->
  (length data <= max_len)%nat -> (length data <= out_len)%nat ->
  decode_str request offset max_len out_len = Some (Ok data).
Proof.
  intros Hb Hl Hp Hc Hm Ho. unfold decode_str, field_at. rewrite Hl. unfold zlen at 1.
  rewrite string_words_len. unfold after in Hc.
  rewrite (proj2 (Z.ltb_ge _ _)) by lia. unfold zlen at 1 2.
  rewrite (proj2 (Z.ltb_ge _ _)), (proj2 (Z.ltb_ge _ _)) by lia.
  replace (offset + 1)%nat with (S offset) by lia.
  unfold zlen at 2. rewrite Nat2Z.id. by rewrite unpack_packed.
Qed.

Lemma length_pack_bytes out data : length (pack_bytes out data).1 = length out.
Proof. apply length_imap. Qed.

(** What [pack_credentials] leaves in the words, and that it always has room. *)
Lemma pack_credentials_spec nm secret :
  too_long nm secret = false ->
  let n := after 0 (length nm) in
  exists ws, pack_credentials nm secret = Ok (ws, after n (length secret)) /\
    length ws = IPC_MAX_WORDS /\ (after n (length secret) < IPC_MAX_WORDS)%nat /\
    ws !! 0%nat = Some (zlen nm) /\ holds_packed (drop 1 ws) nm /\
    ws !! n = Some (zlen secret) /\ holds_packed (drop (S n) ws) secret.
Proof.
  unfold too_long. intros [Hn Hs]%orb_false_iff. apply Nat.ltb_ge in Hn, Hs.
  unfold MAX_NAME, MAX_SECRET, IPC_MAX_WORDS in *. pose proof (word_len_bound (length nm)).
  pose proof (word_len_bound (length secret)). unfold after. cbv zeta.
  set (k := word_len (length nm)) in *. set (m := word_len (length secret)) in *.
  unfold pack_credentials, pack_field. fold k m. unfold IPC_MAX_WORDS.
  rewrite length_replicate, (proj2 (Nat.ltb_ge _ _)) by lia.
  change (drop 1 (replicate 16 0)) with (replicate 15 0).
  set (out1 := replicate 15 0). assert (length out1 = 15%nat) as L1 by done.
  destruct (pack_bytes out1 nm) as [P1 k1] eqn:E1.
  assert (k1 = k) as -> by (by injection E1). assert (length P1 = 15%nat) as LP1.
  { rewrite <- L1, <- (length_pack_bytes out1 nm). by rewrite E1. }
  replace (0 + 1 + k)%nat with (S k) by lia. replace (k + 1)%nat with (S k) by lia. cbn [drop].
  rewrite length_drop, (proj2 (Nat.ltb_ge _ _)) by lia.
  destruct (pack_bytes (drop 1 (drop k P1)) secret) as [P2 m1] eqn:E2.
  assert (m1 = m) as -> by (by injection E2).
  assert (length P2 = (14 - k)%nat) as LP2.
  { pose proof (length_pack_bytes (drop 1 (drop k P1)) secret) as E. rewrite E2, !length_drop in E. cbn [fst] in E. lia. }
  cbn [take]. set (ws := _ ++ _). exists ws. split; [by replace (S k + (m + 1))%nat with (S k + 1 + m)%nat by lia|].
  assert (length (take k P1) = k) as Lk by (rewrite length_take; lia).
  split; [unfold ws; rewrite length_app; cbn [length]; lia|]. split; [lia|]. split; [done|]. split.
  { exists out1. fold k. change (drop 1 ws) with (take k P1 ++ zlen secret :: P2).
    rewrite length_app. cbn [length]. split; [lia|]. split; [lia|]. rewrite E1. cbn [fst]. rewrite take_app_le by lia.
    by rewrite take_take, Nat.min_id. }
  change (ws !! S k) with ((take k P1 ++ zlen secret :: P2) !! k).
  change (drop (S (S k)) ws) with (drop (S k) (take k P1 ++ zlen secret :: P2)). split.
  { rewrite lookup_app_r by lia. by rewrite Lk, Nat.sub_diag. }
  exists (drop 1 (drop k P1)). fold m.
  replace (S k) with (length (take k P1) + 1)%nat by lia. rewrite <- drop_drop, drop_app_length. cbn [drop].
  rewrite !length_drop. split; [lia|]. split; [lia|]. by rewrite E2.
Qed.
