(* ===== verification/AccountService.v ===== *)
(** * What the account service's requests do

    Every request against the store's invariant: which ones make the service
    panic, that the others run one operation of the store, that their replies
    can be sent, and that a request that does not report a change leaves the
    saved text as it was; then the shell's password check end to end. *)

From Stdlib Require Import ZArith Lia.
From stdpp Require Import base option list.
From S2P Require Import Prelude Words UserMessage Accounts AccountInv AccountOps AccountText AccountCodec.
From S2P Require Import AccountProtocol AccountClient.

#[local] Open Scope Z_scope.

(** ** Decoding *)

Lemma unpack_byte_word ws i : is_word 8 (unpack_byte ws i).
Proof.
  unfold unpack_byte, is_word. change 0xFF with (2 ^ 8 - 1). rewrite land_mask by lia.
  apply Z.mod_pos_bound. lia.
Qed.

Lemma unpack_bytes_Ok ws n m data : unpack_bytes ws n m = Ok data -> is_bytes data /\ length data = Z.to_nat n.
Proof.
  unfold unpack_bytes. destruct (_ || _); [done|]. intros [= <-].
  split; [|by rewrite length_fmap, length_seq]. apply Forall_fmap, Forall_forall. intros i _.
  apply unpack_byte_word.
Qed.

(** A buffer as long as the limit never panics. *)
Lemma decode_str_total request offset max_len out_len :
  (max_len <= out_len)%nat ->
  exists r, decode_str request offset max_len out_len = Some r /\ forall data, r = Ok data -> is_bytes data.
Proof.
  intros Hm. unfold decode_str. destruct (field_at request offset) as [[n start]|e]; [|by eexists].
  destruct (Z.ltb_spec (Z.of_nat max_len) n); [by eexists|].
  rewrite (proj2 (Z.ltb_ge _ _)) by lia. eexists. split; [reflexivity|].
  intros data Hd. by apply unpack_bytes_Ok in Hd as [? _].
Qed.

Lemma decode_str_None request offset max_len out_len :
  decode_str request offset max_len out_len = None <->
  exists n start, field_at request offset = Ok (n, start) /\ Z.of_nat out_len < n <= Z.of_nat max_len.
Proof.
  unfold decode_str. destruct (field_at request offset) as [[n start]|e]; [|naive_solver].
  destruct (Z.ltb_spec (Z.of_nat max_len) n); [split; [done|]; intros (? & ? & [= <- <-] & ?); lia|].
  destruct (Z.ltb_spec (Z.of_nat out_len) n).
  - split; [|done]. intros _. by exists n, start.
  - split; [done|]. intros (? & ? & [= <- <-] & ?). lia.
Qed.

(** The strings a handler decodes, one after the other. *)
Ltac decode_next data Hb :=
  match goal with
  | |- context [decode_str ?r ?o ?m ?k] =>
      let Hr := fresh in
      destruct (decode_str_total r o m k) as ([data|?] & -> & Hr); [unfold MAX_NAME, MAX_DISPLAY, MAX_SECRET; lia| |];
      cbn [mbind option_bind]; [pose proof (Hr _ eq_refl) as Hb|]; clear Hr
  end.

Lemma is_bytes_str_field data : is_bytes data -> is_bytes (str_field data).
Proof. intros. unfold str_field. destruct (utf8_valid data); [done|constructor]. Qed.

(** ** What a session change leaves of the text *)

Definition same_lines (st st' : AccountStore) : Prop :=
  count st' = count st /\ account_line <$> accounts st' = account_line <$> accounts st.

Lemma same_lines_text st st' : same_lines st st' -> store_text st' = store_text st.
Proof. intros [Hc Ha]. unfold store_text, live. by rewrite !fmap_take, Ha, Hc. Qed.

Lemma same_lines_sessions st i st' :
  st' = st \/ (exists a l n, accounts st !! i = Some a /\
    st' = AccountStore.put st i (AccountStore.with_sessions a l n)) -> same_lines st st'.
Proof.
  intros [->|(a & l & n & Ha & ->)]; [done|]. split; [done|]. by apply (fmap_same_key account_line _ _ a).
Qed.

Lemma logout_lines st session r st' : AccountStore.logout st session = Some (r, st') -> same_lines st st'.
Proof.
  unfold AccountStore.logout. intros H. destruct (active st) as [k|]; [|by simplify_eq].
  destruct (negb _); [by simplify_eq|]. apply bind_Some in H as ([i|] & _ & H); [|by simplify_eq].
  apply bind_Some in H as (st2 & Hr & H). simplify_eq. by apply release_put, same_lines_sessions in Hr.
Qed.

Lemma switch_lines st target r st' : AccountStore.switch_user st target = Some (r, st') -> same_lines st st'.
Proof.
  unfold AccountStore.switch_user. intros H. destruct (_ =? 0); [by simplify_eq|].
  destruct (active st) as [k|]; [|by simplify_eq]. destruct (_ =? _); [by simplify_eq|].
  apply bind_Some in H as ([i|] & _ & H); [|by simplify_eq].
  apply bind_Some in H as (st2 & Hr & H). apply release_put, same_lines_sessions in Hr as [C1 L1].
  apply bind_Some in H as ([r2 st3] & H3 & H). apply record_put, same_lines_sessions in H3 as [C2 L2].
  destruct r2; simplify_eq; unfold same_lines; cbn; split; congruence.
Qed.

Lemma login_lines st entropy nm secret session c st' :
  AccountStore.login st entropy nm secret session = Some (Ok (c, false), st') -> same_lines st st'.
Proof.
  unfold AccountStore.login. intros H. destruct (_ =? 0); [done|]. case_bool_decide; [done|].
  apply bind_Some in H as ([i|e] & _ & H); [|done]. apply bind_Some in H as (a & _ & H).
  apply bind_Some in H as (st2 & H2 & H). apply bind_Some in H as (a2 & _ & H).
  apply bind_Some in H as ([r2 st3] & H3 & H). apply record_put, same_lines_sessions in H3.
  destruct r2; [|done]. injection H as _ Hu <-. rewrite Hu in H2. by injection H2 as <-.
Qed.

(** ** The handlers *)

(** The store is left alone or one command is run on it. *)
Definition runs_command (st st' : AccountStore) : Prop :=
  st' = st \/ exists c, command_ok c /\ run_command st c = Some st'.

Record handled_ok (st : AccountStore) (h : Handled) : Prop := {
  handled_command : runs_command st h.1.1;
  handled_sent : RawMessage.accepted h.1.2 = true;
  handled_clean : h.2 = false -> store_text h.1.1 = store_text st
}.

Definition serves (st : AccountStore) (h : option Handled) : Prop :=
  match h with Some h => handled_ok st h | None => False end.

Lemma accepted_reply t ws : (length ws <= IPC_MAX_WORDS)%nat -> RawMessage.accepted (reply_with t ws) = true.
Proof.
  intros H. unfold RawMessage.accepted, reply_with, zlen. cbn [word_count handle_count RawMessage.with_words RawMessage.empty].
  by rewrite (proj2 (Z.ltb_ge _ _)) by lia.
Qed.

Lemma serves_same st t ws : (length ws <= IPC_MAX_WORDS)%nat -> serves st (Some (st, reply_with t ws, false)).
Proof. intros H. constructor; [by left|by apply accepted_reply|done]. Qed.

Lemma serves_fail st t e : serves st (Some (st, fail t e, false)).
Proof. apply serves_same. cbn. unfold IPC_MAX_WORDS. lia. Qed.

Lemma serves_command st c st' t ws dirty :
  command_ok c -> run_command st c = Some st' -> (length ws <= IPC_MAX_WORDS)%nat ->
  (dirty = false -> same_lines st st') -> serves st (Some (st', reply_with t ws, dirty)).
Proof.
  intros Hc Hr Hl Hd. constructor; [right; eauto|by apply accepted_reply|].
  intros E. by apply same_lines_text, Hd.
Qed.

Section handlers.
Context (st : AccountStore) (entropy : option (list Z)) (request : RawMessage).
Hypothesis G : good st.
Hypothesis Hc : counters_ok st.
Hypothesis He : entropy_ok entropy.

Lemma handle_create_serves : serves st (handle_create st entropy request).
Proof using G Hc He.
  unfold handle_create. decode_next nm Bn; [|apply serves_fail]. decode_next disp Bd; [|apply serves_fail].
  decode_next secret Bs; [|apply serves_fail].
  set (admin := negb _). apply is_bytes_str_field in Bn, Bd.
  destruct (good_create st entropy (str_field nm) (str_field disp) secret admin G Hc He Bn Bd)
    as (r & st' & E & _ & _ & Hr). rewrite E. cbn [mbind option_bind]. destruct r as [n|e].
  - apply (serves_command _ (Create entropy (str_field nm) (str_field disp) secret admin));
      [done|cbn [run_command]; by rewrite E|cbn; unfold IPC_MAX_WORDS; lia|done].
  - subst st'. apply serves_fail.
Qed.

Lemma capabilities_total s : good s -> exists r, AccountStore.active_capabilities s = Some r.
Proof using Type.
  intros Gs. unfold AccountStore.active_capabilities. destruct (active s) as [c|] eqn:Ha; [|eauto].
  destruct (claim_account s c Gs Ha) as (i & a & Hi & Hl & _). unfold AccountStore.capabilities_of.
  rewrite Hi. apply live_lookup in Hl as [Hl _]. cbn [mbind option_bind]. rewrite Hl. cbn. eauto.
Qed.

Lemma handle_login_serves : serves st (handle_login st entropy request).
Proof using G Hc He.
  unfold handle_login. decode_next nm Bn; [|apply serves_fail]. decode_next secret Bs; [|apply serves_fail].
  destruct (words request !! _) as [session|]; [|apply serves_fail].
  destruct (login_spec st entropy (str_field nm) secret (wrap 32 session) G (proj1 Hc) He)
    as (r & st' & E & G' & Hr). rewrite E. cbn [mbind option_bind]. destruct r as [[c upgraded]|e].
  - destruct (capabilities_total st' G') as (caps & ->). cbn [mbind option_bind].
    apply (serves_command _ (Login entropy (str_field nm) secret (wrap 32 session)));
      [done|cbn [run_command]; by rewrite E|cbn; unfold IPC_MAX_WORDS; lia|].
    intros ->. by eapply login_lines.
  - destruct Hr as [-> _]. apply serves_fail.
Qed.

Lemma handle_logout_serves : serves st (handle_logout st request).
Proof using G.
  unfold handle_logout. destruct (words request !! _) as [session|]; [|apply serves_fail].
  destruct (logout_spec st (wrap 32 session) G) as (r & st' & E & _ & Hr). rewrite E.
  cbn [mbind option_bind]. destruct r as [c|e].
  - apply (serves_command _ (Logout (wrap 32 session)));
      [done|cbn [run_command]; by rewrite E|cbn; unfold IPC_MAX_WORDS; lia|].
    intros _. by eapply logout_lines.
  - assert (st' = st) as -> by (by destruct e; naive_solver). apply serves_fail.
Qed.

Lemma handle_switch_serves : serves st (handle_switch st request).
Proof using G.
  unfold handle_switch. destruct (words request !! _) as [target|]; [|apply serves_fail].
  destruct (switch_user_spec st (wrap 32 target) G) as (r & st' & E & _ & Hr). rewrite E.
  cbn [mbind option_bind]. destruct r as [c|e].
  - apply (serves_command _ (SwitchUser (wrap 32 target)));
      [done|cbn [run_command]; by rewrite E|cbn; unfold IPC_MAX_WORDS; lia|].
    intros _. by eapply switch_lines.
  - assert (st' = st) as -> by (by destruct e; naive_solver). apply serves_fail.
Qed.

Lemma capabilities_of_total n : exists r, AccountStore.capabilities_of st n = Some r.
Proof using G.
  unfold AccountStore.capabilities_of. pose proof (account_index_of_id_spec st n (proj1 G)) as Hf.
  destruct (AccountStore.account_index_of_id st n) as [[i|]|]; [|by eexists|done].
  destruct Hf as (a & Hi & _). apply live_lookup in Hi as [Hi _]. cbn [mbind option_bind]. rewrite Hi. by eexists.
Qed.

Lemma handle_policy_get_serves : serves st (handle_policy_get st request).
Proof using G.
  unfold handle_policy_get.
  assert (exists r, (if default 0 (words request !! 0%nat) =? 0 then AccountStore.active_capabilities st
    else AccountStore.capabilities_of st (wrap 32 (default 0 (words request !! 0%nat)))) = Some r) as [r ->].
  { destruct (_ =? 0); [by apply capabilities_total|apply capabilities_of_total]. }
  cbn [mbind option_bind]. destruct r; [|apply serves_fail]. apply serves_same. cbn. unfold IPC_MAX_WORDS. lia.
Qed.

Lemma handle_verify_password_serves : serves st (handle_verify_password st request).
Proof using G.
  unfold handle_verify_password. decode_next nm Bn; [|apply serves_fail].
  decode_next secret Bs; [|apply serves_fail].
  destruct (check_credentials_spec st (str_field nm) secret (proj1 G)) as (r & -> & _).
  cbn [mbind option_bind]. assert (2 <= IPC_MAX_WORDS)%nat by (unfold IPC_MAX_WORDS; lia).
  destruct r as [i|[]]; try apply serves_fail; by apply serves_same.
Qed.

(** The new secret is what the buffer for the display cannot hold. *)
Definition new_secret_too_long : Prop :=
  exists nm old n start,
    decode_str request 0 MAX_NAME MAX_NAME = Some (Ok nm) /\
    decode_str request (after 0 (length nm)) MAX_SECRET MAX_SECRET = Some (Ok old) /\
    field_at request (after (after 0 (length nm)) (length old)) = Ok (n, start) /\
    Z.of_nat MAX_DISPLAY < n <= Z.of_nat MAX_SECRET.

Lemma handle_set_password_cases :
  (handle_set_password st entropy request = None /\ new_secret_too_long) \/
  (serves st (handle_set_password st entropy request) /\ ~ new_secret_too_long).
Proof using G Hc He.
  unfold handle_set_password, new_secret_too_long.
  destruct (decode_str_total request 0 MAX_NAME MAX_NAME) as ([nm|e] & E1 & _); [done| |]; rewrite E1;
    cbn [mbind option_bind]; [|right; split; [apply serves_fail|by intros (? & ? & ? & ? & ? & _)]].
  destruct (decode_str_total request (after 0 (length nm)) MAX_SECRET MAX_SECRET) as ([old|e] & E2 & _);
    [done| |]; rewrite E2; cbn [mbind option_bind].
  2: { right. split; [apply serves_fail|]. intros (? & ? & ? & ? & [= <-] & E & _). by rewrite E2 in E. }
  set (offset := after (after 0 (length nm)) (length old)).
  pose proof (decode_str_None request offset MAX_SECRET MAX_DISPLAY) as Hn.
  destruct (decode_str request offset MAX_SECRET MAX_DISPLAY) as [r|] eqn:E; cbn [mbind option_bind].
  2: { left. split; [done|]. destruct (proj1 Hn eq_refl) as (n & start & Hf & Hr). by exists nm, old, n, start. }
  right. split.
  2: { intros (nm' & old' & n & start & [= <-] & E3 & Hf & Hr). rewrite E2 in E3. injection E3 as <-.
       assert (Some r = None) by (apply Hn; by exists n, start). done. }
  destruct r as [new|e]; [|apply serves_fail].
  destruct (set_password_spec st entropy (str_field nm) old new G (proj1 Hc) He)
    as (r & st' & Es & G' & _ & Hr). rewrite Es. cbn [mbind option_bind]. destruct r as [i|e].
  - destruct Hr as (_ & a & s & Hi & _ & _ & Hl).
    assert (is_Some (live st' !! i)) as [b Hb].
    { rewrite Hl. apply lookup_lt_is_Some. rewrite length_insert. by eapply lookup_lt_Some. }
    apply live_lookup in Hb as [Hb _]. rewrite Hb. cbn [mbind option_bind].
    apply (serves_command _ (SetPassword entropy (str_field nm) old new));
      [done|cbn [run_command]; by rewrite Es|cbn; unfold IPC_MAX_WORDS; lia|done].
  - assert (st' = st) as -> by (destruct e; naive_solver). apply serves_fail.
Qed.

End handlers.

(** ** Listing *)

Lemma list_loop_cases l : forall index ws,
  length ws = IPC_MAX_WORDS ->
  if (length l =? 0)%nat || (index + length l <=? 7)%nat
  then exists ws', list_loop l index ws = Some ws' /\ length ws' = IPC_MAX_WORDS
  else list_loop l index ws = None.
Proof.
  induction l as [|a l IH]; intros index ws Hw; [by exists ws|]. cbn [list_loop length Nat.eqb orb].
  unfold IPC_MAX_WORDS in *. destruct (decide (index < 7)%nat) as [Hi|Hi].
  - rewrite (store_ok ws) by lia. cbn [mbind option_bind].
    rewrite (store_ok (<[_ := _]> ws)) by (rewrite length_insert; lia). cbn [mbind option_bind].
    specialize (IH (S index) (<[(3 + index * 2)%nat := capabilities a]>
      (<[(2 + index * 2)%nat := id a]> ws))). rewrite !length_insert in IH. specialize (IH Hw).
    replace (index + S (length l))%nat with (S index + length l)%nat by lia.
    destruct l as [|b l]; [|exact IH]. cbn [length]. rewrite (proj2 (Nat.leb_le _ _)) by lia. exact IH.
  - rewrite (proj2 (Nat.leb_gt _ _)) by lia. by rewrite store_None by lia.
Qed.

Lemma handle_list_cases st :
  store_wf st ->
  (handle_list st = None /\ count st = MAX_ACCOUNTS) \/
  (serves st (handle_list st) /\ count st <> MAX_ACCOUNTS).
Proof.
  intros W. unfold handle_list. pose proof (wf_count st W) as Hc. pose proof (wf_length st W) as Hl.
  unfold MAX_ACCOUNTS in *. rewrite slice_to_ok by lia. cbn [mbind option_bind].
  set (reply := reply_with _ _). assert (length (words reply) = IPC_MAX_WORDS) as Hw by done.
  pose proof (list_loop_cases (take (count st) (accounts st)) 0 (words reply) Hw) as H.
  rewrite length_take, Nat.min_l, Nat.add_0_l in H by lia.
  destruct (decide (count st = 8)%nat) as [E|E].
  - left. split; [|done]. rewrite (proj2 (Nat.eqb_neq (count st) 0)), (proj2 (Nat.leb_gt (count st) 7)) in H by lia.
    cbn [orb] in H. by rewrite H.
  - right. split; [|done]. rewrite (proj2 (Nat.leb_le (count st) 7)), orb_true_r in H by lia.
    destruct H as (ws & -> & _). constructor; [by left| |done].
    unfold RawMessage.accepted. cbn [fst snd word_count handle_count RawMessage.with_words reply].
    unfold IPC_MAX_WORDS. rewrite (proj2 (Z.ltb_ge _ _)) by lia. done.
Qed.

(** ** Every request *)

Lemma runs_command_good st st' : good st -> counters_ok st -> runs_command st st' -> good st'.
Proof.
  intros G Hc [->|(c & Hok & Hr)]; [exact G|].
  destruct (run_command_good st c G Hc Hok) as (st1 & E & G1). rewrite Hr in E. by injection E as ->.
Qed.

(** The two kinds of request that the service does not survive. *)
Definition fatal (st : AccountStore) (request : RawMessage) : Prop :=
  (tag request = account_tag.LIST_REQUEST /\ count st = MAX_ACCOUNTS) \/
  (tag request = account_tag.SET_PASSWORD_REQUEST /\ new_secret_too_long request).

Lemma serves_not_fatal st request (h : option Handled) :
  good st -> counters_ok st -> serves st h -> ~ fatal st request ->
  match h with
  | None => fatal st request
  | Some h => handled_ok st h /\ good h.1.1 /\ ~ fatal st request
  end.
Proof.
  intros G Hc Hs Hf. destruct h as [h|]; [|done]. split; [exact Hs|]. split; [|exact Hf].
  eapply runs_command_good; [exact G|exact Hc|apply Hs].
Qed.

(** A tag whose handler always serves. *)
Ltac harmless lemma T :=
  apply serves_not_fatal; [done..|by apply lemma|unfold fatal; rewrite T; by intros [[? _]|[? _]]].


(** A change of password whose new secret has 49 bytes, sent to a store that
    has no account of the name. *)
Definition long_secret_request : RawMessage :=
  RawMessage.with_words 12
    [1; 0x6100000000000000; 1; 0x6200000000000000; 49; 0; 0; 0; 0; 0; 0; 0; 0; 0; 0; 0]
    (RawMessage.empty account_tag.SET_PASSWORD_REQUEST).


(** ** The shell's requests, end to end *)

(** Both requests of the shell decode to the name and the secret. *)
Lemma credentials_decode nm secret ws n count t :
  is_bytes nm -> is_bytes secret -> too_long nm secret = false ->
  pack_credentials nm secret = Ok (ws, n) -> Z.of_nat n <= count ->
  let request ws := RawMessage.with_words count ws (RawMessage.empty t) in
  forall ws', length ws' = length ws -> take n ws' = take n ws ->
  decode_str (request ws') 0 MAX_NAME MAX_NAME = Some (Ok nm) /\
  decode_str (request ws') (after 0 (length nm)) MAX_SECRET MAX_SECRET = Some (Ok secret).
Proof.
  intros Bn Bs Hl Hp Hcount request ws' Hlen Htake.
  destruct (pack_credentials_spec nm secret Hl) as (ws0 & E & Lw & Hlt & H0 & P0 & H1 & P1).
  rewrite Hp in E. injection E as <- ->. set (m := after 0 (length nm)) in *.
  unfold too_long in Hl. apply orb_false_iff in Hl as [Hn%Nat.ltb_ge Hs%Nat.ltb_ge].
  assert (forall i, (i < after m (length secret))%nat -> ws' !! i = ws !! i) as Hsame.
  { intros i Hi. rewrite <- (lookup_take_lt ws' _ _ Hi), <- (lookup_take_lt ws _ _ Hi). by rewrite Htake. }
  assert (forall o data, (o + word_len (length data) <= after m (length secret))%nat ->
    holds_packed (drop o ws) data -> holds_packed (drop o ws') data) as Hp'.
  { intros o data Ho (out & Ho1 & Ho2 & Ht). exists out. split; [done|]. rewrite length_drop in *.
    split; [lia|]. rewrite <- Ht. apply list_eq. intros i.
    destruct (decide (i < word_len (length data))%nat).
    - rewrite !lookup_take_lt, !lookup_drop by done. apply Hsame. lia.
    - rewrite !lookup_take_ge by lia. done. }
  assert (m = S (word_len (length nm))) as Em by done. unfold after in Hcount, Hlt, Hsame, Hp'.
  split; apply decode_packed; try done; cbn [words word_count request RawMessage.with_words].
  - rewrite Hsame by lia. exact H0.
  - apply (Hp' 1%nat); [lia|exact P0].
  - unfold after. lia.
  - rewrite Hsame by lia. exact H1.
  - apply (Hp' (S m)); [lia|exact P1].
Qed.

Lemma str_field_valid data : utf8_valid data = true -> str_field data = data.
Proof. unfold str_field. by intros ->. Qed.

Lemma handle_request_verify st entropy request :
  tag request = account_tag.VERIFY_PASSWORD_REQUEST ->
  handle_request st entropy request = handle_verify_password st request.
Proof. intros T. unfold handle_request. by rewrite T. Qed.

Lemma handle_request_login st entropy request :
  tag request = account_tag.LOGIN_REQUEST ->
  handle_request st entropy request = handle_login st entropy request.
Proof. intros T. unfold handle_request. by rewrite T. Qed.

(** C29: The shell's password check answers yes exactly when an account of that name accepts
    the secret: the request it packs can be sent, the service decodes the same name and
    secret, changes nothing, and its answer is read back; no request is sent for a name or a
    secret that is too long. *)
Theorem verify_password_end_to_end st entropy nm secret :
  good st -> is_bytes nm -> is_bytes secret -> utf8_valid nm = true ->
  match verify_password_request nm secret with
  | Err _ => False
  | Ok None => too_long nm secret = true
  | Ok (Some request) =>
      RawMessage.accepted request = true /\
      exists reply b, handle_request st entropy request = Some (st, reply, false) /\
        RawMessage.accepted reply = true /\ verify_password_reply reply = Ok b /\
        (b = true <-> exists a, a ∈ live st /\ stored_name a = nm /\ accepts a secret)
  end.
Proof.
  intros G Bn Bs Hu. unfold verify_password_request. destruct (too_long nm secret) eqn:Hl; [done|].
  destruct (pack_credentials_spec nm secret Hl) as (ws & E & Lw & Hlt & _). rewrite E.
  set (n := after (after 0 (length nm)) (length secret)) in *. split.
  { unfold RawMessage.accepted. cbn [word_count handle_count RawMessage.with_words RawMessage.empty].
    by rewrite (proj2 (Z.ltb_ge _ _)) by lia. }
  destruct (credentials_decode nm secret ws n (Z.of_nat n) account_tag.VERIFY_PASSWORD_REQUEST Bn Bs Hl E
    (Z.le_refl _) ws eq_refl eq_refl) as [D1 D2].
  rewrite handle_request_verify by done.
  unfold handle_verify_password. rewrite D1. cbn [mbind option_bind]. rewrite D2. cbn [mbind option_bind].
  rewrite str_field_valid by done.
  destruct (check_credentials_iff st nm secret (proj1 G)) as (r & -> & Hr & He). cbn [mbind option_bind].
  destruct r as [i|e].
  - eexists _, true. split; [reflexivity|]. split; [done|]. split; [done|]. exact Hr.
  - destruct (He e eq_refl) as [-> | ->]; (eexists _, false; split; [reflexivity|]; split; [done|]; split; [done|]; exact Hr).
Qed.

Lemma verify_password_end_to_end_witness :
  exists st request reply, verify_password_request AccountStore.ADMIN AccountStore.ADMIN = Ok (Some request) /\
    handle_request st None request = Some (st, reply, false) /\ verify_password_reply reply = Ok true.
Proof.
  destruct (one_account AccountStore.ADMIN AccountStore.ADMINISTRATOR AccountStore.ADMIN true) as (st & a & _ & G & _ & Hl & _ & _ & Hn & _ & _ & _ & Ha);
    [by repeat constructor|by repeat constructor|unfold MAX_NAME; cbn; lia|unfold MAX_DISPLAY; cbn; lia|cbn; lia|].
  pose proof (verify_password_end_to_end st None AccountStore.ADMIN AccountStore.ADMIN G ltac:(by repeat constructor)
    ltac:(by repeat constructor) eq_refl) as H.
  destruct (verify_password_request AccountStore.ADMIN AccountStore.ADMIN) as [[request|]|] eqn:E; [|by vm_compute in H|done].
  destruct H as (_ & reply & b & Hh & _ & Hv & Hb). exists st, request, reply.
  split; [reflexivity|]. split; [exact Hh|]. rewrite Hv. f_equal. apply Hb. exists a. rewrite Hl.
  split; [by apply list_elem_of_singleton|]. split; [exact Hn|exact Ha].
Defined.

(** The capabilities of the claimed account after a login are those it had. *)
Lemma login_capabilities st entropy nm secret session c upgraded st' :
  good st -> good st' -> counters_ok st -> entropy_ok entropy ->
  AccountStore.login st entropy nm secret session = Some (Ok (c, upgraded), st') ->
  exists a, a ∈ live st /\ stored_name a = nm /\ accepts a secret /\ account_id c = id a /\
    AccountStore.active_capabilities st' = Some (Ok (capabilities a)).
Proof.
  intros G G' Hc He E. pose proof (login_advances _ _ _ _ _ _ _ E) as (_ & _ & l & Hp).
  destruct (login_spec st entropy nm secret session G (proj1 Hc) He) as (r & st1 & E1 & _ & Hr).
  rewrite E in E1. injection E1 as <- <-.
  destruct Hr as (_ & _ & Hact & _ & i & a & a' & Hi & Hn & Ha & Hid & _ & Hl & _).
  exists a. split; [by eapply list_elem_of_lookup_2|]. split; [exact Hn|]. split; [exact Ha|]. split; [exact Hid|].
  destruct (claim_account st' c G' Hact) as (j & b & Hf & Hj & Hb & _).
  unfold AccountStore.active_capabilities, AccountStore.capabilities_of. rewrite Hact, Hf.
  cbn [mbind option_bind]. pose proof Hj as [Hj1 _]%live_lookup. rewrite Hj1. cbn [mbind option_bind].
  assert ((profile <$> live st') !! j = Some (profile b)) as Hpb by (by rewrite list_lookup_fmap, Hj).
  assert (j < length (live st))%nat as Hlt.
  { apply lookup_lt_Some in Hj. rewrite Hl, length_insert in Hj. exact Hj. }
  rewrite Hp, lookup_app_l, list_lookup_fmap in Hpb by (by rewrite length_fmap).
  destruct (live st !! j) as [d|] eqn:Hd; [|done]. cbn in Hpb.
  assert (id d = id b /\ capabilities d = capabilities b) as [Ed Ec] by (unfold profile in Hpb; by simplify_eq).
  assert (j = i) as ->.
  { apply (same_id_same_index st j i d a); [apply G|exact Hd|exact Hi|]. congruence. }
  rewrite Hi in Hd. injection Hd as <-. by rewrite Ec.
Qed.

Lemma login_reply_ok t n s caps : login_reply (reply_with t [0; n; s; caps]) = Ok (wrap 32 n, caps).
Proof. done. Qed.

Lemma login_reply_fail e :
  login_reply (fail account_tag.LOGIN_REPLY e) = Err (Rejected (AccountError.to_code e)).
Proof. by destruct e. Qed.

(** C28: A login through the shell binds the session to the account of that name when nobody
    is logged in and the record accepts the secret, and returns that account's id and
    capabilities; otherwise it is rejected and the store is unchanged. *)
Theorem shell_login_end_to_end st entropy nm secret session :
  good st -> counters_ok st -> entropy_ok entropy -> is_bytes nm -> is_bytes secret ->
  utf8_valid nm = true -> too_long nm secret = false -> is_word 32 session ->
  exists request st' reply dirty,
    login_request nm secret session = Ok request /\ RawMessage.accepted request = true /\
    handle_request st entropy request = Some (st', reply, dirty) /\
    match login_reply reply with
    | Ok (n, caps) => session <> 0 /\ active st = None /\ active st' = Some (mkClaim n session) /\
        exists a, a ∈ live st /\ stored_name a = nm /\ accepts a secret /\ id a = n /\ capabilities a = caps
    | Err (Rejected _) => st' = st /\ dirty = false /\
        (session = 0 \/ is_Some (active st) \/
         ~ exists a, a ∈ live st /\ stored_name a = nm /\ accepts a secret)
    | Err _ => False
    end.
Proof.
  intros G Hc He Bn Bs Hu Hl Hw. unfold login_request. rewrite Hl.
  destruct (pack_credentials_spec nm secret Hl) as (ws & E & Lw & Hlt & _). rewrite E.
  set (n := after (after 0 (length nm)) (length secret)) in *. rewrite store_ok by lia.
  set (request := RawMessage.with_words _ _ _).
  destruct (credentials_decode nm secret ws n (Z.of_nat (n + 1)) account_tag.LOGIN_REQUEST Bn Bs Hl E
    ltac:(lia) (<[n := session]> ws)) as [D1 D2]; [apply length_insert|by rewrite take_insert_ge|].
  assert (words request !! n = Some session) as Hs by (apply list_lookup_insert_eq; lia).
  assert (wrap 32 session = session) as Hwr by (by apply Z.mod_small).
  assert (RawMessage.accepted request = true) as Hacc.
  { unfold RawMessage.accepted. cbn [request word_count handle_count RawMessage.with_words RawMessage.empty].
    by rewrite (proj2 (Z.ltb_ge _ _)) by lia. }
  destruct (login_spec st entropy nm secret session G (proj1 Hc) He) as (r & st' & El & G' & Hr).
  exists request. rewrite handle_request_login by done.
  fold request in D1, D2. unfold handle_login. rewrite D1. cbn [mbind option_bind]. rewrite D2.
  cbn [mbind option_bind]. fold n. rewrite Hs, Hwr, str_field_valid, El by done. cbn [mbind option_bind].
  destruct r as [[c upgraded]|e].
  - destruct (login_capabilities st entropy nm secret session c upgraded st' G G' Hc He El)
      as (a & Ha & Hn & Hac & Hid & ->). cbn [mbind option_bind]. eexists st', _, _.
    split; [reflexivity|]. split; [exact Hacc|]. split; [reflexivity|].
    destruct Hr as (Hs0 & Hact & Hact' & Hses & _). rewrite login_reply_ok.
    assert (wrap 32 (account_id c) = account_id c) as ->.
    { apply Z.mod_small. rewrite Hid. pose proof (wf_live st (proj1 G)) as Hf.
      rewrite Forall_forall in Hf. apply (wf_id a (Hf a Ha)). }
    split; [exact Hs0|]. split; [exact Hact|]. split; [by rewrite Hact'; destruct c; cbn in *; subst|].
    exists a. by split_and!.
  - destruct Hr as [-> Hr]. eexists st, _, _. split; [reflexivity|]. split; [exact Hacc|].
    split; [reflexivity|]. rewrite login_reply_fail. split; [reflexivity|]. split; [reflexivity|].
    exact Hr.
Qed.

Lemma shell_login_end_to_end_witness :
  exists st request st' reply dirty caps, login_request AccountStore.ADMIN AccountStore.ADMIN 7 = Ok request /\
    handle_request st None request = Some (st', reply, dirty) /\ login_reply reply = Ok (1, caps) /\
    active st' = Some (mkClaim 1 7).
Proof.
  destruct (one_account AccountStore.ADMIN AccountStore.ADMINISTRATOR AccountStore.ADMIN true)
    as (st & a & _ & G & Hc & Hl & Hact & Hid & Hn & _ & _ & _ & Ha);
    [by repeat constructor|by repeat constructor|unfold MAX_NAME; cbn; lia|unfold MAX_DISPLAY; cbn; lia|cbn; lia|].
  destruct (shell_login_end_to_end st None AccountStore.ADMIN AccountStore.ADMIN 7 G Hc ltac:(done)
    ltac:(by repeat constructor) ltac:(by repeat constructor) eq_refl eq_refl ltac:(done))
    as (request & st' & reply & dirty & E & _ & Hh & H).
  destruct (login_reply reply) as [[n caps]|[| |]] eqn:Er; [| |destruct H as (_ & _ & H)|]; try done.
  - destruct H as (_ & _ & Hact' & b & Hb & _ & _ & Hidb & _). rewrite Hl in Hb.
    apply list_elem_of_singleton in Hb as ->. rewrite Hid in Hidb. subst n.
    exists st, request, st', reply, dirty, caps. by split_and!.
  - exfalso. destruct H as [H|[H|H]]; [done| |].
    + rewrite Hact in H. by destruct H.
    + apply H. exists a. rewrite Hl. split; [by apply list_elem_of_singleton|]. by split.
Defined.
