(* ===== verification/AccountProps.v ===== *)
(** * What the account service promises

    The invariant of the store over every sequence of operations, who can be
    logged in, what a change of password does; that the saved text fits its
    buffer and comes back after a restart, and the names for which it does not. *)

From Stdlib Require Import ZArith Lia.
From stdpp Require Import base option list.
From S2P Require Import Prelude Words UserMessage Accounts AccountInv AccountOps AccountText AccountCodec AccountReload.

#[local] Open Scope Z_scope.

(** ** The store over time *)

(** C12: In every store that a sequence of operations reaches from the empty one, at most
    eight accounts exist, their names and ids are distinct, an account owns exactly the
    session of the active claim on it, and the claim names an account and a session; the
    next operation does not panic and changes no account's id, name or capabilities. *)
Theorem account_store_invariant h st c :
  history h st -> bounded h -> command_ok c ->
  NoDup (stored_name <$> live st) /\ NoDup (id <$> live st) /\ (count st <= MAX_ACCOUNTS)%nat /\
  Forall (fun a => owned a = claimed st a) (live st) /\
  (forall k, active st = Some k -> account_id k ∈ (id <$> live st) /\ session_id k <> 0) /\
  exists st' l, run_command st c = Some st' /\ profile <$> live st' = (profile <$> live st) ++ l.
Proof.
  intros Hh Hb Hok. pose proof (history_good h st Hh Hb) as G.
  destruct (run_command_good st c G (bounded_counters h st Hh Hb) Hok) as (st' & E & _).
  pose proof (run_command_advances st c st' E) as (_ & _ & l & Hp). destruct G as [W [Ho Hc]].
  split; [apply W|]. split; [apply W|]. split; [apply W|]. split; [exact Ho|]. split; [exact Hc|].
  exists st', l. by split.
Qed.

Lemma account_store_invariant_witness :
  exists st' l, run_command AccountStore.new (Login None AccountStore.ADMIN AccountStore.ADMIN 1) = Some st' /\
    profile <$> live st' = (profile <$> live AccountStore.new) ++ l.
Proof.
  destruct (account_store_invariant [] AccountStore.new (Login None AccountStore.ADMIN AccountStore.ADMIN 1)
    history_new ltac:(done) ltac:(done)) as (_ & _ & _ & _ & _ & H). exact H.
Defined.

(** ** Who is logged in *)

(** The account of a claim was claimed before the command, or the command is a
    login whose secret the account accepted. *)
Lemma claim_step st c st' k :
  good st -> counters_ok st -> command_ok c -> run_command st c = Some st' -> active st' = Some k ->
  (exists k0, active st = Some k0 /\ account_id k0 = account_id k) \/
  (active st = None /\ exists entropy nm secret session a, c = Login entropy nm secret session /\
     a ∈ live st /\ stored_name a = nm /\ accepts a secret /\ id a = account_id k).
Proof.
  intros G Hc Hok Hr Hk. destruct c; cbn [run_command command_ok] in *;
    try (apply fmap_Some in Hr as ([r st1] & E & E1); cbn in E1; subst st1).
  - destruct Hok as (He & Bn & Bd). destruct (good_create st entropy nm disp secret is_admin G Hc He Bn Bd)
      as (r1 & st1 & E1 & _ & Hact & _). rewrite E in E1. injection E1 as <- <-. left. exists k. by rewrite <- Hact.
  - destruct (set_password_spec st entropy nm old_secret new_secret G (proj1 Hc) Hok)
      as (r1 & st1 & E1 & _ & Hact & _). rewrite E in E1. injection E1 as <- <-. left. exists k. by rewrite <- Hact.
  - destruct (login_spec st entropy nm secret session G (proj1 Hc) Hok) as (r1 & st1 & E1 & _ & Hr1).
    rewrite E in E1. injection E1 as <- <-. destruct r as [[c u]|e].
    2: { destruct Hr1 as [-> _]. left. by exists k. }
    destruct Hr1 as (_ & Hn & Hact & _ & i & a & a' & Hi & Hnm & Ha & Hid & _). right. split; [exact Hn|].
    rewrite Hact in Hk. injection Hk as <-. exists entropy, nm, secret, session, a.
    split; [reflexivity|]. split; [by eapply list_elem_of_lookup_2|]. by split_and!.
  - destruct (logout_spec st session G) as (r1 & st1 & E1 & _ & Hr1). rewrite E in E1. injection E1 as <- <-.
    left. exists k. destruct r as [c|[]]; try done; [|by destruct Hr1 as [_ ->]..].
    destruct Hr1 as (_ & _ & Hn). by rewrite Hn in Hk.
  - destruct (switch_user_spec st target G) as (r1 & st1 & E1 & _ & Hr1). rewrite E in E1. injection E1 as <- <-.
    left. destruct r as [c|[]]; try done.
    2-4: destruct Hr1 as [_ ->]; by exists k.
    destruct Hr1 as (_ & c0 & Hact & _ & _ & Hact'). exists c0. split; [exact Hact|].
    rewrite Hact' in Hk. by injection Hk as <-.
  - injection Hr as <-. left. by exists k.
Qed.

Lemma history_det h st st' : history h st -> history h st' -> st = st'.
Proof.
  intros H. revert st'. induction H as [|h st c st1 H IH Hok Hr]; intros st' H'.
  - inversion H' as [|h0 st0 c0 st2 ? ? ? E]; [done|]. by destruct h0.
  - inversion H' as [E|h0 st0 c0 st2 H0 Hok0 Hr0 E]; [by destruct h|].
    apply app_inj_tail in E as [-> ->]. rewrite (IH st0 H0) in Hr. congruence.
Qed.

Lemma history_front h c st :
  history (h ++ [c]) st -> exists st0, history h st0 /\ command_ok c /\ run_command st0 c = Some st.
Proof.
  intros H. inversion H as [E|h0 st0 c0 st2 H0 Hok0 Hr0 E]; [by destruct h|].
  apply app_inj_tail in E as [-> ->]. by exists st0.
Qed.

(** C6: Whoever is logged in got there by a login whose secret the account's record
    accepted at the time, while nobody was logged in, and has been the one logged in
    ever since. *)
Theorem only_credentials_log_in h st k :
  history h st -> bounded h -> active st = Some k ->
  exists h1 h2 st1 entropy nm secret session a,
    h = h1 ++ [Login entropy nm secret session] ++ h2 /\ history h1 st1 /\ active st1 = None /\
    a ∈ live st1 /\ stored_name a = nm /\ accepts a secret /\ id a = account_id k /\
    (forall h3 h4 st3, h2 = h3 ++ h4 -> history (h1 ++ [Login entropy nm secret session] ++ h3) st3 ->
       exists k3, active st3 = Some k3 /\ account_id k3 = account_id k).
Proof.
  intros H. revert k. induction H as [|h st c st' H IH Hok Hr]; intros k Hb Hk; [done|].
  pose proof (bounded_app _ _ Hb) as Hb'. pose proof (history_good h st H Hb') as G.
  destruct (claim_step st c st' k G (bounded_counters h st H Hb') Hok Hr Hk)
    as [(k0 & Hk0 & Hid)|(Hn & entropy & nm & secret & session & a & -> & Ha & Hnm & Hacc & Hid)].
  - destruct (IH k0 Hb' Hk0) as (h1 & h2 & st1 & entropy & nm & secret & session & a & -> & H1 & Hn & Ha & Hnm & Hacc & Hia & Hs).
    exists h1, (h2 ++ [c]), st1, entropy, nm, secret, session, a.
    split; [by rewrite <- !app_assoc|]. split_and!; try done; [congruence|]. intros h3 h4 st3 E H3.
    destruct h4 as [|x h4 _] using rev_ind.
    + rewrite app_nil_r in E. subst h3. exists k. split; [|done].
      rewrite !app_assoc in H3. rewrite <- (app_assoc h1) in H3.
      assert (history ((h1 ++ [Login entropy nm secret session] ++ h2) ++ [c]) st') as H4 by by econstructor.
      by rewrite (history_det _ _ _ H3 H4).
    + rewrite app_assoc in E. apply app_inj_tail in E as [-> ->].
      destruct (Hs h3 h4 st3 eq_refl H3) as (k3 & ? & ?). exists k3. split; [done|congruence].
  - exists h, [], st, entropy, nm, secret, session, a. split_and!; try done.
    intros h3 h4 st3 E H3. symmetry in E. apply app_eq_nil in E as [-> ->]. exists k. split; [|done].
    assert (history (h ++ [Login entropy nm secret session]) st') as H4 by by econstructor.
    rewrite app_nil_r in H3. by rewrite (history_det _ _ _ H3 H4).
Qed.

(** An administrator's store, for the examples. *)
Lemma admin_store :
  exists st a, history [Create None AccountStore.ADMIN AccountStore.ADMINISTRATOR AccountStore.ADMIN true] st /\
    good st /\ counters_ok st /\ live st = [a] /\ active st = None /\ id a = 1 /\
    stored_name a = AccountStore.ADMIN /\ stored_display a = AccountStore.ADMINISTRATOR /\
    kdf a = KDF_PBKDF2_SHA512 /\ capabilities a = capability.ADMIN_DEFAULT /\ accepts a AccountStore.ADMIN.
Proof.
  apply (one_account _ _ _ true); [by repeat constructor|by repeat constructor|..];
    unfold MAX_NAME, MAX_DISPLAY; cbn; lia.
Qed.

Lemma only_credentials_log_in_witness :
  exists h st k h1 h2 entropy nm secret session,
    history h st /\ active st = Some k /\ h = h1 ++ [Login entropy nm secret session] ++ h2.
Proof.
  destruct admin_store as (st & a & Hh & G & Hc & Hl & Hact & _ & Hn & _ & _ & _ & Ha).
  destruct (login_spec st None AccountStore.ADMIN AccountStore.ADMIN 7 G (proj1 Hc) ltac:(done))
    as (r & st' & E & G' & Hr).
  assert (history ([Create None AccountStore.ADMIN AccountStore.ADMINISTRATOR AccountStore.ADMIN true] ++
    [Login None AccountStore.ADMIN AccountStore.ADMIN 7]) st') as Hh'.
  { econstructor; [exact Hh|exact (fun s H => match H with eq_refl => I end)|]. cbn [run_command]. rewrite E. reflexivity. }
  destruct r as [[k u]|e].
  - destruct Hr as (_ & _ & Hk & _).
    destruct (only_credentials_log_in _ st' k Hh' eq_refl Hk)
      as (h1 & h2 & st1 & en & nm & s & ses & b & Eh & _).
    eexists; exists st', k, h1, h2, en, nm, s, ses. split; [exact Hh'|]. split; [exact Hk|exact Eh].
  - exfalso. destruct Hr as [_ [Hr|[[k Hr]|Hr]]]; [discriminate|congruence|]. apply Hr. exists a. rewrite Hl.
    split; [apply list_elem_of_singleton; reflexivity|]. split; [exact Hn|exact Ha].
Defined.

(** ** Changing a password *)



(** ** Saving *)

(** C32: The text of any well-formed store takes at most 331 bytes an account, so that the
    buffer of 4096 bytes never overflows and any buffer of that size is enough; the writes
    that save it follow each other without gaps, each within what one message carries. *)
Theorem persisted_store_fits st :
  store_wf st ->
  exists ws, persist_store st = Some ws /\ mjoin ws.*2 = store_text st /\
    (length (store_text st) <= 331 * count st < MAX_STORE_BYTES)%nat /\
    (forall size, (331 * count st <= size)%nat ->
       exists buffer, format_store st (replicate size 0) = Some (Ok (length (store_text st)), buffer)) /\
    (forall i o c, ws !! i = Some (o, c) ->
       o = length (mjoin (take i ws).*2) /\ (0 < length c <= (IPC_MAX_WORDS - 3) * 8)%nat).
Proof.
  intros W. destruct (persist_store_spec st W) as (ws & E & Hj & Hw). exists ws.
  pose proof (length_store_text st W) as Hl. pose proof (wf_count st W) as Hc. unfold MAX_ACCOUNTS in Hc.
  split; [exact E|]. split; [exact Hj|].
  split; [change MAX_STORE_BYTES with (8 * 512)%nat; lia|]. split; [|exact Hw].
  intros size Hs. destruct (format_store_text st size W) as (r & buffer & F & Hr).
  rewrite (proj2 (Nat.leb_le _ _)) in Hr by lia. destruct Hr as [-> _]. by exists buffer.
Qed.

Lemma persisted_store_fits_witness :
  exists st ws, live st <> [] /\ persist_store st = Some ws /\ mjoin ws.*2 = store_text st.
Proof.
  destruct admin_store as (st & a & _ & [W _] & _ & Hl & _).
  destruct (persisted_store_fits st W) as (ws & E & Hj & _). exists st, ws.
  split; [rewrite Hl; discriminate|]. split; [exact E|exact Hj].
Defined.

(** ** Restarting *)

Lemma account_wf_persisted a : account_wf a -> account_wf (persisted a).
Proof. intros []. constructor; try done. cbn. unfold MAX_OWNED_SESSIONS. split; [done|lia]. Qed.

Lemma live_reloaded st : store_wf st -> live (reloaded st) = persisted <$> live st.
Proof.
  intros W. unfold live at 1, reloaded. cbn [accounts count].
  rewrite take_app_length'; [done|]. by rewrite length_fmap, length_live_accounts.
Qed.

Lemma persisted_key {B : Type} (f : Account -> B) (l : list Account) :
  (forall a, f (persisted a) = f a) -> f <$> (persisted <$> l) = f <$> l.
Proof. intros H. rewrite <- list_fmap_compose. apply list_fmap_ext. intros i a _. apply H. Qed.

(** What is loaded satisfies the invariant again. *)
Lemma good_reloaded st now : store_wf st -> good (AccountStore.with_tick (reloaded st) now).
Proof.
  intros W. pose proof (live_reloaded st W) as Hl. pose proof (length_live_accounts st W) as Hn.
  assert (live (AccountStore.with_tick (reloaded st) now) = persisted <$> live st) as Hl' by exact Hl.
  split.
  - constructor; rewrite ?Hl'; cbn [accounts count next_id salt_counter AccountStore.with_tick reloaded].
    + rewrite length_app, length_fmap, length_replicate. pose proof (wf_count st W). lia.
    + apply W.
    + apply Forall_fmap. eapply Forall_impl; [apply W|]. intros a. apply account_wf_persisted.
    + rewrite drop_app_length'; [done|]. by rewrite length_fmap.
    + rewrite persisted_key by done. apply W.
    + rewrite persisted_key by done. apply W.
    + rewrite (wf_next st W). apply next_after_ids. by rewrite persisted_key.
    + apply W.
    + done.
  - split; [|done]. rewrite Hl'. by apply Forall_fmap, Forall_true.
Qed.

(** C11: When no name or display contains a comma or a line break, the service that starts on
    what the writes left comes back with the same accounts in the same order, keeps its
    storage, satisfies the invariant, and accepts exactly the credentials it accepted
    before. *)
Theorem accounts_survive_restart st e1 e2 now :
  store_wf st -> live st <> [] -> Forall separable (live st) -> Forall comma_free_account (live st) ->
  Forall utf8_account (live st) ->
  exists ws st', persist_store st = Some ws /\
    startup_store true (Some (mjoin ws.*2)) e1 e2 now = Some (st', true) /\
    good st' /\ live st' = persisted <$> live st /\ next_id st' = next_id st /\ active st' = None /\
    forall nm secret, AccountStore.check_credentials st' nm secret = AccountStore.check_credentials st nm secret.
Proof.
  intros W Hne Hs Hf Hu. destruct (persist_store_spec st W) as (ws & E & Hj & _).
  exists ws, (AccountStore.with_tick (reloaded st) now). split; [exact E|]. split.
  { unfold startup_store. rewrite Hj, load_store_text, parse_store_text by done. reflexivity. }
  split; [by apply good_reloaded|]. split; [by apply (live_reloaded st)|]. split; [done|]. split; [done|].
  intros nm secret. exact (check_credentials_reloaded st now nm secret W).
Qed.

Lemma accounts_survive_restart_witness :
  exists st ws st', live st <> [] /\ persist_store st = Some ws /\
    startup_store true (Some (mjoin ws.*2)) None None 5 = Some (st', true) /\ live st' = persisted <$> live st.
Proof.
  destruct admin_store as (st & a & _ & [W _] & _ & Hl & _ & _ & Hn & Hd & _).
  assert (live st <> []) as Hne by (rewrite Hl; discriminate).
  destruct (accounts_survive_restart st None None 5 W Hne) as (ws & st' & E & Hst & _ & Hl' & _).
  - rewrite Hl. constructor; [|constructor]. unfold separable. rewrite Hn, Hd.
    split; apply (bool_decide_unpack _); vm_compute; exact I.
  - rewrite Hl. constructor; [|constructor]. unfold comma_free_account. rewrite Hn, Hd.
    split; apply (bool_decide_unpack _); vm_compute; exact I.
  - rewrite Hl. constructor; [|constructor]. unfold utf8_account. rewrite Hn, Hd. split; reflexivity.
  - exists st, ws, st'. split; [exact Hne|]. split; [exact E|]. split; [exact Hst|exact Hl'].
Defined.

(** The store the service falls back to. *)
Lemma seed_defaults_spec e1 e2 :
  entropy_ok e1 -> entropy_ok e2 ->
  exists st a b, AccountStore.seed_defaults e1 e2 = Some st /\ good st /\ live st = [a; b] /\
    stored_name a = AccountStore.ADMIN /\ capabilities a = capability.ADMIN_DEFAULT /\ accepts a AccountStore.ADMIN.
Proof.
  intros He1 He2. unfold AccountStore.seed_defaults.
  set (c := Create e1 AccountStore.ADMIN AccountStore.ADMINISTRATOR AccountStore.ADMIN true).
  destruct (create_succeeds AccountStore.new e1 AccountStore.ADMIN AccountStore.ADMINISTRATOR AccountStore.ADMIN
    true good_new) as (st1 & a & E1 & G1 & _ & Hl & _ & Hn & _ & _ & Hcap & Ha); try done;
    [by repeat constructor|by repeat constructor|unfold MAX_NAME, MAX_DISPLAY, MAX_ACCOUNTS; cbn; lia..|].
  assert (history [c] st1) as Hh.
  { apply (history_step [] AccountStore.new c st1); [constructor|split_and!; [exact He1|by repeat constructor..]|].
    cbn [run_command c]. rewrite E1. reflexivity. }
  assert (count st1 = 1%nat) as Hcount by (rewrite <- (length_live_accounts st1 (proj1 G1)), Hl; reflexivity).
  rewrite E1. cbn [mbind option_bind].
  destruct (create_succeeds st1 e2 AccountStore.OPERATOR AccountStore.OPERATOR_DISPLAY AccountStore.OPERATOR
    false G1) as (st2 & b & E2 & G2 & _ & Hl2 & _);
    [eapply bounded_counters; [exact Hh|reflexivity]|exact He2|by repeat constructor|by repeat constructor|
     rewrite ?Hcount; unfold MAX_NAME, MAX_DISPLAY, MAX_ACCOUNTS; cbn; lia..| |].
  { rewrite Hl. constructor; [|constructor]. rewrite Hn. discriminate. }
  rewrite E2. cbn [mbind option_bind]. exists st2, a, b. split; [reflexivity|]. split; [exact G2|].
  split; [by rewrite Hl2, Hl|]. split; [exact Hn|]. split; [exact Hcap|exact Ha].
Qed.



(** ** A line break in a display name *)

(** [",0,0,0"] and ["account=9,e,,0,dcab355af631faa0,7f"], each with a line
    break: the rest of a legacy line and a second one, whose hash is that of the password
    ["x"] under the salt zero. *)
Definition FORGED_FRONT : list Z := [44; 48; 44; 48; 44; 48].
Definition FORGED_LINE : list Z :=
  ACCOUNT_PREFIX ++ [57; 44; 101; 44; 44; 48; 44] ++ hex_text 0xdcab355af631faa0 16 ++ [44; 55; 102].
Definition FORGED_DISPLAY : list Z := FORGED_FRONT ++ [NEWLINE] ++ FORGED_LINE ++ [NEWLINE].

(** The line that the account's own number, name and the front make. *)
Definition FIRST_LINE : list Z := ACCOUNT_PREFIX ++ [49; 44; 110; 44] ++ FORGED_FRONT.

Lemma forged_text st a :
  live st = [a] -> id a = 1 -> stored_name a = [110] -> stored_display a = FORGED_DISPLAY ->
  kdf a = KDF_PBKDF2_SHA512 ->
  store_text st = FIRST_LINE ++ NEWLINE :: FORGED_LINE ++ NEWLINE :: (COMMA :: join (record_fields a)) ++ [NEWLINE].
Proof.
  intros Hl Hid Hn Hd Hk. unfold store_text. rewrite Hl.
  change (mjoin (account_line <$> [a])) with (account_line a ++ []). rewrite app_nil_r.
  unfold account_line, account_body, account_fields. rewrite Hid, Hn, Hd.
  assert (exists f l, record_fields a = f :: l) as (f & l & ->) by (unfold record_fields; rewrite Hk; eauto).
  change (decimal_text 1) with [49]. reflexivity.
Qed.

(** The remaining line is not an account. *)
Lemma forged_rest a :
  account_wf a -> kdf a = KDF_PBKDF2_SHA512 ->
  newline_free (COMMA :: join (record_fields a)) /\
  trim (strip_return (COMMA :: join (record_fields a), true)) = COMMA :: join (record_fields a).
Proof.
  intros Wa Hk. pose proof (record_fields_plain a Wa) as Hp. split.
  { apply (newline_free_app [COMMA]). split; [by apply plain_newline_free; repeat constructor|].
    apply newline_free_join. eapply Forall_impl; [exact Hp|]. intros f Hf. apply plain_newline_free.
    eapply Forall_impl; [exact Hf|]. simpl. lia. }
  destruct (account_body_shape a Wa) as (k & d & E & Hd).
  assert (exists k', join (record_fields a) = k' ++ [d]) as [k' ->].
  { destruct (join (record_fields a)) as [|d' k' _] eqn:Ej using rev_ind.
    { unfold record_fields in Ej. rewrite Hk in Ej. discriminate. }
    exists k'. f_equal. f_equal. unfold account_body, account_fields in E.
    assert (exists f l, record_fields a = f :: l) as (f & l & Ef) by (unfold record_fields; rewrite Hk; eauto).
    rewrite Ef in *. change (join (decimal_text (id a) :: stored_name a :: stored_display a :: f :: l)) with
      (decimal_text (id a) ++ [COMMA] ++ stored_name a ++ [COMMA] ++ stored_display a ++ [COMMA] ++ join (f :: l)) in E.
    rewrite Ej in E. rewrite app_comm_cons, !app_assoc in E. by apply app_inj_tail in E as [_ ->]. }
  assert (strip_return (COMMA :: k' ++ [d], true) = COMMA :: k' ++ [d]) as ->.
  { unfold strip_return. rewrite app_comm_cons, last_snoc. unfold plain in Hd.
    destruct d as [|d|]; [lia| |lia]. do 4 (destruct d as [d|d|]; try done; try lia). }
  by apply trim_plain.
Qed.

(** What the two lines are read as. *)
Definition forged_store : option AccountStore :=
  match parse_lines [FIRST_LINE; FORGED_LINE] AccountStore.new with Some (Ok st) => Some st | _ => None end.

Lemma parse_forged a :
  account_wf a -> kdf a = KDF_PBKDF2_SHA512 ->
  parse_store (FIRST_LINE ++ NEWLINE :: FORGED_LINE ++ NEWLINE :: (COMMA :: join (record_fields a)) ++ [NEWLINE]) =
  parse_lines [FIRST_LINE; FORGED_LINE] AccountStore.new.
Proof.
  intros Wa Hk. destruct (forged_rest a Wa Hk) as [Hnf Htrim]. unfold parse_store, lines.
  assert (newline_free FIRST_LINE /\ newline_free FORGED_LINE) as [N1 N2].
  { split; apply (bool_decide_unpack _); vm_compute; exact I. }
  rewrite (raw_lines_line FIRST_LINE) by done. rewrite (raw_lines_line FORGED_LINE) by done.
  rewrite (raw_lines_line (COMMA :: join (record_fields a)) []) by done.
  cbn [raw_lines fmap list_fmap]. change (reverse [] ++ ?x) with x.
  set (third := COMMA :: join (record_fields a)) in *. rewrite Htrim.
  change (trim (strip_return (FIRST_LINE, true))) with FIRST_LINE.
  change (trim (strip_return (FORGED_LINE, true))) with FORGED_LINE.
  rewrite !filter_cons_True by done. rewrite filter_nil.
  assert (forall st, parse_lines [third] st = Some (Ok st)) as H3 by done.
  cbn [parse_lines]. unfold third in *. done.
Qed.


